(* ===== verification/_CoqProject ===== *)
-Q . S2P
Prelude.v
AuditTypes.v
Attest.v
AttestCache.v
AttestToken.v
Replay.v
Config.v
ConfigEnv.v
ConfigEnvFacts.v
Net.v
RateLimit.v
RateLimitFacts.v
Mtls.v
MtlsFacts.v
Passthrough.v
Machine.v
MachineFacts.v
AuditLog.v
AuditTime.v
AuditFacts.v
AuditJson.v
Tls.v
TlsFacts.v
Proxy.v
ProxyStages.v
ProxyFacts.v
ProxyHonest.v
ProxyAudit.v
ProxyServer.v
ServerReplay.v
ServerRuns.v
ServerTypes.v
ServerDns.v
ServerHonest.v
ServerLimits.v
Logging.v
LoggingFacts.v
Startup.v
StartupFacts.v
Browser.v
BrowserFacts.v
ProxyHooks.v
ProxyTable.v
ProxySource.v
BrowserPolicy.v
TestKit.v
ConfigTypes.v
ConfigParse.v
Deployment.v
EnvTests.v
AttestTests.v
ToyPki.v
MachineTests.v
MtlsTests.v
PolicyTests.v
TlsTests.v
ConfigTests.v
Json.v
AuditTests.v
LoggingTests.v
MainTests.v
