(* ===== verification/Prelude.v ===== *)
(** * DenBrowser proxy: a verification development

    The proxy ([src/proxy/src/*.rs]) stands between DenBrowser clients and one
    upstream.  A browser attests each request with an encrypted token bound to
    it; the proxy lets a request through when its token, the workstation's
    machine certificate and the request agree, refuses it otherwise, and writes
    one audit record per request.  This development models the Rust program,
    from [main] to the log line, and the browser's side of the protocol
    ([src/patches], [src/build.sh]), and proves what makes them correct, apart and
    together.

    ** Parts and files

    - [Prelude]: Rust's [Result], strings as bytes, integer parsing and printing,
      UTF-8; the notations [let? x := e in k] (the [?] operator) and [bail_if],
      the tactics and the hint database [proxy].  [Net]: IP addresses.
    - [attest.rs]: [AuditTypes] has the shared enumerations (they live in
      [audit.rs]); [Attest] the verifier and the nonce cache, operation by
      operation; [AttestCache] the cache against a log of commits, and the
      interface [ReplayStore] that promises it to the verifier; [AttestToken] the
      two phases and the browser's side of the token; [Replay] the verifier
      shared by many requests, as a step relation.
    - [config.rs], [config/env.rs]: [Config] the sections, defaults and
      validation; [ConfigEnv] the expansion of [${NAME}] references and loading;
      [ConfigEnvFacts] its theorems; [ConfigTypes] the derived [Deserialize], from
      a tree of TOML values to a [Config]; [ConfigParse] what parsing a file
      returns.
    - [ratelimit.rs]: [RateLimit], [RateLimitFacts].
    - [mtls.rs]: [Mtls], [MtlsFacts].  [passthrough.rs]: [Passthrough].
    - [machine.rs]: [Machine] verification and the DNS cache; [MachineFacts], with
      lookups in flight as a step relation.
    - [audit.rs]: [AuditLog] the per-request state and its record; [AuditTime]
      timestamps; [AuditFacts] the reasons and the record against
      [audit-log.schema.json]; [AuditJson] the record as a JSON document and the
      schema as a validator.
    - [logging.rs]: [Logging] (with [SystemRecord] and [emit] of [audit.rs]),
      [LoggingFacts].
    - [upstream_tls.rs], [tls_key.rs]: [Tls], [TlsFacts].
    - [main.rs]: [Proxy] has every hook, [request_filter] in stages.  One
      request: [ProxyStages] each stage's cases and what no request changes,
      [ProxyFacts] what the filter stops, [ProxyHonest] what it must let through,
      [ProxyAudit] its audit line.  Many at once:
      [ProxyServer] the server as a step relation and its invariant; then, each
      an invariant over it, [ServerReplay] replays, [ServerRuns] that every
      request is checked, [ServerTypes] the shape of the shared state, [ServerDns]
      the shared DNS cache, [ServerHonest] what an honest request gets whatever
      the others do, [ServerLimits] the rate limits.
      [Startup] and [StartupFacts] the function [main]; [Deployment] the whole way
      from the configuration file to a request that goes upstream.
    - The browser.  [Browser]: [AddAttestHeaders] and its static state, from the
      patches 006 and 024 (C++), with the TLS pin of 012 and the site filter of
      014; [BrowserFacts] what leaves the browser, and that it gets through the
      proxy; [ProxyHooks] what the upstream gets of a page's request, after the
      browser and the proxy have been at its headers; [ProxyTable] the generator of the browser's table of proxies (Step
      2.5 of [build.sh], Python), [ProxySource] the C source it writes and what a
      compiler reads in it; [BrowserPolicy] the site filter by labels and
      the pin together with the token.
    - The repository's own unit tests, as definitions that evaluate on the model:
      [EnvTests], [AttestTests], [MachineTests], [MtlsTests], [PolicyTests]
      (bypass and rate limits), [TlsTests], [ConfigTests] (with the two shipped
      config files), [AuditTests] (with the published example records),
      [LoggingTests] and [MainTests].  They share [TestKit], the assertions;
      [ToyPki], certificates that chain without cryptography; and [Json], compact
      JSON written and read.

    ** How the code is represented

    A function keeps its name, a method gets its type's name where two would
    clash ([Limit_admit], [Mtls_from_config]).  [&self] state behind a mutex is
    an argument and a result ([Verifier], [MachineIdentity], [RateLimiter]).
    [Result] is [result]; an early [return Ok(true)] of [request_filter] is an
    [Err] of [stage], so that the stages compose with [let?].  [SystemTime] and
    [Instant] are nanoseconds, passed as a [Clock] or as one of its two times.
    Machine integers are [Z] with saturation, truncation and range checks written
    out; [u64]-width sums of durations are shown to fit.  Strings are bytes;
    where the code iterates over [char]s the model decodes UTF-8.

    pingora's session is a record: the request head, the body still to come, the
    retry buffer as the comment on [BOUND_BODY_MAX] describes it, and whether a
    response can still be written; the outcome of [respond_error] is discarded,
    as in the code.

    Libraries are classes of operations, with their documented behaviour as a
    class of laws where a theorem needs one: cryptography ([Crypto],
    [CryptoLaws]), X.509 and its verifier ([X509Ops], [MachineTls],
    [CertCompare]), private keys ([PKeyOps], [PKeyLaws]), glob patterns
    ([GlobOps]), the rate estimator ([RateOps], [RateLaws], [RateExact]), CIDR
    ranges ([IpNetOps]), the calendar ([Calendar], [CalendarLaws]), header text
    ([HttpOps]), JSON ([JsonOps], [JsonLaws]), [tracing] ([LogOps]) and the
    listener ([ListenerOps]); on the browser's side its request head ([Necko],
    [NeckoLaws]), NSS ([Nss], [NssLaws]) and the Python library of the generator
    ([PyOps]).  The TOML parser (with [TomlSeq]), files, the environment and the resolver are
    functions.  What the system answers one call of the browser (the time, random
    bytes, the Windows certificate stores) is the record [Browser.Sys].  Every law
    has a concrete instance, in a [Toy] module, in [AuditTime.Gregorian] (the civil
    calendar) or in [Json], and every theorem with hypotheses a witness that
    applies it to such instances.

    ** Concurrency

    A worker gives up control inside [request_filter] at the name lookup and at
    the body, and other threads run between any two of its accesses to the shared
    state.  [Proxy.Env] is what one request meets: the clocks at its stages, the
    resolver, and what others did to the shared proxy between its token and its
    machine check, during that check, and while its body was read.
    [ProxyServer] interleaves whole requests at these three points: a [Job]
    collects the [Env] it meets, so that each finished request is a run of
    [request_filter], with the configuration shown, not assumed, to be unchanged.
    A request's arrival, the limiter and phase 1 are one step: nothing there
    awaits, and phase 1's look at the cache is repeated by the commit, which is
    one step under the cache's mutex.  The server refines [Replay], whose steps
    are the phase 1 runs and commits in any order.  Inside one lookup,
    [MachineFacts] interleaves the cache's reads and writes of many lookups.

    ** What is shown

    - Replay: no token goes upstream twice, over every interleaving, while the
      wall clock falls at most 59 s below its highest lead over the monotonic
      clock; 59 s cannot be improved.  The bound comes from the 30 s of drift, the
      60 s of commit grace and the 180 s that nonces are kept.
    - Attestation: phase 1 accepts exactly the requests its token is bound to; a
      token binds one request; sealed tokens are accepted; phase 2 on
      every branch; the window checks are exact at the ends of [i64]; eviction is
      bounded, in order, never forgets a live nonce, and clears what has expired.
    - The request path: what a request that goes upstream has passed, what a
      refused one is answered and logged with, that nothing expensive runs before
      the token is verified, how much of a body is read and kept, and that the
      logged record is true.
    - The browser: a request it attests gets through the proxy it is for, and
      reaches the upstream as the page made it, without what the browser added; it
      attests to no other host, with a token only that proxy opens, over a
      connection that showed that proxy's pinned key; the page cannot pose as a
      machine; which workstation certificate is sent; which entry of the
      generated table a configured domain is attested to; and that the source the
      generator writes is that table.
    - The server: whatever requests arrive and however they interleave, each is
      checked under the configuration the server started with; an honest one can
      be served in any state and is never refused, unless a request that went
      upstream itself has spent its nonce; the shared state keeps its shape;
      a machine's address is one the resolver gave for its name, to this request
      or lately to another; the caps hold over the arrivals.
    - Machine identity: acceptance characterised; the resolver sees verified
      names only; every answer has a provenance within its TTL or grace; the
      cache stays as large as the live fleet.
    - Rate limits: the configured caps over every run of the limiter and of the
      server, and exact agreement with counting.
    - Rendering: distinguished names read back and are printable; references
      expand as documented and errors disclose no value; timestamps sort; every
      log line is one document of the published schema and none can pose as an
      audit record.
    - Audit: every record, as the JSON document it is written as, validates
      against the published schema, and says what happened.
    - Configuration: a parsed file is exactly the config its text says, with each
      string expanded in place; the second reading, of the expanded tree, accepts
      what it would accept as written, and that is all the first accepted when the
      sections and rules are written as tables.
    - Startup: which configurations start, section by section, and what a
      listening proxy has been set up to do.
    - Deployment: whatever a server that startup brought up lets upstream, it lets
      upstream by what the text of its configuration file says, within the limits
      that text sets.
    - Conformance: each [*_tests_pass] says that no translated test of a source
      file fails on the model.  [AuditTests.audit_tests_pass] includes the
      published examples: the model's records, printed, are the bytes of
      [audit-log.examples.jsonl], and each of its lines validates.

    ** Bounds and fuel

    The loops of the code are structural recursions except three, which get the
    length of their input as fuel: the expander's loop and the lossy UTF-8
    decoder consume at least a byte per round, and [ConfigEnvFacts] and
    [MtlsFacts] prove their results for that fuel ([expand_loop_scan],
    [from_utf8_lossy_text]), as [distinguished_name_reads_back] does for the
    reader of names it is stated with.  The body is read to the chunk that ends
    it or passes [BOUND_BODY_MAX].  The eviction loop runs at most
    [MAX_EVICTIONS_PER_COMMIT] rounds in the code itself.  In [ProxySource] the
    replacement of blocks has the text's length as fuel, more than it has blocks,
    and the reader of C the number of tokens, more than there are declarations
    and rows ([replace_one_inv], [read_table]).

    ** Not modelled

    The TLS handshake, HTTP parsing, the proxying between [request_filter] and
    the upstream, tokio's scheduling and the log writer's thread are pingora's,
    OpenSSL's and tracing's.  The text of a JSON document is serde_json's: the
    models stop at the document.  A panic (a poisoned mutex) is not modelled.
    The TOML parser and the texts of its errors are not modelled; whether one of
    its readers lets go by what is left of an array that a struct was read from is
    the parameter [TomlSeq].
    Of the Rust program this leaves one-line accessors and the system resolver,
    and of its unit tests the TLS handshakes of [upstream_tls.rs], pingora's own
    retries and URI forms in [main.rs], two tests of [config.rs] on the parser's
    line numbers and on the source text, and the assertions on files that were
    created or on the [Debug] form of a whole [Config].
    Firefox, NSS and Windows are parameters of the browser's model; the other
    patches (locked features, branding) take no part in the protocol.  Of
    [build.sh] only Step 2.5 is modelled; the remaining steps, the other scripts
    and the stress test are tooling around the program.

    * Prelude

    Shared vocabulary of the development: Rust's [Result], byte strings and
    the parts of the Rust standard library the proxy uses on them (splitting,
    trimming, UTF-8 characters, integer parsing and printing, saturating
    64-bit arithmetic), with the tactics, hints and generic lemmas that the
    component files share.

    Representation.  A Rust [str], [String], [&[u8]] and [Vec<u8>] is its
    sequence of bytes, [str := list ascii]; a Rocq string literal is coerced
    to it (a non-ASCII literal is its UTF-8 encoding, as in Rust).  A [char]
    is its Unicode scalar value, a [Z].  Machine integers are [Z] with their
    width written out where the code can reach it. *)

From stdpp Require Export prelude strings gmap.
From Stdlib Require Export Ascii ZArith Lia.

#[global] Open Scope string_scope.
#[global] Open Scope list_scope.
#[global] Open Scope Z_scope.

Abbreviation str := (list ascii).
Coercion String.list_ascii_of_string : string >-> list.

(** ** Result *)

Inductive result (T E : Type) : Type :=
  | Ok (x : T)
  | Err (e : E).
Arguments Ok {T E} x.
Arguments Err {T E} e.

Declare Scope rust_scope.
Delimit Scope rust_scope with rust.

(** The [?] operator: bind the success value, return the error. *)
Notation "'let?' x ':=' e 'in' k" :=
  (match e with Ok x => k | Err err => Err err end)
  (at level 10, x pattern, e at level 200, k at level 200,
   format "'[v' 'let?'  x  ':='  e  'in' '/' k ']'") : rust_scope.

(** [bail!] under a condition. *)
Notation "'bail_if' c 'with' err 'in' k" :=
  (if c then Err err else k)
  (at level 10, c at level 200, err at level 200, k at level 200,
   format "'[v' 'bail_if'  c  'with'  err  'in' '/' k ']'") : rust_scope.
#[global] Open Scope rust_scope.

Definition is_ok {T E} (r : result T E) : bool :=
  match r with Ok _ => true | Err _ => false end.

Definition map_err {T E F} (f : E → F) (r : result T E) : result T F :=
  match r with Ok x => Ok x | Err e => Err (f e) end.

(** [Option::ok_or]. *)
Definition ok_or {T E} (o : option T) (e : E) : result T E :=
  match o with Some x => Ok x | None => Err e end.

(** Collect a fallible map, stopping at the first error. *)
Fixpoint try_map {A T E} (f : A → result T E) (l : list A) : result (list T) E :=
  match l with
  | [] => Ok []
  | a :: l' => let? x := f a in let? xs := try_map f l' in Ok (x :: xs)
  end.

#[global] Instance result_eq_dec {T E} `{EqDecision T, EqDecision E} :
  EqDecision (result T E).
Proof. solve_decision. Defined.

(** ** Machine integers *)

Definition i64_min : Z := - 2 ^ 63.
Definition i64_max : Z := 2 ^ 63 - 1.
Definition u64_max : Z := 2 ^ 64 - 1.

(** A value an [i64] can hold. *)
Definition is_i64 (z : Z) : Prop := i64_min ≤ z ≤ i64_max.

Definition sat_i64 (z : Z) : Z := Z.max i64_min (Z.min i64_max z).
Definition saturating_sub (a b : Z) : Z := sat_i64 (a - b).
Definition saturating_abs (a : Z) : Z := sat_i64 (Z.abs a).

(** [u64::saturating_add]. *)
Definition saturating_add_u64 (a b : Z) : Z := Z.min u64_max (a + b).

(** [x as i64] of a [u64]. *)
Definition u64_as_i64 (z : Z) : Z :=
  let m := z mod 2 ^ 64 in if m <? 2 ^ 63 then m else m - 2 ^ 64.

Ltac Zify.zify_post_hook ::= Z.to_euclidean_division_equations.

(** Arithmetic on the integer bounds above. *)
Ltac int_lia :=
  unfold is_i64, saturating_sub, saturating_abs, saturating_add_u64, sat_i64,
    i64_min, i64_max, u64_max in *; lia.

Lemma u64_as_i64_id z : 0 ≤ z ≤ i64_max → u64_as_i64 z = z.
Proof. intros H. unfold u64_as_i64, i64_max in *. rewrite Z.mod_small by lia. case_match; lia. Qed.

(** ** Bytes and characters *)

Definition code (a : ascii) : Z := Z.of_N (N_of_ascii a).
Definition byte_of (z : Z) : ascii := ascii_of_N (Z.to_N z).

(** The byte [U+0022], which no string literal here spells. *)
Definition DQUOTE : ascii := "034".

Lemma code_range a : 0 ≤ code a < 256.
Proof. unfold code. pose proof (N_ascii_bounded a). lia. Qed.

Lemma code_byte_of z : 0 ≤ z < 256 → code (byte_of z) = z.
Proof. intros. unfold code, byte_of. rewrite N_ascii_embedding; lia. Qed.

Lemma byte_of_code a : byte_of (code a) = a.
Proof. unfold code, byte_of. rewrite N2Z.id. apply ascii_N_embedding. Qed.

Lemma code_inj a b : code a = code b → a = b.
Proof. intros H. rewrite <-(byte_of_code a), <-(byte_of_code b). congruence. Qed.

#[global] Instance code_Inj : Inj (=) (=) code.
Proof. exact code_inj. Qed.

(** A Unicode scalar value. *)
Definition is_scalar (c : Z) : bool :=
  ((0 <=? c) && (c <? 55296)) || ((57344 <=? c) && (c <? 1114112)).

(** [char::encode_utf8]. *)
Definition encode_utf8 (c : Z) : str :=
  if c <? 128 then [byte_of c]
  else if c <? 2048 then [byte_of (192 + c / 64); byte_of (128 + c mod 64)]
  else if c <? 65536 then
    [byte_of (224 + c / 4096); byte_of (128 + c / 64 mod 64); byte_of (128 + c mod 64)]
  else
    [byte_of (240 + c / 262144); byte_of (128 + c / 4096 mod 64);
     byte_of (128 + c / 64 mod 64); byte_of (128 + c mod 64)].

(** The text made of a list of characters. *)
Definition utf8 (cs : list Z) : str := cs ≫= encode_utf8.

(** [str::char_indices]: each character with the byte offset it starts at.  A
    [str] is valid UTF-8, so the truncated-sequence arms are never taken. *)
Fixpoint char_indices_from (i : nat) (s : str) : list (nat * Z) :=
  match s with
  | [] => []
  | a :: s1 =>
      let x := code a in
      if x <? 128 then (i, x) :: char_indices_from (1 + i) s1
      else
        match s1 with
        | [] => []
        | b :: s2 =>
            let y := code b mod 64 in
            if x <? 224 then (i, x mod 32 * 64 + y) :: char_indices_from (2 + i) s2
            else
              match s2 with
              | [] => []
              | d :: s3 =>
                  let z := code d mod 64 in
                  if x <? 240 then
                    (i, x mod 32 * 4096 + y * 64 + z) :: char_indices_from (3 + i) s3
                  else
                    match s3 with
                    | [] => []
                    | e :: s4 =>
                        (i, x mod 8 * 262144 + y * 4096 + z * 64 + code e mod 64)
                        :: char_indices_from (4 + i) s4
                    end
              end
        end
  end.
Arguments char_indices_from _ !_ /.

Definition char_indices (s : str) : list (nat * Z) := char_indices_from 0 s.
Definition chars (s : str) : list Z := (char_indices s).*2.

(** [str::from_utf8] succeeds: well-formed UTF-8 (RFC 3629, table 3-7). *)
Definition in_range (lo hi x : Z) : bool := (lo <=? x) && (x <=? hi).
Fixpoint valid_utf8 (s : str) : bool :=
  match s with
  | [] => true
  | a :: s1 =>
      let x := code a in
      if x <? 128 then valid_utf8 s1
      else
        match s1 with
        | [] => false
        | b :: s2 =>
            let y := code b in
            if in_range 194 223 x then in_range 128 191 y && valid_utf8 s2
            else
              match s2 with
              | [] => false
              | d :: s3 =>
                  let z := code d in
                  if in_range 224 239 x then
                    in_range (if x =? 224 then 160 else 128) (if x =? 237 then 159 else 191) y
                    && in_range 128 191 z && valid_utf8 s3
                  else
                    match s3 with
                    | [] => false
                    | e :: s4 =>
                        in_range 240 244 x
                        && in_range (if x =? 240 then 144 else 128)
                                    (if x =? 244 then 143 else 191) y
                        && in_range 128 191 z && in_range 128 191 (code e)
                        && valid_utf8 s4
                    end
              end
        end
  end.

(** [char::is_whitespace]: the Unicode [White_Space] property. *)
Definition is_whitespace (c : Z) : bool :=
  ((9 <=? c) && (c <=? 13)) || (c =? 32) || (c =? 133) || (c =? 160) ||
  (c =? 5760) || ((8192 <=? c) && (c <=? 8202)) || (c =? 8232) || (c =? 8233) ||
  (c =? 8239) || (c =? 8287) || (c =? 12288).

(** [char::is_control]: general category Cc. *)
Definition is_control (c : Z) : bool :=
  ((0 <=? c) && (c <? 32)) || ((127 <=? c) && (c <? 160)).

Fixpoint drop_while {A} (p : A → bool) (l : list A) : list A :=
  match l with
  | [] => []
  | x :: l' => if p x then drop_while p l' else l
  end.

(** [str::trim]. *)
Definition trim (s : str) : str :=
  utf8 (reverse (drop_while is_whitespace (reverse (drop_while is_whitespace (chars s))))).

Definition is_empty {A} (l : list A) : bool :=
  match l with [] => true | _ => false end.

(** [str::to_ascii_lowercase]. *)
Definition lower_byte (a : ascii) : ascii :=
  if (65 <=? code a) && (code a <=? 90) then byte_of (code a + 32) else a.
Definition to_ascii_lowercase (s : str) : str := map lower_byte s.

(** ** Splitting and joining *)

(** [slice::split] / [str::split] on one byte: never empty. *)
Fixpoint split_on (sep : ascii) (s : str) : list str :=
  match s with
  | [] => [[]]
  | c :: s' =>
      if decide (c = sep) then [] :: split_on sep s'
      else
        match split_on sep s' with
        | p :: ps => (c :: p) :: ps
        | [] => [[c]]
        end
  end.

(** [[str]::join]. *)
Fixpoint join (sep : str) (ps : list str) : str :=
  match ps with
  | [] => []
  | [p] => p
  | p :: ps' => p ++ sep ++ join sep ps'
  end.

(** [str::find] of one byte: the text before and after its first occurrence. *)
Fixpoint split_once (sep : ascii) (s : str) : option (str * str) :=
  match s with
  | [] => None
  | c :: s' =>
      if decide (c = sep) then Some ([], s')
      else match split_once sep s' with
           | Some (a, b) => Some (c :: a, b)
           | None => None
           end
  end.

(** [str::rsplit_once] of one byte. *)
Definition rsplit_once (sep : ascii) (s : str) : option (str * str) :=
  match split_once sep (reverse s) with
  | Some (a, b) => Some (reverse b, reverse a)
  | None => None
  end.

(** [[T]::chunks(2)]. *)
Fixpoint chunks2 {A} (l : list A) : list (list A) :=
  match l with
  | a :: b :: l' => [a; b] :: chunks2 l'
  | [] => []
  | [a] => [[a]]
  end.

(** ** Integer parsing and printing *)

Definition ascii_digit (d : Z) : ascii :=
  if d <? 10 then byte_of (48 + d) else byte_of (87 + d).

(** The value of a digit in [radix], case-insensitive as [char::to_digit]. *)
Definition digit_value (radix : Z) (a : ascii) : option Z :=
  let c := code a in
  let v :=
    if (48 <=? c) && (c <=? 57) then c - 48
    else if (97 <=? c) && (c <=? 122) then c - 87
    else if (65 <=? c) && (c <=? 90) then c - 55
    else 99 in
  if v <? radix then Some v else None.

Fixpoint digits_value (radix acc : Z) (s : str) : option Z :=
  match s with
  | [] => Some acc
  | a :: s' =>
      match digit_value radix a with
      | Some d => digits_value radix (acc * radix + d) s'
      | None => None
      end
  end.

(** The sign of a number with at least one byte after it; [-] is a sign only
    for a signed type. *)
Definition split_sign (signed : bool) (s : str) : bool * str :=
  match s with
  | a :: ((_ :: _) as r) =>
      if decide (a = "+"%char) then (false, r)
      else if signed && bool_decide (a = "-"%char) then (true, r)
      else (false, s)
  | _ => (false, s)
  end.

(** [from_str_radix]: an optional sign, at least one digit, and a value in
    range.  The accumulator's magnitude only grows, so checking the range at
    the end refuses what checking every step does. *)
Definition from_str_radix (signed : bool) (radix lo hi : Z) (s : str) : option Z :=
  let '(neg, digits) := split_sign signed s in
  match digits with
  | [] => None
  | _ =>
      match digits_value radix 0 digits with
      | Some v =>
          let v := if neg : bool then - v else v in
          if (lo <=? v) && (v <=? hi) then Some v else None
      | None => None
      end
  end.

Definition parse_i64 : str → option Z := from_str_radix true 10 i64_min i64_max.
Definition parse_u16 : str → option Z := from_str_radix false 10 0 65535.
Definition parse_u8_hex : str → option Z := from_str_radix false 16 0 255.

(** Decimal digits of a natural number; one step of fuel per binary digit. *)
Fixpoint show_digits (fuel : nat) (n : Z) (acc : str) : str :=
  match fuel with
  | O => acc
  | S f =>
      let acc' := ascii_digit (n mod 10) :: acc in
      if n <? 10 then acc' else show_digits f (n / 10) acc'
  end.

Definition show_nat (n : Z) : str := show_digits (S (Z.to_nat (Z.log2 n))) n [].

(** [Display] of an integer. *)
Definition show (n : Z) : str :=
  if n <? 0 then "-"%char :: show_nat (- n) else show_nat n.

(** [{:0w}] of an integer: zeros go after the sign. *)
Definition show_padded (w : nat) (n : Z) : str :=
  if n <? 0 then
    let d := show_nat (- n) in "-"%char :: repeat "0"%char (w - S (length d)) ++ d
  else let d := show_nat n in repeat "0"%char (w - length d) ++ d.

(** [{:02x}] and [{:02X}] of a byte. *)
Definition hex_byte (a : ascii) : str :=
  [ascii_digit (code a / 16); ascii_digit (code a mod 16)].
Definition upper_byte (a : ascii) : ascii :=
  if (97 <=? code a) && (code a <=? 122) then byte_of (code a - 32) else a.
Definition HEX_byte (a : ascii) : str := map upper_byte (hex_byte a).

(** ** Automation *)

Create HintDb proxy discriminated.

(** Split the first [match] or [if] of the goal or of [H], keep the equation,
    and close the branches that contradict themselves. *)
Ltac split_match :=
  match goal with
  | |- context [match ?x with _ => _ end] => destruct x eqn:?; simplify_eq/=
  end.
Ltac split_match_in H :=
  match type of H with
  | context [match ?x with _ => _ end] => destruct x eqn:?; simplify_eq/=
  end.
(** Split every [match] of [H], innermost scrutinees first. *)
Ltac inv_match H :=
  repeat match type of H with
  | context [match ?x with _ => _ end] =>
      lazymatch x with
      | context [match _ with _ => _ end] => fail
      | _ => destruct x eqn:?; simplify_eq/=
      end
  end.

(** Turn boolean tests into propositions. *)
Ltac to_prop :=
  repeat match goal with
  | H : (_ && _) = true |- _ => apply andb_true_iff in H as [? ?]
  | H : (_ || _) = false |- _ => apply orb_false_iff in H as [? ?]
  | H : negb _ = true |- _ => apply negb_true_iff in H
  | H : negb _ = false |- _ => apply negb_false_iff in H
  | H : (_ <? _) = true |- _ => apply Z.ltb_lt in H
  | H : (_ <? _) = false |- _ => apply Z.ltb_ge in H
  | H : (_ <=? _) = true |- _ => apply Z.leb_le in H
  | H : (_ <=? _) = false |- _ => apply Z.leb_gt in H
  | H : (_ =? _) = true |- _ => apply Z.eqb_eq in H
  | H : (_ =? _) = false |- _ => apply Z.eqb_neq in H
  | H : bool_decide _ = true |- _ => apply bool_decide_eq_true in H
  | H : bool_decide _ = false |- _ => apply bool_decide_eq_false in H
  end.

(** Case analysis on arithmetic tests, closed by [lia]. *)
Ltac cases_lia := repeat case_match; simplify_eq; to_prop; try lia.

(** ** Lemmas on results *)

Lemma try_map_ok {A T E} (f : A → result T E) l ys :
  try_map f l = Ok ys ↔ Forall2 (λ x y, f x = Ok y) l ys.
Proof.
  revert ys. induction l as [|x l IH]; intros ys; cbn.
  - split; [by intros [= <-]|]. intros Hf. by inversion Hf.
  - split.
    + intros Ht. repeat split_match_in Ht. constructor; [done|]. by apply IH.
    + intros Hf. inversion Hf as [|? y ? ys' Hx Hf']; subst. rewrite Hx.
      apply IH in Hf'. by rewrite Hf'.
Qed.

(** ** Lemmas on characters *)

Lemma char_indices_encode i c s :
  is_scalar c = true →
  char_indices_from i (encode_utf8 c ++ s) =
    (i, c) :: char_indices_from (length (encode_utf8 c) + i) s.
Proof.
  intros Hc. unfold is_scalar in Hc. unfold encode_utf8.
  repeat case_match; cbn [app char_indices_from length Nat.add];
    rewrite ?code_byte_of by lia;
    repeat match goal with |- context [?a <? ?b] =>
      first [ rewrite (proj2 (Z.ltb_lt a b)) by lia
            | rewrite (proj2 (Z.ltb_ge a b)) by lia ] end;
    repeat f_equal; lia.
Qed.

Lemma utf8_cons c cs : utf8 (c :: cs) = encode_utf8 c ++ utf8 cs.
Proof. done. Qed.
Lemma utf8_app cs ds : utf8 (cs ++ ds) = utf8 cs ++ utf8 ds.
Proof. apply bind_app. Qed.

(** Decoding an encoded text gives its characters back. *)
Lemma chars_utf8 cs : Forall (λ c, is_scalar c = true) cs → chars (utf8 cs) = cs.
Proof.
  intros H. unfold chars, char_indices. generalize 0%nat.
  induction H as [|c cs Hc _ IH]; intros i; [done|].
  rewrite utf8_cons, char_indices_encode by done. cbn. by rewrite IH.
Qed.

(** The byte offsets of an encoded text's characters. *)
Lemma char_indices_utf8 i cs m :
  Forall (λ c, is_scalar c = true) cs →
  char_indices_from i (utf8 cs) !! m =
    (λ c, ((i + length (utf8 (take m cs)))%nat, c)) <$> (cs !! m).
Proof.
  intros H. revert i m. induction H as [|c cs Hc _ IH]; intros i m; [by destruct m|].
  rewrite utf8_cons, char_indices_encode by done.
  destruct m as [|m]; cbn -[utf8]; [by rewrite Nat.add_0_r|].
  rewrite IH, utf8_cons, length_app. destruct (cs !! m); cbn; [|done].
  do 2 f_equal. lia.
Qed.

(** ASCII text is its own list of characters. *)
Lemma chars_ascii s : Forall (λ a, code a < 128) s → chars s = code <$> s.
Proof.
  intros H. unfold chars, char_indices. generalize 0%nat.
  induction H as [|a s Ha _ IH]; intros i; [done|].
  cbn [char_indices_from]. rewrite (proj2 (Z.ltb_lt _ _) Ha). cbn. by rewrite IH.
Qed.

Lemma encode_utf8_length c : (1 ≤ length (encode_utf8 c) ≤ 4)%nat.
Proof. unfold encode_utf8. repeat case_match; cbn; lia. Qed.

(** ** Lemmas on splitting and joining *)

Lemma split_on_nonempty sep s : split_on sep s ≠ [].
Proof. destruct s; cbn; repeat case_match; done. Qed.

Lemma join_split_on sep s : join [sep] (split_on sep s) = s.
Proof.
  induction s as [|c s IH]; [done|]. cbn.
  pose proof (split_on_nonempty sep s).
  destruct (split_on sep s) as [|p ps] eqn:E; [done|].
  case_decide as Hc; [rewrite Hc; cbn in *; by rewrite IH|].
  destruct ps; cbn in *; by rewrite IH.
Qed.

Lemma split_on_free sep s : Forall (λ p, sep ∉ p) (split_on sep s).
Proof.
  induction s as [|c s IH]; cbn; [repeat constructor; set_solver|].
  case_decide; [by constructor; [set_solver|]|].
  destruct (split_on sep s) as [|p ps]; [repeat constructor; set_solver|].
  apply Forall_cons in IH as [Hp Hps]; by constructor; [set_solver|].
Qed.

Lemma split_on_app_free sep p s :
  sep ∉ p → split_on sep (p ++ sep :: s) = p :: split_on sep s.
Proof.
  induction p as [|c p IH]; intros Hp; cbn; [by rewrite decide_True|].
  rewrite decide_False by set_solver. rewrite IH by set_solver. done.
Qed.

Lemma split_on_id sep p : sep ∉ p → split_on sep p = [p].
Proof.
  induction p as [|c p IH]; intros Hp; cbn; [done|].
  rewrite decide_False by set_solver. by rewrite IH by set_solver.
Qed.

(** Splitting undoes joining exactly when no part holds the separator. *)
Lemma split_on_join sep ps :
  ps ≠ [] → Forall (λ p, sep ∉ p) ps → split_on sep (join [sep] ps) = ps.
Proof.
  intros Hne H. induction H as [|p ps Hp Hps IH]; [done|].
  destruct ps as [|q ps]; [by apply split_on_id|].
  change (join [sep] (p :: q :: ps)) with (p ++ sep :: join [sep] (q :: ps)).
  rewrite split_on_app_free by done. f_equal. by apply IH.
Qed.

(** ** Printed integers read back *)

Lemma show_digits_app f n acc : show_digits f n acc = show_digits f n [] ++ acc.
Proof.
  revert n acc. induction f as [|f IH]; intros n acc; [done|]. cbn.
  destruct (n <? 10); [done|]. rewrite IH, (IH _ [_]), <-app_assoc. done.
Qed.

(** Any fuel above the number's binary length prints the same digits. *)
Lemma show_digits_enough f g n :
  0 ≤ n < 2 ^ Z.of_nat f → n < 2 ^ Z.of_nat g → (0 < f)%nat → (0 < g)%nat →
  show_digits f n [] = show_digits g n [].
Proof.
  revert g n. induction f as [|f IH]; intros [|g] n Hf Hg Hf0 Hg0; [lia..|]. cbn.
  destruct (Z.ltb_spec n 10); [done|].
  rewrite (show_digits_app f), (show_digits_app g). f_equal.
  rewrite Nat2Z.inj_succ, Z.pow_succ_r in Hf, Hg by lia.
  destruct f as [|f]; [cbn in Hf; lia|]. destruct g as [|g]; [cbn in Hg; lia|].
  apply IH; lia.
Qed.

(** The digits of a number: those of its tenth, then its last one. *)
Lemma show_nat_step n :
  10 ≤ n → show_nat n = show_nat (n / 10) ++ [ascii_digit (n mod 10)].
Proof.
  intros Hn. unfold show_nat at 1. cbn [show_digits].
  destruct (Z.ltb_spec n 10); [lia|]. rewrite show_digits_app. f_equal. unfold show_nat.
  pose proof (Z.log2_spec n ltac:(lia)) as [Hl1 Hl2].
  pose proof (Z.log2_spec (n / 10) ltac:(lia)) as [_ Hl3].
  assert (1 ≤ Z.log2 n) as Hl by (apply (Z.log2_le_mono 2); lia).
  pose proof (Z.log2_nonneg (n / 10)).
  apply show_digits_enough; [split; [lia|]| |lia|lia].
  - rewrite Z2Nat.id by lia. rewrite Z.pow_succ_r in Hl2 by lia. lia.
  - rewrite Nat2Z.inj_succ, Z2Nat.id by lia. exact Hl3.
Qed.

Lemma show_nat_digit n : 0 ≤ n < 10 → show_nat n = [ascii_digit n].
Proof.
  intros Hn. unfold show_nat. cbn [show_digits].
  destruct (Z.ltb_spec n 10); [|lia]. by rewrite Z.mod_small.
Qed.

Lemma ascii_digit_small d : 0 ≤ d < 10 → ascii_digit d = byte_of (48 + d).
Proof. intros. unfold ascii_digit. by rewrite (proj2 (Z.ltb_lt _ _)) by lia. Qed.

Lemma code_ascii_digit d : 0 ≤ d < 10 → code (ascii_digit d) = 48 + d.
Proof. intros. rewrite ascii_digit_small by done. apply code_byte_of. lia. Qed.

Lemma digit_value_ascii_digit d : 0 ≤ d < 10 → digit_value 10 (ascii_digit d) = Some d.
Proof.
  intros Hd. unfold digit_value. rewrite code_ascii_digit by done.
  rewrite !(proj2 (Z.leb_le _ _)) by lia. cbn [andb].
  rewrite (proj2 (Z.ltb_lt _ _)) by lia. f_equal. lia.
Qed.

Lemma digits_value_snoc acc s v d :
  digits_value 10 acc s = Some v → 0 ≤ d < 10 →
  digits_value 10 acc (s ++ [ascii_digit d]) = Some (v * 10 + d).
Proof.
  revert acc. induction s as [|a s IH]; cbn; intros acc Hs Hd.
  - injection Hs as <-. by rewrite digit_value_ascii_digit.
  - destruct (digit_value 10 a); [|done]. by apply IH.
Qed.

(** The digits printed are the number's, and they begin with a digit. *)
Lemma show_nat_spec n :
  0 ≤ n →
  digits_value 10 0 (show_nat n) = Some n ∧
  ∃ d rest, 0 ≤ d < 10 ∧ show_nat n = ascii_digit d :: rest.
Proof.
  intros Hn. revert n Hn Hn. refine (Z_lt_induction _ _). intros n IH Hn.
  destruct (Z.ltb_spec n 10).
  - rewrite show_nat_digit by done. split; [|by exists n, []].
    cbn. by rewrite digit_value_ascii_digit by lia.
  - rewrite show_nat_step by done.
    destruct (IH (n / 10) ltac:(lia) ltac:(lia)) as [Hv (d & rest & Hd & E)].
    split; [|exists d, (rest ++ [ascii_digit (n mod 10)]); by rewrite E].
    rewrite (digits_value_snoc _ _ _ _ Hv) by lia. f_equal. lia.
Qed.

(** [i64::from_str] reads what [Display] prints. *)
Lemma parse_i64_show z : is_i64 z → parse_i64 (show z) = Some z.
Proof.
  intros [Hlo Hhi]. unfold parse_i64, from_str_radix, show.
  destruct (Z.ltb_spec z 0).
  - destruct (show_nat_spec (- z) ltac:(lia)) as [Hv (d & rest & Hd & E)].
    assert (split_sign true ("-"%char :: show_nat (- z)) = (true, show_nat (- z))) as ->
      by (by rewrite E).
    rewrite Hv, E, Z.opp_involutive.
    by rewrite !(proj2 (Z.leb_le _ _)) by lia.
  - destruct (show_nat_spec z ltac:(lia)) as [Hv (d & rest & Hd & E)].
    assert (split_sign true (show_nat z) = (false, show_nat z)) as ->.
    { rewrite E. pose proof (code_ascii_digit d Hd) as Hc. destruct rest as [|r rest]; [done|].
      unfold split_sign.
      rewrite decide_False by (intros Ea; rewrite Ea in Hc; change (code "+"%char) with 43 in Hc; lia).
      rewrite bool_decide_false by (intros Ea; rewrite Ea in Hc; change (code "-"%char) with 45 in Hc; lia).
      done. }
    rewrite Hv, E. by rewrite !(proj2 (Z.leb_le _ _)) by lia.
Qed.

Lemma show_nonempty z : show z ≠ [].
Proof.
  unfold show. destruct (Z.ltb_spec z 0); [done|].
  by destruct (show_nat_spec z ltac:(lia)) as [_ (? & ? & _ & ->)].
Qed.
