(* ===== verification/AuditTypes.v ===== *)
(** The vocabulary of the audit log (the enumerations of [src/proxy/src/audit.rs]
    that every other component refers to): risk, pipeline stage, refusal reason
    with its code, stage and risk, and the status fields of a record. *)

From S2P Require Import Prelude.

Inductive Risk := RiskInfo | RiskLow | RiskMedium | RiskHigh | RiskCritical.

Inductive Stage :=
  | StageRateLimit
  | StageAttestationHeaders
  | StageMachineIdentity
  | StageAttestationToken
  | StageAttestationBody
  | StageUpstream
  | StageDownstream
  | StageInternal.

(** [Stage::is_attestation]. *)
Definition is_attestation (s : Stage) : bool :=
  match s with
  | StageAttestationHeaders | StageAttestationToken | StageAttestationBody => true
  | _ => false
  end.

Inductive Reason :=
  | RateLimited
  | NoAttestationHeaders
  | IncompleteAttestationHeaders
  | MachineCertMissing
  | MachineCertMalformed
  | MachineCertNoCommonName
  | MachineCertUnsafeCommonName
  | MachineHostnameNotAllowed
  | MachineCertExpired
  | MachineCertNotYetValid
  | MachineCertUntrusted
  | MachineHostnameUnresolvable
  | MachineAddressMismatch
  | MachineNoClientAddress
  | TimestampInvalid
  | TimestampOutOfWindow
  | NonceInvalid
  | ReasonNonceReplay
  | TokenMalformed
  | TokenDecryptFailed
  | TokenRequestMismatch
  | BodyTooLarge
  | ReasonBodyHashMismatch
  | BodyReadFailed
  | RequestMalformed
  | UpstreamError
  | DownstreamError
  | InternalError.

(** One row of the [reasons!] table: the code, stage and risk of a reason. *)
Definition reason_row (r : Reason) : str * Stage * Risk :=
  match r with
  | RateLimited => ("rate_limited" : str, StageRateLimit, RiskMedium)
  | NoAttestationHeaders => ("no_attestation_headers" : str, StageAttestationHeaders, RiskLow)
  | IncompleteAttestationHeaders =>
      ("incomplete_attestation_headers" : str, StageAttestationHeaders, RiskHigh)
  | MachineCertMissing => ("machine_cert_missing" : str, StageMachineIdentity, RiskMedium)
  | MachineCertMalformed => ("machine_cert_malformed" : str, StageMachineIdentity, RiskHigh)
  | MachineCertNoCommonName =>
      ("machine_cert_no_common_name" : str, StageMachineIdentity, RiskHigh)
  | MachineCertUnsafeCommonName =>
      ("machine_cert_unsafe_common_name" : str, StageMachineIdentity, RiskHigh)
  | MachineHostnameNotAllowed =>
      ("machine_hostname_not_allowed" : str, StageMachineIdentity, RiskHigh)
  | MachineCertExpired => ("machine_cert_expired" : str, StageMachineIdentity, RiskMedium)
  | MachineCertNotYetValid =>
      ("machine_cert_not_yet_valid" : str, StageMachineIdentity, RiskMedium)
  | MachineCertUntrusted => ("machine_cert_untrusted" : str, StageMachineIdentity, RiskHigh)
  | MachineHostnameUnresolvable =>
      ("machine_hostname_unresolvable" : str, StageMachineIdentity, RiskMedium)
  | MachineAddressMismatch =>
      ("machine_address_mismatch" : str, StageMachineIdentity, RiskHigh)
  | MachineNoClientAddress =>
      ("machine_no_client_address" : str, StageMachineIdentity, RiskMedium)
  | TimestampInvalid => ("timestamp_invalid" : str, StageAttestationToken, RiskHigh)
  | TimestampOutOfWindow =>
      ("timestamp_out_of_window" : str, StageAttestationToken, RiskMedium)
  | NonceInvalid => ("nonce_invalid" : str, StageAttestationToken, RiskHigh)
  | ReasonNonceReplay => ("nonce_replay" : str, StageAttestationToken, RiskHigh)
  | TokenMalformed => ("token_malformed" : str, StageAttestationToken, RiskHigh)
  | TokenDecryptFailed => ("token_decrypt_failed" : str, StageAttestationToken, RiskHigh)
  | TokenRequestMismatch =>
      ("token_request_mismatch" : str, StageAttestationToken, RiskCritical)
  | BodyTooLarge => ("body_too_large" : str, StageAttestationBody, RiskMedium)
  | ReasonBodyHashMismatch => ("body_hash_mismatch" : str, StageAttestationBody, RiskCritical)
  | BodyReadFailed => ("body_read_failed" : str, StageDownstream, RiskLow)
  | RequestMalformed => ("request_malformed" : str, StageDownstream, RiskHigh)
  | UpstreamError => ("upstream_error" : str, StageUpstream, RiskMedium)
  | DownstreamError => ("downstream_error" : str, StageDownstream, RiskLow)
  | InternalError => ("internal_error" : str, StageInternal, RiskMedium)
  end.

(** [Reason::code], [Reason::stage] and [Reason::risk]. *)
Definition reason_code (r : Reason) : str := (reason_row r).1.1.
Definition reason_stage (r : Reason) : Stage := (reason_row r).1.2.
Definition reason_risk (r : Reason) : Risk := (reason_row r).2.

(** [Reason::ALL], in table order. *)
Definition ALL_REASONS : list Reason :=
  [RateLimited; NoAttestationHeaders; IncompleteAttestationHeaders; MachineCertMissing;
   MachineCertMalformed; MachineCertNoCommonName; MachineCertUnsafeCommonName;
   MachineHostnameNotAllowed; MachineCertExpired; MachineCertNotYetValid;
   MachineCertUntrusted; MachineHostnameUnresolvable; MachineAddressMismatch;
   MachineNoClientAddress; TimestampInvalid; TimestampOutOfWindow; NonceInvalid;
   ReasonNonceReplay; TokenMalformed; TokenDecryptFailed; TokenRequestMismatch;
   BodyTooLarge; ReasonBodyHashMismatch; BodyReadFailed; RequestMalformed; UpstreamError;
   DownstreamError; InternalError].

Inductive Action :=
  | ActForward | ActBypass | ActReject | ActRateLimit | ActError.

Inductive Outcome := Success | Failure.

Inductive AttestationStatus :=
  | AttVerified | AttFailed | AttBypassed | AttIncomplete | AttNotEvaluated.

Inductive MachineStatus :=
  | MachVerified | MachFailed | MachAbsent | MachNotEvaluated | MachDisabled.

Inductive Binding := Bound | Unbound.

#[global] Instance Risk_eq_dec : EqDecision Risk. Proof. solve_decision. Defined.
#[global] Instance Stage_eq_dec : EqDecision Stage. Proof. solve_decision. Defined.
#[global] Instance Reason_eq_dec : EqDecision Reason. Proof. solve_decision. Defined.
#[global] Instance Action_eq_dec : EqDecision Action. Proof. solve_decision. Defined.
#[global] Instance Outcome_eq_dec : EqDecision Outcome. Proof. solve_decision. Defined.
#[global] Instance AttestationStatus_eq_dec : EqDecision AttestationStatus.
Proof. solve_decision. Defined.
#[global] Instance MachineStatus_eq_dec : EqDecision MachineStatus.
Proof. solve_decision. Defined.
#[global] Instance Binding_eq_dec : EqDecision Binding. Proof. solve_decision. Defined.
