(* ===== verification/Attest.v ===== *)
(** Request attestation ([src/proxy/src/attest.rs]): the timestamp window, the
    replay cache, the two verification phases and the browser's token layout.
    Base64, P-256, SHA-256 and AES-128-GCM are library code and stay parameters
    (class [Crypto]); what the token round trip relies on of them is the class
    [CryptoLaws]. *)

From S2P Require Import Prelude AuditTypes.

(** ** Clocks

    [SystemTime] and [Instant] in nanoseconds: the wall clock counted from the
    Unix epoch, the monotonic clock from an arbitrary origin. *)
Record Clock := { wall : Z; instant : Z }.

Definition NANOS : Z := 1000000000.
(** [Duration::from_secs]. *)
Definition from_secs (s : Z) : Z := s * NANOS.
(** [Instant::duration_since], which saturates at zero. *)
Definition duration_since (later earlier : Z) : Z := Z.max 0 (later - earlier).

Definition unix_now (clk : Clock) : Z :=
  u64_as_i64 (if wall clk <? 0 then 0 else wall clk / NANOS).

(** ** Constants *)

Definition MAX_TS_DRIFT_SECS : Z := 30.
Definition COMMIT_GRACE_SECS : Z := 60.
Definition NONCE_TTL : Z := from_secs 180.
Definition NONCE_LEN : nat := 16.
Definition HEX_HASH_LEN : nat := 64.
Definition MAX_EVICTIONS_PER_COMMIT : nat := 256.
Definition TOKEN_MIN_LEN : nat := 94.
Definition PLAINTEXT_PREFIX : str := "denbrowser-attest:v2".
Definition UNBOUND_SENTINEL : str := "unbound".
Definition LF : ascii := "010".

(** ** Data *)

Record AttestInputs := {
  in_ts : str; in_nonce_b64 : str; in_token_b64 : str;
  in_host : str; in_method : str; in_path : str }.

Inductive BodyBinding := HashBody (expected : str) | UnboundBody.

Record PhaseOne := { p1_nonce : str; p1_body_binding : BodyBinding; p1_ts : Z }.

Inductive AttestError :=
  | BadTimestamp
  | TimestampDrift (drift : Z)
  | CommitTooLate (elapsed : Z)
  | InvalidNonce (why : str)
  | NonceReplay
  | InvalidToken (why : str)
  | DecryptFailed
  | PlaintextMismatch
  | BodyHashMismatch.

#[global] Instance BodyBinding_eq_dec : EqDecision BodyBinding.
Proof. solve_decision. Defined.
#[global] Instance PhaseOne_eq_dec : EqDecision PhaseOne.
Proof. solve_decision. Defined.
#[global] Instance AttestError_eq_dec : EqDecision AttestError.
Proof. solve_decision. Defined.

(** [Display for AttestError]. *)
Definition attest_error_message (e : AttestError) : str :=
  match e with
  | BadTimestamp => "X-DenBrowser-Ts is not a valid integer"
  | TimestampDrift d =>
      "timestamp drift " ++ show d ++ "s exceeds " ++ show MAX_TS_DRIFT_SECS ++ "s window"
  | CommitTooLate d =>
      "nonce committed " ++ show d ++ "s after X-DenBrowser-Ts, past the "
      ++ show (MAX_TS_DRIFT_SECS + COMMIT_GRACE_SECS) ++ "s commit "
      ++ "window — the body or the checks before forwarding took too long"
  | InvalidNonce r => "invalid X-DenBrowser-Nonce: " ++ r
  | NonceReplay => "nonce already seen — replay rejected"
  | InvalidToken r => "invalid token: " ++ r
  | DecryptFailed => "AES-128-GCM authentication failed"
  | PlaintextMismatch => "plaintext mismatch"
  | BodyHashMismatch => "body hash mismatch"
  end.

(** [AttestError::reason]. *)
Definition attest_error_reason (e : AttestError) : Reason :=
  match e with
  | BadTimestamp => TimestampInvalid
  | TimestampDrift _ | CommitTooLate _ => TimestampOutOfWindow
  | InvalidNonce _ => NonceInvalid
  | NonceReplay => ReasonNonceReplay
  | InvalidToken _ => TokenMalformed
  | DecryptFailed => TokenDecryptFailed
  | PlaintextMismatch => TokenRequestMismatch
  | BodyHashMismatch => ReasonBodyHashMismatch
  end.

(** ** Timestamp checks *)

Definition check_drift (ts now : Z) : result unit AttestError :=
  let drift := saturating_abs (saturating_sub now ts) in
  if MAX_TS_DRIFT_SECS <? drift then Err (TimestampDrift drift) else Ok tt.

Definition check_commit_window (ts now : Z) : result unit AttestError :=
  let elapsed := saturating_sub now ts in
  if elapsed <? - MAX_TS_DRIFT_SECS then Err (TimestampDrift (saturating_abs elapsed))
  else if MAX_TS_DRIFT_SECS + COMMIT_GRACE_SECS <? elapsed then Err (CommitTooLate elapsed)
  else Ok tt.

(** ** The replay cache *)

Record NonceCache := { seen : gset str; expiry : list (str * Z) }.

Definition empty_cache : NonceCache := {| seen := ∅; expiry := [] |}.

(** [NonceCache::contains]. *)
Definition cache_contains (c : NonceCache) (nonce : str) : bool :=
  bool_decide (nonce ∈ seen c).

(** The [while let] of [evict_expired]: each turn either stops or pops the
    front, so it is structural on the queue. *)
Fixpoint evict_loop (now : Z) (evicted : nat) (queue : list (str * Z)) (s : gset str)
    : NonceCache :=
  match queue with
  | [] => {| seen := s; expiry := [] |}
  | (nonce, committed) :: rest =>
      if (evicted =? MAX_EVICTIONS_PER_COMMIT)%nat
         || (duration_since now committed <? NONCE_TTL)
      then {| seen := s; expiry := queue |}
      else evict_loop now (S evicted) rest (s ∖ {[nonce]})
  end.

Definition evict_expired (now : Z) (c : NonceCache) : NonceCache :=
  evict_loop now 0 (expiry c) (seen c).

(** [NonceCache::commit]. *)
Definition cache_commit (c : NonceCache) (nonce : str) (now : Z)
    : NonceCache * result unit AttestError :=
  let c := evict_expired now c in
  if cache_contains c nonce then (c, Err NonceReplay)
  else ({| seen := {[nonce]} ∪ seen c; expiry := expiry c ++ [(nonce, now)] |}, Ok tt).

(** ** Library cryptography *)

Class Crypto := {
  SecretKey : Type;
  PublicKey : Type;
  base64_decode : str → option str;              (* STANDARD.decode *)
  from_sec1_pem : str → result SecretKey str;    (* SecretKey::from_sec1_pem *)
  from_sec1_bytes : str → option PublicKey;      (* PublicKey::from_sec1_bytes *)
  diffie_hellman : SecretKey → PublicKey → str;  (* raw_secret_bytes of ECDH *)
  sha256 : str → str;
  aes128gcm_decrypt : str → str → str → option str  (* key, IV, ciphertext + tag *)
}.

Section Verifier.
Context `{Crypto}.

Record Verifier := { private_key : SecretKey; nonce_cache : NonceCache }.

Definition set_cache (v : Verifier) (c : NonceCache) : Verifier :=
  {| private_key := private_key v; nonce_cache := c |}.

(** [Verifier::from_pem]. *)
Definition from_pem (pem : str) : result Verifier str :=
  let? key := from_sec1_pem pem in
  Ok {| private_key := key; nonce_cache := empty_cache |}.

(** [Verifier::from_config]; [read_to_string] is the file system. *)
Definition Verifier_from_config (read_to_string : str → result str str)
    (key_path : str) : result Verifier str :=
  if is_empty key_path then
    Err ("attestation.private_key is not set — point it at this proxy's "
         ++ "EC P-256 private key (scripts/gen-attest-key.sh --name <proxy>)")
  else
    let? pem := map_err (λ e, "cannot read attestation private_key "
                              ++ key_path ++ ": " ++ e) (read_to_string key_path) in
    map_err (λ e, "cannot parse attestation private_key " ++ key_path ++ ": " ++ e)
      (from_pem pem).

(** The ANSI X9.63 KDF of phase 1, step 5: SHA-256 with a single counter. *)
Definition derive_key (shared : str) : str :=
  take 16 (sha256 (shared ++ ["000"; "000"; "000"; "001"]%char)).

(** Phase 1, steps 5 and 6: ECDH, key derivation, AES-128-GCM. *)
Definition decrypt_token (sk : SecretKey) (raw : str) : result str AttestError :=
  let ephem_bytes := take 65 raw in
  let iv := take 12 (drop 65 raw) in
  let ct_tag := drop 77 raw in
  let? ephem_pub := ok_or (from_sec1_bytes ephem_bytes)
                      (InvalidToken "EC point not on curve") in
  let shared := diffie_hellman sk ephem_pub in
  ok_or (aes128gcm_decrypt (derive_key shared) iv ct_tag) DecryptFailed.

(** One byte of the hex body hash. *)
Definition parse_hex_pair (pair : str) : result ascii AttestError :=
  if valid_utf8 pair then
    let? v := ok_or (parse_u8_hex pair) PlaintextMismatch in Ok (byte_of v)
  else Err PlaintextMismatch.

(** Phase 1, step 8. *)
Definition parse_body_binding (field : str) : result BodyBinding AttestError :=
  if decide (field = UNBOUND_SENTINEL) then Ok UnboundBody
  else if negb (length field =? HEX_HASH_LEN)%nat then Err PlaintextMismatch
  else let? hash := try_map parse_hex_pair (chunks2 field) in Ok (HashBody hash).

(** Phase 1, step 7: the fields of the plaintext against the request. *)
Definition match_plaintext (i : AttestInputs) (plaintext : str)
    : result str AttestError :=
  match split_on LF plaintext with
  | [p0; p1; p2; p3; p4; p5; p6] =>
      if bool_decide (p0 = PLAINTEXT_PREFIX) && bool_decide (p1 = in_nonce_b64 i)
         && bool_decide (p2 = in_ts i) && bool_decide (p3 = in_host i)
         && bool_decide (p4 = in_method i) && bool_decide (p5 = in_path i)
      then Ok p6 else Err PlaintextMismatch
  | _ => Err PlaintextMismatch
  end.

(** [Verifier::verify_headers]: phase 1. *)
Definition verify_headers (v : Verifier) (clk : Clock) (i : AttestInputs)
    : result PhaseOne AttestError :=
  let? ts := ok_or (parse_i64 (in_ts i)) BadTimestamp in
  let? _ := check_drift ts (unix_now clk) in
  let? nonce := ok_or (base64_decode (in_nonce_b64 i)) (InvalidNonce "not base64") in
  bail_if negb (length nonce =? NONCE_LEN)%nat with InvalidNonce "wrong length" in
  bail_if cache_contains (nonce_cache v) nonce with NonceReplay in
  let? raw := ok_or (base64_decode (in_token_b64 i)) (InvalidToken "invalid base64") in
  bail_if (length raw <? TOKEN_MIN_LEN)%nat with InvalidToken "token too short" in
  let? plaintext := decrypt_token (private_key v) raw in
  let? body_field := match_plaintext i plaintext in
  let? body_binding := parse_body_binding body_field in
  Ok {| p1_nonce := nonce; p1_body_binding := body_binding; p1_ts := ts |}.

(** [Verifier::commit_nonce]. *)
Definition commit_nonce (v : Verifier) (clk : Clock) (p1 : PhaseOne)
    : Verifier * result unit AttestError :=
  if cache_contains (nonce_cache v) (p1_nonce p1) then (v, Err NonceReplay)
  else
    match check_commit_window (p1_ts p1) (unix_now clk) with
    | Err e => (v, Err e)
    | Ok _ =>
        let '(c, r) := cache_commit (nonce_cache v) (p1_nonce p1) (instant clk) in
        (set_cache v c, r)
    end.

(** [Verifier::verify_body_and_commit]: phase 2. *)
Definition verify_body_and_commit (v : Verifier) (clk : Clock) (p1 : PhaseOne)
    (actual_body_hash : str) : Verifier * result unit AttestError :=
  match p1_body_binding p1 with
  | HashBody expected =>
      if decide (expected ≠ actual_body_hash) then (v, Err BodyHashMismatch)
      else commit_nonce v clk p1
  | UnboundBody => commit_nonce v clk p1
  end.
End Verifier.
