(* ===== verification/AttestCache.v ===== *)
(** The replay cache of [attest.rs] against its contract.  The contract is a
    log of accepted commits: a commit is refused only if the nonce was
    committed before, and accepted only if every earlier commit of the nonce is
    at least [NONCE_TTL] old.  The queue-and-set implementation refines it. *)

From Stdlib Require Import Sorting.Sorted.
From S2P Require Import Prelude AuditTypes Attest.

(** ** Exactness of the timestamp checks *)

Lemma check_drift_eq ts now :
  is_i64 ts → is_i64 now →
  check_drift ts now =
    if Z.abs (now - ts) <=? 30 then Ok tt
    else Err (TimestampDrift (Z.min i64_max (Z.abs (now - ts)))).
Proof.
  intros. unfold check_drift, MAX_TS_DRIFT_SECS.
  assert (saturating_abs (saturating_sub now ts) = Z.min i64_max (Z.abs (now - ts)))
    as -> by int_lia.
  destruct (Z.leb_spec (Z.abs (now - ts)) 30); case_match; try done; int_lia.
Qed.

Lemma check_commit_window_eq ts now :
  is_i64 ts → is_i64 now →
  check_commit_window ts now =
    if now - ts <? -30 then Err (TimestampDrift (Z.min i64_max (ts - now)))
    else if 90 <? now - ts then Err (CommitTooLate (Z.min i64_max (now - ts)))
    else Ok tt.
Proof.
  intros. unfold check_commit_window, MAX_TS_DRIFT_SECS, COMMIT_GRACE_SECS.
  destruct (Z.ltb_spec (now - ts) (-30)), (Z.ltb_spec 90 (now - ts)); try int_lia;
    repeat case_match; try int_lia; try done; do 2 f_equal; int_lia.
Qed.

(** ** Clocks that tell the time *)

(** The wall clock shows a time in [1970, 2^63 s). *)
Definition clock_ok (clk : Clock) : Prop :=
  0 ≤ wall clk ∧ wall clk / NANOS ≤ i64_max.

Lemma unix_now_eq clk : clock_ok clk → unix_now clk = wall clk / NANOS.
Proof.
  intros [H0 H1]. unfold unix_now. destruct (Z.ltb_spec (wall clk) 0); [lia|].
  apply u64_as_i64_id. split; [|done]. apply Z.div_pos; unfold NANOS; lia.
Qed.

Lemma unix_now_i64 clk : clock_ok clk → is_i64 (unix_now clk).
Proof.
  intros H. rewrite unix_now_eq by done. destruct H. split; [|done].
  assert (0 ≤ wall clk / NANOS) by (apply Z.div_pos; unfold NANOS; lia).
  unfold i64_min. lia.
Qed.

(** ** Well-formed caches *)

Definition older (a b : str * Z) : Prop := a.2 ≤ b.2.

Record cache_wf (c : NonceCache) : Prop := {
  wf_seen : seen c = list_to_set (expiry c).*1;
  wf_nodup : NoDup (expiry c).*1;
  wf_sorted : StronglySorted older (expiry c) }.

Definition expired (now : Z) (e : str * Z) : bool :=
  negb (duration_since now e.2 <? NONCE_TTL).

Fixpoint leading_expired (now : Z) (q : list (str * Z)) : nat :=
  match q with
  | [] => 0
  | e :: q' => if expired now e then S (leading_expired now q') else 0
  end.

Definition evictions (now : Z) (c : NonceCache) : nat :=
  MAX_EVICTIONS_PER_COMMIT `min` leading_expired now (expiry c).

Lemma evict_loop_eq now k q s :
  (k ≤ MAX_EVICTIONS_PER_COMMIT)%nat →
  let n := ((MAX_EVICTIONS_PER_COMMIT - k) `min` leading_expired now q)%nat in
  evict_loop now k q s = {| seen := s ∖ list_to_set (take n q).*1; expiry := drop n q |}.
Proof.
  revert k s. induction q as [|[nonce t] q IH]; intros k s Hk n.
  { subst n. rewrite take_nil, drop_nil. cbn. f_equal. set_solver. }
  cbn [evict_loop leading_expired] in *.
  assert (duration_since now t <? NONCE_TTL = negb (expired now (nonce, t))) as ->
    by (unfold expired; by rewrite negb_involutive).
  destruct (Nat.eqb_spec k MAX_EVICTIONS_PER_COMMIT) as [->|Hne]; cbn [orb].
  { subst n. rewrite Nat.sub_diag. cbn. f_equal. set_solver. }
  destruct (expired now (nonce, t)); cbn [negb].
  - subst n. rewrite IH by lia.
    replace (MAX_EVICTIONS_PER_COMMIT - k)%nat
      with (S (MAX_EVICTIONS_PER_COMMIT - S k)) by lia.
    rewrite <-Nat.succ_min_distr. cbn [take drop fmap list_fmap list_to_set fst].
    f_equal. set_solver.
  - subst n. rewrite Nat.min_0_r. cbn. f_equal. set_solver.
Qed.

Lemma evict_expired_eq now c :
  evict_expired now c =
    {| seen := seen c ∖ list_to_set (take (evictions now c) (expiry c)).*1;
       expiry := drop (evictions now c) (expiry c) |}.
Proof. unfold evict_expired. rewrite evict_loop_eq by lia. by rewrite Nat.sub_0_r. Qed.

Lemma StronglySorted_drop {A} (R : A → A → Prop) n l :
  StronglySorted R l → StronglySorted R (drop n l).
Proof.
  revert n. induction l as [|x l IH]; intros [|n] H; cbn; try done.
  inversion H; subst. by apply IH.
Qed.

Lemma StronglySorted_snoc {A} (R : A → A → Prop) l x :
  StronglySorted R l → Forall (λ y, R y x) l → StronglySorted R (l ++ [x]).
Proof.
  induction 1 as [|y l Hl IH Hy]; intros Hx; cbn; [repeat constructor|].
  apply Forall_cons in Hx as [? ?].
  constructor; [by apply IH|]. apply Forall_app. split; [done|]. by constructor.
Qed.

Lemma evict_wf now c : cache_wf c → cache_wf (evict_expired now c).
Proof.
  intros [Hs Hd Ho]. rewrite evict_expired_eq.
  pose proof (take_drop (evictions now c) (expiry c)) as Htd.
  set (q1 := take _ _) in *. set (q2 := drop _ _) in *.
  rewrite <-Htd, fmap_app in Hs, Hd. apply NoDup_app in Hd as (_ & Hdisj & Hd2).
  split; cbn; [|done|by apply StronglySorted_drop].
  rewrite Hs, list_to_set_app_L. apply set_eq. intros x.
  rewrite elem_of_difference, elem_of_union, !elem_of_list_to_set.
  specialize (Hdisj x). tauto.
Qed.

Lemma leading_expired_take now q n :
  (n ≤ leading_expired now q)%nat → Forall (λ e, expired now e = true) (take n q).
Proof.
  revert n. induction q as [|e q IH]; intros [|n]; cbn; try by constructor.
  destruct (expired now e) eqn:E; [|lia]. intros. constructor; [done|]. apply IH. lia.
Qed.

(** The queue is ordered by age, so the expired entries are its front. *)
Lemma leading_expired_all now q :
  StronglySorted older q →
  Forall (λ e, expired now e = false) (drop (leading_expired now q) q).
Proof.
  induction 1 as [|e q Hq IH Ho]; cbn; [done|].
  destruct (expired now e) eqn:E; [done|]. cbn. constructor; [done|].
  eapply Forall_impl; [exact Ho|]. intros e'. unfold older, expired, duration_since in *.
  rewrite negb_false_iff, Z.ltb_lt in *. lia.
Qed.

Lemma leading_expired_count now q :
  StronglySorted older q → leading_expired now q = length (List.filter (expired now) q).
Proof.
  intros H. pose proof (leading_expired_all now q H) as Hall.
  induction H as [|e q Hq IH Ho]; cbn in *; [done|].
  destruct (expired now e) eqn:E; cbn in *; [by rewrite IH|].
  apply Forall_cons in Hall as [_ Hall]. clear -Hall.
  induction Hall as [|e' q He _ IH]; cbn; [done|]. by rewrite He.
Qed.

Lemma expired_age now e : expired now e = true → NONCE_TTL ≤ now - e.2.
Proof.
  unfold expired, duration_since. rewrite negb_true_iff, Z.ltb_ge.
  unfold NONCE_TTL, from_secs, NANOS. lia.
Qed.

(** ** The contract *)

Definition Log := list (str * Z).

Inductive spec_commit (log : Log) (nonce : str) (now : Z)
    : Log → result unit AttestError → Prop :=
  | spec_accept :
      (∀ t, (nonce, t) ∈ log → NONCE_TTL ≤ now - t) →
      spec_commit log nonce now (log ++ [(nonce, now)]) (Ok tt)
  | spec_refuse t :
      (nonce, t) ∈ log → spec_commit log nonce now log (Err NonceReplay).

(** The cache holds the log less a prefix of expired entries. *)
Record refines (c : NonceCache) (log : Log) (now : Z) : Prop := {
  ref_wf : cache_wf c;
  ref_past : Forall (λ e, e.2 ≤ now) log;
  ref_split : ∃ dropped,
    log = dropped ++ expiry c ∧ Forall (λ e, NONCE_TTL ≤ now - e.2) dropped }.

Lemma refines_empty now : refines empty_cache [] now.
Proof. split; [split; cbn; [done|constructor|constructor]|constructor|by exists []]. Qed.

Lemma refines_later c log now now' :
  refines c log now → now ≤ now' → refines c log now'.
Proof.
  intros [Hwf Hp (d & -> & Hd)] Hle. split; [done| |].
  - eapply Forall_impl; [exact Hp|]. intros e ?. cbn in *. lia.
  - exists d. split; [done|]. eapply Forall_impl; [exact Hd|]. intros e ?. cbn in *. lia.
Qed.

Lemma refines_evict c log now : refines c log now → refines (evict_expired now c) log now.
Proof.
  intros [Hwf Hp (d & -> & Hd)]. split; [by apply evict_wf|done|].
  rewrite evict_expired_eq. cbn.
  exists (d ++ take (evictions now c) (expiry c)). rewrite <-app_assoc, take_drop.
  split; [done|]. apply Forall_app. split; [done|].
  apply Forall_impl with (P := λ e, expired now e = true).
  - apply leading_expired_take. unfold evictions. lia.
  - intros e. apply expired_age.
Qed.

Lemma cache_contains_spec c nonce :
  cache_wf c → cache_contains c nonce = true ↔ ∃ t, (nonce, t) ∈ expiry c.
Proof.
  intros Hwf. unfold cache_contains. rewrite bool_decide_eq_true, wf_seen by done.
  rewrite elem_of_list_to_set, list_elem_of_fmap. split.
  - intros ([n t] & -> & H). by exists t.
  - intros [t H]. by exists (nonce, t).
Qed.

Lemma refines_not_contained c log now nonce :
  refines c log now → cache_contains c nonce = false →
  ∀ t, (nonce, t) ∈ log → NONCE_TTL ≤ now - t.
Proof.
  intros [Hwf _ (d & -> & Hd)] Hc t [Ht|Ht]%elem_of_app.
  - rewrite Forall_forall in Hd. by apply (Hd _ Ht).
  - exfalso. assert (cache_contains c nonce = true); [|congruence].
    apply cache_contains_spec; eauto.
Qed.

Lemma refines_contained c log now nonce :
  refines c log now → cache_contains c nonce = true → ∃ t, (nonce, t) ∈ log.
Proof.
  intros [Hwf _ (d & -> & Hd)] [t Ht]%cache_contains_spec; [|done].
  exists t. apply elem_of_app. by right.
Qed.

(** Inserting an absent nonce keeps the cache well-formed. *)
Lemma insert_wf c nonce now :
  cache_wf c → cache_contains c nonce = false → Forall (λ e, e.2 ≤ now) (expiry c) →
  cache_wf {| seen := {[nonce]} ∪ seen c; expiry := expiry c ++ [(nonce, now)] |}.
Proof.
  intros [Hs Hd Ho] Hc Hle. unfold cache_contains in Hc. apply bool_decide_eq_false in Hc.
  rewrite Hs, elem_of_list_to_set in Hc.
  split; cbn; rewrite ?fmap_app; cbn.
  - rewrite list_to_set_app_L, Hs. cbn. set_solver.
  - apply NoDup_app. split; [done|]. split; [set_solver|]. repeat constructor. set_solver.
  - by apply StronglySorted_snoc.
Qed.

Lemma cache_commit_refines c log nonce now :
  refines c log now →
  ∃ log', spec_commit log nonce now log' (cache_commit c nonce now).2
        ∧ refines (cache_commit c nonce now).1 log' now.
Proof.
  intros HR%refines_evict. unfold cache_commit.
  destruct (cache_contains (evict_expired now c) nonce) eqn:Hc; cbn.
  - exists log. split; [|done]. destruct (refines_contained _ _ _ _ HR Hc) as [t Ht].
    by eapply spec_refuse.
  - exists (log ++ [(nonce, now)]). split.
    { apply spec_accept. by eapply refines_not_contained. }
    destruct HR as [Hwf Hp (d & Hlog & Hd)]. split.
    + apply insert_wf; [done|done|].
      rewrite Hlog in Hp. by apply Forall_app in Hp as [_ ?].
    + apply Forall_app. split; [done|]. repeat constructor. cbn. lia.
    + exists d. cbn. by rewrite Hlog, app_assoc.
Qed.

(** ** Sequences of commits *)

(** The commits of a whole run, in the order the mutex serialised them. *)
Fixpoint run_commits (c : NonceCache) (reqs : list (str * Z))
    : NonceCache * list (result unit AttestError) :=
  match reqs with
  | [] => (c, [])
  | (nonce, now) :: reqs' =>
      let '(c1, r) := cache_commit c nonce now in
      let '(c2, rs) := run_commits c1 reqs' in (c2, r :: rs)
  end.

Inductive spec_run : Log → list (str * Z) → list (result unit AttestError) → Log → Prop :=
  | spec_run_nil log : spec_run log [] [] log
  | spec_run_cons log nonce now log1 r reqs rs log2 :
      spec_commit log nonce now log1 r → spec_run log1 reqs rs log2 →
      spec_run log ((nonce, now) :: reqs) (r :: rs) log2.

Lemma run_commits_refines c log t reqs :
  refines c log t → StronglySorted older reqs → Forall (λ e, t ≤ e.2) reqs →
  ∃ log' t', spec_run log reqs (run_commits c reqs).2 log'
           ∧ refines (run_commits c reqs).1 log' t'.
Proof.
  intros HR Hs. revert c log t HR.
  induction Hs as [|[nonce now] reqs Hs IH Ho]; intros c log t HR Ht.
  { exists log, t. by split; [constructor|]. }
  apply Forall_cons in Ht as [Hnow _]. cbn in Hnow.
  destruct (cache_commit_refines c log nonce now) as (log1 & Hc & HR1);
    [by eapply refines_later|].
  cbn. destruct (cache_commit c nonce now) as [c1 r] eqn:E. cbn in *.
  destruct (IH c1 log1 now HR1 Ho) as (log2 & t2 & Hrun & HR2).
  destruct (run_commits c1 reqs) as [c2 rs]. cbn in *.
  exists log2, t2. split; [by econstructor|done].
Qed.

#[export] Hint Resolve unix_now_i64 refines_empty refines_later : proxy.

(** ** The promise to the verifier

    What the replay system needs of a nonce store, whatever its data: with
    respect to the log of the commits it has accepted, a commit that is refused
    changes nothing, and one that is accepted is of a nonce without a commit
    younger than [NONCE_TTL]. *)
Class ReplayStore (C : Type) := {
  rs_empty : C;
  rs_commit : C → str → Z → C * result unit AttestError;
  rs_refines : C → Log → Z → Prop;
  rs_refines_empty now : rs_refines rs_empty [] now;
  rs_refines_later c log now now' : rs_refines c log now → now ≤ now' → rs_refines c log now';
  rs_commit_spec c log nonce now :
    rs_refines c log now →
    match rs_commit c nonce now with
    | (c', Ok _) => rs_refines c' (log ++ [(nonce, now)]) now ∧
                    ∀ t, (nonce, t) ∈ log → NONCE_TTL ≤ now - t
    | (c', Err _) => rs_refines c' log now
    end }.
Arguments rs_refines : simpl never.
#[export] Hint Resolve rs_refines_empty rs_refines_later : proxy.

#[export] Instance nonce_cache_store : ReplayStore NonceCache.
Proof.
  refine {| rs_empty := empty_cache; rs_commit := cache_commit; rs_refines := refines;
            rs_refines_empty := refines_empty; rs_refines_later := refines_later |}.
  intros c log nonce now HR.
  destruct (cache_commit_refines c log nonce now HR) as (log' & Hs & HR').
  destruct (cache_commit c nonce now) as [c' r]. cbn in *. by inversion Hs; subst.
Defined.

(** ** Properties *)

(** *** Draining

    The bound on evictions leaves a backlog of expired entries after a pause; the
    commits that follow clear it. *)

Lemma expired_live_later t q :
  StronglySorted older q → leading_expired t q = 0%nat → Forall (λ e, expired t e = false) q.
Proof. intros Hs H0. pose proof (leading_expired_all t q Hs) as Ha. by rewrite H0 in Ha. Qed.

Lemma leading_expired_drop t k q :
  StronglySorted older q → leading_expired t (drop k q) = (leading_expired t q - k)%nat.
Proof.
  intros Hs. revert k. induction Hs as [|e q Hq IH Ho]; intros [|k]; cbn; try done; [by rewrite Nat.sub_0_r|].
  rewrite IH. destruct (expired t e) eqn:E; [done|].
  assert (StronglySorted older (e :: q)) as Hs by by constructor.
  pose proof (leading_expired_all t _ Hs) as Ha. cbn in Ha. rewrite E in Ha. cbn in Ha.
  apply Forall_cons in Ha as [_ Ha]. destruct Ha as [|e' q' He' _]; cbn; [done|]. by rewrite He'.
Qed.

Lemma leading_expired_snoc t q x :
  expired t x = false → leading_expired t (q ++ [x]) = leading_expired t q.
Proof.
  intros Hx. induction q as [|e q IH]; cbn; [by rewrite Hx|]. by rewrite IH.
Qed.

(** A cache at time [u]. *)
Definition cache_at (c : NonceCache) (u : Z) : Prop :=
  cache_wf c ∧ Forall (λ e, e.2 ≤ u) (expiry c).

Lemma cache_commit_drains c u t nonce now :
  cache_at c u → u ≤ now → t ≤ now →
  let c' := (cache_commit c nonce now).1 in
  cache_at c' now ∧
  (leading_expired t (expiry c') ≤ leading_expired t (expiry c) - MAX_EVICTIONS_PER_COMMIT)%nat.
Proof.
  intros [Hwf Hpast] Hu Ht. pose proof (evict_wf now c Hwf) as Hwf'.
  assert (Forall (λ e, e.2 ≤ now) (expiry (evict_expired now c))) as Hp.
  { rewrite evict_expired_eq. cbn. apply Forall_drop. eapply Forall_impl; [exact Hpast|].
    cbn. lia. }
  assert (leading_expired t (expiry (evict_expired now c))
    ≤ leading_expired t (expiry c) - MAX_EVICTIONS_PER_COMMIT)%nat as Hl.
  { rewrite evict_expired_eq. cbn [expiry]. rewrite leading_expired_drop by apply Hwf.
    assert (leading_expired t (expiry c) ≤ leading_expired now (expiry c))%nat; [|unfold evictions; lia].
    generalize (expiry c). intros q. induction q as [|e q IH]; cbn; [lia|].
    destruct (expired t e) eqn:Et; [|lia].
    assert (expired now e = true) as ->; [|lia]. clear -Et Ht.
    unfold expired, duration_since in *. rewrite negb_true_iff, Z.ltb_ge in *. lia. }
  unfold cache_commit. destruct (cache_contains _ nonce) eqn:Ec; [by split|]. cbn. split.
  - split; [by apply insert_wf|]. apply Forall_app. split; [done|]. by constructor.
  - rewrite leading_expired_snoc; [done|]. clear -Ht.
    unfold expired, duration_since, NONCE_TTL, from_secs, NANOS. cbn.
    rewrite negb_false_iff, Z.ltb_lt. lia.
Qed.

Lemma run_commits_drains c u t reqs :
  cache_at c u → StronglySorted older reqs → Forall (λ e, u ≤ e.2 ∧ t ≤ e.2) reqs →
  let c' := (run_commits c reqs).1 in
  (∃ u', cache_at c' u' ∧ (u' = u ∨ ∃ e, e ∈ reqs ∧ u' = e.2)) ∧
  (leading_expired t (expiry c') ≤ leading_expired t (expiry c)
     - MAX_EVICTIONS_PER_COMMIT * length reqs)%nat.
Proof.
  intros Hc Hs. revert c u Hc. induction Hs as [|[nonce now] reqs Hs IH Ho]; intros c u Hc Hf.
  { cbn. split; [exists u; by auto|lia]. }
  apply Forall_cons in Hf as [[Hu Ht] Hf]. cbn in Hu, Ht.
  destruct (cache_commit_drains c u t nonce now Hc Hu Ht) as [Hc1 Hl1].
  cbn [run_commits]. destruct (cache_commit c nonce now) as [c1 r]. cbn [fst] in Hc1, Hl1.
  destruct (IH c1 now Hc1) as [(u' & Hc2 & Hu') Hl2].
  { rewrite Forall_forall in Ho, Hf |- *. intros e He. specialize (Ho e He). unfold older in Ho.
    cbn in Ho. by destruct (Hf e He). }
  destruct (run_commits c1 reqs) as [c2 rs]. cbn [fst] in *. split.
  - exists u'. split; [done|]. right. destruct Hu' as [->|(e & He & ->)].
    + exists (nonce, now). split; [left|done].
    + exists e. split; [by right|done].
  - cbn [length]. lia.
Qed.

(** One commit's eviction drops exactly the oldest
    [min 256 #expired] entries: never a live one (so a nonce stays remembered
    for its whole TTL whatever the load), never more than the bound, and the
    cache stays well-formed. *)
Lemma evict_exact c now :
  cache_wf c →
  let gone := (256 `min` length (List.filter (expired now) (expiry c)))%nat in
  expiry (evict_expired now c) = drop gone (expiry c)
  ∧ Forall (λ e, NONCE_TTL ≤ now - e.2) (take gone (expiry c))
  ∧ (∀ e, e ∈ expiry c → expired now e = false → e ∈ expiry (evict_expired now c))
  ∧ cache_wf (evict_expired now c).
Proof.
  intros Hwf gone.
  assert (gone = evictions now c) as ->.
  { subst gone. unfold evictions. by rewrite <-leading_expired_count by apply Hwf. }
  assert (Forall (λ e, expired now e = true) (take (evictions now c) (expiry c))) as Ht.
  { apply leading_expired_take. unfold evictions. lia. }
  pose proof (evict_wf now c Hwf) as Hwf'. rewrite evict_expired_eq in *.
  cbn [expiry]. split; [done|]. split.
  { eapply Forall_impl; [exact Ht|]. intros e. apply expired_age. }
  split; [|done].
  intros e He Hlive. rewrite <-(take_drop (evictions now c)) in He.
  apply elem_of_app in He as [He|He]; [|done].
  rewrite Forall_forall in Ht. specialize (Ht _ He). congruence.
Qed.

(** Claim C16.  The replay cache refines the commit log: over any run of commits
    in non-decreasing time, every refusal is of a nonce committed before, every
    acceptance of a nonce none of whose earlier commits is younger than
    [NONCE_TTL] (180 s), and the queue and the set stay a well-formed image of
    the log's unexpired part.  One commit's eviction then drops exactly the oldest
    [min 256 #expired] entries: never a live one, so a nonce stays remembered for
    its whole TTL whatever the load, and never more than the bound.  And what has
    expired does go: the entries expired at any time are all dropped once one
    commit for every 256 of them has followed. *)
Theorem nonce_cache_refines_log reqs :
  StronglySorted older reqs → Forall (λ e, 0 ≤ e.2) reqs →
  let c := (run_commits empty_cache reqs).1 in
  (∃ log t, spec_run [] reqs (run_commits empty_cache reqs).2 log ∧ refines c log t) ∧
  ∀ now, let gone := (256 `min` length (List.filter (expired now) (expiry c)))%nat in
    expiry (evict_expired now c) = drop gone (expiry c)
    ∧ Forall (λ e, NONCE_TTL ≤ now - e.2) (take gone (expiry c))
    ∧ (∀ e, e ∈ expiry c → expired now e = false → e ∈ expiry (evict_expired now c))
    ∧ ∀ later, Forall (λ e, e.2 ≤ now) reqs → StronglySorted older later →
        Forall (λ e, now ≤ e.2) later →
        (length (List.filter (expired now) (expiry c)) ≤ 256 * length later)%nat →
        Forall (λ e, expired now e = false) (expiry (run_commits c later).1).
Proof.
  intros Hs Ht c.
  destruct (run_commits_refines empty_cache [] 0 reqs (refines_empty 0) Hs Ht)
    as (log & t & Hrun & HR).
  split; [eauto|]. intros now gone.
  destruct (evict_exact c now (ref_wf _ _ _ HR)) as (? & ? & ? & _). split_and!; try done.
  intros later Hpast Hsl Hl Hb.
  destruct (run_commits_drains empty_cache (Z.min 0 now) (Z.min 0 now) reqs)
    as [(u & [Hwf Hp] & Hu) _]; [|done| |].
  { split; [apply (ref_wf _ _ _ (refines_empty 0))|constructor]. }
  { eapply Forall_impl; [exact Ht|]. intros e He. cbn in He. lia. }
  fold c in Hwf, Hp.
  assert (cache_at c now) as Hc.
  { split; [done|]. eapply Forall_impl; [exact Hp|]. cbn. intros e He.
    destruct Hu as [->|(e' & He' & ->)]; [lia|]. rewrite Forall_forall in Hpast.
    specialize (Hpast _ He'). lia. }
  destruct (run_commits_drains c now now later Hc Hsl) as [(u' & [Hwf' _] & _) Hle].
  { eapply Forall_impl; [exact Hl|]. by intros e. }
  apply expired_live_later; [by apply Hwf'|].
  rewrite (leading_expired_count now (expiry c)) in Hle by apply Hwf.
  unfold MAX_EVICTIONS_PER_COMMIT in Hle. lia.
Qed.

Theorem nonce_cache_refines_log_witness :
  let reqs := [("a" : str, 0); ("b" : str, 5); ("a" : str, from_secs 179)] in
  let c := (run_commits empty_cache reqs).1 in
  (∃ log t, spec_run [] reqs [Ok tt; Ok tt; Err NonceReplay] log ∧ refines c log t) ∧
  expiry (evict_expired (from_secs 180) c) = drop 1 (expiry c) ∧
  Forall (λ e, expired (from_secs 181) e = false)
    (expiry (run_commits c [("c" : str, from_secs 190)]).1).
Proof.
  intros reqs c. destruct (nonce_cache_refines_log reqs) as [Hr He].
  - repeat constructor; unfold older; cbn; unfold from_secs, NANOS; lia.
  - repeat constructor; cbn; unfold from_secs, NANOS; lia.
  - split; [exact Hr|]. split; [exact (proj1 (He (from_secs 180)))|].
    destruct (He (from_secs 181)) as (_ & _ & _ & Hd). apply Hd.
    + repeat constructor; cbn; unfold from_secs, NANOS; lia.
    + repeat constructor.
    + repeat constructor; cbn; unfold from_secs, NANOS; lia.
    + apply (bool_decide_unpack _). vm_compute. exact I.
Defined.
