(* ===== verification/AttestToken.v ===== *)
(** What an accepted token proves, and that sealed tokens are accepted.

    [sealed_token] is the envelope both clients build, the browser ([Browser]) and
    [make_token], the client of [attest.rs]'s tests; [CryptoLaws] states the
    documented round trips of the libraries on both sides, and [Toy] is a concrete
    instance of them for the examples. *)

From S2P Require Import Prelude AuditTypes Attest AttestCache.

(** ** The client's libraries *)

Class CryptoLaws `{Crypto} := {
  base64_encode : str → str;
  public_key : SecretKey → PublicKey;
  to_sec1_bytes : PublicKey → str;               (* uncompressed point *)
  aes128gcm_encrypt : str → str → str → str;     (* ciphertext + tag *)
  base64_decode_encode x : base64_decode (base64_encode x) = Some x;
  base64_no_lf x : LF ∉ base64_encode x;
  from_to_sec1 p : from_sec1_bytes (to_sec1_bytes p) = Some p;
  to_sec1_length p : length (to_sec1_bytes p) = 65%nat;
  ecdh_comm a b : diffie_hellman a (public_key b) = diffie_hellman b (public_key a);
  sha256_length x : length (sha256 x) = 32%nat;
  aes_length k iv m : length k = 16%nat →
    length (aes128gcm_encrypt k iv m) = (length m + 16)%nat;
  aes_decrypt_encrypt k iv m : length k = 16%nat →
    aes128gcm_decrypt k iv (aes128gcm_encrypt k iv m) = Some m }.

Section Client.
Context `{CryptoLaws}.

Definition sha256_hex (data : str) : str := sha256 data ≫= hex_byte.

(** The v2 plaintext. *)
Definition token_plaintext (nonce_b64 ts host method path body_field : str) : str :=
  join [LF] [PLAINTEXT_PREFIX; nonce_b64; ts; host; method; path; body_field].

(** The ECIES envelope: ephemeral point, IV, ciphertext and tag. *)
Definition sealed_token (ephem_priv : SecretKey) (proxy_pub : PublicKey) (iv plaintext : str)
    : str :=
  let aes_key := derive_key (diffie_hellman ephem_priv proxy_pub) in
  base64_encode (to_sec1_bytes (public_key ephem_priv) ++ iv
                 ++ aes128gcm_encrypt aes_key iv plaintext).

Definition make_token_with_body_field (ephem_priv : SecretKey) (proxy_pub : PublicKey)
    (nonce_b64 ts host method path body_field : str) : str :=
  let ephem_pub := public_key ephem_priv in
  let aes_key := derive_key (diffie_hellman ephem_priv proxy_pub) in
  let iv := repeat "000"%char 12 in
  let ct_tag := aes128gcm_encrypt aes_key iv
                  (token_plaintext nonce_b64 ts host method path body_field) in
  base64_encode (to_sec1_bytes ephem_pub ++ iv ++ ct_tag).

Definition make_token (ephem_priv : SecretKey) (proxy_pub : PublicKey)
    (nonce_b64 ts host method path body : str) : str :=
  make_token_with_body_field ephem_priv proxy_pub nonce_b64 ts host method path
    (sha256_hex body).
End Client.

(** ** Parsing lemmas *)

(** No byte of an integer [i64::from_str] accepts is a newline. *)
Lemma digits_value_no_lf radix acc s z :
  radix ≤ 36 → digits_value radix acc s = Some z → LF ∉ s.
Proof.
  intros Hr. revert acc. induction s as [|a s IH]; intros acc; cbn; [set_solver|].
  destruct (digit_value radix a) as [d|] eqn:Hd; [|done].
  intros Hs. apply not_elem_of_cons. split; [|by eapply IH].
  intros <-. unfold digit_value in Hd. change (code LF) with 10 in Hd. cbn in Hd. cases_lia.
Qed.

Lemma from_str_radix_no_lf signed radix lo hi s z :
  radix ≤ 36 → from_str_radix signed radix lo hi s = Some z → LF ∉ s.
Proof.
  intros Hr. unfold from_str_radix. intros Hs.
  assert (LF ∉ (split_sign signed s).2) as Hd.
  { destruct (split_sign signed s) as [neg digits].
    repeat case_match; simplify_eq; eauto using digits_value_no_lf. }
  clear Hs. unfold split_sign in Hd. repeat case_match; subst; cbn in Hd; try done.
  - apply not_elem_of_cons. by split.
  - to_prop. subst. apply not_elem_of_cons. by split.
Qed.

(** ** The body-binding field *)

Lemma parse_hex_pair_hex_byte a : parse_hex_pair (hex_byte a) = Ok a.
Proof. destruct a as [[] [] [] [] [] [] [] []]; vm_compute; reflexivity. Qed.

Lemma chunks2_hex s : chunks2 (s ≫= hex_byte) = hex_byte <$> s.
Proof. induction s as [|a s IH]; [done|]. cbn in *. by rewrite IH. Qed.

Lemma try_map_hex s : try_map parse_hex_pair (hex_byte <$> s) = Ok s.
Proof.
  induction s as [|a s IH]; [done|].
  cbn [fmap list_fmap try_map]. by rewrite parse_hex_pair_hex_byte, IH.
Qed.

Lemma length_hex s : length (s ≫= hex_byte) = (2 * length s)%nat.
Proof. induction s as [|a s IH]; [done|]. cbn in *. rewrite IH. lia. Qed.

Lemma parse_body_binding_hex h :
  length h = 32%nat → parse_body_binding (h ≫= hex_byte) = Ok (HashBody h).
Proof.
  intros Hl. pose proof (length_hex h) as Hlen. unfold parse_body_binding.
  rewrite decide_False by (intros E; rewrite E in Hlen; cbn in Hlen; lia).
  rewrite Hlen, Hl. cbn [negb Nat.mul Nat.add Nat.eqb]. unfold HEX_HASH_LEN.
  by rewrite chunks2_hex, try_map_hex.
Qed.

Lemma hex_no_lf h : LF ∉ (h ≫= hex_byte).
Proof.
  induction h as [|a h IH]; cbn; [set_solver|].
  assert (LF ∉ hex_byte a) by
    (destruct a as [[] [] [] [] [] [] [] []]; vm_compute; set_solver).
  cbn in *. set_solver.
Qed.

(** ** What phase 1 establishes *)

Section Binding.
Context `{Crypto}.

(** Everything an accepted phase 1 says of the request. *)
Record phase_one_facts (v : Verifier) (clk : Clock) (i : AttestInputs)
    (p1 : PhaseOne) (raw body_field : str) : Prop := {
  pf_ts : parse_i64 (in_ts i) = Some (p1_ts p1);
  pf_drift : check_drift (p1_ts p1) (unix_now clk) = Ok tt;
  pf_nonce : base64_decode (in_nonce_b64 i) = Some (p1_nonce p1);
  pf_nonce_len : length (p1_nonce p1) = NONCE_LEN;
  pf_fresh : p1_nonce p1 ∉ seen (nonce_cache v);
  pf_raw : base64_decode (in_token_b64 i) = Some raw;
  pf_raw_len : (TOKEN_MIN_LEN ≤ length raw)%nat;
  pf_plaintext :
    decrypt_token (private_key v) raw =
      Ok (join [LF] [PLAINTEXT_PREFIX; in_nonce_b64 i; in_ts i; in_host i;
                     in_method i; in_path i; body_field]);
  pf_no_lf : Forall (λ f, LF ∉ f)
    [in_nonce_b64 i; in_ts i; in_host i; in_method i; in_path i; body_field];
  pf_body : parse_body_binding body_field = Ok (p1_body_binding p1) }.

Lemma match_plaintext_ok i pt f :
  match_plaintext i pt = Ok f ↔
  split_on LF pt = [PLAINTEXT_PREFIX; in_nonce_b64 i; in_ts i; in_host i;
                    in_method i; in_path i; f].
Proof.
  unfold match_plaintext. split.
  - intros Hm. inv_match Hm. to_prop. by subst.
  - intros ->. rewrite !bool_decide_true by done. done.
Qed.

Lemma verify_headers_facts v clk i p1 :
  verify_headers v clk i = Ok p1 →
  ∃ raw body_field, phase_one_facts v clk i p1 raw body_field.
Proof.
  unfold verify_headers. intros Hv.
  destruct (parse_i64 (in_ts i)) as [ts|] eqn:Hts; [|done]. cbn [ok_or] in Hv.
  destruct (check_drift ts _) as [[]|] eqn:Hd; [|done].
  destruct (base64_decode (in_nonce_b64 i)) as [nonce|] eqn:Hn; [|done]. cbn [ok_or] in Hv.
  destruct (negb (length nonce =? NONCE_LEN)%nat) eqn:Hl; [done|].
  destruct (cache_contains _ _) eqn:Hc; [done|].
  destruct (base64_decode (in_token_b64 i)) as [raw|] eqn:Hr; [|done]. cbn [ok_or] in Hv.
  destruct (length raw <? TOKEN_MIN_LEN)%nat eqn:Hrl; [done|].
  destruct (decrypt_token _ raw) as [pt|] eqn:Hp; [|done].
  destruct (match_plaintext i pt) as [f|] eqn:Hm; [|done].
  destruct (parse_body_binding f) as [b|] eqn:Hb; [|done]. simplify_eq.
  apply match_plaintext_ok in Hm. pose proof (join_split_on LF pt) as Hj.
  pose proof (split_on_free LF pt) as Hf. rewrite Hm in Hj, Hf.
  apply negb_false_iff, Nat.eqb_eq in Hl. apply Nat.ltb_ge in Hrl.
  unfold cache_contains in Hc. apply bool_decide_eq_false in Hc.
  exists raw, f. split; cbn [p1_nonce p1_ts p1_body_binding]; try done.
  - by rewrite Hj.
  - by apply Forall_cons in Hf as [_ Hf].
Qed.

(** One token decrypts to one plaintext, and a plaintext splits one way. *)
Lemma phase_one_facts_inj v v' clk clk' i i' p1 p1' raw f f' :
  private_key v = private_key v' →
  phase_one_facts v clk i p1 raw f → phase_one_facts v' clk' i' p1' raw f' →
  [in_nonce_b64 i; in_ts i; in_host i; in_method i; in_path i; f] =
  [in_nonce_b64 i'; in_ts i'; in_host i'; in_method i'; in_path i'; f'].
Proof.
  intros Hk [] []. rewrite Hk in *.
  assert (LF ∉ PLAINTEXT_PREFIX) by (vm_compute; set_solver).
  match goal with
  | Ha : decrypt_token _ raw = Ok ?x, Hb : decrypt_token _ raw = Ok ?y |- _ =>
      assert (x = y) as Hj%(f_equal (split_on LF)) by congruence
  end.
  rewrite !split_on_join in Hj by (done || by constructor). exact (f_equal tail Hj).
Qed.
End Binding.

(** ** The browser's token is accepted *)

Section RoundTrip.
Context `{CryptoLaws}.

Lemma derive_key_length s : length (derive_key s) = 16%nat.
Proof. unfold derive_key. rewrite length_take, sha256_length. done. Qed.

Lemma decrypt_sealed sk ephem iv pt :
  length iv = 12%nat → pt ≠ [] →
  let raw := to_sec1_bytes (public_key ephem) ++ iv ++
    aes128gcm_encrypt (derive_key (diffie_hellman ephem (public_key sk))) iv pt in
  decrypt_token sk raw = Ok pt ∧ (TOKEN_MIN_LEN ≤ length raw)%nat.
Proof.
  intros Hiv Hpt raw. subst raw. split.
  - unfold decrypt_token.
    rewrite take_app_length' by (by rewrite to_sec1_length).
    rewrite !drop_app_length' by (by rewrite to_sec1_length).
    rewrite take_app_length' by done.
    rewrite drop_app, to_sec1_length. rewrite drop_ge by (by rewrite to_sec1_length; lia).
    cbn [app Nat.sub]. rewrite drop_app_length' by done.
    rewrite from_to_sec1. cbn [ok_or]. rewrite ecdh_comm.
    by rewrite aes_decrypt_encrypt by apply derive_key_length.
  - rewrite !length_app, to_sec1_length, aes_length by apply derive_key_length.
    rewrite Hiv. destruct pt; [done|]. unfold TOKEN_MIN_LEN. cbn. lia.
Qed.

Lemma verify_headers_sealed v clk ephem iv ts t nonce host method path field binding :
  length iv = 12%nat →
  parse_i64 ts = Some t → clock_ok clk → Z.abs (unix_now clk - t) ≤ 30 →
  length nonce = NONCE_LEN → nonce ∉ seen (nonce_cache v) →
  LF ∉ host → LF ∉ method → LF ∉ path → LF ∉ field →
  parse_body_binding field = Ok binding →
  verify_headers v clk
    {| in_ts := ts; in_nonce_b64 := base64_encode nonce;
       in_token_b64 := sealed_token ephem (public_key (private_key v)) iv
         (token_plaintext (base64_encode nonce) ts host method path field);
       in_host := host; in_method := method; in_path := path |} =
  Ok {| p1_nonce := nonce; p1_body_binding := binding; p1_ts := t |}.
Proof.
  intros Hiv Hts Hclk Hdrift Hlen Hnew Hh Hm Hp Hf Hb. unfold verify_headers.
  cbn [in_ts in_nonce_b64 in_token_b64]. rewrite Hts. cbn [ok_or].
  assert (is_i64 t).
  { unfold parse_i64, from_str_radix in Hts. cases_lia; unfold is_i64; lia. }
  rewrite check_drift_eq by auto with proxy.
  rewrite (proj2 (Z.leb_le _ _) Hdrift), base64_decode_encode. cbn [ok_or].
  rewrite Hlen, Nat.eqb_refl. cbn [negb].
  unfold cache_contains. rewrite bool_decide_false by done.
  unfold sealed_token. rewrite base64_decode_encode. cbn [ok_or].
  set (pt := token_plaintext _ _ _ _ _ _).
  destruct (decrypt_sealed (private_key v) ephem iv pt) as [-> Hraw]; [done|done|].
  apply Nat.ltb_ge in Hraw as ->.
  assert (match_plaintext _ pt = Ok field) as ->; [|by rewrite Hb].
  apply match_plaintext_ok. cbn [in_ts in_nonce_b64 in_host in_method in_path].
  subst pt. unfold token_plaintext. rewrite split_on_join; [done|done|].
  assert (LF ∉ PLAINTEXT_PREFIX) by (vm_compute; set_solver).
  repeat constructor; try done; [apply base64_no_lf|].
  by eapply (from_str_radix_no_lf true 10).
Qed.

(** The two fields a body binding is written as. *)
Lemma binding_field_hashed body :
  LF ∉ sha256_hex body ∧ parse_body_binding (sha256_hex body) = Ok (HashBody (sha256 body)).
Proof. split; [apply hex_no_lf|]. apply parse_body_binding_hex, sha256_length. Qed.

Lemma binding_field_unbound :
  LF ∉ UNBOUND_SENTINEL ∧ parse_body_binding UNBOUND_SENTINEL = Ok UnboundBody.
Proof. split; [vm_compute; set_solver|done]. Qed.
End RoundTrip.

(** ** A concrete instance of the library parameters, for the examples

    Not cryptography: base64 is replaced by hex, a key is one byte (its SEC1
    form zero-padded to 65), the shared secret is a xor, the hash pads to 32
    bytes and the cipher prefixes the key as its tag. *)
Module Toy.
Definition zeros (n : nat) : str := repeat "000"%char n.
Definition pad (n : nat) (s : str) : str := take n (s ++ zeros n).

Definition unhex (s : str) : option str :=
  match try_map parse_hex_pair (chunks2 s) with
  | Ok bs => if Nat.even (length s) then Some bs else None
  | Err _ => None
  end.
Definition decrypt (k iv ct : str) : option str :=
  if decide (take 16 ct = k) then Some (drop 16 ct) else None.
Definition point (b : str) : option ascii :=
  match b with
  | a :: r => if decide (r = zeros 64) then Some a else None
  | [] => None
  end.

#[export] Instance crypto : Crypto := {
  SecretKey := ascii;
  PublicKey := ascii;
  base64_decode := unhex;
  from_sec1_pem pem :=
    match pem with a :: _ => Ok a | [] => Err ("no PEM block" : str) end;
  from_sec1_bytes := point;
  diffie_hellman sk pk := [byte_of (Z.lxor (code sk) (code pk))];
  sha256 := pad 32;
  aes128gcm_decrypt := decrypt }.

Lemma length_pad n s : length (pad n s) = n.
Proof. unfold pad, zeros. rewrite length_take, length_app, repeat_length. lia. Qed.

Lemma unhex_hex s : unhex (s ≫= hex_byte) = Some s.
Proof.
  unfold unhex. rewrite chunks2_hex, try_map_hex, length_hex. by rewrite Nat.even_even.
Qed.

#[export] Instance laws : CryptoLaws.
Proof.
  refine {| base64_encode := λ s, s ≫= hex_byte;
            public_key := λ k : SecretKey, (k : PublicKey);
            to_sec1_bytes := λ p : PublicKey, (p : ascii) :: zeros 64;
            aes128gcm_encrypt := λ k iv m, k ++ m |}.
  - exact unhex_hex.
  - exact hex_no_lf.
  - intros p. cbn. by rewrite decide_True.
  - intros p. reflexivity.
  - intros a b. cbn. by rewrite Z.lxor_comm.
  - intros x. apply length_pad.
  - intros k iv m Hk. rewrite length_app. lia.
  - intros k iv m Hk. cbn. unfold decrypt.
    rewrite take_app_length', drop_app_length' by done. by rewrite decide_True.
Defined.

(** A verifier, a clock at Unix time 1000 and a browser key. *)
Definition verifier : Verifier := {| private_key := "k"%char; nonce_cache := empty_cache |}.
Definition clk : Clock := {| wall := from_secs 1000; instant := 0 |}.
Definition nonce : str := "0123456789abcdef".
Definition browser_key : @SecretKey crypto := "e"%char.
Definition proxy_pk : @PublicKey crypto := "k"%char.
Definition inputs (path field : str) : AttestInputs :=
  {| in_ts := "1010"; in_nonce_b64 := base64_encode nonce;
     in_token_b64 := make_token_with_body_field "e"%char (public_key "k"%char)
       (base64_encode nonce) "1010" "proxy.example" "POST" path field;
     in_host := "proxy.example"; in_method := "POST"; in_path := path |}.
End Toy.

Example toy_accepts :
  verify_headers Toy.verifier Toy.clk (Toy.inputs "/p" "unbound")
  = Ok {| p1_nonce := Toy.nonce; p1_body_binding := UnboundBody; p1_ts := 1010 |}.
Proof. vm_compute. reflexivity. Qed.

Example toy_refuses_newline :
  verify_headers Toy.verifier Toy.clk (Toy.inputs ("/p" ++ [LF] ++ "x") "unbound")
  = Err PlaintextMismatch.
Proof. vm_compute. reflexivity. Qed.

(** [u8::from_str_radix] takes a sign, so the hash field need not be hex. *)
Example signed_hash_accepted :
  parse_body_binding (concat (repeat ("+f" : str) 32)) = Ok (HashBody (repeat (byte_of 15) 32)).
Proof. vm_compute. reflexivity. Qed.

(** ** Properties *)

(** Claim C5.  Phase 1 accepts exactly the requests that are fully bound by a
    token for this proxy: the timestamp parses and is in its window, the nonce
    is 16 fresh bytes, and the token decrypts with the proxy's key to the
    seven-line plaintext naming precisely this request's nonce, timestamp, host,
    method and path (none holding a newline) and a well-formed body binding,
    which is what phase 1 returns. *)
Theorem verify_headers_iff `{Crypto} v clk i p1 :
  verify_headers v clk i = Ok p1 ↔
  ∃ raw body_field, phase_one_facts v clk i p1 raw body_field.
Proof.
  split; [apply verify_headers_facts|].
  intros (raw & f & [Hts Hd Hn Hl Hc Hr Hrl Hp Hlf Hb]). unfold verify_headers.
  rewrite Hts. cbn [ok_or]. rewrite Hd, Hn. cbn [ok_or].
  rewrite Hl, Nat.eqb_refl. cbn [negb].
  unfold cache_contains. rewrite bool_decide_false, Hr by done. cbn [ok_or].
  apply Nat.ltb_ge in Hrl as ->. rewrite Hp.
  assert (match_plaintext i _ = Ok f) as ->; [|rewrite Hb; by destruct p1].
  apply match_plaintext_ok, split_on_join; [done|].
  constructor; [vm_compute; set_solver|done].
Qed.

(** Claim C23.  A token cannot be moved to another request: whatever the state
    and the time, two accepted requests carrying the same token under one proxy
    key agree on nonce, timestamp, host, method, path and body binding. *)
Theorem token_binds_one_request `{Crypto} v v' clk clk' i i' p1 p1' :
  private_key v = private_key v' → in_token_b64 i = in_token_b64 i' →
  verify_headers v clk i = Ok p1 → verify_headers v' clk' i' = Ok p1' →
  i = i' ∧ p1 = p1'.
Proof.
  intros Hk Htok (raw & f & Hf)%verify_headers_facts (raw' & f' & Hf')%verify_headers_facts.
  assert (raw = raw') as <-.
  { destruct Hf, Hf'. congruence. }
  pose proof (phase_one_facts_inj _ _ _ _ _ _ _ _ _ _ _ Hk Hf Hf') as Heq.
  assert (f = f') as <- by congruence.
  assert (i = i') as <- by (clear -Htok Heq; destruct i, i'; cbn in *; congruence).
  split; [done|].
  assert (p1_nonce p1 = p1_nonce p1') by (destruct Hf, Hf'; congruence).
  assert (p1_body_binding p1 = p1_body_binding p1') by (destruct Hf, Hf'; congruence).
  assert (p1_ts p1 = p1_ts p1') by (destruct Hf, Hf'; congruence).
  destruct p1, p1'. cbn in *. congruence.
Qed.

Theorem token_binds_one_request_witness :
  let i := Toy.inputs "/p" "unbound" in
  let p1 := {| p1_nonce := Toy.nonce; p1_body_binding := UnboundBody; p1_ts := 1010 |} in
  i = i ∧ p1 = p1.
Proof.
  apply (token_binds_one_request Toy.verifier Toy.verifier Toy.clk
    {| wall := from_secs 1035; instant := 7 |});
    [reflexivity | reflexivity | vm_compute; reflexivity | vm_compute; reflexivity].
Defined.

(** The client of the proxy's own tests, which uses a zero IV. *)
Lemma test_client_accepted `{CryptoLaws} v clk ephem ts t nonce host method path body :
  parse_i64 ts = Some t → clock_ok clk → Z.abs (unix_now clk - t) ≤ 30 →
  length nonce = NONCE_LEN → nonce ∉ seen (nonce_cache v) →
  LF ∉ host → LF ∉ method → LF ∉ path →
  let pk := public_key (private_key v) in
  let nonce_b64 := base64_encode nonce in
  let request token :=
    {| in_ts := ts; in_nonce_b64 := nonce_b64; in_token_b64 := token;
       in_host := host; in_method := method; in_path := path |} in
  let accepted binding :=
    Ok {| p1_nonce := nonce; p1_body_binding := binding; p1_ts := t |} in
  verify_headers v clk (request (make_token ephem pk nonce_b64 ts host method path body))
    = accepted (HashBody (sha256 body))
  ∧ verify_headers v clk
      (request (make_token_with_body_field ephem pk nonce_b64 ts host method path "unbound"))
    = accepted UnboundBody.
Proof.
  intros. split; apply (verify_headers_sealed v clk ephem (repeat "000"%char 12)); try done.
  - apply binding_field_hashed.
  - apply binding_field_hashed.
  - apply binding_field_unbound.
Qed.

(** Phase 2 on every branch.  Success needs the body hash to be the
    one the token commits to (or an unbound token), a nonce not seen before and
    the commit window open, and leaves the nonce recorded.  Every refusal, be
    it for the hash, a replay or the window, leaves the verifier untouched; no
    other error can come out. *)
Lemma phase_two_cases `{Crypto} v clk p1 actual :
  let v' := (verify_body_and_commit v clk p1 actual).1 in
  match (verify_body_and_commit v clk p1 actual).2 with
  | Ok _ =>
      (p1_body_binding p1 = UnboundBody ∨ p1_body_binding p1 = HashBody actual)
      ∧ p1_nonce p1 ∉ seen (nonce_cache v) ∧ p1_nonce p1 ∈ seen (nonce_cache v')
      ∧ check_commit_window (p1_ts p1) (unix_now clk) = Ok tt
      ∧ private_key v' = private_key v
  | Err e =>
      v' = v ∧
      match e with
      | BodyHashMismatch => ∃ h, p1_body_binding p1 = HashBody h ∧ h ≠ actual
      | NonceReplay => p1_nonce p1 ∈ seen (nonce_cache v)
      | TimestampDrift _ | CommitTooLate _ =>
          p1_nonce p1 ∉ seen (nonce_cache v)
          ∧ check_commit_window (p1_ts p1) (unix_now clk) = Err e
      | _ => False
      end
  end.
Proof.
  assert (∀ e, check_commit_window (p1_ts p1) (unix_now clk) = Err e →
    match e with TimestampDrift _ | CommitTooLate _ => True | _ => False end) as Hwin.
  { unfold check_commit_window. intros e He. by repeat case_match; simplify_eq. }
  unfold verify_body_and_commit, commit_nonce, cache_contains.
  destruct (p1_body_binding p1) as [h|] eqn:Hb.
  1: destruct (decide (h ≠ actual)) as [Hne|<-%dec_stable]; [cbn; by eauto|].
  all: destruct (bool_decide (p1_nonce p1 ∈ seen (nonce_cache v))) eqn:Hc; to_prop; cbn; [done|].
  all: destruct (check_commit_window _ _) as [[]|e] eqn:Hw;
    [|specialize (Hwin _ eq_refl); by destruct e].
  all: assert (p1_nonce p1 ∉ seen (evict_expired (instant clk) (nonce_cache v))) as Hc'
    by (rewrite evict_expired_eq; cbn; set_solver).
  all: unfold cache_commit, cache_contains; rewrite bool_decide_false by done; cbn.
  all: split_and!; auto; set_solver.
Qed.
