(* ===== verification/Replay.v ===== *)
(** Replay safety of the whole verifier, over every interleaving of requests.

    The proxy's worker threads run phase 1 and the commit of many requests
    concurrently; only the commit is serialised (by the cache's mutex).  A
    system state is the verifier, the phase-1 results still in flight, the
    clocks, and the commits accepted so far; a step moves time, finishes a
    phase 1, or commits an in-flight request (either directly, as for an unbound
    body, or through the body check).  An in-flight result is never consumed,
    so several copies of one captured request can commit in any order.

    The wall clock may jump forward at will and backwards by at most [tol] in
    total below its highest lead over the monotonic clock.  With [tol] up to
    59 s no token is ever accepted twice, and 59 s cannot be improved. *)

From Stdlib Require Import Sorting.Sorted.
From S2P Require Import Prelude AuditTypes Attest AttestCache AttestToken.

Record Acceptance := { acc_nonce : str; acc_ts : Z; acc_clock : Clock }.

(** The token an acceptance is of: its nonce and timestamp. *)
Definition acc_token (a : Acceptance) : str * Z := (acc_nonce a, acc_ts a).
Definition acc_log (a : Acceptance) : str * Z := (acc_nonce a, instant (acc_clock a)).

(** How far the wall clock leads the monotonic one. *)
Definition skew (clk : Clock) : Z := wall clk - instant clk.

Section System.
Context `{Crypto}.

Record System := {
  sys_verifier : Verifier;
  sys_inflight : list PhaseOne;
  sys_clock : Clock;
  sys_lead : Z;   (* the highest skew seen so far *)
  sys_accepted : list Acceptance }.

Definition record_commit (s : System) (p1 : PhaseOne)
    (out : Verifier * result unit AttestError) : System :=
  {| sys_verifier := out.1;
     sys_inflight := sys_inflight s;
     sys_clock := sys_clock s;
     sys_lead := sys_lead s;
     sys_accepted :=
       match out.2 with
       | Ok _ => sys_accepted s ++
           [{| acc_nonce := p1_nonce p1; acc_ts := p1_ts p1; acc_clock := sys_clock s |}]
       | Err _ => sys_accepted s
       end |}.

Inductive step (tol : Z) (s : System) : System → Prop :=
  | step_tick clk :
      clock_ok clk →
      instant (sys_clock s) ≤ instant clk →
      sys_lead s - tol ≤ skew clk →
      step tol s {| sys_verifier := sys_verifier s; sys_inflight := sys_inflight s;
                    sys_clock := clk; sys_lead := Z.max (sys_lead s) (skew clk);
                    sys_accepted := sys_accepted s |}
  | step_phase_one i p1 :
      verify_headers (sys_verifier s) (sys_clock s) i = Ok p1 →
      step tol s {| sys_verifier := sys_verifier s;
                    sys_inflight := p1 :: sys_inflight s;
                    sys_clock := sys_clock s; sys_lead := sys_lead s;
                    sys_accepted := sys_accepted s |}
  | step_commit_unbound p1 :
      p1 ∈ sys_inflight s →
      step tol s (record_commit s p1
        (commit_nonce (sys_verifier s) (sys_clock s) p1))
  | step_commit_body p1 actual :
      p1 ∈ sys_inflight s →
      step tol s (record_commit s p1
        (verify_body_and_commit (sys_verifier s) (sys_clock s) p1 actual)).

Definition initial (sk : SecretKey) (clk : Clock) : System :=
  {| sys_verifier := {| private_key := sk; nonce_cache := empty_cache |};
     sys_inflight := []; sys_clock := clk; sys_lead := skew clk; sys_accepted := [] |}.

Definition reachable (tol : Z) (sk : SecretKey) : System → Prop :=
  λ s, ∃ clk, clock_ok clk ∧ rtc (step tol) (initial sk clk) s.

(** ** The invariant *)

Definition acceptance_ok (s : System) (a : Acceptance) : Prop :=
  from_secs (acc_ts a - 30) ≤ wall (acc_clock a)
  ∧ skew (acc_clock a) ≤ sys_lead s.

Record inv (tol : Z) (s : System) : Prop := {
  inv_clock : clock_ok (sys_clock s);
  inv_lead : sys_lead s - tol ≤ skew (sys_clock s);
  inv_top : skew (sys_clock s) ≤ sys_lead s;
  inv_cache : rs_refines (nonce_cache (sys_verifier s)) (acc_log <$> sys_accepted s)
                (instant (sys_clock s));
  inv_inflight : Forall (λ p1, is_i64 (p1_ts p1)) (sys_inflight s);
  inv_accepted : Forall (acceptance_ok s) (sys_accepted s);
  inv_unique : NoDup (acc_token <$> sys_accepted s) }.

Lemma parse_i64_range s z : parse_i64 s = Some z → is_i64 z.
Proof.
  unfold parse_i64, from_str_radix. intros. repeat case_match; simplify_eq; to_prop.
  all: unfold is_i64; lia.
Qed.

Lemma verify_headers_ts v clk i p1 :
  verify_headers v clk i = Ok p1 → is_i64 (p1_ts p1).
Proof.
  unfold verify_headers. intros Hv.
  destruct (parse_i64 (in_ts i)) as [ts|] eqn:Hts; [|done]. cbn in Hv.
  inv_match Hv. cbn. by eapply parse_i64_range.
Qed.

(** What one commit, direct or through the body check, does to the cache. *)
Definition commit_spec (v : Verifier) (clk : Clock) (p1 : PhaseOne) (log : Log)
    (out : Verifier * result unit AttestError) : Prop :=
  match out.2 with
  | Ok _ =>
      rs_refines (nonce_cache out.1) (log ++ [(p1_nonce p1, instant clk)]) (instant clk)
      ∧ (∀ t, (p1_nonce p1, t) ∈ log → NONCE_TTL ≤ instant clk - t)
      ∧ check_commit_window (p1_ts p1) (unix_now clk) = Ok tt
  | Err _ => rs_refines (nonce_cache out.1) log (instant clk)
  end.

Lemma commit_nonce_spec v clk p1 log :
  rs_refines (nonce_cache v) log (instant clk) →
  commit_spec v clk p1 log (commit_nonce v clk p1).
Proof.
  intros HR. unfold commit_nonce.
  destruct (cache_contains _ _); [done|].
  destruct (check_commit_window _ _) as [[]|] eqn:Hw; [|done].
  pose proof (rs_commit_spec _ _ (p1_nonce p1) _ HR) as Hs. cbn [rs_commit nonce_cache_store] in Hs.
  destruct (cache_commit _ _ _) as [c [[]|e]]; [by destruct Hs|done].
Qed.

Lemma verify_body_spec v clk p1 h log :
  rs_refines (nonce_cache v) log (instant clk) →
  commit_spec v clk p1 log (verify_body_and_commit v clk p1 h).
Proof.
  intros HR. unfold verify_body_and_commit.
  repeat case_match; try by apply commit_nonce_spec. done.
Qed.

#[local] Hint Resolve commit_nonce_spec verify_body_spec : proxy.

(** A second acceptance inside the commit window of a token accepted before
    needs the wall clock to have stepped back by more than 59 s. *)
Lemma window_outlived tol s ts a :
  tol ≤ from_secs 59 → clock_ok (sys_clock s) → sys_lead s - tol ≤ skew (sys_clock s) →
  is_i64 ts → acc_ts a = ts → acceptance_ok s a →
  NONCE_TTL ≤ instant (sys_clock s) - instant (acc_clock a) →
  check_commit_window ts (unix_now (sys_clock s)) = Ok tt → False.
Proof.
  intros Htol Hclk Hlead Hts <- [Hlo Hsk] Httl Hw.
  rewrite check_commit_window_eq in Hw by auto with proxy.
  rewrite unix_now_eq in Hw by done. destruct Hclk as [Hw0 _].
  unfold skew, NONCE_TTL, from_secs, NANOS in *.
  cases_lia.
Qed.

Lemma inv_record tol s p1 out :
  tol ≤ from_secs 59 → inv tol s → p1 ∈ sys_inflight s →
  commit_spec (sys_verifier s) (sys_clock s) p1 (acc_log <$> sys_accepted s) out →
  inv tol (record_commit s p1 out).
Proof.
  intros Htol [Hclk Hlead Htop HR Hfl Hacc Hu] Hin Hspec. unfold commit_spec in Hspec.
  assert (is_i64 (p1_ts p1)) as Hts by (rewrite Forall_forall in Hfl; eauto).
  unfold record_commit. destruct out as [v' [[]|e]]; cbn in *; [|by split].
  destruct Hspec as (HR' & Httl & Hw). split; cbn; try done.
  - by rewrite fmap_app.
  - apply Forall_app. split; [done|]. constructor; [|done]. split; cbn; [|done].
    rewrite check_commit_window_eq in Hw by auto with proxy.
    rewrite unix_now_eq in Hw by done. unfold from_secs, NANOS in *.
    cases_lia.
  - rewrite fmap_app. apply NoDup_app. split; [done|]. split; [|apply NoDup_singleton].
    intros tok Htok [=]%list_elem_of_singleton. subst tok.
    apply list_elem_of_fmap in Htok as (a & Heq & Ha). injection Heq as Hn Ht.
    rewrite Forall_forall in Hacc.
    eapply (window_outlived tol s (p1_ts p1) a); eauto.
    apply Httl. apply list_elem_of_fmap. exists a. by rewrite Hn.
Qed.

Lemma inv_initial tol sk clk : 0 ≤ tol → clock_ok clk → inv tol (initial sk clk).
Proof. intros. split; cbn; try done; try lia; [apply refines_empty|constructor]. Qed.

Lemma inv_step tol s s' : tol ≤ from_secs 59 → inv tol s → step tol s s' → inv tol s'.
Proof.
  intros Htol Hinv Hstep. pose proof Hinv as [Hclk Hlead Htop HR Hfl Hacc Hu].
  inversion Hstep; subst.
  - split; cbn; try done; try lia; [by eapply rs_refines_later|].
    eapply Forall_impl; [exact Hacc|]. intros a [? ?]. split; cbn; [done|lia].
  - split; cbn; try done. constructor; [by eapply verify_headers_ts|done].
  - apply inv_record; auto with proxy.
  - apply inv_record; auto with proxy.
Qed.

Lemma reachable_inv tol sk s :
  0 ≤ tol ≤ from_secs 59 → reachable tol sk s → inv tol s.
Proof.
  intros Htol (clk & Hclk & Hr). assert (inv tol (initial sk clk)) as Hi
    by (apply inv_initial; [lia|done]).
  induction Hr as [|s1 s2 s3 Hs _ IH]; [done|]. apply IH. eapply inv_step; [lia|done..].
Qed.
End System.

(** ** Properties *)

(** Claim C4.  Replay safety: in every state reachable by any interleaving of
    phase 1 runs, commits and clock ticks, no token (nonce and timestamp) has
    been accepted twice, provided the wall clock never falls more than 59 s
    below its highest lead over the monotonic clock. *)
Theorem no_token_accepted_twice `{Crypto} tol sk s :
  0 ≤ tol ≤ from_secs 59 → reachable tol sk s → NoDup (acc_token <$> sys_accepted s).
Proof. intros Htol Hr. by apply (reachable_inv _ _ _ Htol) in Hr as []. Qed.

(** *** A concrete run *)

Section Runs.
#[local] Existing Instances Toy.crypto Toy.laws.

Definition run_nonce (c : ascii) : str := repeat c 16.
Definition run_inputs (c : ascii) (ts : str) : AttestInputs :=
  {| in_ts := ts; in_nonce_b64 := base64_encode (run_nonce c);
     in_token_b64 := make_token_with_body_field Toy.browser_key
       (public_key (private_key Toy.verifier)) (base64_encode (run_nonce c)) ts
       "h" "POST" "/p" "unbound";
     in_host := "h"; in_method := "POST"; in_path := "/p" |}.
Definition run_p1 (c : ascii) (ts : Z) : PhaseOne :=
  {| p1_nonce := run_nonce c; p1_body_binding := UnboundBody; p1_ts := ts |}.
Definition run_clock (w i : Z) : Clock := {| wall := w; instant := i |}.

(** The states of a run are computed by the same functions as the steps. *)
Inductive event :=
  | EvTick (clk : Clock)
  | EvPhaseOne (i : AttestInputs)
  | EvCommit (p1 : PhaseOne).

Definition run_event (s : System) (e : event) : System :=
  match e with
  | EvTick clk =>
      {| sys_verifier := sys_verifier s; sys_inflight := sys_inflight s; sys_clock := clk;
         sys_lead := Z.max (sys_lead s) (skew clk); sys_accepted := sys_accepted s |}
  | EvPhaseOne i =>
      match verify_headers (sys_verifier s) (sys_clock s) i with
      | Ok p1 => {| sys_verifier := sys_verifier s; sys_inflight := p1 :: sys_inflight s;
                    sys_clock := sys_clock s; sys_lead := sys_lead s;
                    sys_accepted := sys_accepted s |}
      | Err _ => s
      end
  | EvCommit p1 =>
      if bool_decide (p1 ∈ sys_inflight s)
      then record_commit s p1 (commit_nonce (sys_verifier s) (sys_clock s) p1) else s
  end.

Definition event_ok (tol : Z) (s : System) (e : event) : bool :=
  match e with
  | EvTick clk =>
      (0 <=? wall clk) && (wall clk / NANOS <=? i64_max)
      && (instant (sys_clock s) <=? instant clk) && (sys_lead s - tol <=? skew clk)
  | _ => true
  end.

Fixpoint run_ok (tol : Z) (s : System) (es : list event) : bool :=
  match es with
  | [] => true
  | e :: es' => event_ok tol s e && run_ok tol (run_event s e) es'
  end.

Lemma run_reachable tol sk clk es :
  clock_ok clk → run_ok tol (initial sk clk) es = true →
  reachable tol sk (foldl run_event (initial sk clk) es).
Proof.
  intros Hclk Hok. exists clk. split; [done|].
  generalize dependent (initial sk clk). intros s0.
  revert s0. induction es as [|e es IH]; intros s Hok; [apply rtc_refl|].
  cbn in Hok. apply andb_true_iff in Hok as [He Hok].
  assert (rtc (step tol) s (run_event s e)) as Hs; [|by etrans; [exact Hs|apply IH]].
  destruct e as [clk'|i|p1]; cbn in *.
  - to_prop. apply rtc_once, step_tick; [split|..]; lia.
  - destruct (verify_headers _ _ i) eqn:Hv; [|apply rtc_refl].
    by eapply rtc_once, step_phase_one.
  - case_bool_decide; [|apply rtc_refl]. by apply rtc_once, step_commit_unbound.
Qed.

(** Two copies of one captured request pass phase 1 together; a minute and a
    half later both try to commit, then a second request evicts old entries. *)
Definition safe_run : list event :=
  [EvPhaseOne (run_inputs "a" "1010"); EvPhaseOne (run_inputs "a" "1010");
   EvCommit (run_p1 "a" 1010); EvTick (run_clock (from_secs 1100) (from_secs 100));
   EvCommit (run_p1 "a" 1010);
   EvTick (run_clock (from_secs 1129) (from_secs 180));
   EvPhaseOne (run_inputs "b" "1120"); EvCommit (run_p1 "b" 1120);
   EvCommit (run_p1 "a" 1010)].

Theorem no_token_accepted_twice_witness :
  let s := foldl run_event (initial (private_key Toy.verifier) Toy.clk) safe_run in
  0 ≤ from_secs 59 ≤ from_secs 59 ∧ length (sys_accepted s) = 2%nat
  ∧ NoDup (acc_token <$> sys_accepted s).
Proof.
  split; [unfold from_secs, NANOS; lia|]. split; [vm_compute; reflexivity|].
  refine (no_token_accepted_twice (from_secs 59) (private_key Toy.verifier) _ _ _).
  - unfold from_secs, NANOS; lia.
  - apply run_reachable; [split; vm_compute; discriminate | vm_compute; reflexivity].
Defined.

(** One nanosecond more of backwards step and the same two copies both commit. *)
Definition replay_run : list event :=
  [EvPhaseOne (run_inputs "a" "1030"); EvPhaseOne (run_inputs "b" "1030");
   EvCommit (run_p1 "a" 1030);
   EvTick (run_clock (from_secs 1121 - 1) (from_secs 180));
   EvCommit (run_p1 "b" 1030); EvCommit (run_p1 "a" 1030)].

(** The 59 s of tolerance is exact: with one nanosecond more there is
    a reachable state in which one token has been accepted twice. *)
Theorem replay_tolerance_is_tight :
  ∃ s, reachable (from_secs 59 + 1) (private_key Toy.verifier) s
     ∧ ¬ NoDup (acc_token <$> sys_accepted s).
Proof.
  exists (foldl run_event (initial (private_key Toy.verifier) Toy.clk) replay_run).
  split.
  - apply run_reachable; [split; vm_compute; discriminate | vm_compute; reflexivity].
  - apply (bool_decide_eq_false_1 _). vm_compute. reflexivity.
Qed.
End Runs.
