(* ===== verification/Config.v ===== *)
(** Configuration ([src/proxy/src/config.rs]): the sections as records with
    their defaults, and the validation of [[proxy]] and [[logging]] that aborts
    startup.  [usize] is 64 bits, as on the platforms the proxy ships for. *)

From S2P Require Import Prelude.

(** ** Sections *)

(** [Secret]: a string whose [Debug] form is redacted. *)
Record Secret := { secret_value : str }.

Record ProxyConfig := {
  listen : str;
  upstream : str;
  upstream_ca : str;
  tls_cert : str;
  tls_key : str;
  tls_key_passphrase : Secret;
  tls_key_passphrase_file : str }.

Record AttestationConfig := { cfg_private_key : str }.

Record RuleConfig := {
  rule_pattern : str;
  rule_window_secs : Z;
  rule_max_requests : Z }.

Record RateLimitConfig := {
  rl_enabled : bool;
  rl_window_secs : Z;
  rl_max_requests : Z;
  rl_rules : list RuleConfig }.

Record MtlsConfig := { mtls_enabled : bool; client_ca : str }.

Record MachineIdentityConfig := {
  mi_enabled : bool;
  machine_ca : str;
  mi_required : bool;
  allowed_hostnames : list str;
  dns_ttl_secs : Z;
  dns_negative_ttl_secs : Z;
  dns_stale_grace_secs : Z;
  partial_chain : bool }.

Record ProxyBypassConfig := {
  pb_enabled : bool;
  allowed_ip_ranges : list str;
  allowed_subjects : list str }.

Record LoggingConfig := {
  log_dir : str;
  file_prefix : str;
  log_level : str;
  rotation : str;
  max_files : Z;
  log_stderr : bool }.

Record Config := {
  proxy : ProxyConfig;
  attestation : AttestationConfig;
  rate_limiting : RateLimitConfig;
  mtls : MtlsConfig;
  machine_identity : MachineIdentityConfig;
  proxy_bypass : ProxyBypassConfig;
  logging : LoggingConfig }.

(** ** Defaults *)

Definition ProxyConfig_default : ProxyConfig :=
  {| listen := ""; upstream := ""; upstream_ca := ""; tls_cert := ""; tls_key := "";
     tls_key_passphrase := {| secret_value := "" |}; tls_key_passphrase_file := "" |}.
Definition AttestationConfig_default : AttestationConfig := {| cfg_private_key := "" |}.
Definition RateLimitConfig_default : RateLimitConfig :=
  {| rl_enabled := false; rl_window_secs := 0; rl_max_requests := 0; rl_rules := [] |}.
Definition MtlsConfig_default : MtlsConfig := {| mtls_enabled := false; client_ca := "" |}.

(** Machine identity is on by default. *)
Definition MachineIdentityConfig_default : MachineIdentityConfig :=
  {| mi_enabled := true; machine_ca := ""; mi_required := true; allowed_hostnames := [];
     dns_ttl_secs := 14400; dns_negative_ttl_secs := 30; dns_stale_grace_secs := 3600;
     partial_chain := false |}.
Definition ProxyBypassConfig_default : ProxyBypassConfig :=
  {| pb_enabled := false; allowed_ip_ranges := []; allowed_subjects := [] |}.

Definition LoggingConfig_default : LoggingConfig :=
  {| log_dir := ""; file_prefix := "denbrowser-proxy.log"; log_level := "info";
     rotation := "daily"; max_files := 14; log_stderr := true |}.

Definition Config_default : Config :=
  {| proxy := ProxyConfig_default; attestation := AttestationConfig_default;
     rate_limiting := RateLimitConfig_default; mtls := MtlsConfig_default;
     machine_identity := MachineIdentityConfig_default;
     proxy_bypass := ProxyBypassConfig_default; logging := LoggingConfig_default |}.

(** ** Secrets *)

Definition secret_is_empty (s : Secret) : bool := is_empty (secret_value s).
Definition secret_expose (s : Secret) : str := secret_value s.

(** [Debug for Secret]: says whether a value is set, and nothing else. *)
Definition secret_debug (s : Secret) : str :=
  if is_empty (secret_value s) then [DQUOTE; DQUOTE] else "<redacted>".

Definition SECRET_SETTINGS : list str := ["[proxy].tls_key_passphrase" : str].

(** ** [ProxyConfig::validate] *)

Definition blank (s : str) : bool := is_empty (trim s).

(** The [for] over the required settings: the first blank one is the error. *)
Fixpoint validate_required (settings : list (str * str)) : result unit str :=
  match settings with
  | [] => Ok tt
  | (name, value) :: rest =>
      if blank value then Err ("[proxy]." ++ name ++ " is required")
      else validate_required rest
  end.

Definition required_settings (c : ProxyConfig) : list (str * str) :=
  [("listen" : str, listen c); ("upstream" : str, upstream c);
   ("tls_cert" : str, tls_cert c); ("tls_key" : str, tls_key c)].

Definition ProxyConfig_validate (c : ProxyConfig) : result unit str :=
  let? _ := validate_required (required_settings c) in
  bail_if negb (secret_is_empty (tls_key_passphrase c))
          && negb (is_empty (tls_key_passphrase_file c))
  with ("[proxy].tls_key_passphrase and [proxy].tls_key_passphrase_file are "
        ++ "mutually exclusive — set at most one")
  in Ok tt.

(** ** [LoggingConfig::validate] *)

Definition LOG_ROTATIONS : list str := ["minutely" : str; "hourly" : str; "daily" : str; "never" : str].
Definition LOG_LEVELS : list str :=
  ["trace" : str; "debug" : str; "info" : str; "warn" : str; "error" : str; "off" : str].

Definition file_enabled (c : LoggingConfig) : bool := negb (blank (log_dir c)).

Section LoggingValidate.
(** [{:?}] of a [str]. *)
Variable debug_str : str → str.

Definition LoggingConfig_validate (c : LoggingConfig) : result unit str :=
  bail_if negb (bool_decide (rotation c ∈ LOG_ROTATIONS))
  with ("[logging].rotation must be one of " ++ join ", " LOG_ROTATIONS
        ++ " (got " ++ debug_str (rotation c) ++ ")")
  in
  bail_if file_enabled c && blank (file_prefix c)
  with ("[logging].file_prefix is required when [logging].dir is set" : str)
  in
  let level := trim (log_level c) in
  bail_if forallb blank (split_on "," level)
  with ("[logging].level is empty, which would turn off every log line, audit "
        ++ "records included; write " ++ [DQUOTE] ++ "off" ++ [DQUOTE]
        ++ " if that is what you mean")
  in
  bail_if negb (bool_decide (","%char ∈ level)) && negb (bool_decide ("="%char ∈ level))
          && negb (bool_decide (to_ascii_lowercase level ∈ LOG_LEVELS))
  with ("[logging].level must be one of " ++ join ", " LOG_LEVELS
        ++ " (or a RUST_LOG-style directive list) — got " ++ debug_str (log_level c))
  in Ok tt.
End LoggingValidate.
