(* ===== verification/ConfigEnv.v ===== *)
(** [${NAME}] references in config strings ([src/proxy/src/config/env.rs]) and
    the two-pass load of a config file ([Config::load] and [Config::parse] of
    [config.rs]).  The TOML parser and serde's typed deserialisation are library
    code: parameters of [parse] and [load]. *)

From S2P Require Import Prelude Config.

(** [std::env::VarError]. *)
Inductive VarError := NotPresent | NotUnicode.

Definition Lookup := str → result str VarError.

(** [toml::Value], a table keeping its keys in iteration order.  The contents of
    the scalar kinds expansion never looks at are a parameter of the tree. *)
Inductive Value :=
  | VString (s : str)
  | VInteger (n : Z)
  | VFloat (text : str)
  | VBoolean (b : bool)
  | VDatetime (text : str)
  | VArray (items : list Value)
  | VTable (entries : list (str * Value)).

Definition Table := list (str * Value).

Definition DOLLAR : ascii := "$".
Definition LBRACE : ascii := "{".
Definition RBRACE : ascii := "}".

Definition is_ascii_alphabetic (c : Z) : bool := in_range 65 90 c || in_range 97 122 c.
Definition is_ascii_digit (c : Z) : bool := in_range 48 57 c.
Definition is_ascii_alphanumeric (c : Z) : bool := is_ascii_alphabetic c || is_ascii_digit c.

(** [is_padding]: whitespace and the invisible format characters. *)
Definition is_padding (c : Z) : bool :=
  is_whitespace c
  || (c =? 65279) || (c =? 8203) || (c =? 8204) || (c =? 8205) || (c =? 8288) || (c =? 6158).

Definition is_valid_name (name : str) : bool :=
  match chars name with
  | [] => false
  | c :: cs =>
      (is_ascii_alphabetic c || (c =? 95))
      && forallb (λ c, is_ascii_alphanumeric c || (c =? 95)) cs
  end.

(** ** The errors of one string *)

Definition UNTERMINATED : str := "unterminated `${` (write `$${` for a literal `${`)".
Definition INVALID_REFERENCE : str :=
  "invalid `${...}` reference: a variable name is ASCII letters, "
  ++ "digits and `_`, not starting with a digit, and `${NAME:-default}` "
  ++ "forms are not supported (write `$${` for a literal `${`)".

(** How an error names the variable: not at all in a secret setting. *)
Definition var_display (secret : bool) (name : str) : str :=
  if secret then "a referenced environment variable"
  else "environment variable `" ++ name ++ "`".

(** What one well-formed reference expands to. *)
Definition expand_reference (lookup : Lookup) (secret : bool) (name : str)
    : result str str :=
  match lookup name with
  | Ok value =>
      let cs := chars value in
      if forallb is_padding cs then
        Err (var_display secret name
             ++ " is empty or only whitespace or invisible characters")
      else if (match cs with c :: _ => is_padding c | [] => false end)
              || (match last cs with Some c => is_padding c | None => false end) then
        Err (var_display secret name
             ++ " begins or ends with whitespace or an invisible character, such as "
             ++ "the trailing newline or byte-order mark of a file it was read from")
      else Ok value
  | Err NotPresent => Err (var_display secret name ++ " is not set")
  | Err NotUnicode => Err (var_display secret name ++ " is not valid Unicode")
  end.

(** ** The scanner *)

(** The run of [$] at the front of a text, and what follows it. *)
Fixpoint dollar_run (s : str) : nat * str :=
  match s with
  | c :: s' =>
      if decide (c = DOLLAR) then let '(n, r) := dollar_run s' in (S n, r) else (0%nat, s)
  | [] => (0%nat, [])
  end.

(** The [while let] of [expand_str].  [out] is the text already produced, in
    order; every turn consumes at least the [$] it found, so the length of the
    string is enough fuel. *)
Fixpoint expand_loop (fuel : nat) (lookup : Lookup) (secret : bool) (out rest : str)
    : result str str :=
  match fuel with
  | O => Ok (out ++ rest)
  | S fuel' =>
      match split_once DOLLAR rest with
      | None => Ok (out ++ rest)
      | Some (before, tail) =>
          let out := out ++ before in
          let '(n, after) := dollar_run tail in
          let run := S n in
          match after with
          | c :: body =>
              if decide (c = LBRACE) then
                let out := out ++ repeat DOLLAR (run / 2) in
                if Nat.even run then expand_loop fuel' lookup secret out after
                else
                  match split_once RBRACE body with
                  | None => Err UNTERMINATED
                  | Some (name, rest') =>
                      if is_valid_name name then
                        let? value := expand_reference lookup secret name in
                        expand_loop fuel' lookup secret (out ++ value) rest'
                      else Err INVALID_REFERENCE
                  end
              else expand_loop fuel' lookup secret (out ++ repeat DOLLAR run) after
          | [] => expand_loop fuel' lookup secret (out ++ repeat DOLLAR run) after
          end
      end
  end.

Definition expand_str (s : str) (lookup : Lookup) (secret : bool) : result str str :=
  expand_loop (S (length s)) lookup secret [] s.

#[global] Arguments expand_str : simpl never.

(** ** Trees *)

(** [expand_value]: the value with its strings expanded, and the errors of the
    settings that failed, in visiting order.  A failing string keeps its text. *)
Fixpoint expand_value (lookup : Lookup) (secrets : list str) (path : str) (v : Value)
    {struct v} : Value * list str :=
  match v with
  | VString s =>
      match expand_str s lookup (bool_decide (path ∈ secrets)) with
      | Ok expanded => (VString expanded, [])
      | Err e => (VString s, [path ++ ": " ++ e])
      end
  | VArray items =>
      let fix go (i : Z) (items : list Value) : list Value * list str :=
        match items with
        | [] => ([], [])
        | item :: rest =>
            let '(item', es) :=
              expand_value lookup secrets (path ++ "[" ++ show i ++ "]") item in
            let '(rest', es') := go (i + 1) rest in
            (item' :: rest', es ++ es')
        end in
      let '(items', es) := go 0 items in (VArray items', es)
  | VTable entries =>
      let fix go (entries : list (str * Value)) : list (str * Value) * list str :=
        match entries with
        | [] => ([], [])
        | (key, item) :: rest =>
            let '(item', es) := expand_value lookup secrets (path ++ "." ++ key) item in
            let '(rest', es') := go rest in
            ((key, item') :: rest', es ++ es')
        end in
      let '(entries', es) := go entries in (VTable entries', es)
  | VInteger _ | VFloat _ | VBoolean _ | VDatetime _ => (v, [])
  end.

Fixpoint expand_table (lookup : Lookup) (secrets : list str) (t : Table)
    : Table * list str :=
  match t with
  | [] => ([], [])
  | (key, value) :: rest =>
      let '(value', es) := expand_value lookup secrets ("[" ++ key ++ "]") value in
      let '(rest', es') := expand_table lookup secrets rest in
      ((key, value') :: rest', es ++ es')
  end.

(** [env::expand]: every failing setting is reported, joined with ["; "]. *)
Definition expand (t : Table) (lookup : Lookup) (secrets : list str) : result Table str :=
  let '(t', errors) := expand_table lookup secrets t in
  if is_empty errors then Ok t' else Err (join "; " errors).

(** ** Loading *)

Section Load.
Variable toml_typed : str → result Config str.     (* toml::from_str::<Config> *)
Variable toml_table : str → result Table str.      (* toml::from_str::<Table> *)
Variable table_into : Table → option Config.       (* Value::try_into *)

Definition AFTER_EXPANSION : str :=
  "the config parsed before environment variables were expanded but "
  ++ "not after; this is a bug in the proxy".

(** [Config::parse]. *)
Definition Config_parse (text : str) (lookup : Lookup) : result Config str :=
  let? _ := toml_typed text in
  let? table := toml_table text in
  let? table := expand table lookup SECRET_SETTINGS in
  ok_or (table_into table) AFTER_EXPANSION.

(** [Config::load]; [read_to_string] is the file system, [env_var] the
    environment. *)
Definition Config_load (read_to_string : str → result str str) (env_var : Lookup)
    (path : str) : result Config str :=
  let? text := map_err (λ e, "cannot read config " ++ path ++ ": " ++ e)
                 (read_to_string path) in
  map_err (λ e, "cannot parse config " ++ path ++ ": " ++ e) (Config_parse text env_var).
End Load.

Example expand_escaped :
  expand_str "a$${B}$x" (λ _, Err NotPresent) false = Ok ("a${B}$x" : str).
Proof. vm_compute. reflexivity. Qed.
Example expand_odd_run :
  expand_str "p$$${A}q" (λ _, Ok ("v${Z}" : str)) false = Ok ("p$v${Z}q" : str).
Proof. vm_compute. reflexivity. Qed.
Example expand_trailing_newline :
  is_ok (expand_str "${A}" (λ _, Ok (("v" : str) ++ ["010"%char])) false) = false.
Proof. vm_compute. reflexivity. Qed.
