(* ===== verification/ConfigEnvFacts.v ===== *)
(** Correctness of the [${NAME}] expander: the scanner against a template
    grammar, what its errors can say, and the walk over a whole tree. *)

From S2P Require Import Prelude Config ConfigEnv.

(** ** The scanner without its fuel *)

Lemma split_once_length sep s a b :
  split_once sep s = Some (a, b) → (length b < length s)%nat.
Proof.
  revert a b. induction s as [|c s IH]; intros a b; cbn; [done|].
  case_decide; [intros [= <- <-]; lia|].
  destruct (split_once sep s) as [[a' b']|]; [|done]. intros [= <- <-].
  specialize (IH _ _ eq_refl). lia.
Qed.

Lemma dollar_run_length s : (length (dollar_run s).2 ≤ length s)%nat.
Proof.
  induction s as [|c s IH]; cbn; [done|]. case_decide; [|done].
  destruct (dollar_run s). cbn in *. lia.
Qed.

Lemma split_once_split sep a s : sep ∉ a → split_once sep (a ++ sep :: s) = Some (a, s).
Proof.
  induction a as [|c a IH]; intros Ha; cbn; [by rewrite decide_True|].
  rewrite decide_False by set_solver. by rewrite IH by set_solver.
Qed.

Lemma dollar_run_repeat n s :
  head s ≠ Some DOLLAR → dollar_run (repeat DOLLAR n ++ s) = (n, s).
Proof.
  intros Hs. induction n as [|n IH]; cbn; [|by rewrite IH].
  destruct s as [|c s]; [done|]. cbn in *. rewrite decide_False; [done|congruence].
Qed.

Section Scanner.
Variables (lookup : Lookup) (secret : bool).

(** What a run of [S n] dollars followed by [after] produces, and what is left. *)
Definition piece (n : nat) (after : str) : result str str * str :=
  match after with
  | c :: body =>
      if decide (c = LBRACE) then
        if Nat.even (S n) then (Ok (repeat DOLLAR (S n / 2)), after)
        else
          match split_once RBRACE body with
          | None => (Err UNTERMINATED, [])
          | Some (name, rest) =>
              if is_valid_name name then
                (let? v := expand_reference lookup secret name in
                 Ok (repeat DOLLAR (S n / 2) ++ v), rest)
              else (Err INVALID_REFERENCE, [])
          end
      else (Ok (repeat DOLLAR (S n)), after)
  | [] => (Ok (repeat DOLLAR (S n)), [])
  end.

(** One turn of the loop. *)
Definition scan (rest : str) : option (result str str * str) :=
  match split_once DOLLAR rest with
  | None => None
  | Some (before, tl) =>
      let '(n, after) := dollar_run tl in
      let '(p, r) := piece n after in
      Some (let? x := p in Ok (before ++ x), r)
  end.

Lemma expand_loop_scan f out rest :
  expand_loop (S f) lookup secret out rest =
    match scan rest with
    | None => Ok (out ++ rest)
    | Some (Err e, _) => Err e
    | Some (Ok p, r) => expand_loop f lookup secret (out ++ p) r
    end.
Proof.
  cbn [expand_loop]. unfold scan, piece.
  destruct (split_once DOLLAR rest) as [[before tl]|]; [|done].
  destruct (dollar_run tl) as [n [|c body]]; [by rewrite app_assoc|].
  case_decide; [|by rewrite app_assoc].
  destruct (Nat.even (S n)); [by rewrite app_assoc|].
  destruct (split_once RBRACE body) as [[name rest']|]; [|done].
  destruct (is_valid_name name); [|done].
  destruct (expand_reference _ _ _); [|done]. by rewrite !app_assoc.
Qed.

Lemma scan_length rest p r : scan rest = Some (p, r) → (length r < length rest)%nat.
Proof.
  unfold scan, piece. intros Hs.
  destruct (split_once DOLLAR rest) as [[before tl]|] eqn:Hd; [|done].
  apply split_once_length in Hd. pose proof (dollar_run_length tl) as Hr.
  destruct (dollar_run tl) as [n [|c body]]; cbn [snd length] in Hr; [simplify_eq/=; lia|].
  case_decide; [|simplify_eq/=; lia].
  destruct (Nat.even (S n)); [simplify_eq/=; lia|].
  destruct (split_once RBRACE body) as [[name rest']|] eqn:Hb; [|simplify_eq/=; lia].
  apply split_once_length in Hb. destruct (is_valid_name name); simplify_eq/=; lia.
Qed.

Definition ex (rest : str) : result str str := expand_str rest lookup secret.

Lemma expand_loop_ex f out rest :
  (length rest < f)%nat →
  expand_loop f lookup secret out rest = let? r := ex rest in Ok (out ++ r).
Proof.
  enough (∀ n rest, (length rest < n)%nat → ∀ f g out, (length rest < f)%nat →
    (length rest < g)%nat → expand_loop f lookup secret out rest =
    let? r := expand_loop g lookup secret [] rest in Ok (out ++ r)) as Hmain.
  { intros. unfold ex, expand_str. apply (Hmain (S (length rest))); lia. }
  clear. induction n as [|n IH]; intros rest Hn f g out Hf Hg; [lia|].
  destruct f as [|f], g as [|g]; try lia. rewrite !expand_loop_scan.
  destruct (scan rest) as [[[p|e] r]|] eqn:Hs; [|done..].
  apply scan_length in Hs.
  cbn [app]. rewrite (IH r ltac:(lia) g g p) by lia. rewrite (IH r ltac:(lia) f g) by lia.
  destruct (expand_loop g lookup secret [] r); [|done]. cbn. by rewrite app_assoc.
Qed.

Lemma ex_scan rest :
  ex rest =
    match scan rest with
    | None => Ok rest
    | Some (Err e, _) => Err e
    | Some (Ok p, r) => let? x := ex r in Ok (p ++ x)
    end.
Proof.
  unfold ex at 1. unfold expand_str. rewrite expand_loop_scan.
  destruct (scan rest) as [[[p|e] r]|] eqn:Hs; [|done..].
  apply expand_loop_ex. by eapply scan_length.
Qed.

(** Text without a [$] is copied. *)
Lemma ex_text a s : DOLLAR ∉ a → ex (a ++ s) = let? r := ex s in Ok (a ++ r).
Proof.
  induction a as [|c a IH]; intros Ha; [by cbn [app]; destruct (ex s)|].
  cbn [app]. transitivity (let? r := ex (a ++ s) in Ok (c :: r)).
  - rewrite !(ex_scan (_ :: _)), (ex_scan (a ++ s)). unfold scan. cbn [split_once].
    rewrite decide_False by set_solver.
    destruct (split_once DOLLAR (a ++ s)) as [[before tl]|]; [|done].
    destruct (dollar_run tl) as [n after], (piece n after) as [[x|e] r]; [|done].
    by destruct (ex r).
  - rewrite IH by set_solver. by destruct (ex s).
Qed.

(** A run of dollars is decided by what follows it. *)
Lemma ex_run n s :
  head s ≠ Some DOLLAR →
  ex (repeat DOLLAR (S n) ++ s) =
    match piece n s with
    | (Err e, _) => Err e
    | (Ok p, r) => let? x := ex r in Ok (p ++ x)
    end.
Proof.
  intros Hs. rewrite ex_scan. unfold scan. cbn [repeat app split_once].
  rewrite decide_True by done. rewrite dollar_run_repeat by done.
  by destruct (piece n s) as [[p|e] r].
Qed.
End Scanner.

(** ** Templates

    The grammar the expander is meant to implement: literal texts with variable
    references between them.  [print] writes one the way a config file does,
    doubling the dollars that stand directly before a [{] or a reference. *)

Record Template := { t_refs : list (str * str); t_tail : str }.

(** Whether the run of [$] at the front of [l] ends at a [{], or at the end of
    the literal with a reference following ([open]). *)
Fixpoint run_open (l : str) (open : bool) : bool :=
  match l with
  | [] => open
  | c :: l' => if decide (c = DOLLAR) then run_open l' open else bool_decide (c = LBRACE)
  end.

Fixpoint escape (l : str) (open : bool) : str :=
  match l with
  | [] => []
  | c :: l' =>
      if bool_decide (c = DOLLAR) && run_open l' open
      then DOLLAR :: DOLLAR :: escape l' open else c :: escape l' open
  end.

Definition reference (name : str) : str := DOLLAR :: LBRACE :: name ++ [RBRACE].

Fixpoint print_refs (refs : list (str * str)) (tail : str) : str :=
  match refs with
  | [] => escape tail false
  | (lit, name) :: refs' => escape lit true ++ reference name ++ print_refs refs' tail
  end.
Definition print (t : Template) : str := print_refs (t_refs t) (t_tail t).

(** The meaning of a template: literals as they are, references looked up once,
    the first failing one being the error. *)
Fixpoint meaning_refs (lookup : Lookup) (secret : bool) (refs : list (str * str))
    (tail : str) : result str str :=
  match refs with
  | [] => Ok tail
  | (lit, name) :: refs' =>
      let? v := expand_reference lookup secret name in
      let? r := meaning_refs lookup secret refs' tail in Ok (lit ++ v ++ r)
  end.
Definition meaning (lookup : Lookup) (secret : bool) (t : Template) : result str str :=
  meaning_refs lookup secret (t_refs t) (t_tail t).

(** A variable name: ASCII letters, digits and [_], not starting with a digit. *)
Definition word_start (a : ascii) : bool :=
  in_range 65 90 (code a) || in_range 97 122 (code a) || (code a =? 95).
Definition word_byte (a : ascii) : bool := word_start a || in_range 48 57 (code a).
Definition name_ok (name : str) : bool :=
  match name with [] => false | a :: r => word_start a && forallb word_byte r end.

Definition template_ok (t : Template) : Prop :=
  Forall (λ r, name_ok r.2 = true) (t_refs t).

Lemma word_byte_ascii a : word_byte a = true → code a < 128 ∧ a ≠ RBRACE.
Proof.
  unfold word_byte, word_start, in_range. intros H. split; [lia|].
  intros ->. change (code RBRACE) with 125 in H. done.
Qed.

Lemma name_ok_valid name :
  name_ok name = true → is_valid_name name = true ∧ RBRACE ∉ name.
Proof.
  destruct name as [|a r]; [done|]. cbn [name_ok]. intros [Ha Hr]%andb_true_iff.
  assert (Forall (λ b, word_byte b = true) (a :: r)) as Hw.
  { constructor; [unfold word_byte; by rewrite Ha|].
    apply Forall_forall. intros b Hb. rewrite forallb_forall in Hr.
    by apply Hr, list_elem_of_In. }
  split.
  - unfold is_valid_name. rewrite chars_ascii.
    + cbn [fmap list_fmap]. unfold is_ascii_alphabetic, word_start in *. rewrite Ha. cbn.
      apply forallb_forall. intros c Hc%list_elem_of_In.
      apply list_elem_of_fmap in Hc as (b & -> & Hb).
      rewrite Forall_forall in Hw. specialize (Hw b ltac:(by right)).
      unfold is_ascii_alphanumeric, is_ascii_alphabetic, is_ascii_digit, word_byte,
        word_start, in_range in *. lia.
    + eapply Forall_impl; [exact Hw|]. intros b Hb. by apply word_byte_ascii.
  - intros Hin. rewrite Forall_forall in Hw. by apply Hw, word_byte_ascii in Hin as [_ []].
Qed.

(** *** Reading back what [print] wrote *)

Lemma split_dollars l : ∃ n l2, l = repeat DOLLAR n ++ l2 ∧ head l2 ≠ Some DOLLAR.
Proof.
  induction l as [|c l (n & l2 & -> & Hl)]; [by exists 0%nat, []|].
  destruct (decide (c = DOLLAR)) as [->|Hc].
  - by exists (S n), l2.
  - exists 0%nat. eexists. split; [done|]. cbn. congruence.
Qed.

Lemma run_open_repeat n l open : run_open (repeat DOLLAR n ++ l) open = run_open l open.
Proof. induction n as [|n IH]; [done|]. cbn. by rewrite decide_True. Qed.

Lemma escape_repeat n l open :
  escape (repeat DOLLAR n ++ l) open =
    repeat DOLLAR (if run_open l open then 2 * n else n) ++ escape l open.
Proof.
  induction n as [|n IH]; [by destruct (run_open l open)|].
  cbn [repeat app escape]. rewrite bool_decide_true, run_open_repeat, IH by done.
  destruct (run_open l open); cbn [andb]; [|done].
  replace (2 * S n)%nat with (S (S (2 * n))) by lia. done.
Qed.

Lemma escape_head l open c :
  head l = Some c → c ≠ DOLLAR → ∃ l', l = c :: l' ∧ escape l open = c :: escape l' open.
Proof.
  destruct l as [|c' l]; [done|]. intros [= ->] Hc. exists l. split; [done|]. cbn.
  by rewrite bool_decide_false.
Qed.

Lemma repeat_snoc {A} (x : A) n : repeat x (S n) = repeat x n ++ [x].
Proof. cbn. apply repeat_cons. Qed.

Section Reading.
Variables (lookup : Lookup) (secret : bool).
Notation ex := (ex lookup secret).

(** What follows a literal: a text starting with a reference exactly when
    [open], else nothing. *)
Definition follows (open : bool) (s : str) : Prop :=
  if open then ∃ name r, is_valid_name name = true ∧ RBRACE ∉ name ∧ s = reference name ++ r
  else s = [].

Lemma piece_even n s : piece lookup secret (S (2 * n)) (LBRACE :: s) =
  (Ok (repeat DOLLAR (S n)), LBRACE :: s).
Proof.
  unfold piece. rewrite decide_True by done.
  replace (S (S (2 * n))) with (2 * S n)%nat by lia.
  by rewrite Nat.even_even, Nat.mul_comm, Nat.div_mul.
Qed.

Lemma piece_ref n name r :
  is_valid_name name = true → RBRACE ∉ name →
  piece lookup secret (2 * n) (LBRACE :: name ++ RBRACE :: r) =
    (let? v := expand_reference lookup secret name in Ok (repeat DOLLAR n ++ v), r).
Proof.
  intros Hv Hb. unfold piece. rewrite decide_True by done.
  replace (S (2 * n)) with (2 * n + 1)%nat by lia.
  rewrite Nat.even_odd, split_once_split, Hv by done.
  replace ((2 * n + 1) / 2)%nat with n; [done|].
  apply Nat.div_unique with 1%nat; lia.
Qed.

Lemma ex_reference n name r :
  is_valid_name name = true → RBRACE ∉ name →
  ex (repeat DOLLAR (2 * n) ++ reference name ++ r) =
    let? v := expand_reference lookup secret name in
    let? x := ex r in Ok (repeat DOLLAR n ++ v ++ x).
Proof.
  intros Hv Hb. unfold reference.
  replace (repeat DOLLAR (2 * n) ++ (DOLLAR :: LBRACE :: name ++ [RBRACE]) ++ r)
    with (repeat DOLLAR (S (2 * n)) ++ LBRACE :: name ++ RBRACE :: r).
  - rewrite ex_run by done. rewrite piece_ref by done.
    destruct (expand_reference _ _ _); [|done].
    destruct (ex r); [|done]. by rewrite app_assoc.
  - rewrite repeat_snoc, <-!app_assoc. cbn [app]. by rewrite <-app_assoc.
Qed.

Lemma ex_nil : ex [] = Ok [].
Proof. done. Qed.

(** A literal that is a run of dollars, at the end of the text or before a
    reference. *)
Lemma ex_dollars n open s :
  follows open s →
  ex (repeat DOLLAR (if open then 2 * n else n) ++ s) =
    let? r := ex s in Ok (repeat DOLLAR n ++ r).
Proof.
  destruct open; cbn [follows].
  - intros (name & r & Hv & Hb & ->). rewrite ex_reference by done.
    pose proof (ex_reference 0 name r Hv Hb) as E. change (2 * 0)%nat with 0%nat in E; cbn [repeat app] in E.
    rewrite E. destruct (expand_reference _ _ _); [|done]. by destruct (ex r).
  - intros ->. destruct n as [|n]; [done|]. by rewrite ex_run.
Qed.

(** A run of dollars inside a literal. *)
Lemma ex_inner_run n c s :
  c ≠ DOLLAR →
  ex (repeat DOLLAR (if bool_decide (c = LBRACE) then 2 * n else n) ++ c :: s) =
    let? r := ex (c :: s) in Ok (repeat DOLLAR n ++ r).
Proof.
  intros Hc. destruct n as [|n].
  { rewrite Nat.mul_0_r. destruct (bool_decide _); cbn [repeat app];
      by destruct (ex (c :: s)). }
  assert (head (c :: s) ≠ Some DOLLAR) by (cbn; congruence).
  case_bool_decide as Hb.
  - subst c. replace (2 * S n)%nat with (S (S (2 * n))) by lia.
    by rewrite ex_run, piece_even.
  - rewrite ex_run by done. unfold piece. by rewrite decide_False.
Qed.

Lemma ex_literal l open s :
  follows open s → ex (escape l open ++ s) = let? r := ex s in Ok (l ++ r).
Proof.
  intros Hs. remember (length l) as k eqn:Hk. revert l Hk.
  induction k as [k IH] using lt_wf_ind. intros l ->.
  destruct (split_dollars l) as (n & l2 & -> & Hl2). rewrite escape_repeat, <-app_assoc.
  destruct l2 as [|c l2]; [cbn [run_open escape app]; by rewrite app_nil_r, ex_dollars|].
  assert (c ≠ DOLLAR) as Hc by (cbn in Hl2; congruence).
  cbn [run_open]. rewrite decide_False by done.
  destruct (escape_head (c :: l2) open c) as (? & [= <-] & ->); [done..|].
  cbn [app]. rewrite ex_inner_run by done.
  change (c :: escape l2 open ++ s) with ([c] ++ escape l2 open ++ s).
  rewrite ex_text by set_solver.
  rewrite (IH (length l2)); [|rewrite length_app; cbn; lia|done].
  destruct (ex s); [|done]. by rewrite <-app_assoc.
Qed.

Lemma ex_print_refs refs tl :
  Forall (λ r, name_ok r.2 = true) refs →
  ex (print_refs refs tl) = meaning_refs lookup secret refs tl.
Proof.
  induction 1 as [|[lit name] refs Hn _ IH]; cbn [print_refs meaning_refs].
  - pose proof (ex_literal tl false [] eq_refl) as E. rewrite ex_nil in E.
    by rewrite !app_nil_r in E.
  - apply name_ok_valid in Hn as [Hv Hb].
    rewrite ex_literal by (do 2 eexists; eauto).
    pose proof (ex_reference 0 name (print_refs refs tl) Hv Hb) as E.
    change (2 * 0)%nat with 0%nat in E; cbn [repeat app] in E. rewrite E, IH.
    destruct (expand_reference _ _ _); [|done]. by destruct (meaning_refs _ _ _ _).
Qed.
End Reading.

(** *** Text without a reference *)

Lemma run_open_ref l : run_open l false = true → ∃ a b, DOLLAR :: l = a ++ DOLLAR :: LBRACE :: b.
Proof.
  induction l as [|c l IH]; cbn; [done|]. case_decide as Hc; intros H.
  - subst c. destruct (IH H) as (a & b & E). exists (DOLLAR :: a), b. cbn. by rewrite E.
  - apply bool_decide_eq_true in H as ->. by exists [], l.
Qed.

Lemma escape_plain s :
  (∀ a b, s ≠ a ++ DOLLAR :: LBRACE :: b) → escape s false = s.
Proof.
  induction s as [|c s IH]; intros Hs; cbn; [done|].
  assert (escape s false = s) as ->.
  { apply IH. intros a b ->. by apply (Hs (c :: a) b). }
  destruct (bool_decide _ && _) eqn:E; [|done]. exfalso.
  apply andb_true_iff in E as [->%bool_decide_eq_true Hr].
  destruct (run_open_ref _ Hr) as (a & b & E). by apply (Hs a b).
Qed.

(** ** What an error can say *)

(** The ways an error about a variable can end: fixed texts. *)
Definition error_suffixes : list str :=
  [" is empty or only whitespace or invisible characters" : str;
   (" begins or ends with whitespace or an invisible character, such as "
    ++ "the trailing newline or byte-order mark of a file it was read from") : str;
   " is not set" : str; " is not valid Unicode" : str].

Inductive error_shape (secret : bool) (e : str) : Prop :=
  | shape_unterminated : e = UNTERMINATED → error_shape secret e
  | shape_invalid : e = INVALID_REFERENCE → error_shape secret e
  | shape_variable name suffix :
      is_valid_name name = true → suffix ∈ error_suffixes →
      e = var_display secret name ++ suffix → error_shape secret e.

Lemma expand_reference_shape lookup secret name e :
  is_valid_name name = true →
  expand_reference lookup secret name = Err e → error_shape secret e.
Proof.
  intros Hv. unfold expand_reference. intros H.
  repeat case_match; simplify_eq; (eapply shape_variable; [exact Hv| |reflexivity]);
    unfold error_suffixes; rewrite !elem_of_cons; auto 6.
Qed.

Lemma expand_loop_shape lookup secret f out rest e :
  expand_loop f lookup secret out rest = Err e → error_shape secret e.
Proof.
  revert out rest. induction f as [|f IH]; intros out rest; [done|].
  rewrite expand_loop_scan.
  destruct (scan lookup secret rest) as [[[p|e'] r]|] eqn:Hs; [apply IH| |done].
  intros [= ->]. unfold scan, piece in Hs.
  destruct (split_once DOLLAR rest) as [[before tl]|]; [|done].
  destruct (dollar_run tl) as [n [|c body]]; [done|].
  destruct (decide (c = LBRACE)); [|done].
  destruct (Nat.even (S n)); [done|].
  destruct (split_once RBRACE body) as [[name rest']|];
    [|cbn in Hs; simplify_eq; by apply shape_unterminated].
  destruct (is_valid_name name) eqn:Hv;
    [|cbn in Hs; simplify_eq; by apply shape_invalid].
  destruct (expand_reference _ _ _) as [v|e2] eqn:He; simplify_eq/=.
  by eapply expand_reference_shape.
Qed.

(** ** Trees *)

(** The settings of a tree that hold a string, by the path errors print. *)
Fixpoint leaves (path : str) (v : Value) : list (str * str) :=
  match v with
  | VString s => [(path, s)]
  | VArray items =>
      (fix go (i : Z) (items : list Value) : list (str * str) :=
         match items with
         | [] => []
         | item :: rest => leaves (path ++ "[" ++ show i ++ "]") item ++ go (i + 1) rest
         end) 0 items
  | VTable entries =>
      (fix go (entries : list (str * Value)) : list (str * str) :=
         match entries with
         | [] => []
         | (key, item) :: rest => leaves (path ++ "." ++ key) item ++ go rest
         end) entries
  | VInteger _ | VFloat _ | VBoolean _ | VDatetime _ => []
  end.

Fixpoint table_leaves (t : Table) : list (str * str) :=
  match t with
  | [] => []
  | (key, value) :: rest => leaves ("[" ++ key ++ "]") value ++ table_leaves rest
  end.

(** Replace each string of a tree, keeping everything else. *)
Fixpoint map_strings (f : str → str → str) (path : str) (v : Value) : Value :=
  match v with
  | VString s => VString (f path s)
  | VArray items =>
      VArray ((fix go (i : Z) (items : list Value) : list Value :=
         match items with
         | [] => []
         | item :: rest =>
             map_strings f (path ++ "[" ++ show i ++ "]") item :: go (i + 1) rest
         end) 0 items)
  | VTable entries =>
      VTable ((fix go (entries : list (str * Value)) : list (str * Value) :=
         match entries with
         | [] => []
         | (key, item) :: rest => (key, map_strings f (path ++ "." ++ key) item) :: go rest
         end) entries)
  | VInteger _ | VFloat _ | VBoolean _ | VDatetime _ => v
  end.
Fixpoint table_map_strings (f : str → str → str) (t : Table) : Table :=
  match t with
  | [] => []
  | (key, value) :: rest =>
      (key, map_strings f ("[" ++ key ++ "]") value) :: table_map_strings f rest
  end.

(** Structural induction through the lists of a tree. *)
Lemma Value_nested_ind (P : Value → Prop) :
  (∀ s, P (VString s)) → (∀ n, P (VInteger n)) → (∀ t, P (VFloat t)) →
  (∀ b, P (VBoolean b)) → (∀ t, P (VDatetime t)) →
  (∀ items, Forall P items → P (VArray items)) →
  (∀ entries, Forall (λ e, P e.2) entries → P (VTable entries)) →
  ∀ v, P v.
Proof.
  intros Hs Hi Hf Hb Hd Ha Ht. fix IH 1. 
  intros [s|n|t|b|t|items|entries]; [apply Hs|apply Hi|apply Hf|apply Hb|apply Hd| |].
  - apply Ha. induction items as [|v items IHi]; constructor; [apply IH|apply IHi].
  - apply Ht. induction entries as [|[k v] entries IHe]; constructor; [apply IH|apply IHe].
Qed.

Section Trees.
Variables (lookup : Lookup) (secrets : list str).

Definition expand_leaf (l : str * str) : result str str :=
  expand_str l.2 lookup (bool_decide (l.1 ∈ secrets)).
Definition leaf_text (path s : str) : str :=
  match expand_leaf (path, s) with Ok s' => s' | Err _ => s end.
Definition leaf_errors (ls : list (str * str)) : list str :=
  ls ≫= λ l, match expand_leaf l with Ok _ => [] | Err e => [l.1 ++ ": " ++ e] end.

Lemma leaf_errors_app l1 l2 : leaf_errors (l1 ++ l2) = leaf_errors l1 ++ leaf_errors l2.
Proof. apply bind_app. Qed.

Lemma expand_value_eq v path :
  expand_value lookup secrets path v =
    (map_strings leaf_text path v, leaf_errors (leaves path v)).
Proof.
  revert path. induction v as [s|n|t|b|t|items IH|entries IH] using Value_nested_ind;
    intros path; try done.
  - cbn [expand_value map_strings leaves]. unfold leaf_text, leaf_errors, expand_leaf.
    cbn [mbind list_bind fst snd].
    by destruct (expand_str s lookup (bool_decide (path ∈ secrets))).
  - cbn [expand_value map_strings leaves]. generalize 0%Z.
    induction IH as [|item items Hitem _ IHi]; intros i; [done|].
    rewrite Hitem. specialize (IHi (i + 1)). rewrite leaf_errors_app.
    match type of IHi with (let '(_, _) := ?X in _) = _ => destruct X as [items' es] end.
    by injection IHi as -> ->.
  - cbn [expand_value map_strings leaves].
    induction IH as [|[k item] entries Hitem _ IHe]; [done|].
    cbn in Hitem. rewrite Hitem, leaf_errors_app.
    match type of IHe with (let '(_, _) := ?X in _) = _ => destruct X as [entries' es] end.
    by injection IHe as -> ->.
Qed.

Lemma expand_table_eq t :
  expand_table lookup secrets t =
    (table_map_strings leaf_text t, leaf_errors (table_leaves t)).
Proof.
  induction t as [|[k v] t IH]; [done|]. cbn [expand_table table_map_strings table_leaves].
  by rewrite expand_value_eq, IH, leaf_errors_app.
Qed.

Lemma leaf_errors_nil ls :
  leaf_errors ls = [] ↔ Forall (λ l, is_ok (expand_leaf l) = true) ls.
Proof.
  induction ls as [|l ls IH]; cbn; [by split|].
  rewrite Forall_cons, <-IH. destruct (expand_leaf l); cbn; naive_solver.
Qed.
End Trees.

(** ** Properties *)

(** Claim C31.  The expander reads back exactly what the documented syntax
    writes: a template of literal texts and references, printed with [$${] for a
    literal [${] and doubled dollars before a reference, expands to its literals
    with every variable's value inserted once (never rescanned), or to the error
    of its first bad variable. *)
Theorem expand_print_template t lookup secret :
  template_ok t → expand_str (print t) lookup secret = meaning lookup secret t.
Proof. intros. by apply ex_print_refs. Qed.

Theorem expand_print_template_witness :
  expand_str (print {| t_refs := [("a${b$" : str, "NAME" : str)]; t_tail := "$x" |})
    (λ _, Ok ("${Z}" : str)) false =
  meaning (λ _, Ok ("${Z}" : str)) false
    {| t_refs := [("a${b$" : str, "NAME" : str)]; t_tail := "$x" |}.
Proof.
  apply (expand_print_template {| t_refs := [("a${b$" : str, "NAME" : str)]; t_tail := "$x" |}).
  repeat constructor.
Defined.

(** A string without [${] keeps its meaning whatever the
    environment: every other [$] is literal. *)
Lemma expand_plain_identity s lookup secret :
  (∀ a b, s ≠ a ++ DOLLAR :: LBRACE :: b) → expand_str s lookup secret = Ok s.
Proof.
  intros Hs. pose proof (ex_literal lookup secret s false [] eq_refl) as E.
  rewrite (escape_plain s Hs), app_nil_r in E. etrans; [exact E|]. cbn. by rewrite app_nil_r.
Qed.

(** Claim C32.  An error never quotes a value or the text around a reference: it
    is one of two fixed texts, or the variable's display followed by one of four
    fixed endings.  In a secret setting the display is fixed too, so all errors
    come from six fixed texts and reveal nothing of the string. *)
Theorem expand_error_discloses_nothing s lookup secret e :
  expand_str s lookup secret = Err e →
  error_shape secret e
  ∧ (secret = true →
     e ∈ UNTERMINATED :: INVALID_REFERENCE ::
         ((λ x, ("a referenced environment variable" : str) ++ x) <$> error_suffixes)).
Proof.
  intros He%expand_loop_shape. split; [done|]. intros ->.
  destruct He as [->| ->|name x _ Hx ->]; [by left|by right; left|].
  do 2 right. cbn [var_display]. by apply (list_elem_of_fmap_2 (λ x, _ ++ x)).
Qed.

Theorem expand_error_discloses_nothing_witness :
  let e := ("a referenced environment variable is not set" : str) in
  error_shape true e
  ∧ (true = true →
     e ∈ UNTERMINATED :: INVALID_REFERENCE ::
         ((λ x, ("a referenced environment variable" : str) ++ x) <$> error_suffixes)).
Proof.
  apply (expand_error_discloses_nothing "hunter2${PW}" (λ _, Err NotPresent) true).
  vm_compute. reflexivity.
Defined.

(** Claim C33.  Expanding a tree touches only string contents: it succeeds
    exactly when every string setting does, giving the same tree with each string
    replaced by its expansion; otherwise every failing setting is reported by its
    path, in order. *)
Theorem expand_tree t lookup secrets :
  expand t lookup secrets =
    if bool_decide (Forall (λ l, is_ok (expand_leaf lookup secrets l) = true) (table_leaves t))
    then Ok (table_map_strings (leaf_text lookup secrets) t)
    else Err (join "; " (leaf_errors lookup secrets (table_leaves t))).
Proof.
  unfold expand. rewrite expand_table_eq.
  destruct (leaf_errors_nil lookup secrets (table_leaves t)) as [H1 H2].
  case_bool_decide as Hall; [by rewrite H2|].
  destruct (leaf_errors _ _ _) eqn:E; [|done]. by destruct Hall; apply H1.
Qed.
