(* ===== verification/Net.v ===== *)
(** Addresses as the proxy handles them: [std::net::IpAddr], its canonical form
    and [ipnet]-style network membership of the bypass policy's ranges. *)

From S2P Require Import Prelude.

(** An address as its 32- or 128-bit number. *)
Inductive IpAddr := V4 (addr : Z) | V6 (addr : Z).

#[global] Instance IpAddr_eq_dec : EqDecision IpAddr.
Proof. solve_decision. Defined.
#[global] Instance IpAddr_countable : Countable IpAddr.
Proof.
  refine (inj_countable'
    (λ a, match a with V4 x => inl x | V6 x => inr x end : Z + Z)
    (λ s, match s with inl x => V4 x | inr x => V6 x end) _).
  by intros [].
Defined.

(** [IpAddr::to_canonical]: an IPv4-mapped IPv6 address ([::ffff:a.b.c.d])
    becomes the IPv4 address. *)
Definition to_canonical (ip : IpAddr) : IpAddr :=
  match ip with
  | V4 _ => ip
  | V6 x => if x / 2 ^ 32 =? 65535 then V4 (x mod 2 ^ 32) else ip
  end.
