(* ===== verification/RateLimit.v ===== *)
(** Per-address rate limiting ([src/proxy/src/ratelimit.rs]): the universal cap
    and the per-pattern rules.

    The sliding estimator ([pingora_limits::rate::Rate]) and the glob matcher
    ([globset]) are library code and stay parameters (classes [RateOps] and
    [GlobOps]).  A [Rate] is shared and changes behind [&self]: here every
    [observe] returns the estimator it leaves, one atomic step at the monotonic
    time it is given.  [RateLaws] is what the limiter relies on of it. *)

From S2P Require Import Prelude Net Attest Config.

(** ** Libraries *)

Class GlobOps := {
  GlobMatcher : Type;
  glob_new : str → result GlobMatcher str;          (* Glob::new + compile_matcher *)
  is_match : GlobMatcher → str → bool }.

Class RateOps := {
  Rate : Type;
  rate_new : Z → Z → Rate;                          (* at a time, with an interval *)
  observe : Rate → Z → IpAddr → Z → Rate * Z }.     (* at a time: key, events *)

(** [Rate] counts in consecutive windows of its interval, and what [observe]
    returns is never below the events of the key in the current window: the
    estimator may count too much (keys can collide), never too little. *)
Class RateLaws `{RateOps} := {
  interval : Rate → Z;
  opened : Rate → Z;                                (* start of the current window *)
  tally : Rate → IpAddr → Z;                        (* estimated count in it *)
  rate_new_spec now w : 0 < w →
    interval (rate_new now w) = w ∧ opened (rate_new now w) = now ∧
    ∀ k, tally (rate_new now w) k = 0;
  tally_nonneg r k : 0 ≤ tally r k;
  observe_interval r t k n : interval (observe r t k n).1 = interval r;
  observe_current r t k n : 0 < interval r → opened r ≤ t → 0 ≤ n →
    opened (observe r t k n).1 ≤ t < opened (observe r t k n).1 + interval r;
  observe_window r t k n : 0 < interval r → opened r ≤ t → 0 ≤ n →
    opened (observe r t k n).1 = opened r ∨
    opened r + interval r ≤ opened (observe r t k n).1;
  observe_count r t k n : (observe r t k n).2 = tally (observe r t k n).1 k;
  observe_fresh r t k n : 0 ≤ n → n ≤ tally (observe r t k n).1 k;
  observe_adds r t k n j : 0 < interval r → opened r ≤ t → 0 ≤ n →
    opened (observe r t k n).1 = opened r →
    tally r j + (if decide (j = k) then n else 0) ≤ tally (observe r t k n).1 j }.

(** An estimator whose keys never collide. *)
Class RateExact `{RateLaws} :=
  observe_exact r t k n j : 0 < interval r → opened r ≤ t → 0 ≤ n →
    opened (observe r t k n).1 = opened r →
    tally (observe r t k n).1 j = tally r j + (if decide (j = k) then n else 0).

Section RateLimiter.
Context `{GlobOps, RateOps}.
Variable debug_str : str → str.                     (* [{:?}] of a [str] *)

Record Limit := { rate : Rate; max : Z }.

Definition Limit_new (now window_secs max : Z) : Limit :=
  {| rate := rate_new now (from_secs window_secs); max := max |}.

(** [Limit::admit]: the limit afterwards, and whether the request is within
    the cap. *)
Definition Limit_admit (l : Limit) (now : Z) (ip : IpAddr) : Limit * bool :=
  let '(r, count) := observe (rate l) now ip 1 in
  ({| rate := r; max := max l |}, count <=? max l).

Record Rule := { matcher : GlobMatcher; limit : Limit }.

Record RateLimiter := { universal : option Limit; rules : list Rule }.

Definition rule_from_config (now : Z) (r : RuleConfig) : result Rule str :=
  bail_if rule_window_secs r =? 0
  with ("rate-limit rule " ++ debug_str (rule_pattern r) ++ " has window_secs = 0") in
  bail_if rule_max_requests r <=? 0
  with ("rate-limit rule " ++ debug_str (rule_pattern r) ++ " has max_requests = "
        ++ show (rule_max_requests r) ++ " (must be > 0)") in
  let? m := map_err (λ e, "invalid rate-limit pattern " ++ debug_str (rule_pattern r)
                          ++ ": " ++ e) (glob_new (rule_pattern r)) in
  Ok {| matcher := m; limit := Limit_new now (rule_window_secs r) (rule_max_requests r) |}.

(** [RateLimiter::from_config]. *)
Definition RateLimiter_from_config (now : Z) (cfg : RateLimitConfig)
    : result (option RateLimiter) str :=
  if negb (rl_enabled cfg) then Ok None
  else
    let universal :=
      if (0 <? rl_window_secs cfg) && (0 <? rl_max_requests cfg)
      then Some (Limit_new now (rl_window_secs cfg) (rl_max_requests cfg)) else None in
    let? rules := try_map (rule_from_config now) (rl_rules cfg) in
    bail_if negb (bool_decide (is_Some universal)) && is_empty rules
    with ("rate_limiting is enabled but no universal cap (window_secs/max_requests) "
          ++ "and no rules are configured") in
    Ok (Some {| universal := universal; rules := rules |}).

(** The [for] over the rules: the first that matches is charged and decides. *)
Fixpoint admit_rules (rs : list Rule) (now : Z) (ip : IpAddr) (target : str)
    : list Rule * bool :=
  match rs with
  | [] => ([], true)
  | rule :: rest =>
      if is_match (matcher rule) target then
        let '(l, ok) := Limit_admit (limit rule) now ip in
        ({| matcher := matcher rule; limit := l |} :: rest, ok)
      else
        let '(rest', ok) := admit_rules rest now ip target in (rule :: rest', ok)
  end.

(** [RateLimiter::admit]. *)
Definition RateLimiter_admit (rl : RateLimiter) (now : Z) (ip : IpAddr) (target : str)
    : RateLimiter * bool :=
  match universal rl with
  | Some u =>
      let '(u', ok) := Limit_admit u now ip in
      let rl' := {| universal := Some u'; rules := rules rl |} in
      if negb ok then (rl', false)
      else
        let '(rs, ok) := admit_rules (rules rl') now ip target in
        ({| universal := Some u'; rules := rs |}, ok)
  | None =>
      let '(rs, ok) := admit_rules (rules rl) now ip target in
      ({| universal := None; rules := rs |}, ok)
  end.
End RateLimiter.
