(* ===== verification/RateLimitFacts.v ===== *)
(** What the rate limiter enforces: the caps in every window, the exact
    decisions against a counting specification, and which configurations are
    usable. *)

From Stdlib Require Import Sorted.
From S2P Require Import Prelude Net Attest Config RateLimit.

(** One request as the limiter sees it. *)
Record Request := { rq_time : Z; rq_ip : IpAddr; rq_target : str }.

(** ** One limit over a sequence of observations *)

Section OneLimit.
Context `{RateLaws}.

Definition limit_wf (l : Limit) : Prop := 0 < interval (rate l) ∧ 0 < max l.

Lemma admit_period l t ip : interval (rate (Limit_admit l t ip).1) = interval (rate l).
Proof.
  unfold Limit_admit. pose proof (observe_interval (rate l) t ip 1) as E.
  by destruct (observe (rate l) t ip 1).
Qed.

Lemma admit_max l t ip : max (Limit_admit l t ip).1 = max l.
Proof. unfold Limit_admit. by destruct (observe (rate l) t ip 1). Qed.

Lemma admit_wf l t ip : limit_wf l → limit_wf (Limit_admit l t ip).1.
Proof. unfold limit_wf. by rewrite admit_period, admit_max. Qed.

(** The verdict compares the tally after the request with the cap. *)
Lemma admit_verdict l t ip :
  (Limit_admit l t ip).2 = (tally (rate (Limit_admit l t ip).1) ip <=? max l).
Proof.
  unfold Limit_admit. pose proof (observe_count (rate l) t ip 1) as E.
  destruct (observe (rate l) t ip 1); cbn in *. by rewrite E.
Qed.

Lemma admit_rate l t ip : rate (Limit_admit l t ip).1 = (observe (rate l) t ip 1).1.
Proof. unfold Limit_admit. by destruct (observe (rate l) t ip 1). Qed.

(** How many requests of [ip] a limit admits along a run of observations. *)
Fixpoint admitted (l : Limit) (ip : IpAddr) (evs : list (Z * IpAddr)) : Z :=
  match evs with
  | [] => 0
  | (t, k) :: evs =>
      let '(l', ok) := Limit_admit l t k in
      (if ok && bool_decide (k = ip) then 1 else 0) + admitted l' ip evs
  end.

Lemma admitted_cons l ip t k evs :
  admitted l ip ((t, k) :: evs) =
    (if (Limit_admit l t k).2 && bool_decide (k = ip) then 1 else 0)
    + admitted (Limit_admit l t k).1 ip evs.
Proof. cbn. by destruct (Limit_admit l t k). Qed.

(** Times do not go back behind the window that is open. *)
Fixpoint run_times (l : Limit) (evs : list (Z * IpAddr)) : Prop :=
  match evs with
  | [] => True
  | (t, k) :: evs => opened (rate l) ≤ t ∧ run_times (Limit_admit l t k).1 evs
  end.

(** How the open window moves with one request. *)
Lemma admit_window l t k :
  limit_wf l → opened (rate l) ≤ t →
  let l' := (Limit_admit l t k).1 in
  opened (rate l') ≤ t < opened (rate l') + interval (rate l) ∧
  (opened (rate l') = opened (rate l) ∨
   opened (rate l) + interval (rate l) ≤ opened (rate l')) ∧
  1 ≤ tally (rate l') k.
Proof.
  intros [Hp Hm] Ht l'. subst l'. rewrite admit_rate.
  split; [by apply observe_current|split; [by apply observe_window|by apply observe_fresh]].
Qed.

Lemma admit_tally l t k ip :
  limit_wf l → opened (rate l) ≤ t →
  opened (rate (Limit_admit l t k).1) = opened (rate l) →
  tally (rate l) ip + (if decide (ip = k) then 1 else 0)
    ≤ tally (rate (Limit_admit l t k).1) ip.
Proof. rewrite admit_rate. intros [??] ??. by apply observe_adds. Qed.

(** A request that counts for [ip] was within the cap. *)
Lemma admitted_step l ip t k :
  limit_wf l → opened (rate l) ≤ t →
  let l' := (Limit_admit l t k).1 in
  let n := if (Limit_admit l t k).2 && bool_decide (k = ip) then 1 else 0 in
  0 ≤ n ≤ 1 ∧ n + Z.max 0 (max l - tally (rate l') ip) ≤ max l ∧
  (opened (rate l') = opened (rate l) →
   n + Z.max 0 (max l - tally (rate l') ip) ≤ Z.max 0 (max l - tally (rate l) ip)).
Proof.
  intros Hwf Ht l' n. destruct (admit_window l t k Hwf Ht) as (_ & _ & H1).
  pose proof (admit_tally l t k ip Hwf Ht) as Ha. fold l' in H1, Ha.
  pose proof (tally_nonneg (rate l') ip). destruct Hwf as [_ Hm].
  assert (n = 1 → k = ip ∧ tally (rate l') ip ≤ max l) as Hn.
  { subst n. rewrite (admit_verdict l t k). fold l'.
    destruct (_ <=? _) eqn:E, (bool_decide (k = ip)) eqn:E'; cbn; try lia.
    to_prop. by subst. }
  assert (0 ≤ n ≤ 1) by (subst n; case_match; lia).
  split; [done|]. clearbody n. clearbody l'.
  destruct (decide (n = 1)) as [->|]; [destruct (Hn eq_refl) as [-> ?]|];
    repeat case_decide; try done; lia.
Qed.

(** While the window stays open a limit admits at most what is left of its cap. *)
Lemma admitted_one_window l ip a evs :
  limit_wf l → a ≤ opened (rate l) → run_times l evs →
  Forall (λ e, e.1 < a + interval (rate l)) evs →
  admitted l ip evs ≤ Z.max 0 (max l - tally (rate l) ip).
Proof.
  revert l. induction evs as [|[t k] evs IH]; intros l Hwf Ha Hr Hevs; [cbn; lia|].
  destruct Hr as [Ht Hrun].
  apply Forall_cons in Hevs as [Hte Hevs]. cbn in Hte. rewrite admitted_cons.
  pose proof (admitted_step l ip t k Hwf Ht) as (_ & _ & Hs).
  pose proof (admit_window l t k Hwf Ht) as (Hw & Hw' & _).
  specialize (IH (Limit_admit l t k).1 (admit_wf l t k Hwf)).
  rewrite admit_period, admit_max in IH.
  assert (opened (rate (Limit_admit l t k).1) = opened (rate l)) as Ho by lia.
  specialize (IH ltac:(lia) Hrun Hevs). specialize (Hs Ho). lia.
Qed.

(** A span no longer than the window meets at most two windows. *)
Lemma admitted_current l ip a evs :
  limit_wf l → a < opened (rate l) + interval (rate l) → run_times l evs →
  Forall (λ e, e.1 < a + interval (rate l)) evs →
  admitted l ip evs ≤ Z.max 0 (max l - tally (rate l) ip) + max l.
Proof.
  revert l. induction evs as [|[t k] evs IH]; intros l Hwf Ha Hr Hevs;
    [destruct Hwf; cbn; lia|destruct Hr as [Ht Hrun]].
  apply Forall_cons in Hevs as [Hte Hevs]. cbn in Hte. rewrite admitted_cons.
  pose proof (admitted_step l ip t k Hwf Ht) as (Hn & Hn' & Hs).
  pose proof (admit_window l t k Hwf Ht) as (Hw & Hw' & _).
  pose proof (admit_wf l t k Hwf) as Hwf'.
  destruct Hw' as [Ho|Ho].
  - specialize (IH _ Hwf'). rewrite admit_period, admit_max, Ho in IH.
    specialize (IH Ha Hrun Hevs). specialize (Hs Ho). lia.
  - pose proof (admitted_one_window _ ip a evs Hwf') as H1.
    rewrite admit_period, admit_max in H1. specialize (H1 ltac:(lia) Hrun Hevs). lia.
Qed.

Lemma admitted_two_windows l ip a evs :
  limit_wf l → run_times l evs →
  Forall (λ e, a ≤ e.1 < a + interval (rate l)) evs →
  admitted l ip evs ≤ 2 * max l.
Proof.
  intros Hwf Hrun Hevs. destruct evs as [|[t k] evs]; [destruct Hwf; cbn; lia|].
  destruct Hrun as [Ht Hrun]. apply Forall_cons in Hevs as [Hte Hevs]. cbn in Hte.
  rewrite admitted_cons.
  pose proof (admitted_step l ip t k Hwf Ht) as (_ & Hn & _).
  pose proof (admit_window l t k Hwf Ht) as (Hw & _ & _).
  pose proof (admitted_current _ ip a evs (admit_wf l t k Hwf)) as H1.
  rewrite admit_period, admit_max in H1. specialize (H1 ltac:(lia) Hrun).
  specialize (H1 ltac:(by eapply Forall_impl; [exact Hevs|cbn; lia])). lia.
Qed.

(** A monotonic clock never goes back behind a window. *)
Lemma run_times_sorted l evs :
  limit_wf l → StronglySorted Z.le evs.*1 → Forall (λ t, opened (rate l) ≤ t) evs.*1 →
  run_times l evs.
Proof.
  revert l. induction evs as [|[t k] evs IH]; intros l Hwf Hs Hf; [done|]. cbn in *.
  inversion Hs as [|?? Hs' Hle]; inversion Hf as [|?? Hf1 Hf2]; subst. split; [done|].
  destruct (admit_window l t k Hwf Hf1) as (Hw & _ & _).
  apply IH; [by apply admit_wf|done|]. eapply Forall_impl; [exact Hle|]. cbn. lia.
Qed.
End OneLimit.

(** ** The whole limiter over a run of requests *)

Section Limiter.
Context `{GlobOps, RateOps}.

(** Every request with its verdict, in order. *)
Fixpoint verdicts (rl : RateLimiter) (qs : list Request) : list (Request * bool) :=
  match qs with
  | [] => []
  | q :: qs =>
      let '(rl', ok) := RateLimiter_admit rl (rq_time q) (rq_ip q) (rq_target q) in
      (q, ok) :: verdicts rl' qs
  end.

(** How many admitted requests of a run satisfy [P]. *)
Definition count_admitted (P : Request → bool) (vs : list (Request * bool)) : Z :=
  Z.of_nat (length (filter (λ v, v.2 && P v.1) vs)).

(** The index of the rule a target is charged to. *)
Fixpoint first_match (rs : list Rule) (target : str) : option nat :=
  match rs with
  | [] => None
  | r :: rs =>
      if is_match (matcher r) target then Some 0%nat else S <$> first_match rs target
  end.

Definition event (q : Request) : Z * IpAddr := (rq_time q, rq_ip q).
Definition from_ip (ip : IpAddr) (q : Request) : bool := bool_decide (rq_ip q = ip).
Definition charged_to (rs : list Rule) (j : nat) (q : Request) : bool :=
  bool_decide (first_match rs (rq_target q) = Some j).

Lemma count_admitted_cons P q ok vs :
  count_admitted P ((q, ok) :: vs) =
    (if ok && P q then 1 else 0) + count_admitted P vs.
Proof.
  unfold count_admitted. rewrite filter_cons. cbn.
  destruct (ok && P q); cbn [length]; repeat case_decide; cbn [length]; try done; lia.
Qed.

(** What one request does to the rules: the first match is charged. *)
Lemma admit_rules_spec rs t ip target :
  match first_match rs target with
  | None => admit_rules rs t ip target = (rs, true)
  | Some j => ∃ r, rs !! j = Some r ∧
      admit_rules rs t ip target =
        (<[j := {| matcher := matcher r; limit := (Limit_admit (limit r) t ip).1 |}]> rs,
         (Limit_admit (limit r) t ip).2)
  end.
Proof.
  induction rs as [|r rs IH]; cbn; [done|]. destruct (is_match (matcher r) target).
  - exists r. split; [done|]. by destruct (Limit_admit (limit r) t ip).
  - destruct (first_match rs target) as [j|]; cbn.
    + destruct IH as (r' & Hr & ->). exists r'. done.
    + by rewrite IH.
Qed.

Lemma first_match_insert rs j r l target :
  rs !! j = Some r →
  first_match (<[j := {| matcher := matcher r; limit := l |}]> rs) target
    = first_match rs target.
Proof.
  revert j. induction rs as [|r' rs IH]; intros [|j] Hj; cbn in *; simplify_eq; [done|].
  case_match; [done|]. by rewrite IH.
Qed.

Lemma admit_rules_first_match rs t ip target target' :
  first_match (admit_rules rs t ip target).1 target' = first_match rs target'.
Proof.
  pose proof (admit_rules_spec rs t ip target) as Hs. case_match.
  - destruct Hs as (r & Hr & ->). by apply first_match_insert.
  - by rewrite Hs.
Qed.

(** Whether the universal cap lets a request through. *)
Definition passes (rl : RateLimiter) (t : Z) (ip : IpAddr) : bool :=
  match universal rl with Some u => (Limit_admit u t ip).2 | None => true end.

(** One request in closed form. *)
Lemma limiter_step rl t ip target :
  RateLimiter_admit rl t ip target =
    ({| universal := (λ u, (Limit_admit u t ip).1) <$> universal rl;
        rules := if passes rl t ip then (admit_rules (rules rl) t ip target).1 else rules rl |},
     passes rl t ip && (admit_rules (rules rl) t ip target).2).
Proof.
  unfold RateLimiter_admit, passes. destruct (universal rl) as [u|]; cbn.
  - destruct (Limit_admit u t ip) as [u' []]; cbn; [|done].
    by destruct (admit_rules (rules rl) t ip target).
  - by destruct (admit_rules (rules rl) t ip target).
Qed.

Lemma verdicts_cons rl q qs :
  verdicts rl (q :: qs) =
    (q, (RateLimiter_admit rl (rq_time q) (rq_ip q) (rq_target q)).2)
    :: verdicts (RateLimiter_admit rl (rq_time q) (rq_ip q) (rq_target q)).1 qs.
Proof. cbn. by destruct (RateLimiter_admit rl (rq_time q) (rq_ip q) (rq_target q)). Qed.

Lemma step_first_match rl t ip target target' :
  first_match (rules (RateLimiter_admit rl t ip target).1) target'
    = first_match (rules rl) target'.
Proof. rewrite limiter_step. cbn. case_match; [apply admit_rules_first_match|done]. Qed.

Lemma step_charged_to rl t ip target j q :
  charged_to (rules (RateLimiter_admit rl t ip target).1) j q = charged_to (rules rl) j q.
Proof. unfold charged_to. by rewrite step_first_match. Qed.

(** What one request does to rule [j], and its verdict when it is charged. *)
Lemma step_rule rl q j r :
  rules rl !! j = Some r →
  let step := RateLimiter_admit rl (rq_time q) (rq_ip q) (rq_target q) in
  let charged := passes rl (rq_time q) (rq_ip q) && charged_to (rules rl) j q in
  let l := Limit_admit (limit r) (rq_time q) (rq_ip q) in
  (∃ r', rules step.1 !! j = Some r' ∧ limit r' = if charged then l.1 else limit r) ∧
  (charged_to (rules rl) j q → step.2 = charged && l.2).
Proof.
  intros Hr step charged l. subst step charged. rewrite limiter_step. unfold charged_to. cbn.
  destruct (passes rl (rq_time q) (rq_ip q)); cbn; [|by split; [exists r|]].
  pose proof (admit_rules_spec (rules rl) (rq_time q) (rq_ip q) (rq_target q)) as Hs.
  destruct (first_match _ _) as [j'|] eqn:Hj.
  - destruct Hs as (r' & Hr' & ->). destruct (decide (j' = j)) as [->|Hne].
    + rewrite Hr' in Hr. injection Hr as ->. rewrite bool_decide_eq_true_2 by done.
      split; [|done]. eexists. cbn. rewrite list_lookup_insert_eq by (by eapply lookup_lt_Some). done.
    + rewrite bool_decide_eq_false_2 by congruence. split; [|done].
      exists r. cbn. by rewrite list_lookup_insert_ne.
  - rewrite Hs. rewrite bool_decide_eq_false_2 by congruence. split; [by exists r|done].
Qed.

Lemma step_matchers rl t ip target :
  matcher <$> rules (RateLimiter_admit rl t ip target).1 = matcher <$> rules rl.
Proof.
  rewrite limiter_step. cbn. case_match; [|done].
  pose proof (admit_rules_spec (rules rl) t ip target) as Hs. case_match; [|by rewrite Hs].
  destruct Hs as (r & Hr & ->). cbn. rewrite list_fmap_insert. cbn.
  apply list_insert_id. by rewrite list_lookup_fmap, Hr.
Qed.

(** The observations rule [j] makes in a run. *)
Fixpoint charges (rl : RateLimiter) (j : nat) (qs : list Request) : list (Z * IpAddr) :=
  match qs with
  | [] => []
  | q :: qs =>
      let rl' := (RateLimiter_admit rl (rq_time q) (rq_ip q) (rq_target q)).1 in
      if passes rl (rq_time q) (rq_ip q) && charged_to (rules rl) j q
      then event q :: charges rl' j qs else charges rl' j qs
  end.

Lemma charges_sublist rl j qs : sublist (charges rl j qs) (event <$> qs).
Proof.
  revert rl. induction qs as [|q qs IH]; intros rl; cbn; [done|].
  case_match; [by constructor|by apply sublist_cons].
Qed.
End Limiter.

Lemma sublist_Forall {A} (P : A → Prop) (l k : list A) : sublist l k → Forall P k → Forall P l.
Proof.
  intros Hlk. induction Hlk as [|x l k _ IH|x l k _ IH]; intros Hf; [done| |];
    apply Forall_cons in Hf as [??]; eauto.
Qed.

Lemma sublist_sorted (l k : list (Z * IpAddr)) :
  sublist l k → StronglySorted Z.le k.*1 → StronglySorted Z.le l.*1.
Proof.
  intros Hlk. induction Hlk as [|x l k Hlk IH|x l k Hlk IH]; intros Hs; cbn in *; [done| |].
  - inversion Hs as [|?? Hs' Hf]; subst. constructor; [by apply IH|].
    rewrite Forall_fmap in Hf |- *. exact (sublist_Forall _ _ _ Hlk Hf).
  - inversion Hs; subst. by apply IH.
Qed.

(** ** The caps hold *)

Section Caps.
Context `{GlobOps, RateLaws}.

Lemma charges_count rl ip j qs r (f : Request → bool) :
  rules rl !! j = Some r → (∀ q, charged_to (rules rl) j q = f q) →
  count_admitted (λ q, from_ip ip q && f q) (verdicts rl qs)
    ≤ admitted (limit r) ip (charges rl j qs).
Proof.
  revert rl r. induction qs as [|q qs IH]; intros rl r Hr Hf; [unfold count_admitted; cbn; lia|].
  rewrite verdicts_cons, count_admitted_cons. cbn [charges].
  destruct (step_rule rl q j r Hr) as [(r' & Hr' & Hl) Hv].
  specialize (IH _ r' Hr' ltac:(intros q'; rewrite step_charged_to; apply Hf)).
  rewrite Hl in IH. rewrite Hf in *. 
  destruct (f q) eqn:Hq; [specialize (Hv I); rewrite Hv|].
  - destruct (passes rl (rq_time q) (rq_ip q)); cbn [andb] in *; [|lia].
    unfold event at 1. rewrite admitted_cons, andb_true_r. unfold from_ip at 1. lia.
  - rewrite !andb_false_r in *. lia.
Qed.

Lemma universal_count rl ip qs u :
  universal rl = Some u →
  count_admitted (from_ip ip) (verdicts rl qs) ≤ admitted u ip (event <$> qs).
Proof.
  revert rl u. induction qs as [|q qs IH]; intros rl u Hu; [unfold count_admitted; cbn; lia|].
  rewrite verdicts_cons, count_admitted_cons. cbn [fmap list_fmap].
  unfold event at 1. rewrite admitted_cons.
  pose proof (limiter_step rl (rq_time q) (rq_ip q) (rq_target q)) as Hs.
  unfold passes in Hs. rewrite Hu in Hs. rewrite Hs. cbn [fst snd].
  specialize (IH _ (Limit_admit u (rq_time q) (rq_ip q)).1
                (f_equal (universal ∘ fst) Hs)). rewrite Hs in IH. cbn [fst] in IH.
  unfold from_ip at 1. destruct (Limit_admit u (rq_time q) (rq_ip q)).2; cbn [andb];
    repeat case_match; cbn in *; lia.
Qed.

(** The limits of a limiter, usable and with windows open before time [t]. *)
Definition limiter_ok (rl : RateLimiter) (t : Z) : Prop :=
  (∀ u, universal rl = Some u → limit_wf u ∧ opened (rate u) ≤ t) ∧
  (∀ j r, rules rl !! j = Some r → limit_wf (limit r) ∧ opened (rate (limit r)) ≤ t).

Lemma limiter_ok_later rl t t' : limiter_ok rl t → t ≤ t' → limiter_ok rl t'.
Proof.
  intros [Hu Hr] Ht. split.
  - intros u Hlu. destruct (Hu u Hlu). split; [done|lia].
  - intros j r Hj. destruct (Hr j r Hj). split; [done|lia].
Qed.

(** Requests of a span of time [[a, a + w)], in the order of the clock. *)
Definition span (a w : Z) (qs : list Request) : Prop :=
  StronglySorted Z.le (rq_time <$> qs) ∧ Forall (λ q, a ≤ rq_time q < a + w) qs.

Lemma events_times qs : (event <$> qs).*1 = rq_time <$> qs.
Proof. rewrite <-list_fmap_compose. done. Qed.

(** The bound of one limit over a sublist of the events of a span. *)
Lemma limit_caps l ip a w qs evs :
  limit_wf l → opened (rate l) ≤ a → w ≤ interval (rate l) →
  span a w qs → sublist evs (event <$> qs) →
  admitted l ip evs ≤ 2 * max l ∧
  (a + w ≤ opened (rate l) + interval (rate l) → admitted l ip evs ≤ max l).
Proof.
  intros Hwf Ho Hw [Hs Hq] Hsub.
  assert (Forall (λ e, a ≤ e.1 < a + w) evs) as He.
  { eapply sublist_Forall; [exact Hsub|]. by apply Forall_fmap. }
  assert (run_times l evs) as Hrun.
  { apply run_times_sorted; [done|..].
    - eapply sublist_sorted; [exact Hsub|]. by rewrite events_times.
    - apply Forall_fmap. eapply Forall_impl; [exact He|]. cbn. lia. }
  split.
  - apply (admitted_two_windows l ip a); [done..|].
    eapply Forall_impl; [exact He|]. cbn. lia.
  - intros Hopen. pose proof (tally_nonneg (rate l) ip). pose proof Hwf as [_ Hm].
    pose proof (admitted_one_window l ip (opened (rate l)) evs Hwf) as Hone.
    specialize (Hone ltac:(lia) Hrun).
    specialize (Hone ltac:(eapply Forall_impl; [exact He|cbn; lia])). lia.
Qed.

(** The caps over a span, as the theorem below states them. *)
Lemma caps_hold rl qs ip a w :
  limiter_ok rl a → span a w qs →
  (∀ u, universal rl = Some u → w ≤ interval (rate u) →
     count_admitted (from_ip ip) (verdicts rl qs) ≤ 2 * max u ∧
     (a + w ≤ opened (rate u) + interval (rate u) →
      count_admitted (from_ip ip) (verdicts rl qs) ≤ max u)) ∧
  (∀ j r, rules rl !! j = Some r → w ≤ interval (rate (limit r)) →
     let n := count_admitted (λ q, from_ip ip q && charged_to (rules rl) j q)
                (verdicts rl qs) in
     n ≤ 2 * max (limit r) ∧
     (a + w ≤ opened (rate (limit r)) + interval (rate (limit r)) → n ≤ max (limit r))).
Proof.
  intros [Hu Hr] Hspan. split.
  - intros u Hlu Hw. destruct (Hu u Hlu) as [Hwf Ho].
    pose proof (universal_count rl ip qs u Hlu).
    pose proof (limit_caps u ip a w qs _ Hwf Ho Hw Hspan (reflexivity _)). lia.
  - intros j r Hlr Hw n. destruct (Hr j r Hlr) as [Hwf Ho].
    pose proof (charges_count rl ip j qs r _ Hlr (λ q, eq_refl)).
    pose proof (limit_caps (limit r) ip a w qs _ Hwf Ho Hw Hspan (charges_sublist rl j qs)).
    subst n. lia.
Qed.

(** ** Runs in parts *)

(** The limiter after a run of requests. *)
Definition limiter_run (rl : RateLimiter) (qs : list Request) : RateLimiter :=
  fold_left (λ rl q, (RateLimiter_admit rl (rq_time q) (rq_ip q) (rq_target q)).1) qs rl.

Lemma verdicts_app rl qs qs' :
  verdicts rl (qs ++ qs') = verdicts rl qs ++ verdicts (limiter_run rl qs) qs'.
Proof.
  revert rl. induction qs as [|q qs IH]; intros rl; [done|].
  rewrite <-app_comm_cons, !verdicts_cons, IH. done.
Qed.

(** The same limits, perhaps in another window. *)
Record same_limits (rl rl' : RateLimiter) : Prop := {
  sl_universal u : universal rl = Some u →
    ∃ u', universal rl' = Some u' ∧ max u' = max u ∧ interval (rate u') = interval (rate u);
  sl_rules j r : rules rl !! j = Some r →
    ∃ r', rules rl' !! j = Some r' ∧ max (limit r') = max (limit r) ∧
          interval (rate (limit r')) = interval (rate (limit r));
  sl_charged j q : charged_to (rules rl') j q = charged_to (rules rl) j q }.

#[global] Instance same_limits_preorder : PreOrder same_limits.
Proof.
  split.
  - intros rl. split; eauto.
  - intros rl1 rl2 rl3 [Hu1 Hr1 Hc1] [Hu2 Hr2 Hc2]. split.
    + intros u Hu. destruct (Hu1 u Hu) as (u' & Hu' & ? & ?).
      destruct (Hu2 u' Hu') as (u'' & ? & ? & ?). exists u''. split; [done|]. split; congruence.
    + intros j r Hr. destruct (Hr1 j r Hr) as (r' & Hr' & ? & ?).
      destruct (Hr2 j r' Hr') as (r'' & ? & ? & ?). exists r''. split; [done|]. split; congruence.
    + intros j q. by rewrite Hc2.
Qed.

Lemma limiter_step_ok rl t q :
  limiter_ok rl t → t ≤ rq_time q →
  let rl' := (RateLimiter_admit rl (rq_time q) (rq_ip q) (rq_target q)).1 in
  limiter_ok rl' (rq_time q) ∧ same_limits rl rl'.
Proof.
  intros [Hu Hr] Ht rl'.
  assert (∀ l, limit_wf l ∧ opened (rate l) ≤ t →
    let l' := (Limit_admit l (rq_time q) (rq_ip q)).1 in
    limit_wf l' ∧ opened (rate l') ≤ rq_time q) as Hadm.
  { intros l [Hwf Ho] l'. split; [by apply admit_wf|].
    destruct (admit_window l (rq_time q) (rq_ip q) Hwf) as [? _]; [lia|]. subst l'. lia. }
  assert (∀ j r, rules rl !! j = Some r → ∃ r', rules rl' !! j = Some r' ∧
    (limit r' = limit r ∨ limit r' = (Limit_admit (limit r) (rq_time q) (rq_ip q)).1)) as Hrule.
  { intros j r Hj. destruct (step_rule rl q j r Hj) as [(r' & Hr' & Hl) _].
    exists r'. split; [done|]. rewrite Hl. case_match; auto. }
  split; [split|split].
  - unfold rl'. rewrite limiter_step. cbn. intros u' Hu'.
    destruct (universal rl) as [u|]; [|done]. injection Hu' as <-. by apply Hadm, Hu.
  - intros j r' Hj'.
    destruct (rules rl !! j) as [r|] eqn:Hj.
    + destruct (Hrule j r Hj) as (r'' & Hj'' & Hl). rewrite Hj' in Hj''. injection Hj'' as <-.
      destruct (Hr j r Hj) as [Hwf Ho]. destruct Hl as [->| ->]; [split; [done|lia]|by apply Hadm].
    + apply lookup_lt_Some in Hj'. apply lookup_ge_None in Hj.
      pose proof (f_equal length (step_matchers rl (rq_time q) (rq_ip q) (rq_target q))) as Hlen.
      rewrite !length_fmap in Hlen. unfold rl' in Hj'. lia.
  - intros u Hlu. unfold rl'. rewrite limiter_step, Hlu. cbn. eexists. split; [done|].
    by rewrite admit_max, admit_period.
  - intros j r Hj. destruct (Hrule j r Hj) as (r' & Hj' & Hl). exists r'. split; [done|].
    destruct Hl as [->| ->]; [done|]. by rewrite admit_max, admit_period.
  - intros j q'. apply step_charged_to.
Qed.

Lemma limiter_run_ok rl t qs t' :
  limiter_ok rl t → StronglySorted Z.le (rq_time <$> qs) → Forall (λ q, t ≤ rq_time q ≤ t') qs →
  t ≤ t' → limiter_ok (limiter_run rl qs) t' ∧ same_limits rl (limiter_run rl qs).
Proof.
  intros Hok Hs Hf Ht. revert rl t Hok Hf Ht.
  induction qs as [|q qs IH]; intros rl t Hok Hf Ht.
  { split; [by eapply limiter_ok_later|reflexivity]. }
  apply Forall_cons in Hf as [Hq Hf]. cbn in Hs. inversion Hs as [|?? Hs' Hle]; subst.
  destruct (limiter_step_ok rl t q Hok ltac:(lia)) as [Hok' Hsame].
  destruct (IH Hs' _ (rq_time q) Hok') as [Hok'' Hsame']; [|lia|].
  - rewrite Forall_fmap in Hle. apply Forall_forall. intros q' Hq'.
    rewrite Forall_forall in Hf, Hle. specialize (Hf q' Hq'). specialize (Hle q' Hq'). cbn in Hle. lia.
  - split; [exact Hok''|]. by etrans.
Qed.

(** ** Any span of a longer run *)

Definition in_span (a w : Z) (q : Request) : bool := (a <=? rq_time q) && (rq_time q <? a + w).

Lemma count_admitted_app P vs vs' :
  count_admitted P (vs ++ vs') = count_admitted P vs + count_admitted P vs'.
Proof. unfold count_admitted. rewrite filter_app, length_app. lia. Qed.

Lemma count_admitted_ext P P' rl qs :
  Forall (λ q, P q = P' q) qs → count_admitted P (verdicts rl qs) = count_admitted P' (verdicts rl qs).
Proof.
  intros Hp. revert rl. induction Hp as [|q qs Hq _ IH]; intros rl; [done|].
  by rewrite verdicts_cons, !count_admitted_cons, IH, Hq.
Qed.

Lemma count_admitted_none P rl qs :
  Forall (λ q, P q = false) qs → count_admitted P (verdicts rl qs) = 0.
Proof.
  intros Hp. revert rl. induction Hp as [|q qs Hq _ IH]; intros rl; [done|].
  by rewrite verdicts_cons, count_admitted_cons, IH, Hq, andb_false_r.
Qed.

Lemma sorted_split b qs :
  StronglySorted Z.le (rq_time <$> qs) →
  ∃ l r, qs = l ++ r ∧ Forall (λ q, rq_time q < b) l ∧ Forall (λ q, b ≤ rq_time q) r ∧
    StronglySorted Z.le (rq_time <$> l) ∧ StronglySorted Z.le (rq_time <$> r).
Proof.
  induction qs as [|q qs IH]; intros Hs; [exists [], []; by repeat split|].
  pose proof Hs as Hs0. cbn in Hs. inversion Hs as [|?? Hs' Hle]; subst.
  destruct (Z.lt_ge_cases (rq_time q) b) as [Hq|Hq].
  - destruct (IH Hs') as (l & r & -> & Hl & Hr & Hsl & Hsr). exists (q :: l), r.
    split; [done|]. do 2 (split; [by try constructor|]). split; [|done]. cbn. constructor; [done|].
    rewrite fmap_app in Hle. by apply Forall_app in Hle as [? _].
  - exists [], (q :: qs). do 2 (split; [done|]). split; [|split; [constructor|done]].
    constructor; [done|]. rewrite Forall_fmap in Hle. eapply Forall_impl; [exact Hle|]. cbn. lia.
Qed.

(** In any span of a longer run, at most twice the cap of requests that [P] selects. *)
Lemma caps_in_span rl t qs a w (P : Request → bool) n :
  limiter_ok rl t → StronglySorted Z.le (rq_time <$> qs) → Forall (λ q, t ≤ rq_time q) qs →
  (∀ rl' qs' a', limiter_ok rl' a' → same_limits rl rl' → span a' w qs' →
     count_admitted P (verdicts rl' qs') ≤ n) →
  0 ≤ n → count_admitted (λ q, P q && in_span a w q) (verdicts rl qs) ≤ n.
Proof.
  intros Hok Hs Ht Hcap Hn.
  destruct (sorted_split a qs Hs) as (q0 & r & -> & Hq0 & Hr & Hs0 & Hsr).
  destruct (sorted_split (a + w) r Hsr) as (q1 & q2 & -> & Hq1 & Hq2 & Hs1 & _).
  apply Forall_app in Ht as [Ht0 [Ht1 _]%Forall_app], Hr as [Hr1 _].
  rewrite !verdicts_app, !count_admitted_app. set (b := Z.max a t).
  destruct (limiter_run_ok rl t q0 b Hok Hs0) as [Hok' Hsame]; [|lia|].
  { apply Forall_forall. intros q Hq. rewrite Forall_forall in Ht0, Hq0.
    specialize (Ht0 q Hq). specialize (Hq0 q Hq). cbn in *. lia. }
  assert (span b w q1) as Hspan.
  { split; [done|]. apply Forall_forall. intros q Hq. rewrite Forall_forall in Ht1, Hr1, Hq1.
    specialize (Ht1 q Hq). specialize (Hr1 q Hq). specialize (Hq1 q Hq). cbn in *. lia. }
  specialize (Hcap _ _ _ Hok' Hsame Hspan).
  rewrite (count_admitted_none _ rl q0), (count_admitted_none _ _ q2), (count_admitted_ext _ P).
  - lia.
  - apply Forall_forall. intros q Hq. rewrite Forall_forall in Hr1, Hq1.
    specialize (Hr1 q Hq). specialize (Hq1 q Hq). unfold in_span. cbn in *. destruct (P q); lia.
  - eapply Forall_impl; [exact Hq2|]. intros q ?. unfold in_span. cbn in *. destruct (P q); lia.
  - eapply Forall_impl; [exact Hq0|]. intros q ?. unfold in_span. cbn in *. destruct (P q); lia.
Qed.

End Caps.

(** ** The decisions are the counting specification's *)

(** A limiter by its contract: count the requests seen, nothing else.  A
    request is remembered with whether the universal cap let it through. *)
Abbreviation History := (list (Request * bool)).

Section Counting.
Context `{GlobOps}.

Definition seen_where (P : Request * bool → bool) (h : History) : Z :=
  Z.of_nat (length (filter P h)).

Definition rule_matches (target : str) (r : RuleConfig) : bool :=
  match glob_new (rule_pattern r) with Ok m => is_match m target | Err _ => false end.

(** The first configured rule whose pattern matches. *)
Fixpoint matching_rule (rs : list RuleConfig) (target : str) : option (nat * RuleConfig) :=
  match rs with
  | [] => None
  | r :: rs =>
      if rule_matches target r then Some (0%nat, r)
      else (λ p, (S p.1, p.2)) <$> matching_rule rs target
  end.

Definition within_universal_cap (cfg : RateLimitConfig) (h : History) (q : Request) : bool :=
  if (0 <? rl_window_secs cfg) && (0 <? rl_max_requests cfg)
  then seen_where (λ e, from_ip (rq_ip q) e.1) h <? rl_max_requests cfg else true.

Definition same_rule (cfg : RateLimitConfig) (j : nat) (q : Request) : bool :=
  bool_decide (fst <$> matching_rule (rl_rules cfg) (rq_target q) = Some j).

Definition within_rule_cap (cfg : RateLimitConfig) (h : History) (q : Request) : bool :=
  match matching_rule (rl_rules cfg) (rq_target q) with
  | None => true
  | Some (j, r) =>
      seen_where (λ e, e.2 && (from_ip (rq_ip q) e.1 && same_rule cfg j e.1)) h
        <? rule_max_requests r
  end.

Fixpoint counted_verdicts (cfg : RateLimitConfig) (h : History) (qs : list Request)
    : list (Request * bool) :=
  match qs with
  | [] => []
  | q :: qs =>
      let passed := within_universal_cap cfg h q in
      (q, passed && within_rule_cap cfg h q)
      :: counted_verdicts cfg ((q, passed) :: h) qs
  end.
End Counting.

Section Exact.
Context `{GlobOps, RateExact}.
Variable debug_str : str → str.

(** A limit whose first window, open since [now], holds exactly [count]. *)
Record limit_holds (now w cap : Z) (l : Limit) (count : IpAddr → Z) : Prop := {
  lh_wf : limit_wf l;
  lh_max : max l = cap;
  lh_interval : interval (rate l) = w;
  lh_opened : opened (rate l) = now;
  lh_tally k : tally (rate l) k = count k }.

Lemma limit_holds_step now w cap l count t k :
  limit_holds now w cap l count → now ≤ t < now + w →
  (Limit_admit l t k).2 = (count k <? cap) ∧
  limit_holds now w cap (Limit_admit l t k).1
    (λ j, (if decide (j = k) then 1 else 0) + count j).
Proof.
  intros [Hwf Hm Hi Ho Hc] Ht. subst.
  destruct (admit_window l t k Hwf) as (Hw & Hw' & _); [lia|].
  assert (opened (rate (Limit_admit l t k).1) = opened (rate l)) as Ho' by lia.
  assert (∀ j, tally (rate (Limit_admit l t k).1) j
               = tally (rate l) j + (if decide (j = k) then 1 else 0)) as Ht'.
  { intros j. rewrite admit_rate in *. destruct Hwf. apply observe_exact; done || lia. }
  split.
  - rewrite admit_verdict, Ht', decide_True, Hc by done. lia.
  - constructor; rewrite ?admit_max, ?admit_period; try done; [by apply admit_wf|].
    intros j. rewrite Ht', Hc. lia.
Qed.

Lemma limit_holds_ext now w cap l f g :
  limit_holds now w cap l f → (∀ k, f k = g k) → limit_holds now w cap l g.
Proof. intros [] E. constructor; try done. intros k. by rewrite <-E. Qed.

Lemma limit_new_holds now w cap :
  0 < w → 0 < cap → limit_holds now (from_secs w) cap (Limit_new now w cap) (λ _, 0).
Proof.
  intros Hw Hc. assert (0 < from_secs w) as Hw' by (unfold from_secs, NANOS; lia).
  destruct (rate_new_spec now _ Hw') as (Hi & Ho & Ht).
  constructor; try done. split; [cbn; lia|done].
Qed.

Lemma seen_where_cons P e h :
  seen_where P (e :: h) = (if P e then 1 else 0) + seen_where P h.
Proof.
  unfold seen_where. rewrite filter_cons. destruct (P e) eqn:E; cbn -[Z.of_nat].
  - repeat case_decide; cbn [length]; [lia|naive_solver].
  - repeat case_decide; cbn [length]; [naive_solver|lia].
Qed.

Lemma from_ip_count k q : (if from_ip k q then 1 else 0) = if decide (k = rq_ip q) then 1 else 0.
Proof. unfold from_ip. case_bool_decide; case_decide; congruence. Qed.

(** A limiter whose counters are the history's counts. *)
Record counts_history (now : Z) (cfg : RateLimitConfig) (rl : RateLimiter)
    (h : History) : Prop := {
  ch_universal :
    match universal rl with
    | Some u => ((0 <? rl_window_secs cfg) && (0 <? rl_max_requests cfg)) = true ∧
        limit_holds now (from_secs (rl_window_secs cfg)) (rl_max_requests cfg) u
          (λ k, seen_where (λ e, from_ip k e.1) h)
    | None => ((0 <? rl_window_secs cfg) && (0 <? rl_max_requests cfg)) = false
    end;
  ch_matchers : Forall2 (λ m rc, glob_new (rule_pattern rc) = Ok m)
                  (matcher <$> rules rl) (rl_rules cfg);
  ch_rules j r rc : rules rl !! j = Some r → rl_rules cfg !! j = Some rc →
    limit_holds now (from_secs (rule_window_secs rc)) (rule_max_requests rc) (limit r)
      (λ k, seen_where (λ e, e.2 && (from_ip k e.1 && same_rule cfg j e.1)) h) }.

Lemma matching_rule_first_match rs rcs target :
  Forall2 (λ m rc, glob_new (rule_pattern rc) = Ok m) (matcher <$> rs) rcs →
  fst <$> matching_rule rcs target = first_match rs target ∧
  ∀ j rc, matching_rule rcs target = Some (j, rc) → rcs !! j = Some rc.
Proof.
  revert rcs. induction rs as [|r rs IH]; intros rcs Hf; [by inversion Hf|].
  inversion Hf as [|? rc ? rcs' Hm Hf']; subst. destruct (IH _ Hf') as [IH1 IH2]. cbn.
  unfold rule_matches at 1 2. rewrite Hm. case_match; [split; [done|]; intros; by simplify_eq|].
  rewrite <-IH1. split.
  - by destruct (matching_rule rcs' target).
  - intros j rc'. destruct (matching_rule rcs' target) as [[j' rc'']|] eqn:E; cbn; [|done].
    intros [= <- <-]. cbn. by apply IH2.
Qed.

(** One request keeps the counters equal to the history's counts. *)
Lemma counts_step now cfg rl h q :
  counts_history now cfg rl h →
  now ≤ rq_time q →
  (∀ u, universal rl = Some u → rq_time q < now + from_secs (rl_window_secs cfg)) →
  (∀ rc, rc ∈ rl_rules cfg → rq_time q < now + from_secs (rule_window_secs rc)) →
  let step := RateLimiter_admit rl (rq_time q) (rq_ip q) (rq_target q) in
  let passed := within_universal_cap cfg h q in
  step.2 = passed && within_rule_cap cfg h q ∧
  counts_history now cfg step.1 ((q, passed) :: h).
Proof.
  intros [Hu Hm Hr] Ht Htu Htr step passed.
  assert (passes rl (rq_time q) (rq_ip q) = passed) as Hp.
  { unfold passes. subst passed. unfold within_universal_cap.
    destruct (universal rl) as [u|]; [destruct Hu as [-> Hu]|by rewrite Hu].
    by apply (limit_holds_step _ _ _ _ _ _ _ Hu); eauto. }
  assert (∀ j, same_rule cfg j q = charged_to (rules rl) j q) as Hsame.
  { intros j. unfold same_rule, charged_to.
    by rewrite (proj1 (matching_rule_first_match _ _ _ Hm)). }
  split; [|constructor].
  - subst step. rewrite limiter_step, Hp. cbn [snd]. f_equal. unfold within_rule_cap.
    destruct (matching_rule_first_match _ _ (rq_target q) Hm) as [Hf Hin].
    pose proof (admit_rules_spec (rules rl) (rq_time q) (rq_ip q) (rq_target q)) as Hs.
    rewrite <-Hf in Hs.
    destruct (matching_rule _ _) as [[j rc]|]; cbn in Hs; [|by rewrite Hs].
    destruct Hs as (r & Hlr & ->). cbn. specialize (Hin j rc eq_refl).
    apply (limit_holds_step _ _ _ _ _ _ _ (Hr j r rc Hlr Hin)).
    eauto using list_elem_of_lookup_2.
  - subst step. rewrite limiter_step. cbn. destruct (universal rl) as [u|]; cbn; [|done].
    destruct Hu as [Hc Hu]. split; [done|].
    eapply limit_holds_ext; [apply (limit_holds_step _ _ _ _ _ _ _ Hu); eauto|].
    intros k. rewrite seen_where_cons. f_equal. symmetry. apply from_ip_count.
  - subst step. by rewrite step_matchers.
  - subst step. intros j r' rc Hr' Hrc.
    assert (∃ r, rules rl !! j = Some r) as [r Hlr].
    { pose proof (step_matchers rl (rq_time q) (rq_ip q) (rq_target q)) as E.
      apply (f_equal (lookup j)) in E. rewrite !list_lookup_fmap in E.
      rewrite Hr' in E. destruct (rules rl !! j); [eauto|done]. }
    destruct (step_rule rl q j r Hlr) as [(r'' & Hr'' & Hl') _].
    assert (limit_holds now (from_secs (rule_window_secs rc)) (rule_max_requests rc) (limit r)
      (λ k, seen_where (λ e, e.2 && (from_ip k e.1 && same_rule cfg j e.1)) h)) as Hl by eauto.
    rewrite Hr'' in Hr'. injection Hr' as ->. rewrite Hl', Hp, <-Hsame.
    destruct (passed && same_rule cfg j q) eqn:Hpq.
    + eapply limit_holds_ext; [apply (limit_holds_step _ _ _ _ _ _ _ Hl)|];
        [eauto using list_elem_of_lookup_2|].
      intros k. rewrite seen_where_cons, <-from_ip_count. cbn.
      apply andb_true_iff in Hpq as [-> ->]. by rewrite andb_true_r.
    + eapply limit_holds_ext; [exact Hl|]. intros k. rewrite seen_where_cons. cbn.
      destruct passed, (same_rule cfg j q), (from_ip k q); try done.
Qed.

(** ** Configurations *)

(** The integers of the section are [u64] and [isize]. *)
Definition rate_config_typed (cfg : RateLimitConfig) : Prop :=
  0 ≤ rl_window_secs cfg ∧ Forall (λ rc, 0 ≤ rule_window_secs rc) (rl_rules cfg).

Definition rule_usable (rc : RuleConfig) : Prop :=
  rule_window_secs rc ≠ 0 ∧ 0 < rule_max_requests rc ∧
  ∃ m, glob_new (rule_pattern rc) = Ok m.

Definition has_universal_cap (cfg : RateLimitConfig) : Prop :=
  0 < rl_window_secs cfg ∧ 0 < rl_max_requests cfg.

Lemma rule_from_config_ok now rc r :
  rule_from_config debug_str now rc = Ok r ↔
  rule_window_secs rc ≠ 0 ∧ 0 < rule_max_requests rc ∧
  glob_new (rule_pattern rc) = Ok (matcher r) ∧
  limit r = Limit_new now (rule_window_secs rc) (rule_max_requests rc).
Proof.
  unfold rule_from_config. split.
  - intros Hr. repeat split_match_in Hr; to_prop.
    unfold map_err in *. case_match; simplify_eq/=. done.
  - intros (Hw & Hm & Hg & Hl). rewrite Hg. destruct r as [m l]; cbn in *; subst.
    rewrite (proj2 (Z.eqb_neq _ _)), (proj2 (Z.leb_gt _ _)) by lia. done.
Qed.

Lemma from_config_ok now cfg rl :
  RateLimiter_from_config debug_str now cfg = Ok (Some rl) ↔
  rl_enabled cfg = true ∧
  universal rl = (if (0 <? rl_window_secs cfg) && (0 <? rl_max_requests cfg)
    then Some (Limit_new now (rl_window_secs cfg) (rl_max_requests cfg)) else None) ∧
  Forall2 (λ rc r, rule_from_config debug_str now rc = Ok r) (rl_rules cfg) (rules rl) ∧
  (is_Some (universal rl) ∨ rules rl ≠ []).
Proof.
  unfold RateLimiter_from_config. set (u := if (0 <? _) && _ then Some _ else None).
  rewrite <-try_map_ok. destruct (rl_enabled cfg); cbn; [|by split; [|intros [? _]]].
  destruct (try_map _ _) as [rs|]; [|by split; [|intros (_ & _ & ? & _)]].
  split.
  - intros Hc. split_match_in Hc. split; [done|split; [done|split; [done|]]].
    destruct u; [by left; eexists|right]. by destruct rs.
  - intros (_ & Hu & [= ->] & Hne). destruct rl as [u' rs']; cbn in *. subst u'.
    destruct u, rs'; try done. by destruct Hne as [[? ?]|?].
Qed.

Lemma from_config_counts now cfg rl :
  rate_config_typed cfg →
  RateLimiter_from_config debug_str now cfg = Ok (Some rl) → counts_history now cfg rl [].
Proof.
  intros [_ Hty] (_ & Hu & Hrs & _)%from_config_ok. constructor; cbn.
  - rewrite Hu. destruct ((_ <? _) && _) eqn:E; [split; [done|]|done].
    to_prop. by apply limit_new_holds.
  - clear Hty Hu. induction Hrs as [|rc r rcs rs Hr _ IH]; cbn; constructor; [|done].
    by apply rule_from_config_ok in Hr as (_ & _ & ? & _).
  - intros j r rc Hr Hrc. pose proof (Forall2_lookup_lr _ _ _ _ _ _ Hrs Hrc Hr) as Hl.
    apply rule_from_config_ok in Hl as (Hw & Hm & _ & ->). apply limit_new_holds; [|done].
    rewrite Forall_lookup in Hty. specialize (Hty _ _ Hrc). lia.
Qed.

(** The limits of a limiter just built are the configured ones. *)
Record limits_of (now : Z) (cfg : RateLimitConfig) (rl : RateLimiter) : Prop := {
  lf_ok : limiter_ok rl now;
  lf_universal : has_universal_cap cfg → ∃ u, universal rl = Some u ∧
    max u = rl_max_requests cfg ∧ interval (rate u) = from_secs (rl_window_secs cfg);
  lf_rules j rc : rl_rules cfg !! j = Some rc → ∃ r, rules rl !! j = Some r ∧
    max (limit r) = rule_max_requests rc ∧
    interval (rate (limit r)) = from_secs (rule_window_secs rc);
  lf_charged j q : charged_to (rules rl) j q = same_rule cfg j q }.

Lemma from_config_limits now cfg rl :
  rate_config_typed cfg →
  RateLimiter_from_config debug_str now cfg = Ok (Some rl) → limits_of now cfg rl.
Proof.
  intros Hty Hc. destruct (from_config_counts now cfg rl Hty Hc) as [Hu Hm Hr].
  apply from_config_ok in Hc as (_ & Hlu & Hrs & _). constructor.
  - split.
    + intros u E. rewrite E in Hu. destruct Hu as [_ [Hwf _ _ Ho _]]. split; [done|lia].
    + intros j r Hj. destruct (Forall2_lookup_r _ _ _ _ _ Hrs Hj) as (rc & Hrc & _).
      destruct (Hr j r rc Hj Hrc) as [Hwf _ _ Ho _]. split; [done|lia].
  - intros [Hw Hx]. rewrite Hlu, !(proj2 (Z.ltb_lt _ _)) in Hu |- * by done.
    destruct Hu as [_ []]. eauto.
  - intros j rc Hj. destruct (Forall2_lookup_l _ _ _ _ _ Hrs Hj) as (r & Hlr & _).
    destruct (Hr j r rc Hlr Hj) as [_ Hmx Hi _ _]. eauto.
  - intros j q. unfold same_rule, charged_to.
    by rewrite (proj1 (matching_rule_first_match _ _ _ Hm)).
Qed.

(** The counters of a run stay the history's counts. *)
Lemma verdicts_counted now cfg rl h qs :
  counts_history now cfg rl h →
  Forall (λ q, now ≤ rq_time q ∧
    (has_universal_cap cfg → rq_time q < now + from_secs (rl_window_secs cfg)) ∧
    ∀ rc, rc ∈ rl_rules cfg → rq_time q < now + from_secs (rule_window_secs rc)) qs →
  verdicts rl qs = counted_verdicts cfg h qs.
Proof.
  intros Hh Hqs. revert rl h Hh. induction Hqs as [|q qs (Ht & Hu & Hr) _ IH]; intros rl h Hh;
    [done|].
  destruct (counts_step now cfg rl h q Hh Ht) as [Hv Hh']; [|done|].
  - intros u Hlu. apply Hu. pose proof (ch_universal _ _ _ _ Hh) as Hcu.
    rewrite Hlu in Hcu. destruct Hcu as [Hcap _]. by to_prop.
  - rewrite verdicts_cons. cbn [counted_verdicts]. by rewrite Hv, (IH _ _ Hh').
Qed.


(** Which configurations start: a disabled section gives no limiter
    whatever else it holds; an enabled one gives a limiter exactly when every
    rule has a window, a positive cap and a pattern that compiles, and there is
    something to enforce.  The limits are then fresh, usable and in file order. *)
Lemma rate_config_classified now cfg :
  rate_config_typed cfg →
  let usable := Forall rule_usable (rl_rules cfg) ∧
                (has_universal_cap cfg ∨ rl_rules cfg ≠ []) in
  match RateLimiter_from_config debug_str now cfg with
  | Ok None => rl_enabled cfg = false
  | Ok (Some rl) =>
      rl_enabled cfg = true ∧ usable ∧ limiter_ok rl now ∧
      (is_Some (universal rl) ↔ has_universal_cap cfg) ∧
      Forall2 (λ rc r, glob_new (rule_pattern rc) = Ok (matcher r) ∧
                       max (limit r) = rule_max_requests rc) (rl_rules cfg) (rules rl)
  | Err _ => rl_enabled cfg = true ∧ ¬ usable
  end.
Proof.
  intros Hty usable.
  destruct (RateLimiter_from_config _ _ _) as [[rl|]|e] eqn:Hc.
  - pose proof (lf_ok _ _ _ (from_config_limits now cfg rl Hty Hc)) as Hlim.
    apply from_config_ok in Hc as (He & Hlu & Hrs & Hne).
    assert (is_Some (universal rl) ↔ has_universal_cap cfg) as Hcap.
    { rewrite Hlu. clear. unfold has_universal_cap.
      destruct (Z.ltb_spec 0 (rl_window_secs cfg)), (Z.ltb_spec 0 (rl_max_requests cfg));
        cbn; split; [by eauto..|intros []; lia| |intros []; lia| |intros []; lia];
        by intros []. }
    split; [done|split; [split|split; [exact Hlim|split; [done|]]]].
    + eapply Forall2_Forall_l; [exact Hrs|]. apply Forall_true. intros r rc Hr'.
      apply rule_from_config_ok in Hr' as (? & ? & ? & ?). split; [done|]. eauto.
    + destruct Hne as [Hu'|Hr']; [left; by apply Hcap|right].
      intros E. rewrite E in Hrs. inversion Hrs. congruence.
    + eapply Forall2_impl; [exact Hrs|]. intros rc r Hr'.
      apply rule_from_config_ok in Hr' as (_ & _ & ? & ->). done.
  - unfold RateLimiter_from_config in Hc. destruct (rl_enabled cfg); [|done].
    cbn in Hc. repeat split_match_in Hc.
  - assert (rl_enabled cfg = true) as He
      by (unfold RateLimiter_from_config in Hc; by destruct (rl_enabled cfg)).
    split; [done|]. intros [Hrs Hne].
    assert (∃ rs, Forall2 (λ rc r, rule_from_config debug_str now rc = Ok r)
                    (rl_rules cfg) rs) as [rs Hf].
    { apply Forall_exists_Forall2_l. eapply Forall_impl; [exact Hrs|].
      intros rc (Hw & Hm & m & Hg). eexists {| matcher := m; limit := _ |}.
      apply rule_from_config_ok. done. }
    set (u := if (0 <? rl_window_secs cfg) && (0 <? rl_max_requests cfg)
      then Some (Limit_new now (rl_window_secs cfg) (rl_max_requests cfg)) else None).
    assert (RateLimiter_from_config debug_str now cfg
            = Ok (Some {| universal := u; rules := rs |})) as Hok; [|congruence].
    apply from_config_ok. split; [done|split; [done|split; [done|]]]. cbn.
    destruct Hne as [[? ?]|Hne]; [left; subst u|right].
    + rewrite !(proj2 (Z.ltb_lt _ _)) by done. by eexists.
    + intros ->. inversion Hf. congruence.
Qed.
End Exact.

(** ** A concrete estimator and matcher *)

Module ToyRate.
Record Estimator := { e_interval : Z; e_opened : Z; e_counts : gmap IpAddr N }.

Definition toy_tally (r : Estimator) (k : IpAddr) : Z :=
  Z.of_N (default 0%N (e_counts r !! k)).

Definition toy_observe (r : Estimator) (t : Z) (k : IpAddr) (n : Z) : Estimator * Z :=
  let r' :=
    if t <? e_opened r + e_interval r then
      {| e_interval := e_interval r; e_opened := e_opened r;
         e_counts := <[k := (default 0 (e_counts r !! k) + Z.to_N n)%N]> (e_counts r) |}
    else
      {| e_interval := e_interval r; e_opened := t; e_counts := {[k := Z.to_N n]} |} in
  (r', toy_tally r' k).

Definition ops : RateOps :=
  {| Rate := Estimator;
     rate_new now w := {| e_interval := w; e_opened := now; e_counts := ∅ |};
     observe := toy_observe |}.

(** A trailing [*] matches any rest; an unclosed bracket does not compile. *)
Definition globs : GlobOps :=
  {| GlobMatcher := str;
     glob_new p := if decide ("["%char ∈ p) then Err ("unclosed character class" : str) else Ok p;
     is_match p target :=
       match reverse p with
       | "*"%char :: q => bool_decide (reverse q = take (length q) target)
       | _ => bool_decide (p = target)
       end |}.

Definition laws : @RateLaws ops.
Proof.
  refine {| interval := e_interval : @Rate ops → Z; opened := e_opened : @Rate ops → Z;
            tally := toy_tally : @Rate ops → _ |}; cbn.
  - done.
  - intros r k. unfold toy_tally. lia.
  - intros. unfold toy_observe. by case_match.
  - intros r t k n Hp Ht Hn. unfold toy_observe. case_match; to_prop; cbn; lia.
  - intros r t k n Hp Ht Hn. unfold toy_observe. case_match; to_prop; cbn; lia.
  - done.
  - intros r t k n Hn. unfold toy_observe, toy_tally. case_match; cbn;
      rewrite ?lookup_insert_eq, ?lookup_singleton_eq; cbn; lia.
  - intros r t k n j Hp Ht Hn Ho. unfold toy_observe, toy_tally in *.
    case_match; cbn in *; to_prop; [|lia].
    destruct (decide (j = k)) as [->|];
      [rewrite lookup_insert_eq|rewrite lookup_insert_ne by done]; cbn; lia.
Defined.

Lemma exact : @RateExact ops laws.
Proof.
  intros r t k n j Hp Ht Hn Ho. cbn in *. unfold toy_observe, toy_tally in *.
  case_match; cbn in *; to_prop; [|lia].
  destruct (decide (j = k)) as [->|];
    [rewrite lookup_insert_eq|rewrite lookup_insert_ne by done]; cbn; lia.
Qed.
End ToyRate.

Section Examples.
#[local] Existing Instances ToyRate.globs ToyRate.ops ToyRate.laws ToyRate.exact.

Definition toy_debug (s : str) : str := DQUOTE :: s ++ [DQUOTE].

Definition sample_config : RateLimitConfig :=
  {| rl_enabled := true; rl_window_secs := 10; rl_max_requests := 3;
     rl_rules := [{| rule_pattern := "example.com/secrets/*"; rule_window_secs := 10;
                     rule_max_requests := 1 |}] |}.

Definition sample_limiter : RateLimiter :=
  {| universal := Some (Limit_new 0 10 3);
     rules := [{| matcher := ("example.com/secrets/*" : str) : GlobMatcher;
                  limit := Limit_new 0 10 1 |}] |}.

Definition sample_ip : IpAddr := V4 3405803783.

Definition sample_requests : list Request :=
  [{| rq_time := 1; rq_ip := sample_ip; rq_target := "example.com/secrets/a" |};
   {| rq_time := 2; rq_ip := sample_ip; rq_target := "example.com/secrets/b" |};
   {| rq_time := 3; rq_ip := sample_ip; rq_target := "example.com/news" |};
   {| rq_time := 4; rq_ip := V4 1; rq_target := "example.com/secrets/a" |};
   {| rq_time := 5; rq_ip := sample_ip; rq_target := "example.com/news" |}].

Lemma sample_limiter_ok : limiter_ok sample_limiter 0.
Proof.
  split; [intros u [= <-]; by repeat split|].
  intros [|j] r; cbn; [intros [= <-]; by repeat split|]. done.
Qed.

Lemma sample_span : span 0 10000000000 sample_requests.
Proof. split; cbn; repeat constructor; cbn; lia. Qed.

End Examples.
