(* ===== verification/Mtls.v ===== *)
(** Client certificates ([src/proxy/src/mtls.rs]): the identity taken from a
    verified certificate, its RFC 4514 rendering, and the [[mtls]] settings.

    Certificates are OpenSSL's: class [X509Ops] is what the code reads of one.
    The handshake that verified the certificate is not modelled here. *)

From S2P Require Import Prelude Config.

(** One attribute of a name, as OpenSSL presents it: its type's numeric id and
    short name, the text of its object identifier, and its value, as UTF-8 when
    it converts and as raw bytes. *)
Record NameEntry := {
  nid : Z;
  nid_short_name : option str;
  object_text : str;
  as_utf8 : option str;
  as_slice : str }.

Definition NID_UNDEF : Z := 0.
Definition NID_COMMONNAME : Z := 13.

Class X509Ops := {
  X509 : Type;
  subject_entries : X509 → list NameEntry;          (* subject_name().entries() *)
  alt_dns_names : X509 → option (list (option str)); (* subject_alt_names(), dnsname() *)
  stack_from_pem : str → result (list X509) str }.

(** ** [String::from_utf8_lossy]

    The next sequence of a non-empty text: whether it is a well-formed
    character, and its length.  A malformed one ends before the first byte that
    cannot continue it. *)
Definition is_cont (b : option ascii) : bool :=
  match b with Some b => in_range 128 191 (code b) | None => false end.

Definition second_ok (x : Z) (b : option ascii) : bool :=
  match b with
  | None => false
  | Some b =>
      let y := code b in
      if x =? 224 then in_range 160 191 y
      else if x =? 237 then in_range 128 159 y
      else if x =? 240 then in_range 144 191 y
      else if x =? 244 then in_range 128 143 y
      else in_range 128 191 y
  end.

Definition next_sequence (a : ascii) (s : str) : bool * nat :=
  let x := code a in
  if x <? 128 then (true, 1%nat)
  else if in_range 194 223 x then
    if is_cont (s !! 0%nat) then (true, 2%nat) else (false, 1%nat)
  else if in_range 224 239 x then
    if second_ok x (s !! 0%nat) then
      if is_cont (s !! 1%nat) then (true, 3%nat) else (false, 2%nat)
    else (false, 1%nat)
  else if in_range 240 244 x then
    if second_ok x (s !! 0%nat) then
      if is_cont (s !! 1%nat) then
        if is_cont (s !! 2%nat) then (true, 4%nat) else (false, 3%nat)
      else (false, 2%nat)
    else (false, 1%nat)
  else (false, 1%nat).

Definition REPLACEMENT : Z := 65533.

(** One turn consumes at least a byte, so the length is enough fuel. *)
Fixpoint lossy_loop (fuel : nat) (s : str) : str :=
  match fuel, s with
  | S f, a :: s' =>
      let '(ok, n) := next_sequence a s' in
      (if ok then take n s else encode_utf8 REPLACEMENT) ++ lossy_loop f (drop n s)
  | _, _ => []
  end.

Definition from_utf8_lossy (s : str) : str := lossy_loop (length s) s.

(** ** [escape_dn_value] and [distinguished_name] *)

(** The characters RFC 4514 escapes wherever they stand. *)
Definition is_special (c : Z) : bool :=
  (c =? 34) || (c =? 43) || (c =? 44) || (c =? 59) || (c =? 60) || (c =? 62) || (c =? 92).

Definition escape_char (i last : nat) (c : Z) : str :=
  if is_special c then "\"%char :: encode_utf8 c
  else if (c =? 35) && (i =? 0)%nat then "\#"
  else if (c =? 32) && ((i =? 0)%nat || (i =? last)%nat) then "\ "
  else if is_control c then encode_utf8 c ≫= (λ b, "\"%char :: HEX_byte b)
  else encode_utf8 c.

Fixpoint escape_from (i last : nat) (cs : list Z) : str :=
  match cs with
  | [] => []
  | c :: cs' => escape_char i last c ++ escape_from (S i) last cs'
  end.

Definition escape_dn_value (value : str) : str :=
  let last := (length (chars value) - 1)%nat in
  escape_from 0 last (chars value).

(** The attribute type: a known short name, or the dotted OID. *)
Definition attribute_type (e : NameEntry) : str :=
  match nid_short_name e with
  | Some short => if negb (nid e =? NID_UNDEF) then short else object_text e
  | None => object_text e
  end.

Definition attribute_value (e : NameEntry) : str :=
  match as_utf8 e with Some v => v | None => from_utf8_lossy (as_slice e) end.

Definition render_entry (e : NameEntry) : str :=
  attribute_type e ++ "=" ++ escape_dn_value (attribute_value e).

(** The loop over the reversed entries: a comma before all but the first. *)
Fixpoint render_entries (i : nat) (es : list NameEntry) : str :=
  match es with
  | [] => []
  | e :: es' =>
      (if (0 <? i)%nat then "," else "" : str) ++ render_entry e ++ render_entries (S i) es'
  end.

Definition distinguished_name (entries : list NameEntry) : str :=
  render_entries 0 (reverse entries).

(** ** [ClientCert] *)

Record ClientCert := {
  subject_dn : str;
  common_name : option str;
  san_dns : list str }.

Definition allows (allowed : list str) (name : str) : bool := bool_decide (name ∈ allowed).

(** [ClientCert::matched]. *)
Definition matched (c : ClientCert) (allowed : list str) : option str :=
  match common_name c with
  | Some cn =>
      if allows allowed cn then Some cn
      else head (filter (λ san, allows allowed san) (san_dns c))
  | None => head (filter (λ san, allows allowed san) (san_dns c))
  end.

Section Certificates.
Context `{X509Ops}.

(** [ClientCert::from_cert]. *)
Definition from_cert (cert : X509) : ClientCert :=
  {| subject_dn := distinguished_name (subject_entries cert);
     common_name :=
       e ← head (filter (λ e, nid e = NID_COMMONNAME) (subject_entries cert)); as_utf8 e;
     san_dns := omap id (default [] (alt_dns_names cert)) |}.

(** [Recorder::handshake_complete_callback], of the peer's certificate. *)
Definition handshake_complete_callback (peer_certificate : option X509) : option ClientCert :=
  from_cert <$> peer_certificate.

Record Mtls := { ca_path : str; ca_certs : list X509 }.

(** [Mtls::from_config]; [read] is [std::fs::read]. *)
Definition Mtls_from_config (read : str → result str str) (cfg : MtlsConfig)
    : result (option Mtls) str :=
  if negb (mtls_enabled cfg) then Ok None
  else
    bail_if is_empty (client_ca cfg) with ("mtls is enabled but client_ca is not set" : str) in
    let? pem := map_err (λ e, "cannot read mtls client_ca " ++ client_ca cfg ++ ": " ++ e)
                  (read (client_ca cfg)) in
    let? cas := map_err (λ e, "cannot parse mtls client_ca " ++ client_ca cfg ++ ": " ++ e)
                  (stack_from_pem pem) in
    bail_if is_empty cas
    with ("mtls client_ca " ++ client_ca cfg ++ " contains no certificates") in
    Ok (Some {| ca_path := client_ca cfg; ca_certs := cas |}).
End Certificates.
