(* ===== verification/MtlsFacts.v ===== *)
(** What the rendered subject can be trusted for: it reads back to the
    certificate's attributes, so no value can forge another attribute, and it
    holds no control character, so it cannot break an audit line. *)

From S2P Require Import Prelude Config Mtls.

(** ** Well-formed text *)

(** A Rust [str]: the encoding of some characters. *)
Definition is_text (s : str) : Prop :=
  ∃ cs, Forall (λ c, is_scalar c = true) cs ∧ s = utf8 cs.

Lemma is_text_app s t : is_text s → is_text t → is_text (s ++ t).
Proof.
  intros (cs & Hc & ->) (ds & Hd & ->). exists (cs ++ ds).
  rewrite utf8_app. split; [by apply Forall_app|done].
Qed.

Lemma is_text_encode c : is_scalar c = true → is_text (encode_utf8 c).
Proof. intros. exists [c]. split; [by constructor|]. cbn. by rewrite app_nil_r. Qed.

(** A byte string that is the encoding [n] of some scalar value. *)
Lemma two_bytes x y :
  194 ≤ x ≤ 223 → 128 ≤ y ≤ 191 →
  is_text [byte_of x; byte_of y].
Proof.
  intros. replace [byte_of x; byte_of y] with (encode_utf8 ((x - 192) * 64 + (y - 128)));
    [apply is_text_encode; unfold is_scalar; lia|].
  unfold encode_utf8. rewrite (proj2 (Z.ltb_ge _ _)), (proj2 (Z.ltb_lt _ _)) by lia.
  repeat f_equal; lia.
Qed.

Lemma three_bytes x y z :
  224 ≤ x ≤ 239 → 128 ≤ y ≤ 191 → 128 ≤ z ≤ 191 →
  (x = 224 → 160 ≤ y) → (x = 237 → y ≤ 159) →
  is_text [byte_of x; byte_of y; byte_of z].
Proof.
  intros.
  replace [byte_of x; byte_of y; byte_of z]
    with (encode_utf8 ((x - 224) * 4096 + (y - 128) * 64 + (z - 128)));
    [apply is_text_encode; unfold is_scalar; lia|].
  unfold encode_utf8.
  rewrite !(proj2 (Z.ltb_ge _ _)), (proj2 (Z.ltb_lt _ _)) by lia. repeat f_equal; lia.
Qed.

Lemma four_bytes x y z w :
  240 ≤ x ≤ 244 → 128 ≤ y ≤ 191 → 128 ≤ z ≤ 191 → 128 ≤ w ≤ 191 →
  (x = 240 → 144 ≤ y) → (x = 244 → y ≤ 143) →
  is_text [byte_of x; byte_of y; byte_of z; byte_of w].
Proof.
  intros.
  replace [byte_of x; byte_of y; byte_of z; byte_of w]
    with (encode_utf8 ((x - 240) * 262144 + (y - 128) * 4096 + (z - 128) * 64 + (w - 128)));
    [apply is_text_encode; unfold is_scalar; lia|].
  unfold encode_utf8. rewrite !(proj2 (Z.ltb_ge _ _)) by lia. repeat f_equal; lia.
Qed.

Lemma one_byte x : 0 ≤ x < 128 → is_text [byte_of x].
Proof.
  intros. replace [byte_of x] with (encode_utf8 x);
    [apply is_text_encode; unfold is_scalar; lia|].
  unfold encode_utf8. by rewrite (proj2 (Z.ltb_lt _ _)) by lia.
Qed.

Lemma is_cont_spec o :
  is_cont o = true → ∃ y, o = Some (byte_of y) ∧ 128 ≤ y ≤ 191.
Proof.
  destruct o as [b|]; [|done]. cbn. unfold in_range. intros. to_prop.
  exists (code b). by rewrite byte_of_code.
Qed.

Lemma second_ok_spec x o :
  second_ok x o = true → ∃ y, o = Some (byte_of y) ∧ 128 ≤ y ≤ 191 ∧
    (x = 224 → 160 ≤ y) ∧ (x = 237 → y ≤ 159) ∧ (x = 240 → 144 ≤ y) ∧ (x = 244 → y ≤ 143).
Proof.
  destruct o as [b|]; [|done]. cbn. unfold in_range. intros.
  exists (code b). rewrite byte_of_code. repeat case_match; to_prop; lia || (split; [done|lia]).
Qed.

(** What [next_sequence] calls well formed is a character. *)
Lemma next_sequence_text a s n :
  next_sequence a s = (true, n) → is_text (take n (a :: s)).
Proof.
  pose proof (code_range a) as Ha. rewrite <-(byte_of_code a) at 2. unfold next_sequence.
  set (x := code a) in *. clearbody x.
  destruct (x <? 128) eqn:E1; [|destruct (in_range 194 223 x) eqn:E2;
    [|destruct (in_range 224 239 x) eqn:E3; [|destruct (in_range 240 244 x) eqn:E4]]];
    unfold in_range in *; to_prop; intros Hn; repeat split_match_in Hn; try discriminate Hn.
  - injection Hn as <-. apply one_byte. lia.
  - apply is_cont_spec in Heqb as (y & Hy & ?). destruct s as [|b s]; simplify_eq/=.
    by apply two_bytes.
  - apply second_ok_spec in Heqb as (y & Hy & ? & ? & ? & ? & ?).
    apply is_cont_spec in Heqb0 as (z & Hz & ?).
    destruct s as [|b [|c s]]; simplify_eq/=. by apply three_bytes.
  - apply second_ok_spec in Heqb as (y & Hy & ? & ? & ? & ? & ?).
    apply is_cont_spec in Heqb0 as (z & Hz & ?).
    apply is_cont_spec in Heqb1 as (w & Hw & ?).
    destruct s as [|b [|c [|d s]]]; simplify_eq/=. by apply four_bytes.
Qed.

Lemma from_utf8_lossy_text s : is_text (from_utf8_lossy s).
Proof.
  unfold from_utf8_lossy. generalize (length s) as f. intros f. revert s.
  induction f as [|f IH]; intros [|a s]; cbn [lossy_loop]; try (exists []; done).
  destruct (next_sequence a s) as [ok n] eqn:Hn. apply is_text_app; [|apply IH].
  destruct ok; [by apply next_sequence_text|by apply is_text_encode].
Qed.

(** ** Reading a name back

    The inverse of the rendering, by RFC 4514: a backslash stands before two
    hexadecimal digits or before the character it escapes, and a value ends at
    the first bare comma. *)
Definition push (a : ascii) (r : option (str * option str)) : option (str * option str) :=
  match r with Some (v, rest) => Some (a :: v, rest) | None => None end.

Fixpoint read_value (s : str) : option (str * option str) :=
  match s with
  | [] => Some ([], None)
  | c :: s1 =>
      if decide (c = ","%char) then Some ([], Some s1)
      else if decide (c = "\"%char) then
        match s1 with
        | [] => None
        | a :: s2 =>
            match digit_value 16 a with
            | None => push a (read_value s2)
            | Some h =>
                match s2 with
                | [] => None
                | b :: s3 =>
                    match digit_value 16 b with
                    | None => None
                    | Some l => push (byte_of (h * 16 + l)) (read_value s3)
                    end
                end
            end
        end
      else push c (read_value s1)
  end.

(** One attribute per turn. *)
Fixpoint read_rdns (fuel : nat) (s : str) : option (list (str * str)) :=
  match fuel with
  | O => None
  | S f =>
      match split_once "=" s with
      | None => None
      | Some (ty, rest) =>
          match read_value rest with
          | None => None
          | Some (v, None) => Some [(ty, v)]
          | Some (v, Some more) =>
              match read_rdns f more with Some l => Some ((ty, v) :: l) | None => None end
          end
      end
  end.

Definition read_dn (s : str) : option (list (str * str)) :=
  if is_empty s then Some [] else read_rdns (length s) s.

Definition prepend (p : str) (r : option (str * option str)) : option (str * option str) :=
  match r with Some (v, rest) => Some (p ++ v, rest) | None => None end.

Lemma prepend_cons a p r : prepend (a :: p) r = push a (prepend p r).
Proof. by destruct r as [[]|]. Qed.
Lemma prepend_one a r : prepend [a] r = push a r.
Proof. by destruct r as [[]|]. Qed.
Lemma prepend_nil r : prepend [] r = r.
Proof. by destruct r as [[]|]. Qed.
Lemma prepend_app p q r : prepend (p ++ q) r = prepend p (prepend q r).
Proof. destruct r as [[]|]; cbn; [|done]. by rewrite app_assoc. Qed.

(** A byte that stands for itself. *)
Lemma read_plain p t :
  Forall (λ a, a ≠ ","%char ∧ a ≠ "\"%char) p → read_value (p ++ t) = prepend p (read_value t).
Proof.
  induction 1 as [|a p [Ha Hb] _ IH]; [by rewrite prepend_nil|].
  rewrite prepend_cons, <-IH. cbn. by rewrite !decide_False.
Qed.

Lemma read_hex p t :
  read_value ((p ≫= λ b, "\"%char :: HEX_byte b) ++ t) = prepend p (read_value t).
Proof.
  induction p as [|b p IH]; [by rewrite prepend_nil|].
  rewrite prepend_cons, <-IH. change ((b :: p) ≫= (λ b, "\"%char :: HEX_byte b))
    with (("\"%char :: HEX_byte b) ++ (p ≫= λ b, "\"%char :: HEX_byte b)).
  generalize (p ≫= λ b, "\"%char :: HEX_byte b). intros q. rewrite <-app_assoc.
  generalize (q ++ t). intros r.
  destruct b as [[] [] [] [] [] [] [] []]; cbn -[read_value]; reflexivity.
Qed.

(** No byte of a character other than the comma and the backslash is one. *)
Lemma encode_plain c :
  is_scalar c = true → c ≠ 44 → c ≠ 92 →
  Forall (λ a, a ≠ ","%char ∧ a ≠ "\"%char) (encode_utf8 c).
Proof.
  intros Hc H1 H2. unfold is_scalar in Hc. 
  assert (∀ x, 0 ≤ x < 256 → x ≠ 44 → x ≠ 92 → byte_of x ≠ ","%char ∧ byte_of x ≠ "\"%char) as Hb.
  { intros x Hx Hx1 Hx2. split; intros E; apply (f_equal code) in E;
      rewrite code_byte_of in E by done; [change (code ",") with 44 in E|change (code "\") with 92 in E]; lia. }
  unfold encode_utf8. repeat case_match; to_prop; repeat (constructor; [apply Hb; lia|]); constructor.
Qed.

Lemma read_special c t :
  is_special c = true → read_value ("\"%char :: encode_utf8 c ++ t) = prepend (encode_utf8 c) (read_value t).
Proof.
  unfold is_special. intros Hc.
  assert (c = 34 ∨ c = 43 ∨ c = 44 ∨ c = 59 ∨ c = 60 ∨ c = 62 ∨ c = 92) as Hs by lia.
  transitivity (push (byte_of c) (read_value t));
    [|transitivity (prepend [byte_of c] (read_value t));
      [by rewrite prepend_cons, prepend_nil|]];
    destruct Hs as [->|[->|[->|[->|[->|[->| ->]]]]]]; reflexivity.
Qed.

(** Reading undoes the escape of one character. *)
Lemma read_escape_char i last c t :
  is_scalar c = true →
  read_value (escape_char i last c ++ t) = prepend (encode_utf8 c) (read_value t).
Proof.
  intros Hc. unfold escape_char. destruct (is_special c) eqn:Hs; [by apply read_special|].
  destruct ((c =? 35) && _) eqn:E1; [|destruct ((c =? 32) && _) eqn:E2;
    [|destruct (is_control c); [apply read_hex|]]]; to_prop.
  - subst c. change (encode_utf8 35) with ["#"%char]. by rewrite prepend_one.
  - subst c. change (encode_utf8 32) with [" "%char]. by rewrite prepend_one.
  - apply read_plain, encode_plain; [done|..]; unfold is_special in Hs; lia.
Qed.

Lemma read_escape_from i last cs t :
  Forall (λ c, is_scalar c = true) cs →
  read_value (escape_from i last cs ++ t) = prepend (utf8 cs) (read_value t).
Proof.
  intros H. revert i. induction H as [|c cs Hc _ IH]; intros i; [by rewrite prepend_nil|].
  cbn [escape_from]. rewrite <-app_assoc, read_escape_char, IH by done.
  by rewrite utf8_cons, prepend_app.
Qed.

Lemma read_escape_dn_value v t :
  is_text v → read_value (escape_dn_value v ++ t) = prepend v (read_value t).
Proof.
  intros (cs & Hc & ->). unfold escape_dn_value. rewrite chars_utf8 by done.
  by apply read_escape_from.
Qed.

(** ** The whole name *)

(** What OpenSSL and Rust's types guarantee of an attribute: a type without an
    equals sign or control characters, and text where it says UTF-8. *)
Record entry_typed (e : NameEntry) : Prop := {
  et_type : "="%char ∉ attribute_type e;
  et_printable : ∃ cs, Forall (λ c, is_scalar c = true ∧ is_control c = false) cs ∧
                       attribute_type e = utf8 cs;
  et_utf8 v : as_utf8 e = Some v → is_text v }.

Definition attribute (e : NameEntry) : str * str := (attribute_type e, attribute_value e).

Lemma attribute_value_text e : entry_typed e → is_text (attribute_value e).
Proof.
  intros He. unfold attribute_value. destruct (as_utf8 e) eqn:E; [by eapply et_utf8|].
  apply from_utf8_lossy_text.
Qed.

Lemma split_once_app_free sep p s :
  sep ∉ p → split_once sep (p ++ sep :: s) = Some (p, s).
Proof.
  induction p as [|c p IH]; intros Hp; cbn; [by rewrite decide_True|].
  rewrite decide_False by set_solver. by rewrite IH by set_solver.
Qed.

(** A rendered attribute followed by nothing or by a comma and more. *)
Lemma read_rdns_entry f e t :
  entry_typed e →
  read_rdns (S f) (render_entry e ++ t) =
    match read_value t with
    | None => None
    | Some (v, None) => Some [(attribute_type e, attribute_value e ++ v)]
    | Some (v, Some more) =>
        match read_rdns f more with
        | Some l => Some ((attribute_type e, attribute_value e ++ v) :: l)
        | None => None
        end
    end.
Proof.
  intros He. cbn [read_rdns]. unfold render_entry. rewrite <-!app_assoc.
  cbn [String.list_ascii_of_string app].
  rewrite split_once_app_free by apply (et_type _ He).
  rewrite read_escape_dn_value by by apply attribute_value_text.
  by destruct (read_value t) as [[? []]|].
Qed.

Lemma read_value_comma s : read_value (","%char :: s) = Some ([], Some s).
Proof. done. Qed.

Lemma read_rdns_render es e f i :
  Forall entry_typed (e :: es) → (length es ≤ f)%nat →
  read_rdns (S f) (render_entry e ++ render_entries (S i) es) = Some (attribute <$> e :: es).
Proof.
  revert e f i. induction es as [|e' es IH]; intros e f i Hes Hf;
    apply Forall_cons in Hes as [He Hes].
  - cbn [render_entries]. rewrite read_rdns_entry by done. cbn. by rewrite app_nil_r.
  - cbn in Hf. destruct f as [|f]; [lia|]. cbn [render_entries].
    rewrite read_rdns_entry by done. cbn [Nat.ltb Nat.leb String.list_ascii_of_string app].
    rewrite read_value_comma, IH by (done || lia). cbn. by rewrite app_nil_r.
Qed.

Lemma render_entries_length i es : (length es ≤ length (render_entries i es))%nat.
Proof.
  revert i. induction es as [|e es IH]; intros i; cbn; [lia|].
  rewrite !length_app. specialize (IH (S i)). unfold render_entry. rewrite !length_app.
  cbn. lia.
Qed.

(** The parser reads back what is rendered. *)
Lemma read_dn_distinguished_name es :
  Forall entry_typed es →
  read_dn (distinguished_name es) = Some (attribute <$> reverse es).
Proof.
  intros Hes. unfold distinguished_name, read_dn.
  apply Forall_reverse in Hes. destruct (reverse es) as [|e es'] eqn:E; [done|].
  pose proof (render_entries_length 0 (e :: es')) as Hl.
  destruct (render_entries 0 (e :: es')) as [|a s] eqn:Er; [cbn in Hl; lia|].
  cbn [is_empty]. rewrite <-Er in *. clear Er a s.
  destruct (length (render_entries 0 (e :: es'))) as [|f] eqn:Ef; [cbn in Hl; lia|].
  apply (read_rdns_render es' e f 0 Hes). cbn in Hl. lia.
Qed.

(** Text without control characters. *)
Definition printable (s : str) : Prop :=
  ∃ cs, Forall (λ c, is_scalar c = true ∧ is_control c = false) cs ∧ s = utf8 cs.

Lemma printable_app s t : printable s → printable t → printable (s ++ t).
Proof.
  intros (cs & Hc & ->) (ds & Hd & ->). exists (cs ++ ds).
  rewrite utf8_app. split; [by apply Forall_app|done].
Qed.

Lemma printable_encode c :
  is_scalar c = true → is_control c = false → printable (encode_utf8 c).
Proof.
  intros. exists [c]. split; [by constructor|]. cbn. by rewrite app_nil_r.
Qed.

Lemma printable_ascii s : Forall (λ a, (32 <=? code a) && (code a <? 127) = true) s → printable s.
Proof.
  intros Hs. exists (code <$> s). split.
  - apply Forall_fmap. eapply Forall_impl; [exact Hs|]. intros a Ha. cbn. cbn beta in Ha.
    unfold is_scalar, is_control. lia.
  - induction Hs as [|a s Ha _ IH]; [done|]. cbn beta in Ha. rewrite fmap_cons, utf8_cons, <-IH.
    unfold encode_utf8. rewrite (proj2 (Z.ltb_lt _ _)) by lia. by rewrite byte_of_code.
Qed.

Lemma printable_hex p : printable (p ≫= λ b, "\"%char :: HEX_byte b).
Proof.
  induction p as [|b p IH]; [by apply printable_ascii|].
  change (printable (("\"%char :: HEX_byte b) ++ (p ≫= λ b, "\"%char :: HEX_byte b))).
  apply printable_app, IH. apply printable_ascii.
  destruct b as [[] [] [] [] [] [] [] []]; repeat constructor.
Qed.

Lemma printable_escape_char i last c :
  is_scalar c = true → printable (escape_char i last c).
Proof.
  intros Hc. unfold escape_char. destruct (is_special c) eqn:Hs.
  - apply (printable_app ["\"%char]); [apply printable_ascii; by repeat constructor|].
    apply printable_encode; [done|]. unfold is_special, is_control in *. lia.
  - repeat case_match; [apply printable_ascii; by repeat constructor..|apply printable_hex|].
    by apply printable_encode.
Qed.

#[export] Hint Resolve printable_app printable_encode printable_hex printable_escape_char : proxy.

Lemma printable_escape v : is_text v → printable (escape_dn_value v).
Proof.
  intros (cs & Hc & ->). unfold escape_dn_value. rewrite chars_utf8 by done.
  generalize (length cs - 1)%nat as last. intros last. generalize 0%nat as i.
  induction Hc as [|c cs Hc _ IH]; intros i; [by apply printable_ascii|].
  cbn [escape_from]. auto with proxy.
Qed.

Lemma printable_chars s : printable s → Forall (λ c, is_control c = false) (chars s).
Proof.
  intros (cs & Hc & ->). rewrite chars_utf8 by (eapply Forall_impl; [exact Hc|naive_solver]).
  eapply Forall_impl; [exact Hc|naive_solver].
Qed.

(** No control character is rendered. *)
Lemma distinguished_name_no_control es :
  Forall entry_typed es →
  Forall (λ c, is_control c = false) (chars (distinguished_name es)).
Proof.
  intros Hes. apply printable_chars. unfold distinguished_name.
  apply Forall_reverse in Hes. revert Hes. generalize (reverse es) 0%nat. clear es.
  intros es i Hes. revert i.
  induction Hes as [|e es He _ IH]; intros i; [by apply printable_ascii|].
  cbn [render_entries]. unfold render_entry.
  repeat apply printable_app;
    [|apply (et_printable _ He)|by apply printable_ascii; repeat constructor| |apply IH].
  - case_match; apply printable_ascii; by repeat constructor.
  - by apply printable_escape, attribute_value_text.
Qed.

(** Claim C29. The rendered subject reads back to the certificate's attributes,
    most specific first, whatever bytes their values hold: a hostile value
    cannot forge, split or hide an attribute.  And no control character reaches
    it, so it cannot break a line of the audit log or a terminal that shows it. *)
Theorem distinguished_name_reads_back es :
  Forall entry_typed es →
  read_dn (distinguished_name es) = Some (attribute <$> reverse es) ∧
  Forall (λ c, is_control c = false) (chars (distinguished_name es)).
Proof.
  split; [by apply read_dn_distinguished_name|by apply distinguished_name_no_control].
Qed.

(** ** Matching *)

(** [matched] returns an allowed name of the certificate whenever it
    has one, the Common Name before the alternative names, and nothing
    otherwise; the comparison is exact, never a pattern. *)
Lemma matched_spec c allowed :
  (∀ name, matched c allowed = Some name →
     name ∈ allowed ∧ (common_name c = Some name ∨ name ∈ san_dns c)) ∧
  (matched c allowed = None ↔
     (∀ cn, common_name c = Some cn → cn ∉ allowed) ∧
     (∀ san, san ∈ san_dns c → san ∉ allowed)) ∧
  (∀ cn, common_name c = Some cn → cn ∈ allowed → matched c allowed = Some cn).
Proof.
  assert (∀ l : list str, head (filter (λ san, allows allowed san) l) = None ↔
          ∀ san, san ∈ l → san ∉ allowed) as Hnone.
  { intros l. unfold allows. induction l as [|san l IH]; [set_solver|].
    rewrite filter_cons. case_bool_decide; cbn; [set_solver|].
    rewrite IH. set_solver. }
  assert (∀ (l : list str) name, head (filter (λ san, allows allowed san) l) = Some name →
          name ∈ allowed ∧ name ∈ l) as Hsome.
  { intros l name Hh. assert (name ∈ filter (λ san, allows allowed san) l) as Hin
      by (destruct (filter _ l); simplify_eq/=; set_solver).
    apply list_elem_of_filter in Hin as [Ha Hin]. unfold allows in Ha.
    split; [by apply bool_decide_unpack in Ha|done]. }
  unfold matched. destruct (common_name c) as [cn|].
  - destruct (allows allowed cn) eqn:Ha; unfold allows in Ha; to_prop.
    + split; [intros name [= <-]; auto|split; [|by intros cn' [= <-]]].
      split; [done|]. intros [Hc _]. by destruct (Hc cn).
    + split; [intros name [? ?]%Hsome; auto|split; [|by intros cn' [= <-]]].
      rewrite Hnone. split; [|naive_solver]. intros Hs. split; [by intros cn' [= <-]|done].
  - split; [intros name [? ?]%Hsome; auto|split; [|done]].
    rewrite Hnone. split; [|naive_solver]. intros Hs. split; [done|done].
Qed.

(** ** Examples *)

Definition hostile_entries : list NameEntry :=
  [{| nid := 17; nid_short_name := Some ("O" : str); object_text := "organizationName";
      as_utf8 := Some (" Example, Corp " : str); as_slice := [] |};
   {| nid := 0; nid_short_name := Some ("UNDEF" : str); object_text := "1.2.3.4";
      as_utf8 := None; as_slice := ["a"; "255"; "195"]%char |};
   {| nid := 13; nid_short_name := Some ("CN" : str); object_text := "commonName";
      as_utf8 := Some ("#mallory,CN=alice" ++ ["010"; DQUOTE]%char); as_slice := [] |}].

Lemma hostile_entries_typed : Forall entry_typed hostile_entries.
Proof.
  assert (∀ s : str, Forall (λ a, code a <? 128) s → is_text s) as Hascii.
  { intros s Hs. induction Hs as [|a s Ha _ IH]; [by exists []|].
    apply (is_text_app [a]); [|done]. rewrite <-(byte_of_code a). apply one_byte.
    pose proof (code_range a). destruct (Z.ltb_spec (code a) 128); [lia|done]. }
  repeat (apply Forall_cons; split); [..|constructor];
    (constructor; [cbn; set_solver|apply printable_ascii; by repeat constructor|]);
    intros v [= <-]; apply Hascii; by repeat constructor.
Qed.

Lemma distinguished_name_reads_back_witness :
  read_dn (distinguished_name hostile_entries)
    = Some [("CN" : str, "#mallory,CN=alice" ++ ["010"; DQUOTE]%char);
            ("1.2.3.4" : str, "a" ++ utf8 [65533; 65533]); ("O" : str, " Example, Corp " : str)]
  ∧ distinguished_name hostile_entries
    = "CN=\#mallory\,CN=alice\0A\" ++ [DQUOTE] ++ ",1.2.3.4=a" ++ utf8 [65533; 65533]
      ++ ",O=\ Example\, Corp\ ".
Proof.
  split; [|vm_compute; reflexivity].
  exact (proj1 (distinguished_name_reads_back hostile_entries hostile_entries_typed)).
Defined.
