(* ===== verification/Passthrough.v ===== *)
(** The attestation bypass ([src/proxy/src/passthrough.rs]): which verified
    callers skip attestation, and which configurations allow any to.  CIDR
    parsing and membership are the [ipnet] crate's (class [IpNetOps]). *)

From S2P Require Import Prelude Net Config Mtls MtlsFacts.

Class IpNetOps := {
  IpNet : Type;
  parse_net : str → result IpNet str;
  net_contains : IpNet → IpAddr → bool }.

Section Bypass.
Context `{IpNetOps}.
Variable debug_str : str → str.                     (* [{:?}] of a [str] *)

Record BypassPolicy := { ranges : list IpNet; policy_subjects : list str }.

(** [BypassPolicy::authorizes]. *)
Definition authorizes (p : BypassPolicy) (ip : IpAddr) (cert : ClientCert) : option str :=
  if negb (existsb (λ net, net_contains net ip) (ranges p)) then None
  else matched cert (policy_subjects p).

Definition parse_range (r : str) : result IpNet str :=
  map_err (λ e, "invalid CIDR " ++ debug_str r ++ " in allowed_ip_ranges: " ++ e)
    (parse_net r).

(** [passthrough::from_config]. *)
Definition passthrough_from_config (cfg : ProxyBypassConfig) (mtls_enabled : bool)
    : result (option BypassPolicy) str :=
  if negb (pb_enabled cfg) then Ok None
  else
    bail_if negb mtls_enabled
    with ("proxy_bypass is enabled but requires [mtls] to be enabled too" : str) in
    bail_if is_empty (allowed_ip_ranges cfg)
    with ("proxy_bypass is enabled but allowed_ip_ranges is empty" : str) in
    let? nets := try_map parse_range (allowed_ip_ranges cfg) in
    bail_if is_empty (allowed_subjects cfg)
    with ("proxy_bypass is enabled but allowed_subjects is empty" : str) in
    Ok (Some {| ranges := nets; policy_subjects := allowed_subjects cfg |}).

Lemma parse_range_ok r net : parse_range r = Ok net ↔ parse_net r = Ok net.
Proof. unfold parse_range, map_err. case_match; naive_solver. Qed.

Lemma passthrough_from_config_ok cfg m p :
  passthrough_from_config cfg m = Ok (Some p) ↔
  pb_enabled cfg = true ∧ m = true ∧ allowed_ip_ranges cfg ≠ [] ∧ allowed_subjects cfg ≠ [] ∧
  Forall2 (λ r net, parse_net r = Ok net) (allowed_ip_ranges cfg) (ranges p) ∧
  policy_subjects p = allowed_subjects cfg.
Proof.
  assert (∀ nets, try_map parse_range (allowed_ip_ranges cfg) = Ok nets ↔
    Forall2 (λ r net, parse_net r = Ok net) (allowed_ip_ranges cfg) nets) as Ht.
  { intros nets. rewrite try_map_ok.
    split; intros Hf; (eapply Forall2_impl; [exact Hf|]); intros; by apply parse_range_ok. }
  unfold passthrough_from_config. split.
  - intros Hc. repeat split_match_in Hc. pose proof (proj1 (Ht _) eq_refl) as Hf.
    to_prop. destruct (allowed_ip_ranges cfg), (allowed_subjects cfg); try done.
  - intros (-> & -> & Hr & Hs & Hf & Hp). apply Ht in Hf. cbn.
    destruct p as [nets subs]; cbn in *. subst subs. rewrite Hf.
    by destruct (allowed_ip_ranges cfg), (allowed_subjects cfg).
Qed.

(** An address of a policy's ranges is in one of the configured ones. *)
Lemma in_ranges_iff cfg p ip :
  Forall2 (λ r net, parse_net r = Ok net) (allowed_ip_ranges cfg) (ranges p) →
  existsb (λ net, net_contains net ip) (ranges p) = true ↔
  ∃ r net, r ∈ allowed_ip_ranges cfg ∧ parse_net r = Ok net ∧ net_contains net ip = true.
Proof.
  intros Hf. rewrite existsb_exists. setoid_rewrite <-list_elem_of_In. split.
  - intros (net & Hin & Hc). apply list_elem_of_lookup in Hin as [j Hj].
    destruct (Forall2_lookup_r _ _ _ _ _ Hf Hj) as (r & Hr & ?).
    exists r, net. split; [by eapply list_elem_of_lookup_2|done].
  - intros (r & net & Hr & Hpn & Hc). apply list_elem_of_lookup in Hr as [j Hj].
    destruct (Forall2_lookup_l _ _ _ _ _ Hf Hj) as (net' & Hn & Hpn').
    rewrite Hpn in Hpn'. injection Hpn' as <-.
    exists net. split; [by eapply list_elem_of_lookup_2|done].
Qed.

(** What an authorization shows of the address and the certificate. *)
Lemma authorizes_names cfg m p ip cert name :
  passthrough_from_config cfg m = Ok (Some p) → authorizes p ip cert = Some name →
  (∃ r net, r ∈ allowed_ip_ranges cfg ∧ parse_net r = Ok net ∧ net_contains net ip = true) ∧
  name ∈ allowed_subjects cfg ∧ (common_name cert = Some name ∨ name ∈ san_dns cert).
Proof.
  intros (_ & _ & _ & _ & Hf & Hp)%passthrough_from_config_ok.
  unfold authorizes. rewrite Hp. destruct (existsb _ _) eqn:E; [cbn|done].
  intros Hm. split; [by apply (in_ranges_iff cfg p)|].
  by apply (matched_spec cert (allowed_subjects cfg)).
Qed.

(** Claim C24. A caller bypasses attestation under a configured policy exactly
    when the policy is enabled on top of mutual TLS, the address lies in one of
    the configured ranges, and the certificate names one of the configured
    subjects; the name it is logged by is the certificate's and the
    allowlist's. *)
Theorem bypass_requires_mtls_range_and_subject cfg m p ip cert :
  passthrough_from_config cfg m = Ok (Some p) →
  (pb_enabled cfg = true ∧ m = true) ∧
  (is_Some (authorizes p ip cert) ↔
     (∃ r net, r ∈ allowed_ip_ranges cfg ∧ parse_net r = Ok net ∧ net_contains net ip = true) ∧
     (∃ name, name ∈ allowed_subjects cfg ∧
        (common_name cert = Some name ∨ name ∈ san_dns cert))) ∧
  (∀ name, authorizes p ip cert = Some name →
     name ∈ allowed_subjects cfg ∧ (common_name cert = Some name ∨ name ∈ san_dns cert)).
Proof.
  intros (He & Hm & _ & _ & Hf & Hp)%passthrough_from_config_ok. split; [done|].
  unfold authorizes. rewrite Hp.
  destruct (matched_spec cert (allowed_subjects cfg)) as (Hsome & Hnone & _).
  rewrite <-(in_ranges_iff cfg p ip Hf).
  destruct (existsb _ _); cbn;
    [|split; [split; [by intros []|by intros [? _]]|done]].
  split; [|by apply Hsome]. split.
  - intros [name Hn]. split; [done|]. exists name. by apply Hsome.
  - intros [_ (name & Hin & Hcert)].
    destruct (matched cert (allowed_subjects cfg)) as [n|] eqn:E; [by eexists|].
    destruct (proj1 Hnone eq_refl) as [Hcn Hsan].
    destruct Hcert as [Hc|Hc]; [by destruct (Hcn name)|by destruct (Hsan name)].
Qed.
End Bypass.

(** ** An example with networks as address prefixes *)

Module ToyNet.
Definition nets : IpNetOps :=
  {| IpNet := Z * Z;
     parse_net s := if decide (s = ("10.0.0.0/8" : str)) then Ok (10 * 2 ^ 24, 2 ^ 24)
                    else Err ("not a network" : str);
     net_contains n ip := match ip with V4 a => a / n.2 =? n.1 / n.2 | V6 _ => false end |}.
End ToyNet.

Section Example.
#[local] Existing Instance ToyNet.nets.

Definition sample_bypass : ProxyBypassConfig :=
  {| pb_enabled := true; allowed_ip_ranges := ["10.0.0.0/8" : str];
     allowed_subjects := ["healthcheck" : str] |}.
Definition sample_policy : BypassPolicy :=
  {| ranges := [(10 * 2 ^ 24, 2 ^ 24) : IpNet]; policy_subjects := ["healthcheck" : str] |}.
Definition sample_cert : ClientCert :=
  {| subject_dn := "CN=probe"; common_name := Some ("probe" : str);
     san_dns := ["healthcheck" : str] |}.

Lemma bypass_requires_mtls_range_and_subject_witness :
  authorizes sample_policy (V4 (10 * 2 ^ 24 + 7)) sample_cert = Some ("healthcheck" : str) ∧
  ("healthcheck" : str) ∈ allowed_subjects sample_bypass.
Proof.
  assert (authorizes sample_policy (V4 (10 * 2 ^ 24 + 7)) sample_cert
          = Some ("healthcheck" : str)) as Ha by (vm_compute; reflexivity).
  split; [exact Ha|].
  apply (bypass_requires_mtls_range_and_subject (λ s, s) sample_bypass true sample_policy
           (V4 (10 * 2 ^ 24 + 7)) sample_cert eq_refl). exact Ha.
Defined.
End Example.
