(* ===== verification/Machine.v ===== *)
(** Machine identity ([src/proxy/src/machine.rs]): the workstation certificate
    carried in a request header, checked against the machine CA, the hostname
    allowlist and forward DNS, with the DNS cache behind it.

    OpenSSL's parsing and chain verification (class [MachineTls]), globs
    ([GlobOps]) and the resolver are parameters.  Times are the monotonic
    clock's nanoseconds, as in [Attest]. *)

From S2P Require Import Prelude Net AuditTypes Attest Config RateLimit Mtls.

Definition X509_V_ERR_CERT_NOT_YET_VALID : Z := 9.
Definition X509_V_ERR_CERT_HAS_EXPIRED : Z := 10.

Record VerifiedMachine := { hostname : str; vm_subject_dn : str }.

Inductive MachineError :=
  | Missing
  | NotBase64
  | NotDer
  | UntrustedChain (why : str)
  | CertExpired
  | CertNotYetValid
  | NoCommonName
  | UnsafeCommonName
  | HostnameNotAllowed (cn : str)
  | HostnameAddressMismatch (cn : str) (ip : IpAddr)
  | HostnameUnresolvable (cn : str)
  | NoClientAddress.

#[global] Instance VerifiedMachine_eq_dec : EqDecision VerifiedMachine.
Proof. solve_decision. Defined.
#[global] Instance MachineError_eq_dec : EqDecision MachineError.
Proof. solve_decision. Defined.

(** [Display for MachineError]; [debug_str] is [{:?}] of a [str] and [show_ip]
    [Display] of an address. *)
Definition machine_error_message (debug_str : str → str) (show_ip : IpAddr → str)
    (e : MachineError) : str :=
  match e with
  | Missing => "X-DenBrowser-Machine-Cert is missing"
  | NotBase64 => "X-DenBrowser-Machine-Cert is not valid base64"
  | NotDer => "machine certificate is not parseable DER"
  | UntrustedChain r => "machine certificate does not chain to machine_ca: " ++ r
  | CertExpired => "machine certificate (or its issuing CA) has expired"
  | CertNotYetValid => "machine certificate (or its issuing CA) is not yet valid"
  | NoCommonName => "machine certificate has no Common Name"
  | UnsafeCommonName => "machine certificate Common Name contains illegal characters"
  | HostnameNotAllowed cn =>
      "machine hostname " ++ debug_str cn ++ " matches no allowed_hostnames pattern"
  | HostnameAddressMismatch cn ip =>
      "machine hostname " ++ debug_str cn ++ " does not resolve to the connecting address "
      ++ show_ip ip
  | HostnameUnresolvable cn => "machine hostname " ++ debug_str cn ++ " could not be resolved"
  | NoClientAddress =>
      "connection has no peer address to verify the machine hostname against"
  end.

(** [MachineError::reason]. *)
Definition machine_error_reason (e : MachineError) : Reason :=
  match e with
  | Missing => MachineCertMissing
  | NotBase64 | NotDer => MachineCertMalformed
  | UntrustedChain _ => MachineCertUntrusted
  | CertExpired => MachineCertExpired
  | CertNotYetValid => MachineCertNotYetValid
  | NoCommonName => MachineCertNoCommonName
  | UnsafeCommonName => MachineCertUnsafeCommonName
  | HostnameNotAllowed _ => MachineHostnameNotAllowed
  | HostnameAddressMismatch _ _ => MachineAddressMismatch
  | HostnameUnresolvable _ => MachineHostnameUnresolvable
  | NoClientAddress => MachineNoClientAddress
  end.

(** [MachineError::chain_verified]. *)
Definition chain_verified (e : MachineError) : bool :=
  match e with
  | HostnameAddressMismatch _ _ | HostnameUnresolvable _ => true
  | _ => false
  end.

(** ** Libraries *)

Class MachineTls `{X509Ops} := {
  from_der : str → option X509;
  X509Store : Type;
  store_new : result X509Store str;                       (* X509StoreBuilder::new *)
  store_add : X509Store → X509 → result X509Store str;    (* add_cert *)
  store_partial_chain : X509Store → result X509Store str; (* set_flags(PARTIAL_CHAIN) *)
  (* Stack::new, X509StoreContext::new, init and verify_cert: whether the chain
     verified, the error code and its text; or the text of their own failure *)
  verify_chain : X509Store → X509 → result (bool * Z * str) str }.

(** ** The DNS cache *)

Record CacheEntry := { addrs : list IpAddr; fetched : Z }.

(** [CacheEntry::is_negative]. *)
Definition is_negative (e : CacheEntry) : bool := is_empty (addrs e).

(** [Instant::elapsed] of an entry. *)
Definition elapsed (now : Z) (e : CacheEntry) : Z := duration_since now (fetched e).

Section Machine.
Context `{Crypto, GlobOps, MachineTls}.
Variable debug_str : str → str.

(** [presented_subject_dn]. *)
Definition presented_subject_dn (cert_b64 : str) : option str :=
  match base64_decode (trim cert_b64) with
  | Some der =>
      match from_der der with
      | Some cert => Some (distinguished_name (subject_entries cert))
      | None => None
      end
  | None => None
  end.

Record MachineIdentity := {
  store : X509Store;
  allowed : list GlobMatcher;
  required : bool;
  machine_ca_certs : list X509;
  dns_cache : gmap str CacheEntry;
  dns_ttl : Z;
  dns_negative_ttl : Z;
  dns_stale_grace : Z }.

Definition set_dns_cache (m : MachineIdentity) (c : gmap str CacheEntry) : MachineIdentity :=
  {| store := store m; allowed := allowed m; required := required m;
     machine_ca_certs := machine_ca_certs m; dns_cache := c; dns_ttl := dns_ttl m;
     dns_negative_ttl := dns_negative_ttl m; dns_stale_grace := dns_stale_grace m |}.

(** ** [MachineIdentity::from_config_with_resolver] *)

Fixpoint add_cas (s : X509Store) (cas : list X509) : result X509Store str :=
  match cas with
  | [] => Ok s
  | ca :: cas' =>
      let? s' := map_err (λ e, "cannot add machine CA to store: " ++ e) (store_add s ca) in
      add_cas s' cas'
  end.

Definition compile_hostname (pattern : str) : result GlobMatcher str :=
  bail_if bool_decide (pattern ≠ to_ascii_lowercase pattern)
  with ("machine_identity allowed_hostnames pattern " ++ debug_str pattern
        ++ " must be lowercase (the certificate Common Name is lowercased before matching)")
  in
  map_err (λ e, "invalid machine_identity allowed_hostnames pattern " ++ debug_str pattern
                ++ ": " ++ e) (glob_new pattern).

Definition MachineIdentity_from_config (read : str → result str str)
    (cfg : MachineIdentityConfig) : result (option MachineIdentity) str :=
  if negb (mi_enabled cfg) then Ok None
  else
    bail_if is_empty (machine_ca cfg)
    with ("machine_identity is enabled but machine_ca is not set" : str) in
    let? pem := map_err (λ e, "cannot read machine_identity machine_ca " ++ machine_ca cfg
                              ++ ": " ++ e) (read (machine_ca cfg)) in
    let? cas := map_err (λ e, "cannot parse machine_identity machine_ca " ++ machine_ca cfg
                              ++ ": " ++ e) (stack_from_pem pem) in
    bail_if is_empty cas
    with ("machine_identity machine_ca " ++ machine_ca cfg ++ " contains no certificates") in
    let? builder := map_err (λ e, "cannot create machine certificate store: " ++ e) store_new in
    let? builder := add_cas builder cas in
    let? builder :=
      (if partial_chain cfg
       then map_err (λ e, "cannot set PARTIAL_CHAIN on machine store: " ++ e)
              (store_partial_chain builder)
       else Ok builder) in
    let? allowed := try_map compile_hostname (allowed_hostnames cfg) in
    Ok (Some {| store := builder; allowed := allowed; required := mi_required cfg;
                machine_ca_certs := cas; dns_cache := ∅;
                dns_ttl := from_secs (dns_ttl_secs cfg);
                dns_negative_ttl := from_secs (dns_negative_ttl_secs cfg);
                dns_stale_grace := from_secs (dns_stale_grace_secs cfg) |}).

(** ** [MachineIdentity::verify_cert] *)

(** A character a Common Name must not hold: non-ASCII, control or space. *)
Definition unsafe_char (c : Z) : bool :=
  negb (c <? 128) || (c <? 32) || (c =? 127) || (c =? 32).

(** The claimed name, checked and normalised. *)
Definition claimed_hostname (m : MachineIdentity) (cert : X509) : result str MachineError :=
  let? cn := ok_or (common_name (from_cert cert)) NoCommonName in
  bail_if is_empty cn || existsb unsafe_char (chars cn) with UnsafeCommonName in
  let cn := to_ascii_lowercase cn in
  bail_if negb (is_empty (allowed m)) && negb (existsb (λ g, is_match g cn) (allowed m))
  with HostnameNotAllowed cn in
  Ok cn.

Definition check_chain (m : MachineIdentity) (cert : X509) : result unit MachineError :=
  match verify_chain (store m) cert with
  | Err e => Err (UntrustedChain e)
  | Ok (ok, code, reason) =>
      if ok then Ok tt
      else if code =? X509_V_ERR_CERT_HAS_EXPIRED then Err CertExpired
      else if code =? X509_V_ERR_CERT_NOT_YET_VALID then Err CertNotYetValid
      else Err (UntrustedChain reason)
  end.

Definition verify_cert (m : MachineIdentity) (cert_b64 : str)
    : result VerifiedMachine MachineError :=
  let? der := ok_or (base64_decode (trim cert_b64)) NotBase64 in
  let? cert := ok_or (from_der der) NotDer in
  let? cn := claimed_hostname m cert in
  let? _ := check_chain m cert in
  Ok {| hostname := cn; vm_subject_dn := subject_dn (from_cert cert) |}.

(** ** [MachineIdentity::resolve_cached]

    The lock is not held while the resolver runs: the lookup reads the cache,
    and when it has no fresh answer goes on later, at another time and with
    whatever cache other requests have left. *)

(** The fast path: a fresh entry, positive or negative. *)
Definition resolve_start (m : MachineIdentity) (now : Z) (host : str) : option (list IpAddr) :=
  match dns_cache m !! host with
  | Some entry =>
      let ttl := if is_negative entry then dns_negative_ttl m else dns_ttl m in
      if elapsed now entry <? ttl then Some (addrs entry) else None
  | None => None
  end.

(** [MachineIdentity::store]: sweep, then insert. *)
Definition store_answer (m : MachineIdentity) (now : Z) (host : str) (addrs : list IpAddr)
    : MachineIdentity :=
  let keep := dns_ttl m + dns_stale_grace m in
  let swept := filter (λ p, elapsed now p.2 < keep) (dns_cache m) in
  set_dns_cache m (<[host := {| addrs := addrs; fetched := now |}]> swept).

(** The resolver has answered, or failed ([None]). *)
Definition resolve_finish (m : MachineIdentity) (now : Z) (host : str)
    (answer : option (list IpAddr)) : MachineIdentity * option (list IpAddr) :=
  match answer with
  | Some addrs => (store_answer m now host addrs, Some addrs)
  | None =>
      match dns_cache m !! host with
      | Some entry =>
          if negb (is_negative entry)
             && (elapsed now entry <? dns_ttl m + dns_stale_grace m)
          then (m, Some (addrs entry)) else (m, None)
      | None => (m, None)
      end
  end.

(** [MachineIdentity::resolve_cached]: the cache is read at [now]; the resolver
    answers at [now'], when the other requests have left [during m] of the
    shared state. *)
Definition resolve_cached (m : MachineIdentity) (during : MachineIdentity → MachineIdentity)
    (now now' : Z) (resolver : str → option (list IpAddr)) (host : str)
    : MachineIdentity * option (list IpAddr) :=
  match resolve_start m now host with
  | Some addrs => (during m, Some addrs)
  | None => resolve_finish (during m) now' host (resolver host)
  end.

(** ** [MachineIdentity::verify] *)

Definition forward_check (machine : VerifiedMachine) (ip : IpAddr)
    (answer : option (list IpAddr)) : result VerifiedMachine MachineError :=
  let cn := hostname machine in
  match answer with
  | Some addrs =>
      if bool_decide (ip ∈ addrs) then Ok machine
      else if is_empty addrs then Err (HostnameUnresolvable cn)
      else Err (HostnameAddressMismatch cn ip)
  | None => Err (HostnameUnresolvable cn)
  end.

(** The state is the one the other requests leave when the check is over. *)
Definition verify (m : MachineIdentity) (during : MachineIdentity → MachineIdentity)
    (now now' : Z) (resolver : str → option (list IpAddr)) (cert_b64 : str)
    (client_ip : option IpAddr) : MachineIdentity * result VerifiedMachine MachineError :=
  match client_ip with
  | None => (during m, Err NoClientAddress)
  | Some ip =>
      match verify_cert m cert_b64 with
      | Err e => (during m, Err e)
      | Ok machine =>
          let '(m', answer) := resolve_cached m during now now' resolver (hostname machine) in
          (m', forward_check machine ip answer)
      end
  end.
End Machine.
