(* ===== verification/MachineFacts.v ===== *)
(** What a verified machine identity rests on, which names reach the resolver,
    and where the addresses of the DNS cache come from, over every interleaving
    of lookups. *)

From S2P Require Import Prelude Net AuditTypes Attest AttestToken Config RateLimit RateLimitFacts Mtls Machine.

Section Facts.
Context `{Crypto, GlobOps, MachineTls}.
Variable debug_str : str → str.

(** ** The certificate *)

(** What the certificate in the header has to be for a request from [vm]. *)
Record certifies (m : MachineIdentity) (cert_b64 : str) (vm : VerifiedMachine)
    (x : X509) (cn : str) : Prop := {
  ce_der : ∃ der, base64_decode (trim cert_b64) = Some der ∧ from_der der = Some x;
  ce_name : common_name (from_cert x) = Some cn ∧ cn ≠ [];
  ce_safe : Forall (λ c, unsafe_char c = false) (chars cn);
  ce_host : hostname vm = to_ascii_lowercase cn;
  ce_allowed : allowed m = [] ∨ ∃ g, g ∈ allowed m ∧ is_match g (hostname vm) = true;
  ce_chain : ∃ code why, verify_chain (store m) x = Ok (true, code, why);
  ce_dn : vm_subject_dn vm = distinguished_name (subject_entries x) }.

Lemma existsb_false {A} (f : A → bool) l : existsb f l = false ↔ Forall (λ x, f x = false) l.
Proof.
  induction l as [|x l IH]; cbn; [by split|]. rewrite orb_false_iff, Forall_cons. by rewrite IH.
Qed.

Lemma existsb_elem {A} (f : A → bool) l : existsb f l = true ↔ ∃ x, x ∈ l ∧ f x = true.
Proof. rewrite existsb_exists. split; intros (x & Hx & ?); exists x; by rewrite list_elem_of_In in *. Qed.

Lemma claimed_hostname_ok m x h :
  claimed_hostname m x = Ok h ↔
  ∃ cn, common_name (from_cert x) = Some cn ∧ cn ≠ [] ∧
    Forall (λ c, unsafe_char c = false) (chars cn) ∧ h = to_ascii_lowercase cn ∧
    (allowed m = [] ∨ ∃ g, g ∈ allowed m ∧ is_match g h = true).
Proof.
  unfold claimed_hostname, ok_or. destruct (common_name (from_cert x)) as [cn|]; [|naive_solver].
  split.
  - intros Hc. destruct (is_empty cn) eqn:He; [done|]. cbn in Hc.
    destruct (existsb unsafe_char (chars cn)) eqn:Hs; [done|].
    destruct (negb (is_empty (allowed m)) && _) eqn:Ha; [done|]. injection Hc as <-.
    exists cn. do 2 (split; [by destruct cn|]). split; [by apply existsb_false|split; [done|]].
    apply andb_false_iff in Ha as [Ha|Ha]; to_prop;
      [left; by destruct (allowed m)|right; by apply existsb_elem].
  - intros (cn' & [= <-] & Hne & Hs & -> & Ha). apply existsb_false in Hs. rewrite Hs.
    destruct cn; [done|]. cbn [is_empty orb].
    destruct Ha as [Ha|Ha%existsb_elem]; rewrite Ha; cbn; [done|by rewrite andb_false_r].
Qed.

Lemma check_chain_ok m x :
  check_chain m x = Ok tt ↔ ∃ code why, verify_chain (store m) x = Ok (true, code, why).
Proof.
  unfold check_chain. split.
  - intros Hc. repeat split_match_in Hc. eauto.
  - by intros (code & why & ->).
Qed.

Lemma verify_cert_ok m cert_b64 vm :
  verify_cert m cert_b64 = Ok vm ↔ ∃ x cn, certifies m cert_b64 vm x cn.
Proof.
  unfold verify_cert, ok_or. split.
  - intros Hv. destruct (base64_decode _) as [der|] eqn:Hb; [|done].
    destruct (from_der der) as [x|] eqn:Hx; [|done].
    destruct (claimed_hostname m x) as [h|] eqn:Hh; [|done].
    destruct (check_chain m x) as [[]|] eqn:Hc; [|done]. injection Hv as <-.
    apply claimed_hostname_ok in Hh as (cn & ? & ? & ? & ? & ?).
    apply check_chain_ok in Hc. exists x, cn. constructor; eauto.
  - intros (x & cn & [(der & -> & ->) [Hn Hne] Hs Hh Ha Hc Hdn]).
    assert (claimed_hostname m x = Ok (hostname vm)) as ->.
    { apply claimed_hostname_ok. exists cn. by rewrite Hh in *. }
    rewrite (proj2 (check_chain_ok m x) Hc). f_equal. destruct vm; cbn in *. by subst.
Qed.

(** A check changes nothing of the machine identity but its cache. *)
Lemma set_dns_cache_id m : set_dns_cache m (dns_cache m) = m.
Proof. by destruct m. Qed.

Lemma verify_config m during now now' resolver cert_b64 ip m' :
  (verify m during now now' resolver cert_b64 ip).1 = m' → ∃ c, m' = set_dns_cache (during m) c.
Proof.
  assert (∀ m', during m = m' → ∃ c, m' = set_dns_cache (during m) c) as Hid
    by (intros ? <-; exists (dns_cache (during m)); by rewrite set_dns_cache_id).
  unfold verify, resolve_cached, resolve_finish, store_answer.
  destruct ip as [a|]; [|apply Hid]. destruct (verify_cert m cert_b64) as [vm|e]; [|apply Hid].
  destruct (resolve_start _ _ _); [apply Hid|].
  destruct (resolver _); [by intros <-; eexists|].
  repeat case_match; simplify_eq; apply Hid.
Qed.

Lemma verify_during m during during' now now' resolver cert_b64 ip :
  during m = during' m →
  verify m during now now' resolver cert_b64 ip = verify m during' now now' resolver cert_b64 ip.
Proof. unfold verify, resolve_cached. by intros ->. Qed.

(** When a machine certificate is accepted. *)
Lemma verify_ok_iff m during now now' resolver cert_b64 ip vm :
  (verify m during now now' resolver cert_b64 ip).2 = Ok vm ↔
  ∃ a x cn found,
    ip = Some a ∧ certifies m cert_b64 vm x cn ∧
    (resolve_cached m during now now' resolver (hostname vm)).2 = Some found ∧ a ∈ found.
Proof.
  unfold verify. destruct ip as [a|]; [|naive_solver].
  destruct (verify_cert m cert_b64) as [vm'|e] eqn:Hv.
  - pose proof (proj1 (verify_cert_ok m cert_b64 vm') Hv) as (x' & cn' & Hce).
    destruct (resolve_cached m during now now' resolver (hostname vm')) as [m' answer] eqn:Hr.
    cbn [snd]. unfold forward_check. split.
    + intros Hf. repeat split_match_in Hf. to_prop.
      exists a, x', cn'. eexists. by rewrite Hr.
    + intros (a' & x & cn & found & [= <-] & Hce' & Hr' & Hin).
      assert (vm = vm') as ->.
      { assert (verify_cert m cert_b64 = Ok vm) by (apply verify_cert_ok; eauto). congruence. }
      rewrite Hr in Hr'. cbn in Hr'. subst answer. by rewrite bool_decide_eq_true_2.
  - split; [done|]. intros (a' & x & cn & found & _ & Hce & _).
    assert (verify_cert m cert_b64 = Ok vm) by (apply verify_cert_ok; eauto). congruence.
Qed.

(** Claim C28. No name reaches the resolver, and the cache does not change,
    before its certificate is trusted: the outcome depends on the resolver only
    at the verified hostname, and a request without a client address or with
    a certificate that fails leaves everything as the other requests do. *)
Theorem resolver_sees_only_verified_names m during now now' r1 r2 cert_b64 ip :
  (∀ vm, verify_cert m cert_b64 = Ok vm → r1 (hostname vm) = r2 (hostname vm)) →
  verify m during now now' r1 cert_b64 ip = verify m during now now' r2 cert_b64 ip ∧
  ((verify m during now now' r1 cert_b64 ip).1 ≠ during m →
   is_Some ip ∧ ∃ vm, verify_cert m cert_b64 = Ok vm ∧ resolve_start m now (hostname vm) = None).
Proof.
  intros Hr. unfold verify, resolve_cached.
  destruct ip as [a|]; [|split; [done|intros []; done]].
  destruct (verify_cert m cert_b64) as [vm|e]; [|split; [done|intros []; done]].
  rewrite (Hr vm eq_refl). split; [done|].
  destruct (resolve_start m now (hostname vm)) eqn:Hs; [intros []; done|]. eauto.
Qed.

Lemma claimed_hostname_err m x e : claimed_hostname m x = Err e → chain_verified e = false.
Proof. unfold claimed_hostname, ok_or. intros Hc. by inv_match Hc. Qed.

Lemma check_chain_err m x e : check_chain m x = Err e → chain_verified e = false.
Proof. unfold check_chain. intros Hc. by inv_match Hc. Qed.

Lemma verify_cert_err m cert_b64 e : verify_cert m cert_b64 = Err e → chain_verified e = false.
Proof.
  unfold verify_cert, ok_or. destruct (base64_decode _) as [der|]; [|by intros [= <-]].
  destruct (from_der der) as [x|]; [|by intros [= <-]].
  destruct (claimed_hostname m x) as [h|] eqn:Hh;
    [|intros [= <-]; by eapply claimed_hostname_err].
  destruct (check_chain m x) eqn:Hc; [done|]. intros [= <-]. by eapply check_chain_err.
Qed.

(** What a refusal says of the certificate is true. *)
Lemma verify_err_sound m during now now' resolver cert_b64 a e :
  (verify m during now now' resolver cert_b64 (Some a)).2 = Err e →
  (chain_verified e = true ↔ ∃ vm, verify_cert m cert_b64 = Ok vm) ∧
  (∀ vm, verify_cert m cert_b64 = Ok vm →
     let answer := (resolve_cached m during now now' resolver (hostname vm)).2 in
     (e = HostnameUnresolvable (hostname vm) ∧ (answer = None ∨ answer = Some [])) ∨
     (e = HostnameAddressMismatch (hostname vm) a ∧
      ∃ found, answer = Some found ∧ found ≠ [] ∧ a ∉ found)).
Proof.
  unfold verify. destruct (verify_cert m cert_b64) as [vm|e'] eqn:Hv.
  - destruct (resolve_cached m during now now' resolver (hostname vm)) as [m' answer] eqn:Hr.
    cbn [snd]. unfold forward_check. intros Hf. split.
    + split; [eauto|]. intros _. by inv_match Hf.
    + intros vm' [= <-]. rewrite Hr. cbn.
      destruct answer as [found|]; [|simplify_eq; by left; eauto].
      case_bool_decide; [done|]. destruct found; cbn in Hf; simplify_eq; [by left; eauto|].
      right. split; [done|]. by eexists.
  - cbn. intros [= <-]. split; [|done].
    rewrite (verify_cert_err _ _ _ Hv). split; [done|by intros []].
Qed.
(** Claim C20. A request gets a machine identity exactly when its header holds a
    parseable certificate that chains to the machine CA, whose Common Name is
    non-empty printable ASCII without spaces and, lowercased, is allowed by the
    configured patterns, and that name's addresses, as cached or resolved for
    this request whatever other requests do meanwhile, include the address the
    client connected from.  The identity is that name and the certificate's own
    subject.  What the audit record says of a refused machine is true: the chain
    is called verified exactly when the certificate was trusted and only the
    address check failed, and then the error names the verified host. *)
Theorem machine_verified_iff m during now now' resolver cert_b64 a :
  (∀ ip vm, (verify m during now now' resolver cert_b64 ip).2 = Ok vm ↔
    ∃ a x cn found,
      ip = Some a ∧ certifies m cert_b64 vm x cn ∧
      (resolve_cached m during now now' resolver (hostname vm)).2 = Some found ∧ a ∈ found) ∧
  (∀ e, (verify m during now now' resolver cert_b64 (Some a)).2 = Err e →
  (chain_verified e = true ↔ ∃ vm, verify_cert m cert_b64 = Ok vm) ∧
  (∀ vm, verify_cert m cert_b64 = Ok vm →
     let answer := (resolve_cached m during now now' resolver (hostname vm)).2 in
     (e = HostnameUnresolvable (hostname vm) ∧ (answer = None ∨ answer = Some [])) ∨
     (e = HostnameAddressMismatch (hostname vm) a ∧
      ∃ found, answer = Some found ∧ found ≠ [] ∧ a ∉ found))).
Proof. split; [intros ip vm; by apply verify_ok_iff|intros e He; by apply verify_err_sound]. Qed.

End Facts.

(** ** Lookups in flight

    Requests look names up concurrently: the lock is free while a resolver call
    runs, so any number are in flight and finish in any order, each against the
    cache it finds. *)

Record Outcome := {
  o_host : str;
  o_time : Z;
  o_answer : option (list IpAddr);
  o_failed : bool                     (* the resolver failed for this lookup *) }.

Record Answer := { a_host : str; a_addrs : list IpAddr; a_time : Z }.

Section Lookups.
Context `{Crypto, GlobOps, MachineTls}.

Record Lookups := {
  lk_machine : MachineIdentity;
  lk_now : Z;
  lk_pending : list str;
  lk_answers : list Answer;           (* what the resolver has answered, latest first *)
  lk_outcomes : list Outcome }.

Definition record (s : Lookups) (host : str) (r : option (list IpAddr)) (failed : bool) :=
  {| o_host := host; o_time := lk_now s; o_answer := r; o_failed := failed |}
  :: lk_outcomes s.

Inductive lookup_step (s : Lookups) : Lookups → Prop :=
  | Tick now' : lk_now s ≤ now' →
      lookup_step s {| lk_machine := lk_machine s; lk_now := now'; lk_pending := lk_pending s;
                       lk_answers := lk_answers s; lk_outcomes := lk_outcomes s |}
  | Hit host found : resolve_start (lk_machine s) (lk_now s) host = Some found →
      lookup_step s {| lk_machine := lk_machine s; lk_now := lk_now s;
                       lk_pending := lk_pending s; lk_answers := lk_answers s;
                       lk_outcomes := record s host (Some found) false |}
  | Ask host : resolve_start (lk_machine s) (lk_now s) host = None →
      lookup_step s {| lk_machine := lk_machine s; lk_now := lk_now s;
                       lk_pending := host :: lk_pending s; lk_answers := lk_answers s;
                       lk_outcomes := lk_outcomes s |}
  | Answered p1 host p2 found m' r :
      lk_pending s = p1 ++ host :: p2 →
      resolve_finish (lk_machine s) (lk_now s) host (Some found) = (m', r) →
      lookup_step s {| lk_machine := m'; lk_now := lk_now s; lk_pending := p1 ++ p2;
                       lk_answers := {| a_host := host; a_addrs := found; a_time := lk_now s |}
                                     :: lk_answers s;
                       lk_outcomes := record s host r false |}
  | Failed p1 host p2 m' r :
      lk_pending s = p1 ++ host :: p2 →
      resolve_finish (lk_machine s) (lk_now s) host None = (m', r) →
      lookup_step s {| lk_machine := m'; lk_now := lk_now s; lk_pending := p1 ++ p2;
                       lk_answers := lk_answers s;
                       lk_outcomes := record s host r true |}.

(** A proxy that has just started: nothing cached, nothing asked. *)
Definition lookups_start (m : MachineIdentity) (now : Z) : Lookups :=
  {| lk_machine := m; lk_now := now; lk_pending := []; lk_answers := []; lk_outcomes := [] |}.

Definition lookups_reachable (m : MachineIdentity) (now : Z) : Lookups → Prop :=
  rtc lookup_step (lookups_start m now).

(** The windows of [m]: how old an answer may be that a lookup uses. *)
Definition windows_ok (m : MachineIdentity) : Prop :=
  0 ≤ dns_ttl m ∧ 0 ≤ dns_negative_ttl m ∧ 0 ≤ dns_stale_grace m.

(** An outcome rests on an answer of the resolver for that very name. *)
Definition outcome_ok (m : MachineIdentity) (answers : list Answer) (o : Outcome) : Prop :=
  match o_answer o with
  | Some found => ∃ t, {| a_host := o_host o; a_addrs := found; a_time := t |} ∈ answers ∧
      t ≤ o_time o ∧
      (if o_failed o then found ≠ [] ∧ o_time o - t < dns_ttl m + dns_stale_grace m
       else t = o_time o ∨
            o_time o - t < (if is_empty found then dns_negative_ttl m else dns_ttl m))
  | None => o_failed o = true
  end.

Record lookups_inv (m : MachineIdentity) (s : Lookups) : Prop := {
  li_config : ∃ c, lk_machine s = set_dns_cache m c;
  li_cache host e : dns_cache (lk_machine s) !! host = Some e →
    {| a_host := host; a_addrs := addrs e; a_time := fetched e |} ∈ lk_answers s ∧
    fetched e ≤ lk_now s;
  li_swept host e a : dns_cache (lk_machine s) !! host = Some e → head (lk_answers s) = Some a →
    fetched e = a_time a ∨ a_time a - fetched e < dns_ttl m + dns_stale_grace m;
  li_head a : head (lk_answers s) = Some a → a_time a ≤ lk_now s;
  li_outcomes o : o ∈ lk_outcomes s → outcome_ok m (lk_answers s) o }.

Lemma elapsed_eq now e : fetched e ≤ now → elapsed now e = now - fetched e.
Proof. unfold elapsed, duration_since. lia. Qed.

(** Outcomes stay justified as answers are added. *)
Lemma outcome_ok_more m answers a o :
  outcome_ok m answers o → outcome_ok m (a :: answers) o.
Proof.
  unfold outcome_ok. destruct (o_answer o) as [found|]; [|done].
  intros (t & Hin & Ht). exists t. split; [by apply list_elem_of_further|done].
Qed.

Lemma outcome_hit m s host found :
  lookups_inv m s → windows_ok m → resolve_start (lk_machine s) (lk_now s) host = Some found →
  outcome_ok m (lk_answers s)
    {| o_host := host; o_time := lk_now s; o_answer := Some found; o_failed := false |}.
Proof.
  intros Hinv Hw Hs. unfold resolve_start in Hs.
  destruct (dns_cache _ !! host) as [e|] eqn:He; [|done].
  destruct (li_cache _ _ Hinv _ _ He) as [Hin Hle].
  destruct (li_config _ _ Hinv) as [c Hc]. rewrite Hc in Hs. cbn in Hs.
  destruct (_ <? _) eqn:E; [|done]. injection Hs as <-. to_prop.
  rewrite elapsed_eq in E by done.
  unfold outcome_ok. cbn. exists (fetched e). split; [done|split; [done|]].
  right. exact E.
Qed.

Lemma outcome_failed m s host m' r :
  lookups_inv m s → resolve_finish (lk_machine s) (lk_now s) host None = (m', r) →
  m' = lk_machine s ∧
  outcome_ok m (lk_answers s)
    {| o_host := host; o_time := lk_now s; o_answer := r; o_failed := true |}.
Proof.
  intros Hinv Hs. cbn in Hs.
  destruct (dns_cache _ !! host) as [e|] eqn:He; [|by injection Hs as <- <-].
  destruct (li_cache _ _ Hinv _ _ He) as [Hin Hle].
  destruct (li_config _ _ Hinv) as [c Hc].
  destruct (negb (is_negative e) && _) eqn:E; injection Hs as <- <-; [|done].
  split; [done|]. apply andb_true_iff in E as [Hn E]. rewrite Hc in E. cbn in E. to_prop.
  rewrite elapsed_eq in E by done.
  unfold outcome_ok. cbn. exists (fetched e). split; [done|split; [done|split; [|done]]].
  unfold is_negative in Hn. by destruct (addrs e).
Qed.

Lemma lookups_inv_start m now : dns_cache m = ∅ → lookups_inv m (lookups_start m now).
Proof.
  intros Hc. constructor; cbn; rewrite ?Hc; try done.
  - exists ∅. destruct m; cbn in *. by subst.
  - set_solver.
Qed.

(** A stored answer: the entry itself, and only entries young enough beside it. *)
Lemma store_lookup m now host found host' e :
  dns_cache (store_answer m now host found) !! host' = Some e →
  (host' = host ∧ e = {| addrs := found; fetched := now |}) ∨
  (host' ≠ host ∧ dns_cache m !! host' = Some e ∧ elapsed now e < dns_ttl m + dns_stale_grace m).
Proof.
  unfold store_answer. cbn. intros [[<- <-]|[Hne Hl]]%lookup_insert_Some; [by left|right].
  apply map_lookup_filter_Some in Hl as [??]. done.
Qed.

Lemma lookups_inv_answered m s p1 host p2 found :
  lookups_inv m s → windows_ok m →
  lookups_inv m
    {| lk_machine := store_answer (lk_machine s) (lk_now s) host found;
       lk_now := lk_now s; lk_pending := p1 ++ p2;
       lk_answers := {| a_host := host; a_addrs := found; a_time := lk_now s |} :: lk_answers s;
       lk_outcomes := record s host (Some found) false |}.
Proof.
  intros Hinv Hw. destruct (li_config _ _ Hinv) as [c Hc].
  constructor; cbn [lk_machine lk_now lk_answers lk_outcomes].
  - eexists. unfold store_answer. rewrite Hc. reflexivity.
  - intros host' e [[-> ->]|(_ & Hl & _)]%store_lookup; cbn; [split; [left|lia]|].
    destruct (li_cache _ _ Hinv _ _ Hl). split; [by apply list_elem_of_further|done].
  - intros host' e a [[-> ->]|(_ & Hl & He)]%store_lookup [= <-]; cbn; [by left|right].
    destruct (li_cache _ _ Hinv _ _ Hl) as [_ Hle]. rewrite elapsed_eq, Hc in He by done.
    exact He.
  - intros a [= <-]. cbn. lia.
  - intros o [->|Ho]%elem_of_cons; [|apply outcome_ok_more; by apply (li_outcomes _ _ Hinv)].
    unfold outcome_ok. cbn. exists (lk_now s). split; [left|lia].
Qed.

Lemma lookups_inv_step m s s' :
  windows_ok m → lookups_inv m s → lookup_step s s' → lookups_inv m s'.
Proof.
  intros Hw Hinv Hs.
  destruct Hs as [now' Hle|host found Hr|host Hr|p1 host p2 found m' r Hp Hr|p1 host p2 m' r Hp Hr].
  - destruct Hinv as [Hcfg Hcache Hswept Hhead Hout]. constructor; cbn; try done.
    + intros host e He. destruct (Hcache host e He). split; [done|lia].
    + intros a Ha. specialize (Hhead a Ha). lia.
  - pose proof (outcome_hit m s host found Hinv Hw Hr) as Ho.
    destruct Hinv as [Hcfg Hcache Hswept Hhead Hout]. constructor; cbn; try done.
    intros o [->|Hin]%elem_of_cons; auto.
  - by destruct Hinv as [Hcfg Hcache Hswept Hhead Hout].
  - injection Hr as <- <-. by apply lookups_inv_answered.
  - destruct (outcome_failed m s host m' r Hinv Hr) as [-> Ho].
    destruct Hinv as [Hcfg Hcache Hswept Hhead Hout]. constructor; cbn; try done.
    intros o [->|Hin]%elem_of_cons; auto.
Qed.

Lemma lookups_inv_reachable m now s :
  dns_cache m = ∅ → windows_ok m → lookups_reachable m now s → lookups_inv m s.
Proof.
  intros Hc Hw Hs. unfold lookups_reachable in Hs.
  pose proof (lookups_inv_start m now Hc) as Hinv. revert Hinv.
  induction Hs as [s|s1 s2 s3 Hstep _ IH]; [done|]. eauto using lookups_inv_step.
Qed.

(** Claim C21. Over every interleaving of lookups, every address list a request
    is checked against is one the resolver gave for that very name: just now, or
    less than its TTL ago, or, only when the resolver failed for this lookup and
    never for an empty answer, less than the TTL and the grace period ago.  With
    nothing usable cached a failing resolver gives no answer, never an old one.  And the cache stays bounded
    by the live fleet: every name in it is one the resolver answered less than
    the TTL and the grace period before its latest answer. *)
Theorem dns_answers_have_provenance m now s :
  dns_cache m = ∅ → windows_ok m → lookups_reachable m now s →
  (∀ o, o ∈ lk_outcomes s → outcome_ok m (lk_answers s) o) ∧
  (∀ last host, head (lk_answers s) = Some last → is_Some (dns_cache (lk_machine s) !! host) →
    ∃ a, a ∈ lk_answers s ∧ a_host a = host ∧
      (a_time a = a_time last ∨ a_time last - a_time a < dns_ttl m + dns_stale_grace m)).
Proof.
  intros Hc Hw Hs. pose proof (lookups_inv_reachable m now s Hc Hw Hs) as Hinv.
  split; [apply Hinv|]. intros last host Hl [e He].
  destruct (li_cache _ _ Hinv _ _ He) as [Hin _].
  eexists. split; [exact Hin|split; [done|]]. by eapply (li_swept _ _ Hinv).
Qed.
End Lookups.

(** ** Configurations *)

Section Startup.
Context `{Crypto, GlobOps, MachineTls}.
Variable debug_str : str → str.

(** The TTLs are [u64]s read from TOML, whose integers are [i64]s. *)
Definition machine_config_typed (cfg : MachineIdentityConfig) : Prop :=
  0 ≤ dns_ttl_secs cfg ≤ i64_max ∧ 0 ≤ dns_negative_ttl_secs cfg ≤ i64_max ∧
  0 ≤ dns_stale_grace_secs cfg ≤ i64_max.

(** The largest [Duration]: [u64::MAX] seconds and a fraction. *)
Definition MAX_DURATION : Z := u64_max * NANOS + (NANOS - 1).

Lemma compile_hostname_ok pattern g :
  compile_hostname debug_str pattern = Ok g ↔
  pattern = to_ascii_lowercase pattern ∧ glob_new pattern = Ok g.
Proof.
  unfold compile_hostname, map_err.
  destruct (decide (pattern = to_ascii_lowercase pattern)) as [E|E].
  - rewrite bool_decide_eq_false_2 by tauto. case_match; naive_solver.
  - rewrite bool_decide_eq_true_2 by done. by split; [|intros [? _]].
Qed.

(** A usable section, with what it is built into: the CA certificates, the
    trust store over them and one matcher per pattern. *)
Record machine_section (read : str → result str str) (cfg : MachineIdentityConfig)
    (cas : list X509) (st : X509Store) (gs : list GlobMatcher) : Prop := {
  ms_path : machine_ca cfg ≠ [];
  ms_cas : cas ≠ [] ∧ ∃ pem, read (machine_ca cfg) = Ok pem ∧ stack_from_pem pem = Ok cas;
  ms_store : ∃ b0 b1, store_new = Ok b0 ∧ add_cas b0 cas = Ok b1 ∧
    (if partial_chain cfg then store_partial_chain b1 else Ok b1) = Ok st;
  ms_patterns : Forall2 (λ p g, p = to_ascii_lowercase p ∧ glob_new p = Ok g)
                  (allowed_hostnames cfg) gs }.

Lemma compiled_hostnames ps gs :
  try_map (compile_hostname debug_str) ps = Ok gs ↔
  Forall2 (λ p g, p = to_ascii_lowercase p ∧ glob_new p = Ok g) ps gs.
Proof.
  rewrite try_map_ok. split; intros Hf; (eapply Forall2_impl; [exact Hf|]); intros p g Hp;
    by apply compile_hostname_ok.
Qed.

Lemma from_config_built read cfg m :
  MachineIdentity_from_config debug_str read cfg = Ok (Some m) →
  machine_section read cfg (machine_ca_certs m) (store m) (allowed m) ∧
  required m = mi_required cfg ∧ dns_cache m = ∅ ∧ dns_ttl m = from_secs (dns_ttl_secs cfg) ∧
  dns_negative_ttl m = from_secs (dns_negative_ttl_secs cfg) ∧
  dns_stale_grace m = from_secs (dns_stale_grace_secs cfg).
Proof.
  unfold MachineIdentity_from_config. destruct (mi_enabled cfg); [|done]. cbn [negb].
  destruct (machine_ca cfg) as [|a s] eqn:Hca; [done|]. cbn [is_empty].
  destruct (read (a :: s)) as [pem|] eqn:Hp; [|done]. cbn [map_err].
  destruct (stack_from_pem pem) as [[|ca cas]|] eqn:Hs; cbn [is_empty map_err]; [done| |done].
  destruct store_new as [b0|] eqn:Hb0; [|done]. cbn [map_err].
  destruct (add_cas b0 _) as [b1|] eqn:Hb1; [|done].
  destruct (partial_chain cfg) eqn:Hpc; [destruct (store_partial_chain b1) as [b2|] eqn:Hb2; [|done]|].
  all: cbn [map_err]; destruct (try_map _ _) as [gs|] eqn:Hgs; [|done]; apply compiled_hostnames in Hgs.
  all: intros [= <-]; cbn; split; [|done]; split; cbn.
  all: first [exact Hgs | by rewrite Hca | rewrite Hca; by eauto | exists b0, b1; by rewrite Hpc].
Qed.

Lemma section_builds read cfg cas st gs :
  mi_enabled cfg = true → machine_section read cfg cas st gs →
  is_ok (MachineIdentity_from_config debug_str read cfg) = true.
Proof.
  intros He [Hp [Hne (pem & Hr & Hs)] (b0 & b1 & Hb0 & Hb1 & Hst) Hgs].
  apply compiled_hostnames in Hgs. unfold MachineIdentity_from_config. rewrite He. cbn [negb].
  destruct (machine_ca cfg) as [|a path]; [done|]. cbn [is_empty]. rewrite Hr. cbn [map_err].
  rewrite Hs. destruct cas as [|ca cas]; [done|]. cbn [is_empty map_err]. rewrite Hb0. cbn [map_err].
  rewrite Hb1. destruct (partial_chain cfg); rewrite Hst || injection Hst as <-; cbn [map_err];
    by rewrite Hgs.
Qed.

(** Machine identity starts exactly on a usable configuration: disabled, it is
    off whatever else the section holds; enabled, it starts exactly when the CA
    file has at least one certificate, the trust store over them can be built and
    every pattern is lowercase and compiles; it then has that store, one matcher
    per pattern and an empty DNS cache, and the sum of TTL and grace that every
    lookup computes fits a [Duration]. *)
Theorem machine_config_classified read cfg :
  machine_config_typed cfg →
  match MachineIdentity_from_config debug_str read cfg with
  | Ok None => mi_enabled cfg = false
  | Ok (Some m) =>
      mi_enabled cfg = true ∧
      machine_section read cfg (machine_ca_certs m) (store m) (allowed m) ∧
      required m = mi_required cfg ∧ dns_cache m = ∅ ∧ windows_ok m ∧
      dns_ttl m + dns_stale_grace m ≤ MAX_DURATION
  | Err _ => mi_enabled cfg = true ∧ ∀ cas st gs, ¬ machine_section read cfg cas st gs
  end.
Proof.
  intros (Ht & Hn & Hg).
  assert (mi_enabled cfg = false → MachineIdentity_from_config debug_str read cfg = Ok None) as Hoff
    by (unfold MachineIdentity_from_config; by intros ->).
  assert (mi_enabled cfg = true → MachineIdentity_from_config debug_str read cfg ≠ Ok None) as Hon.
  { unfold MachineIdentity_from_config. intros -> Hr. cbn [negb] in Hr. by repeat split_match_in Hr. }
  destruct (MachineIdentity_from_config _ _ _) as [[m|]|e] eqn:Hc; destruct (mi_enabled cfg) eqn:He;
    try done; try (by specialize (Hoff eq_refl)); try (by destruct (Hon eq_refl)).
  - split; [done|]. apply from_config_built in Hc as (? & ? & ? & Hd & Hdn & Hds).
    do 3 (split; [done|]). unfold windows_ok, MAX_DURATION, from_secs, u64_max, i64_max, NANOS in *. lia.
  - split; [done|]. intros cas st gs Hs. pose proof (section_builds _ _ _ _ _ He Hs) as Hok.
    by rewrite Hc in Hok.
Qed.
End Startup.

(** ** An example *)

(** Certificates are their Common Name; every name but one chains. *)
Module ToyMachine.
#[export] Instance x509 : X509Ops :=
  {| X509 := str;
     subject_entries x := [{| nid := NID_COMMONNAME; nid_short_name := Some ("CN" : str);
                              object_text := "commonName"; as_utf8 := Some x; as_slice := x |}];
     alt_dns_names _ := None;
     stack_from_pem pem := Ok (if is_empty pem then [] else [pem]) |}.

#[export] Instance tls : MachineTls :=
  {| from_der der := if is_empty der then None else Some (der : X509);
     X509Store := list X509;
     store_new := Ok [];
     store_add s ca := Ok (ca :: s);
     store_partial_chain s := Ok s;
     verify_chain _ x := Ok (bool_decide (x ≠ ("Evil" : str)), 20, "unable to get local issuer" : str) |}.
End ToyMachine.

Section Examples.
#[local] Existing Instances Toy.crypto ToyRate.globs ToyMachine.x509 ToyMachine.tls.

Definition fleet_config : MachineIdentityConfig :=
  {| mi_enabled := true; machine_ca := "ca.pem"; mi_required := true;
     allowed_hostnames := ["ws*" : str]; dns_ttl_secs := 100; dns_negative_ttl_secs := 10;
     dns_stale_grace_secs := 50; partial_chain := false |}.

Definition fleet : MachineIdentity :=
  {| store := ["pem" : str]; allowed := ["ws*" : str]; required := true;
     machine_ca_certs := ["pem" : str]; dns_cache := ∅; dns_ttl := from_secs 100;
     dns_negative_ttl := from_secs 10; dns_stale_grace := from_secs 50 |}.

Definition ws1_ip : IpAddr := V4 167772161.
Definition ws1_header : str := ("WS1" : str) ≫= hex_byte.
Definition ws1 : VerifiedMachine := {| hostname := "ws1"; vm_subject_dn := "CN=WS1" |}.
Definition dns (host : str) : option (list IpAddr) :=
  if decide (host = "ws1") then Some [ws1_ip] else None.

Lemma fleet_windows : windows_ok fleet.
Proof. unfold windows_ok, from_secs, NANOS. cbn. unfold from_secs, NANOS. lia. Qed.

Example ws1_verifies : (verify fleet id 0 5 dns ws1_header (Some ws1_ip)).2 = Ok ws1.
Proof. vm_compute. reflexivity. Qed.

Lemma machine_config_classified_witness :
  MachineIdentity_from_config (λ s, s) (λ _, Ok ("pem" : str)) fleet_config = Ok (Some fleet) ∧
  dns_cache fleet = ∅ ∧ windows_ok fleet.
Proof.
  assert (machine_config_typed fleet_config) as Hty
    by (unfold machine_config_typed, i64_max; cbn; lia).
  split; [reflexivity|].
  pose proof (machine_config_classified (λ s, s) (λ _, Ok ("pem" : str)) fleet_config Hty) as Hc.
  change (MachineIdentity_from_config (λ s, s) (λ _, Ok ("pem" : str)) fleet_config)
    with (Ok (E := str) (Some fleet)) in Hc.
  by destruct Hc as (_ & _ & _ & ? & ? & _).
Defined.

(** A resolver that is asked about any other name gives the same result. *)
Lemma resolver_sees_only_verified_names_witness :
  verify fleet id 0 5 dns ws1_header (Some ws1_ip)
  = verify fleet id 0 5 (λ _, Some [ws1_ip]) ws1_header (Some ws1_ip).
Proof.
  refine (proj1 (resolver_sees_only_verified_names fleet id 0 5 dns (λ _, Some [ws1_ip])
                   ws1_header (Some ws1_ip) _)).
  intros vm Hv. assert (vm = ws1) as -> by
    (change (verify_cert fleet ws1_header) with (Ok (E := MachineError) ws1) in Hv; congruence).
  reflexivity.
Defined.

(** One lookup is answered; later, past the TTL, the resolver fails. *)
Definition lookups_end : Lookups :=
  {| lk_machine := store_answer fleet 5 "ws1" [ws1_ip]; lk_now := from_secs 120; lk_pending := [];
     lk_answers := [{| a_host := "ws1"; a_addrs := [ws1_ip]; a_time := 5 |}];
     lk_outcomes :=
       [{| o_host := "ws1"; o_time := from_secs 120; o_answer := Some [ws1_ip]; o_failed := true |};
        {| o_host := "ws1"; o_time := 5; o_answer := Some [ws1_ip]; o_failed := false |}] |}.

Lemma lookups_end_reachable : lookups_reachable fleet 0 lookups_end.
Proof.
  unfold lookups_reachable, lookups_start.
  eapply rtc_l; [apply (Tick _ 5); cbn; lia|].
  eapply rtc_l; [apply (Ask _ "ws1"); reflexivity|].
  eapply rtc_l; [apply (Answered _ [] "ws1" [] [ws1_ip]); reflexivity|].
  eapply rtc_l; [apply (Tick _ (from_secs 120)); cbn; unfold from_secs, NANOS; lia|].
  eapply rtc_l; [apply (Ask _ "ws1"); vm_compute; reflexivity|].
  eapply rtc_l; [apply (Failed _ [] "ws1" []); [reflexivity|vm_compute; reflexivity]|].
  match goal with |- rtc _ ?a ?b => assert (a = b) as -> by (vm_compute; reflexivity) end.
  apply rtc_refl.
Qed.

Lemma dns_answers_have_provenance_witness :
  Forall (outcome_ok fleet (lk_answers lookups_end)) (lk_outcomes lookups_end) ∧
  ∃ a, a ∈ lk_answers lookups_end ∧ a_host a = "ws1".
Proof.
  destruct (dns_answers_have_provenance fleet 0 lookups_end eq_refl fleet_windows
              lookups_end_reachable) as [Ho Hb].
  split; [by apply Forall_forall|].
  destruct (Hb {| a_host := "ws1"; a_addrs := [ws1_ip]; a_time := 5 |} "ws1" eq_refl)
    as (a & Ha & Hh & _); [vm_compute; by eexists|eauto].
Defined.
End Examples.
