(* ===== verification/AuditLog.v ===== *)
(** The audit record ([src/proxy/src/audit.rs]): what [request_filter] notes of
    a request, how pingora's terminal errors are classified, and the record
    built from both when the exchange ends.

    The calendar of the [time] crate is a parameter (class [Calendar]), as is
    the log filter; serialisation to JSON is serde's. *)

From S2P Require Import Prelude Net AuditTypes Attest RateLimit Mtls Machine.

Definition SCHEMA_VERSION : str := "1.0".
Definition TARGET : str := "denbrowser_proxy::audit".
Definition MAX_DN_CHARS : nat := 1024.
Definition MAX_HOST_CHARS : nat := 256.
Definition MAX_METHOD_CHARS : nat := 32.
Definition MAX_NONCE_CHARS : nat := 64.

Inductive Level := LevelError | LevelWarn | LevelInfo | LevelDebug | LevelTrace.
#[global] Instance Level_eq_dec : EqDecision Level. Proof. solve_decision. Defined.

(** [Level::as_str]. *)
Definition level_str (l : Level) : str :=
  match l with
  | LevelError => "ERROR" | LevelWarn => "WARN" | LevelInfo => "INFO"
  | LevelDebug => "DEBUG" | LevelTrace => "TRACE"
  end.

(** ** [bounded] *)

Definition ELLIPSIS : Z := 8230.

(** Cut before the character of index [max_chars], when there is one. *)
Definition bounded (s : str) (max_chars : nat) : str :=
  match char_indices s !! max_chars with
  | None => s
  | Some (cut, _) => take cut s ++ encode_utf8 ELLIPSIS
  end.

(** ** Timestamps *)

Record DateTime := {
  year : Z; month : Z; day : Z; hour : Z; minute : Z; second : Z; millisecond : Z }.

(** [OffsetDateTime] in UTC, from the nanoseconds of a [SystemTime] since the
    epoch or from a Unix time. *)
Class Calendar := {
  offset_date_time : Z → DateTime;
  from_unix_timestamp : Z → option DateTime }.

Definition format_utc (t : DateTime) : str :=
  show_padded 4 (year t) ++ "-" ++ show_padded 2 (month t) ++ "-" ++ show_padded 2 (day t)
  ++ "T" ++ show_padded 2 (hour t) ++ ":" ++ show_padded 2 (minute t) ++ ":"
  ++ show_padded 2 (second t) ++ "." ++ show_padded 3 (millisecond t) ++ "Z".

Definition MAX_ISO_UNIX_SECS : Z := 253402300799.

Definition timestamp `{Calendar} (t : Z) : str := format_utc (offset_date_time t).

Definition unix_timestamp `{Calendar} (secs : Z) : option str :=
  if negb (in_range 0 MAX_ISO_UNIX_SECS secs) then None
  else format_utc <$> from_unix_timestamp secs.

(** ** The record *)

Record SocketAddr := { sa_ip : IpAddr; sa_port : Z }.

(** [From<&BodyBinding> for Binding]. *)
Definition binding_of (b : BodyBinding) : Binding :=
  match b with HashBody _ => Bound | UnboundBody => Unbound end.

Record AuditEvent := {
  ev_kind : str;
  ev_action : Action;
  ev_outcome : Outcome;
  ev_stage : option Stage;
  ev_reason : option Reason;
  ev_risk : Risk;
  ev_duration_ms : Z }.

Record Endpoint := { ep_ip : option IpAddr; ep_port : option Z }.

Record ClientFields := { cl_address : option str; cl_ip : option IpAddr; cl_port : option Z }.

Record MachineFields := {
  ma_status : MachineStatus;
  ma_subject_dn : option str;
  ma_hostname : option str;
  ma_chain_verified : bool }.

Record AttestationFields := {
  at_status : AttestationStatus;
  at_nonce : option str;
  at_client_timestamp : option str;
  at_body_binding : option Binding }.

Record AuditRecord := {
  ar_timestamp : str;
  ar_schema_version : str;
  ar_level : str;
  ar_logger : str;
  ar_event : AuditEvent;
  ar_message : str;
  ar_proxy : Endpoint;
  ar_client : ClientFields;
  ar_server_address : option str;
  ar_tls_client_subject : option str;
  ar_machine : MachineFields;
  ar_attestation : AttestationFields;
  ar_http_method : option str;
  ar_http_status : option Z;
  ar_request_body_bytes : Z;
  ar_response_body_bytes : Z }.

Definition endpoint_of (a : option SocketAddr) : Endpoint :=
  {| ep_ip := sa_ip <$> a; ep_port := sa_port <$> a |}.

Definition client_of (show_ip : IpAddr → str) (a : option SocketAddr) : ClientFields :=
  {| cl_address := (λ a, show_ip (sa_ip a)) <$> a; cl_ip := sa_ip <$> a;
     cl_port := sa_port <$> a |}.

Record Connection := {
  cn_proxy : option SocketAddr;
  cn_client : option SocketAddr;
  cn_tls_client_subject : option str;
  cn_status_code : option Z;
  cn_request_body_bytes : Z;
  cn_response_body_bytes : Z }.

(** ** [RequestAudit] *)

Record RequestAudit := {
  started : Z;
  action : option Action;
  reason : option Reason;
  message : option str;
  method : option str;
  host : option str;
  au_attestation : AttestationFields;
  au_token_verified : bool;
  au_machine : MachineFields;
  au_presented_cert : option str;
  au_response_bytes : Z }.

(** Assignments to the fields that the methods change. *)
Definition set_decision (a : RequestAudit) (act : option Action) (r : option Reason)
    (m : option str) : RequestAudit :=
  {| started := started a; action := act; reason := r; message := m; method := method a;
     host := host a; au_attestation := au_attestation a;
     au_token_verified := au_token_verified a; au_machine := au_machine a;
     au_presented_cert := au_presented_cert a; au_response_bytes := au_response_bytes a |}.

Definition set_attestation (a : RequestAudit) (f : AttestationFields) : RequestAudit :=
  {| started := started a; action := action a; reason := reason a; message := message a;
     method := method a; host := host a; au_attestation := f;
     au_token_verified := au_token_verified a; au_machine := au_machine a;
     au_presented_cert := au_presented_cert a; au_response_bytes := au_response_bytes a |}.

Definition set_machine (a : RequestAudit) (f : MachineFields) (cert : option str)
    : RequestAudit :=
  {| started := started a; action := action a; reason := reason a; message := message a;
     method := method a; host := host a; au_attestation := au_attestation a;
     au_token_verified := au_token_verified a; au_machine := f; au_presented_cert := cert;
     au_response_bytes := au_response_bytes a |}.

Definition set_status (a : RequestAudit) (st : AttestationStatus) : RequestAudit :=
  let f := au_attestation a in
  set_attestation a
    {| at_status := st; at_nonce := at_nonce f; at_client_timestamp := at_client_timestamp f;
       at_body_binding := at_body_binding f |}.

(** [RequestAudit::new], at a monotonic time. *)
Definition RequestAudit_new (now : Z) (machine_identity_enabled : bool) : RequestAudit :=
  {| started := now; action := None; reason := None; message := None; method := None;
     host := None;
     au_attestation := {| at_status := AttNotEvaluated; at_nonce := None;
                          at_client_timestamp := None; at_body_binding := None |};
     au_token_verified := false;
     au_machine := {| ma_status := if machine_identity_enabled then MachNotEvaluated
                                   else MachDisabled;
                      ma_subject_dn := None; ma_hostname := None; ma_chain_verified := false |};
     au_presented_cert := None; au_response_bytes := 0 |}.

(** [RequestAudit::request]. *)
Definition audit_request (a : RequestAudit) (meth : str) (h : option str) : RequestAudit :=
  {| started := started a; action := action a; reason := reason a; message := message a;
     method := Some (bounded meth MAX_METHOD_CHARS);
     host := (λ h, bounded h MAX_HOST_CHARS) <$> h;
     au_attestation := au_attestation a;
     au_token_verified := au_token_verified a; au_machine := au_machine a;
     au_presented_cert := au_presented_cert a; au_response_bytes := au_response_bytes a |}.

(** [RequestAudit::attestation_headers]. *)
Definition attestation_headers `{Calendar} (a : RequestAudit) (ts nonce : option str)
    : RequestAudit :=
  let f := au_attestation a in
  set_attestation a
    {| at_status := at_status f;
       at_nonce := (λ n, bounded n MAX_NONCE_CHARS) <$> nonce;
       at_client_timestamp := (ts ≫= λ t, parse_i64 (trim t)) ≫= unix_timestamp;
       at_body_binding := at_body_binding f |}.

(** [RequestAudit::machine_cert_presented]. *)
Definition machine_cert_presented (a : RequestAudit) (cert_b64 : str) : RequestAudit :=
  set_machine a (au_machine a) (Some cert_b64).

(** [RequestAudit::machine_absent]. *)
Definition machine_absent (a : RequestAudit) : RequestAudit :=
  let f := au_machine a in
  set_machine a
    {| ma_status := MachAbsent; ma_subject_dn := ma_subject_dn f; ma_hostname := ma_hostname f;
       ma_chain_verified := ma_chain_verified f |} (au_presented_cert a).

(** [RequestAudit::machine_verified]. *)
Definition machine_verified (a : RequestAudit) (id : VerifiedMachine) : RequestAudit :=
  set_machine a
    {| ma_status := MachVerified; ma_subject_dn := Some (bounded (vm_subject_dn id) MAX_DN_CHARS);
       ma_hostname := Some (hostname id); ma_chain_verified := true |} None.

(** [RequestAudit::token_verified]. *)
Definition token_verified (a : RequestAudit) (b : Binding) : RequestAudit :=
  let f := au_attestation a in
  {| started := started a; action := action a; reason := reason a; message := message a;
     method := method a; host := host a;
     au_attestation := {| at_status := at_status f; at_nonce := at_nonce f;
                          at_client_timestamp := at_client_timestamp f;
                          at_body_binding := Some b |};
     au_token_verified := true; au_machine := au_machine a;
     au_presented_cert := au_presented_cert a; au_response_bytes := au_response_bytes a |}.

(** [RequestAudit::reject]. *)
Definition reject (a : RequestAudit) (r : Reason) (msg : str) : RequestAudit :=
  set_status
    (set_decision a (Some (if decide (r = RateLimited) then ActRateLimit else ActReject))
       (Some r) (Some msg))
    (if is_attestation (reason_stage r) then AttFailed
     else if au_token_verified a then AttIncomplete else AttNotEvaluated).

(** [RequestAudit::forward]. *)
Definition forward (a : RequestAudit) : RequestAudit :=
  set_status
    (set_decision a (Some ActForward) (reason a)
       (Some (match at_body_binding (au_attestation a) with
              | Some Unbound =>
                  "attested upload forwarded; body streamed unbound (not hash-verified)"
              | _ => "attested request forwarded"
              end : str)))
    AttVerified.

(** [RequestAudit::bypass]. *)
Definition bypass (a : RequestAudit) (subject : str) : RequestAudit :=
  set_status
    (set_decision a (Some ActBypass) (reason a)
       (Some ("attestation bypassed for allowlisted client certificate subject "
              ++ bounded subject MAX_DN_CHARS)))
    AttBypassed.

(** [RequestAudit::response_body]. *)
Definition response_body (a : RequestAudit) (len : Z) : RequestAudit :=
  {| started := started a; action := action a; reason := reason a; message := message a;
     method := method a; host := host a; au_attestation := au_attestation a;
     au_token_verified := au_token_verified a; au_machine := au_machine a;
     au_presented_cert := au_presented_cert a;
     au_response_bytes := saturating_add_u64 (au_response_bytes a) len |}.

(** [RequestAudit::outcome] and [RequestAudit::level]. *)
Definition outcome (a : RequestAudit) (failed : bool) : Outcome :=
  match action a with
  | Some ActForward | Some ActBypass => if negb failed then Success else Failure
  | _ => Failure
  end.

Definition level (a : RequestAudit) (failed : bool) : Level :=
  match outcome a failed with Success => LevelInfo | Failure => LevelWarn end.

(** ** [classify_proxy_error] *)

(** The source of a pingora error, and of its type what the code looks at. *)
Inductive ErrorSource := SrcUpstream | SrcDownstream | SrcInternal | SrcUnset.

Record ProxyError := {
  esource : ErrorSource;
  invalid_http_header : bool;          (* etype() == InvalidHTTPHeader *)
  etype_str : str }.

Definition classify_proxy_error (e : ProxyError) : Reason * str :=
  let '(r, side) :=
    match esource e with
    | SrcUpstream => (UpstreamError, "upstream" : str)
    | SrcDownstream =>
        if invalid_http_header e then (RequestMalformed, "malformed request" : str)
        else (DownstreamError, "client connection" : str)
    | SrcInternal | SrcUnset => (InternalError, "internal" : str)
    end in
  (r, side ++ " error: " ++ etype_str e).

(** ** Building the record *)

Section Recording.
Context `{Crypto, GlobOps, MachineTls, Calendar}.
Variables (debug_str : str → str) (show_ip : IpAddr → str).

(** [RequestAudit::machine_rejected]. *)
Definition machine_rejected (a : RequestAudit) (e : MachineError) : RequestAudit :=
  let f := au_machine a in
  reject
    (set_machine a
       {| ma_status := MachFailed; ma_subject_dn := ma_subject_dn f;
          ma_hostname := ma_hostname f; ma_chain_verified := chain_verified e |}
       (au_presented_cert a))
    (machine_error_reason e) (machine_error_message debug_str show_ip e).

(** The decision the record reports: a refusal keeps its own reason over any
    later transport error. *)
Definition settle (a : RequestAudit) (error : option (Reason * str)) : RequestAudit :=
  match error with
  | Some (r, msg) =>
      match action a with
      | None => set_decision a (Some ActError) (Some r) (Some msg)
      | Some ActForward | Some ActBypass => set_decision a (action a) (Some r) (Some msg)
      | Some _ => a
      end
  | None => a
  end.

(** The subject of a certificate that was never verified, parsed only now. *)
Definition note_presented (a : RequestAudit) : RequestAudit :=
  let f := au_machine a in
  match ma_subject_dn f, au_presented_cert a with
  | None, Some cert =>
      set_machine a
        {| ma_status := ma_status f;
           ma_subject_dn := (λ dn, bounded dn MAX_DN_CHARS) <$> presented_subject_dn cert;
           ma_hostname := ma_hostname f; ma_chain_verified := ma_chain_verified f |} None
  | _, _ => a
  end.

(** What a request is charged with that ended without a decision. *)
Definition undecided (a : RequestAudit) (error : option (Reason * str))
    : option (Reason * str) :=
  match action a, error with
  | None, None =>
      Some (InternalError, "request ended before an access decision was recorded" : str)
  | _, _ => error
  end.

(** [RequestAudit::record]; it takes the message, host and method. *)
Definition audit_record (a : RequestAudit) (conn : Connection) (error : option (Reason * str))
    (timestamp : str) (duration_ms : Z) : RequestAudit * AuditRecord :=
  let error := undecided a error in
  let failed := bool_decide (is_Some error) in
  let lvl := level a failed in
  let out := outcome a failed in
  let a := note_presented (settle a error) in
  let record :=
    {| ar_timestamp := timestamp;
       ar_schema_version := SCHEMA_VERSION;
       ar_level := level_str lvl;
       ar_logger := TARGET;
       ar_event :=
         {| ev_kind := "audit";
            ev_action := default ActError (action a);
            ev_outcome := out;
            ev_stage := reason_stage <$> reason a;
            ev_reason := reason a;
            ev_risk := match reason a with None => RiskInfo | Some r => reason_risk r end;
            ev_duration_ms := duration_ms |};
       ar_message := default [] (message a);
       ar_proxy := endpoint_of (cn_proxy conn);
       ar_client := client_of show_ip (cn_client conn);
       ar_server_address := host a;
       ar_tls_client_subject := (λ dn, bounded dn MAX_DN_CHARS) <$> cn_tls_client_subject conn;
       ar_machine := au_machine a;
       ar_attestation := au_attestation a;
       ar_http_method := method a;
       ar_http_status := cn_status_code conn;
       ar_request_body_bytes := cn_request_body_bytes conn;
       ar_response_body_bytes := cn_response_body_bytes conn |} in
  ({| started := started a; action := action a; reason := reason a; message := None;
      method := None; host := None; au_attestation := au_attestation a;
      au_token_verified := au_token_verified a; au_machine := au_machine a;
      au_presented_cert := au_presented_cert a; au_response_bytes := au_response_bytes a |},
   record).

(** [RequestAudit::finish]: the record emitted, unless the filter [enabled]
    discards its level. *)
Definition finish (enabled : Level → bool) (clk : Clock) (a : RequestAudit)
    (conn : Connection) (error : option (Reason * str))
    : RequestAudit * option (Level * AuditRecord) :=
  let lvl := level a (bool_decide (is_Some error)) in
  if negb (enabled (if decide (lvl = LevelInfo) then LevelInfo else LevelWarn)) then (a, None)
  else
    let duration_ms := Z.min u64_max (duration_since (instant clk) (started a) / 1000000) in
    let '(a, record) := audit_record a conn error (timestamp (wall clk)) duration_ms in
    (a, Some (lvl, record)).
End Recording.
