(* ===== verification/AuditTime.v ===== *)
(** The text fields of audit records: timestamps have one width and sort in
    time order, and a bounded string is a prefix of whole characters. *)

From S2P Require Import Prelude AuditTypes Attest AuditLog MtlsFacts.

(** ** [bounded] *)

(** [bounded] keeps a text that has at most [n] characters and
    otherwise keeps its first [n] characters and marks the cut, never splitting
    a character; bounding a bounded text again changes nothing once the limit
    allows for the mark. *)
Lemma bounded_exact cs n :
  Forall (λ c, is_scalar c = true) cs →
  bounded (utf8 cs) n =
    (if decide (length cs ≤ n)%nat then utf8 cs else utf8 (take n cs ++ [ELLIPSIS])) ∧
  (length (chars (bounded (utf8 cs) n)) ≤ S n)%nat ∧
  bounded (bounded (utf8 cs) n) (S n) = bounded (utf8 cs) n.
Proof.
  intros Hcs.
  assert (∀ ds k, Forall (λ c, is_scalar c = true) ds → bounded (utf8 ds) k =
    (if decide (length ds ≤ k)%nat then utf8 ds else utf8 (take k ds ++ [ELLIPSIS]))) as Hb.
  { intros ds k Hds. unfold bounded, char_indices. rewrite char_indices_utf8 by done.
    destruct (decide (length ds ≤ k)%nat) as [Hl|Hl].
    - by rewrite lookup_ge_None_2.
    - destruct (lookup_lt_is_Some_2 ds k) as [c Hc]; [lia|]. rewrite Hc. cbn -[utf8].
      rewrite utf8_app. f_equal.
      rewrite <-(take_drop k ds) at 2. rewrite utf8_app. by rewrite take_app_length. }
  assert (Forall (λ c, is_scalar c = true) (take n cs ++ [ELLIPSIS])) as Hcut
    by (apply Forall_app; split; [by apply Forall_take|by constructor]).
  rewrite (Hb cs n) by done. split; [done|].
  case_decide as Hl.
  - rewrite chars_utf8, (Hb cs (S n)) by done. split; [lia|]. by rewrite decide_True by lia.
  - rewrite chars_utf8, (Hb _ (S n)) by done.
    assert (length (take n cs ++ [ELLIPSIS]) = S n) as Hlen
      by (rewrite length_app, length_take; cbn; lia).
    split; [lia|]. by rewrite decide_True by lia.
Qed.

(** ** Order of strings *)

(** Byte-wise comparison, as sorting lines does. *)
Fixpoint str_compare (s t : str) : comparison :=
  match s, t with
  | [], [] => Eq
  | [], _ => Lt
  | _, [] => Gt
  | a :: s', b :: t' =>
      match code a ?= code b with Eq => str_compare s' t' | c => c end
  end.

Definition then_compare (c d : comparison) : comparison := match c with Eq => d | _ => c end.

Lemma str_compare_refl s : str_compare s s = Eq.
Proof. induction s as [|a s IH]; [done|]. cbn. by rewrite Z.compare_refl. Qed.

Lemma str_compare_app p q s t :
  length p = length q →
  str_compare (p ++ s) (q ++ t) = then_compare (str_compare p q) (str_compare s t).
Proof.
  revert q. induction p as [|a p IH]; intros [|b q] Hl; cbn in *; try done.
  destruct (code a ?= code b); [|done..]. apply IH. lia.
Qed.

(** Padded numbers that fit compare as numbers. *)
Definition digits_of (w : nat) (n : Z) : str :=
  (λ i, byte_of (48 + n / 10 ^ Z.of_nat (w - 1 - i) mod 10)) <$> seq 0 w.

Lemma show_padded_digits w n :
  w = 2%nat ∨ w = 3%nat ∨ w = 4%nat → 0 ≤ n < 10 ^ Z.of_nat w → show_padded w n = digits_of w n.
Proof.
  intros Hw Hn. unfold show_padded. rewrite (proj2 (Z.ltb_ge _ _)) by lia.
  assert (show_nat n =
    if n <? 10 then [ascii_digit n]
    else if n <? 100 then [ascii_digit (n / 10); ascii_digit (n mod 10)]
    else if n <? 1000 then
      [ascii_digit (n / 10 / 10); ascii_digit (n / 10 mod 10); ascii_digit (n mod 10)]
    else [ascii_digit (n / 10 / 10 / 10); ascii_digit (n / 10 / 10 mod 10);
          ascii_digit (n / 10 mod 10); ascii_digit (n mod 10)]) as ->.
  { assert (n < 10000) by (destruct Hw as [->|[->| ->]]; cbn in Hn; lia).
    destruct (Z.ltb_spec n 10); [apply show_nat_digit; lia|].
    rewrite show_nat_step by lia.
    destruct (Z.ltb_spec n 100); [by rewrite show_nat_digit by lia|].
    rewrite (show_nat_step (n / 10)) by lia.
    destruct (Z.ltb_spec n 1000); [by rewrite show_nat_digit by lia|].
    rewrite (show_nat_step (n / 10 / 10)) by lia. by rewrite show_nat_digit by lia. }
  destruct Hw as [->|[->| ->]]; cbn in Hn;
    (destruct (Z.ltb_spec n 10); [|destruct (Z.ltb_spec n 100);
      [|destruct (Z.ltb_spec n 1000)]]); try lia;
    rewrite !ascii_digit_small by lia;
    cbn -[Z.div Z.modulo byte_of Z.add]; repeat apply (f_equal2 cons); try reflexivity;
    change "0"%char with (byte_of (48 + 0)); f_equal; lia.
Qed.

Lemma digit_compare a b :
  (code (byte_of (48 + a mod 10)) ?= code (byte_of (48 + b mod 10))) = (a mod 10 ?= b mod 10).
Proof. rewrite !code_byte_of by lia. apply Z.add_compare_mono_l. Qed.

Lemma padded_compare w a b :
  w = 2%nat ∨ w = 3%nat ∨ w = 4%nat →
  0 ≤ a < 10 ^ Z.of_nat w → 0 ≤ b < 10 ^ Z.of_nat w →
  str_compare (show_padded w a) (show_padded w b) = (a ?= b).
Proof.
  intros Hw Ha Hb. rewrite !show_padded_digits by done.
  destruct Hw as [->|[->| ->]]; cbn in Ha, Hb; cbn [digits_of seq fmap list_fmap str_compare];
    rewrite !digit_compare; cbn -[Z.div Z.modulo Z.compare].
  all: destruct (Z.compare_spec a b);
    repeat match goal with |- context [?x ?= ?y] => destruct (Z.compare_spec x y) end;
    try reflexivity; exfalso; subst; lia.
Qed.

(** ** Timestamps *)

(** The instants a four-digit year expresses, in nanoseconds. *)
Definition iso_time (t : Z) : Prop := 0 ≤ t < (MAX_ISO_UNIX_SECS + 1) * NANOS.

Record date_ok (d : DateTime) : Prop := {
  do_year : 0 ≤ year d < 10 ^ Z.of_nat 4;
  do_month : 0 ≤ month d < 10 ^ Z.of_nat 2;
  do_day : 0 ≤ day d < 10 ^ Z.of_nat 2;
  do_hour : 0 ≤ hour d < 10 ^ Z.of_nat 2;
  do_minute : 0 ≤ minute d < 10 ^ Z.of_nat 2;
  do_second : 0 ≤ second d < 10 ^ Z.of_nat 2;
  do_ms : 0 ≤ millisecond d < 10 ^ Z.of_nat 3 }.

(** The order of dates, most significant component first. *)
Definition date_compare (c d : DateTime) : comparison :=
  then_compare (year c ?= year d) (then_compare (month c ?= month d)
    (then_compare (day c ?= day d) (then_compare (hour c ?= hour d)
      (then_compare (minute c ?= minute d) (then_compare (second c ?= second d)
        (millisecond c ?= millisecond d)))))).

(** The calendar's components are in range and ordered as the instants are, to
    the millisecond. *)
Class CalendarLaws `{Calendar} := {
  calendar_range t : iso_time t → date_ok (offset_date_time t);
  calendar_order a b : iso_time a → iso_time b →
    date_compare (offset_date_time a) (offset_date_time b) = (a / 1000000 ?= b / 1000000);
  calendar_unix s : 0 ≤ s ≤ MAX_ISO_UNIX_SECS →
    from_unix_timestamp s = Some (offset_date_time (s * NANOS)) }.

(** The schema's pattern for a timestamp: [9] stands for a digit. *)
Fixpoint matches_template (t s : str) : bool :=
  match t, s with
  | [], [] => true
  | c :: t', a :: s' =>
      (if decide (c = "9"%char) then in_range 48 57 (code a) else bool_decide (a = c))
      && matches_template t' s'
  | _, _ => false
  end.

Definition is_timestamp (s : str) : bool := matches_template "9999-99-99T99:99:99.999Z" s.

Lemma matches_template_app t1 s1 t2 s2 :
  matches_template t1 s1 = true → matches_template t2 s2 = true →
  matches_template (t1 ++ t2) (s1 ++ s2) = true.
Proof.
  revert s1. induction t1 as [|c t1 IH]; intros [|a s1]; cbn; [done..|].
  intros [-> H1]%andb_true_iff H2. by rewrite IH.
Qed.

Lemma padded_matches w n :
  w = 2%nat ∨ w = 3%nat ∨ w = 4%nat → 0 ≤ n < 10 ^ Z.of_nat w →
  matches_template (repeat "9"%char w) (show_padded w n) = true.
Proof.
  intros Hw Hn. rewrite show_padded_digits by done. clear Hn.
  assert (∀ x, in_range 48 57 (code (byte_of (48 + x mod 10))) = true) as Hd.
  { intros x. rewrite code_byte_of by lia. unfold in_range. lia. }
  destruct Hw as [->|[->| ->]]; cbn -[in_range Z.div Z.modulo byte_of Z.add];
    by rewrite !Hd.
Qed.

Lemma padded_length w n :
  w = 2%nat ∨ w = 3%nat ∨ w = 4%nat → 0 ≤ n < 10 ^ Z.of_nat w → length (show_padded w n) = w.
Proof. intros Hw Hn. rewrite show_padded_digits by done. by destruct Hw as [->|[->| ->]]. Qed.

Lemma format_utc_matches d : date_ok d → is_timestamp (format_utc d) = true.
Proof.
  intros []. unfold is_timestamp, format_utc.
  change (String.list_ascii_of_string "9999-99-99T99:99:99.999Z") with
    (repeat "9"%char 4 ++ "-" ++ repeat "9"%char 2 ++ "-" ++ repeat "9"%char 2 ++ "T"
     ++ repeat "9"%char 2 ++ ":" ++ repeat "9"%char 2 ++ ":" ++ repeat "9"%char 2 ++ "."
     ++ repeat "9"%char 3 ++ ("Z" : str)).
  repeat (apply matches_template_app; [first [apply padded_matches; [tauto|done]|reflexivity]|]).
  reflexivity.
Qed.

Lemma compare_pad w s t a b :
  w = 2%nat ∨ w = 3%nat ∨ w = 4%nat →
  0 ≤ a < 10 ^ Z.of_nat w → 0 ≤ b < 10 ^ Z.of_nat w →
  str_compare (show_padded w a ++ s) (show_padded w b ++ t)
    = then_compare (a ?= b) (str_compare s t).
Proof.
  intros. rewrite str_compare_app by by rewrite !padded_length. by rewrite padded_compare.
Qed.

Lemma compare_lit p s t : str_compare (p ++ s) (p ++ t) = str_compare s t.
Proof. rewrite str_compare_app by done. by rewrite str_compare_refl. Qed.

Lemma format_utc_compare c d :
  date_ok c → date_ok d → str_compare (format_utc c) (format_utc d) = date_compare c d.
Proof.
  intros [] []. unfold format_utc, date_compare.
  repeat (rewrite compare_pad by first [tauto|done]; rewrite ?compare_lit; f_equal).
  rewrite str_compare_refl. by destruct (millisecond c ?= millisecond d).
Qed.

Section Timestamps.
Context `{CalendarLaws}.

(** Claim C37. Timestamps are 24 characters in the documented pattern, and lines
    sorted by them are in time order: comparing two as strings compares the
    instants to the millisecond, up to the end of the year 9999. *)
Theorem timestamps_sort_in_time_order a b :
  iso_time a → iso_time b →
  is_timestamp (timestamp a) = true ∧ length (timestamp a) = 24%nat ∧
  str_compare (timestamp a) (timestamp b) = (a / 1000000 ?= b / 1000000).
Proof.
  intros Ha Hb. pose proof (calendar_range a Ha) as Hda. pose proof (calendar_range b Hb) as Hdb.
  split; [by apply format_utc_matches|split].
  - unfold timestamp, format_utc. destruct Hda.
    by rewrite !length_app, !padded_length by first [tauto|done].
  - unfold timestamp. rewrite format_utc_compare by done. by apply calendar_order.
Qed.

(** A client timestamp, when it is recorded, has the same pattern. *)
Lemma unix_timestamp_matches s ts : unix_timestamp s = Some ts → is_timestamp ts = true.
Proof.
  unfold unix_timestamp, in_range. destruct (negb _) eqn:E; [done|].
  apply negb_false_iff, andb_true_iff in E as [E1 E2]. to_prop.
  rewrite calendar_unix by done. intros [= <-]. apply format_utc_matches, calendar_range.
  unfold iso_time, NANOS. lia.
Qed.
End Timestamps.

(** ** The civil calendar

    A concrete [Calendar]: the Gregorian one in UTC, with its laws. *)
Module Gregorian.
(** The year that day [z] after 1 March 0000 falls in, and the day of that year:
    years begin in March, so that a leap day ends its four-year cycle. *)
Definition march_year (z : Z) : Z * Z :=
  let e := z mod 146097 in
  let c := Z.min 3 (e / 36524) in
  let e := e - 36524 * c in
  let q := e / 1461 in
  let e := e - 1461 * q in
  let y := Z.min 3 (e / 365) in
  (400 * (z / 146097) + 100 * c + 4 * q + y, e - 365 * y).

Definition date (t : Z) : DateTime :=
  let ms := t / 1000000 in
  let '(y, doy) := march_year (ms / 86400000 + 719468) in
  let m := (5 * doy + 2) / 153 in                   (* 0 is March *)
  let turn := if m <? 10 then 0 else 1 in
  {| year := y + turn; month := m + 3 - 12 * turn; day := doy - (153 * m + 2) / 5 + 1;
     hour := ms / 3600000 mod 24; minute := ms / 60000 mod 60; second := ms / 1000 mod 60;
     millisecond := ms mod 1000 |}.

#[export] Instance calendar : Calendar :=
  {| offset_date_time := date; from_unix_timestamp s := Some (date (s * NANOS)) |}.

(** The 400-year era, the century, the four-year cycle and the year in it. *)
Record located (z y doy era c q r : Z) : Prop := {
  lo_year : y = 400 * era + 100 * c + 4 * q + r;
  lo_day : z = 146097 * era + 36524 * c + 1461 * q + 365 * r + doy;
  lo_c : 0 ≤ c ≤ 3; lo_q : 0 ≤ q ≤ 24; lo_r : 0 ≤ r ≤ 3; lo_doy : 0 ≤ doy ≤ 365;
  lo_leap : doy = 365 → r = 3 ∧ (q = 24 → c = 3) }.

Lemma march_year_located z :
  ∃ era c q r, located z (march_year z).1 (march_year z).2 era c q r.
Proof.
  unfold march_year. cbn [fst snd].
  remember (z / 146097) as era eqn:Hera. remember (z mod 146097) as e eqn:He.
  assert (z = 146097 * era + e ∧ 0 ≤ e < 146097) as [Hz He'] by lia. clear Hera He.
  remember (Z.min 3 (e / 36524)) as c eqn:Hc. remember (e - 36524 * c) as f eqn:Hf.
  assert (0 ≤ c ≤ 3 ∧ 0 ≤ f ≤ 36524 ∧ (f = 36524 → c = 3)) as (Hc1 & Hf1 & Hf2) by lia.
  clear Hc. remember (f / 1461) as q eqn:Hq. remember (f - 1461 * q) as g eqn:Hg.
  assert (0 ≤ q ≤ 24 ∧ 0 ≤ g < 1461) as [Hq1 Hg1] by lia. clear Hq.
  remember (Z.min 3 (g / 365)) as r eqn:Hr.
  assert (0 ≤ r ≤ 3 ∧ 0 ≤ g - 365 * r ≤ 365 ∧ (g - 365 * r = 365 → r = 3))
    as (Hr1 & Hd1 & Hd2) by lia. clear Hr.
  exists era, c, q, r. constructor; lia.
Qed.

Lemma march_year_lt z z' : z < z' →
  (march_year z).1 < (march_year z').1
  ∨ (march_year z).1 = (march_year z').1 ∧ (march_year z).2 < (march_year z').2.
Proof.
  destruct (march_year_located z) as (e & c & q & r & []),
    (march_year_located z') as (e' & c' & q' & r' & []).
  destruct (march_year z) as [Y d], (march_year z') as [Y' d']. cbn [fst snd] in *. intros Hz.
  destruct (Z.lt_trichotomy e e') as [|[->|]]; [lia| |lia].
  destruct (Z.lt_trichotomy c c') as [|[->|]]; [lia| |lia].
  destruct (Z.lt_trichotomy q q') as [|[->|]]; [lia| |lia].
  lia.
Qed.

Lemma march_month_bounds doy : 0 ≤ doy ≤ 365 → 0 ≤ (5 * doy + 2) / 153 ≤ 11
  ∧ 1 ≤ doy - (153 * ((5 * doy + 2) / 153) + 2) / 5 + 1 ≤ 31.
Proof. intros Hd. remember ((5 * doy + 2) / 153) as m eqn:Hm. lia. Qed.

(** Of the components of two dates, the first that differ decide. *)
Lemma compare_first x y c : x < y ∨ x = y ∧ c = Lt → then_compare (x ?= y) c = Lt.
Proof.
  intros [Hlt|[-> ->]]; [by rewrite (proj2 (Z.compare_lt_iff x y) Hlt)|by rewrite Z.compare_refl].
Qed.

Ltac first_differs :=
  apply compare_first; first [left; lia | right; split; [lia|first_differs]].

Lemma days_in_order a b :
  a / 1000000 / 86400000 < b / 1000000 / 86400000 → date_compare (date a) (date b) = Lt.
Proof.
  intros Hab. unfold date_compare, date.
  assert (a / 1000000 / 86400000 + 719468 < b / 1000000 / 86400000 + 719468)
    as Hlt%march_year_lt by lia.
  destruct (march_year_located (a / 1000000 / 86400000 + 719468))
    as (? & ? & ? & ? & [_ _ _ _ _ Hd _]).
  destruct (march_year_located (b / 1000000 / 86400000 + 719468))
    as (? & ? & ? & ? & [_ _ _ _ _ Hd' _]).
  destruct (march_year _) as [y d], (march_year _) as [y' d'].
  cbn [fst snd year month day] in *.
  pose proof (march_month_bounds d Hd) as Hm. pose proof (march_month_bounds d' Hd') as Hm'.
  assert (d < d' → (5 * d + 2) / 153 ≤ (5 * d' + 2) / 153) as Hmm by lia.
  remember ((5 * d + 2) / 153) as m eqn:E. remember ((5 * d' + 2) / 153) as m' eqn:E'.
  clear E E' Hab.
  assert (m = m' → (153 * m + 2) / 5 = (153 * m' + 2) / 5) as Hmd by (by intros ->).
  destruct Hlt as [Hy|[Hy Hdd]]; try specialize (Hmm Hdd);
    destruct (decide (m = m')) as [E|]; try specialize (Hmd E);
    destruct (Z.ltb_spec m 10), (Z.ltb_spec m' 10), (decide (y + 1 = y')); first_differs.
Qed.

Lemma times_in_order a b :
  a / 1000000 / 86400000 = b / 1000000 / 86400000 → a / 1000000 < b / 1000000 →
  date_compare (date a) (date b) = Lt.
Proof.
  intros Hd Hlt. unfold date_compare, date. rewrite Hd.
  destruct (march_year _). cbn [year month day hour minute second millisecond].
  rewrite !Z.compare_refl. cbn [then_compare].
  generalize dependent (a / 1000000). generalize dependent (b / 1000000). intros b' a' Hd Hlt.
  destruct (decide (a' / 3600000 = b' / 3600000)), (decide (a' / 60000 = b' / 60000)),
    (decide (a' / 1000 = b' / 1000)); repeat first_differs.
  all: do 3 (apply compare_first; right; split; [lia|]); apply Z.compare_lt_iff; lia.
Qed.

Lemma dates_in_order a b : a / 1000000 < b / 1000000 → date_compare (date a) (date b) = Lt.
Proof.
  intros Hlt. destruct (decide (a / 1000000 / 86400000 = b / 1000000 / 86400000)).
  - by apply times_in_order.
  - apply days_in_order. lia.
Qed.

Lemma date_compare_antisym c d : date_compare d c = CompOpp (date_compare c d).
Proof.
  unfold date_compare.
  rewrite (Z.compare_antisym (year c)), (Z.compare_antisym (month c)),
    (Z.compare_antisym (day c)), (Z.compare_antisym (hour c)), (Z.compare_antisym (minute c)),
    (Z.compare_antisym (second c)), (Z.compare_antisym (millisecond c)).
  repeat match goal with |- context [?x ?= ?y] => destruct (x ?= y); [|done..] end. done.
Qed.

#[export] Instance calendar_laws : CalendarLaws.
Proof.
  constructor.
  - intros t Ht. unfold iso_time, MAX_ISO_UNIX_SECS, NANOS in Ht.
    cbn [offset_date_time calendar]. unfold date.
    destruct (march_year_located (t / 1000000 / 86400000 + 719468)) as (e & c & q & r & []).
    destruct (march_year _) as [y d]; cbn [fst snd] in *.
    pose proof (march_month_bounds d) as Hm.
    constructor; cbn [year month day hour minute second millisecond];
      change (10 ^ Z.of_nat 2) with 100; change (10 ^ Z.of_nat 3) with 1000;
      change (10 ^ Z.of_nat 4) with 10000; try lia.
    all: destruct (Z.ltb_spec ((5 * d + 2) / 153) 10); lia.
  - intros a b _ _. cbn [offset_date_time calendar].
    destruct (Z.compare_spec (a / 1000000) (b / 1000000)) as [E|Hlt|Hlt].
    + unfold date. rewrite E. destruct (march_year _). unfold date_compare. 
      cbn [year month day hour minute second millisecond]. by rewrite !Z.compare_refl.
    + by apply dates_in_order.
    + by rewrite date_compare_antisym, dates_in_order.
  - done.
Qed.
Example leap_day : timestamp (1709251199999 * 1000000) = "2024-02-29T23:59:59.999Z".
Proof. reflexivity. Qed.
End Gregorian.

Section Examples.
#[local] Existing Instances Gregorian.calendar Gregorian.calendar_laws.

Example bounded_cuts :
  bounded (utf8 [229; 229; 229; 229; 229]) 3 = utf8 [229; 229; 229; 8230].
Proof. vm_compute. reflexivity. Qed.

Lemma timestamps_sort_in_time_order_witness :
  str_compare (timestamp 1999999) (timestamp 86400000000000) = Lt ∧
  is_timestamp (timestamp 1999999) = true.
Proof.
  assert (iso_time 1999999 ∧ iso_time 86400000000000) as [Ha Hb]
    by (unfold iso_time, MAX_ISO_UNIX_SECS, NANOS; lia).
  destruct (timestamps_sort_in_time_order 1999999 86400000000000 Ha Hb) as (Hp & _ & Hc).
  rewrite Hc, Hp. split; reflexivity.
Defined.
End Examples.
