(* ===== verification/AuditFacts.v ===== *)
(** Audit records against the published schema
    ([src/proxy/audit/audit-log.schema.json]): the reason table, and that every
    record a legal sequence of [RequestAudit] calls can lead to conforms. *)

From S2P Require Import Prelude Net AuditTypes Attest AttestToken RateLimit RateLimitFacts Mtls Machine MachineFacts AuditLog MtlsFacts AuditTime.

(** ** Serialised names *)

Definition stage_name (s : Stage) : str :=
  match s with
  | StageRateLimit => "rate_limit"
  | StageAttestationHeaders => "attestation_headers"
  | StageMachineIdentity => "machine_identity"
  | StageAttestationToken => "attestation_token"
  | StageAttestationBody => "attestation_body"
  | StageUpstream => "upstream"
  | StageDownstream => "downstream"
  | StageInternal => "internal"
  end.

Definition risk_name (r : Risk) : str :=
  match r with
  | RiskInfo => "info" | RiskLow => "low" | RiskMedium => "medium" | RiskHigh => "high"
  | RiskCritical => "critical"
  end.

(** The schema's [reason] codes with their [x-stage] and [x-risk], in order. *)
Definition schema_reasons : list (str * str * str) :=
  [("rate_limited" : str, "rate_limit" : str, "medium" : str);
   ("no_attestation_headers" : str, "attestation_headers" : str, "low" : str);
   ("incomplete_attestation_headers" : str, "attestation_headers" : str, "high" : str);
   ("machine_cert_missing" : str, "machine_identity" : str, "medium" : str);
   ("machine_cert_malformed" : str, "machine_identity" : str, "high" : str);
   ("machine_cert_no_common_name" : str, "machine_identity" : str, "high" : str);
   ("machine_cert_unsafe_common_name" : str, "machine_identity" : str, "high" : str);
   ("machine_hostname_not_allowed" : str, "machine_identity" : str, "high" : str);
   ("machine_cert_expired" : str, "machine_identity" : str, "medium" : str);
   ("machine_cert_not_yet_valid" : str, "machine_identity" : str, "medium" : str);
   ("machine_cert_untrusted" : str, "machine_identity" : str, "high" : str);
   ("machine_hostname_unresolvable" : str, "machine_identity" : str, "medium" : str);
   ("machine_address_mismatch" : str, "machine_identity" : str, "high" : str);
   ("machine_no_client_address" : str, "machine_identity" : str, "medium" : str);
   ("timestamp_invalid" : str, "attestation_token" : str, "high" : str);
   ("timestamp_out_of_window" : str, "attestation_token" : str, "medium" : str);
   ("nonce_invalid" : str, "attestation_token" : str, "high" : str);
   ("nonce_replay" : str, "attestation_token" : str, "high" : str);
   ("token_malformed" : str, "attestation_token" : str, "high" : str);
   ("token_decrypt_failed" : str, "attestation_token" : str, "high" : str);
   ("token_request_mismatch" : str, "attestation_token" : str, "critical" : str);
   ("body_too_large" : str, "attestation_body" : str, "medium" : str);
   ("body_hash_mismatch" : str, "attestation_body" : str, "critical" : str);
   ("body_read_failed" : str, "downstream" : str, "low" : str);
   ("request_malformed" : str, "downstream" : str, "high" : str);
   ("upstream_error" : str, "upstream" : str, "medium" : str);
   ("downstream_error" : str, "downstream" : str, "low" : str);
   ("internal_error" : str, "internal" : str, "medium" : str)].

Lemma all_reasons_complete r : r ∈ ALL_REASONS.
Proof. destruct r; vm_compute; repeat constructor. Qed.

Lemma reason_risk_not_info r : reason_risk r ≠ RiskInfo.
Proof. by destruct r. Qed.

(** The code's reasons are the schema's: the same codes in the same
    order with the same stage and risk, no code twice, none missing from the
    list; a code names one reason, every reason is a failure, and it counts as
    an attestation failure exactly when its stage's name starts with
    [attestation_]. *)
Theorem reasons_match_schema :
  schema_reasons =
    (λ r, (reason_code r, stage_name (reason_stage r), risk_name (reason_risk r))) <$> ALL_REASONS
  ∧ NoDup (reason_code <$> ALL_REASONS)
  ∧ (∀ r, r ∈ ALL_REASONS)
  ∧ (∀ r s, reason_code r = reason_code s → r = s)
  ∧ (∀ r, reason_risk r ≠ RiskInfo)
  ∧ (∀ s, is_attestation s = true ↔ take 12 (stage_name s) = "attestation_").
Proof.
  assert (NoDup (reason_code <$> ALL_REASONS)) as Hnd
    by (apply (bool_decide_eq_true_1 _); vm_compute; reflexivity).
  split; [reflexivity|split; [done|split; [exact all_reasons_complete|split; [|split]]]].
  - intros r s Hrs.
    destruct (proj1 (list_elem_of_lookup _ _) (all_reasons_complete r)) as [i Hi].
    destruct (proj1 (list_elem_of_lookup _ _) (all_reasons_complete s)) as [j Hj].
    assert (i = j) as <-; [|congruence].
    eapply (NoDup_lookup _ _ _ _ Hnd); rewrite list_lookup_fmap; [by rewrite Hi|].
    rewrite Hj. cbn. by rewrite Hrs.
  - exact reason_risk_not_info.
  - intros []; vm_compute; by split.
Qed.

(** ** The schema of a record *)

(** The [auditRecord] object's constraints beyond the types of its fields. *)
Record conforms (r : AuditRecord) : Prop := {
  cf_timestamp : is_timestamp (ar_timestamp r) = true;
  cf_version : ar_schema_version r = "1.0";
  cf_logger : ar_logger r = "denbrowser_proxy::audit";
  cf_kind : ev_kind (ar_event r) = "audit";
  cf_duration : 0 ≤ ev_duration_ms (ar_event r);
  cf_success : ev_outcome (ar_event r) = Success →
    ar_level r = "INFO" ∧
    (ev_action (ar_event r) = ActForward ∨ ev_action (ar_event r) = ActBypass) ∧
    ev_stage (ar_event r) = None ∧ ev_reason (ar_event r) = None ∧
    ev_risk (ar_event r) = RiskInfo;
  cf_failure : ev_outcome (ar_event r) ≠ Success →
    ar_level r = "WARN" ∧ is_Some (ev_stage (ar_event r)) ∧ is_Some (ev_reason (ar_event r)) ∧
    ev_risk (ar_event r) ≠ RiskInfo;
  cf_reason re : ev_reason (ar_event r) = Some re →
    ev_stage (ar_event r) = Some (reason_stage re) ∧ ev_risk (ar_event r) = reason_risk re;
  cf_client : is_Some (cl_ip (ar_client r)) ↔ is_Some (cl_address (ar_client r));
  cf_machine_verified : ma_status (ar_machine r) = MachVerified →
    is_Some (ma_subject_dn (ar_machine r)) ∧ is_Some (ma_hostname (ar_machine r)) ∧
    ma_chain_verified (ar_machine r) = true;
  cf_machine_other : ma_status (ar_machine r) ≠ MachVerified → ma_hostname (ar_machine r) = None;
  cf_attested : at_status (ar_attestation r) = AttVerified →
    is_Some (at_nonce (ar_attestation r)) ∧ is_Some (at_body_binding (ar_attestation r));
  cf_client_timestamp ts : at_client_timestamp (ar_attestation r) = Some ts →
    is_timestamp ts = true;
  cf_status code : ar_http_status r = Some code → 100 ≤ code ≤ 999;
  cf_bytes : 0 ≤ ar_request_body_bytes r ∧ 0 ≤ ar_response_body_bytes r }.

(** What pingora guarantees of a connection's facts. *)
Record connection_ok (c : Connection) : Prop := {
  co_status code : cn_status_code c = Some code → 100 ≤ code ≤ 999;
  co_bytes : 0 ≤ cn_request_body_bytes c ∧ 0 ≤ cn_response_body_bytes c }.

(** ** Legal call sequences *)

Section Calls.
Context `{Crypto, GlobOps, MachineTls, CalendarLaws}.
Variables (debug_str : str → str) (show_ip : IpAddr → str).

(** One call of a [RequestAudit] method by [request_filter] or a body filter.
    Decisions are made once; only the response count goes on after. *)
Inductive audit_call (a : RequestAudit) : RequestAudit → Prop :=
  | CallRequest m h : action a = None → audit_call a (audit_request a m h)
  | CallHeaders ts nonce : action a = None → au_token_verified a = false →
      audit_call a (attestation_headers a ts nonce)
  | CallCert cert : action a = None → ma_status (au_machine a) ≠ MachVerified →
      audit_call a (machine_cert_presented a cert)
  | CallAbsent : action a = None → ma_status (au_machine a) ≠ MachVerified →
      audit_call a (machine_absent a)
  | CallMachine id : action a = None → audit_call a (machine_verified a id)
  | CallMachineRejected e : action a = None → ma_status (au_machine a) ≠ MachVerified →
      audit_call a (machine_rejected debug_str show_ip a e)
  | CallToken b : action a = None → is_Some (at_nonce (au_attestation a)) →
      audit_call a (token_verified a b)
  | CallReject r msg : action a = None → audit_call a (reject a r msg)
  | CallForward : action a = None → au_token_verified a = true → audit_call a (forward a)
  | CallBypass subject : action a = None → audit_call a (bypass a subject)
  | CallResponse n : 0 ≤ n → audit_call a (response_body a n).

Definition audit_calls : RequestAudit → RequestAudit → Prop := rtc audit_call.

(** What holds of the audit state after any such sequence. *)
Record audit_inv (a : RequestAudit) : Prop := {
  ai_decided : match action a with
               | None | Some ActForward | Some ActBypass => reason a = None
               | Some ActReject | Some ActRateLimit => is_Some (reason a)
               | Some ActError => False
               end;
  ai_pending : action a = None → at_status (au_attestation a) = AttNotEvaluated;
  ai_token : au_token_verified a = true →
    is_Some (at_nonce (au_attestation a)) ∧ is_Some (at_body_binding (au_attestation a));
  ai_verified : at_status (au_attestation a) = AttVerified → au_token_verified a = true;
  ai_machine : ma_status (au_machine a) = MachVerified →
    is_Some (ma_subject_dn (au_machine a)) ∧ is_Some (ma_hostname (au_machine a)) ∧
    ma_chain_verified (au_machine a) = true;
  ai_hostname : ma_status (au_machine a) ≠ MachVerified → ma_hostname (au_machine a) = None;
  ai_timestamp ts : at_client_timestamp (au_attestation a) = Some ts → is_timestamp ts = true;
  ai_bytes : 0 ≤ au_response_bytes a }.

Lemma audit_inv_new now m : audit_inv (RequestAudit_new now m).
Proof. constructor; cbn; try done; by destruct m. Qed.

Lemma reject_inv a r msg :
  audit_inv a → action a = None → audit_inv (reject a r msg).
Proof.
  intros [Hd Hp Ht Hv Hm Hh Hts Hby] Ha. unfold reject. constructor; cbn; try done.
  - case_decide; by eexists.
  - by repeat case_match.
Qed.

Lemma audit_inv_call a a' : audit_inv a → audit_call a a' → audit_inv a'.
Proof.
  intros Hinv Hc. pose proof Hinv as [Hd Hp Ht Hv Hm Hh Hts Hby].
  destruct Hc as [m h Ha|ts nonce Ha Htok|cert Ha Hn|Ha Hn|id Ha|e Ha Hn|b Ha Hn|r msg Ha|Ha Htok
    |subject Ha|n Hn];
    try (rewrite Ha in Hd; specialize (Hp Ha)).
  - constructor; cbn; rewrite ?Ha; done.
  - constructor; cbn; rewrite ?Ha, ?Hp, ?Htok; try done.
    intros t. destruct (ts ≫= _) as [s|]; cbn; [|done]. apply unix_timestamp_matches.
  - constructor; cbn; rewrite ?Ha; done.
  - constructor; cbn; rewrite ?Ha; try done. auto.
  - constructor; cbn; rewrite ?Ha; done.
  - apply reject_inv; [|done]. constructor; cbn; rewrite ?Ha; try done. auto.
  - constructor; cbn; rewrite ?Ha, ?Hp; done.
  - by apply reject_inv.
  - constructor; cbn; rewrite ?Ha; done.
  - constructor; cbn; rewrite ?Ha; done.
  - constructor; cbn; try done. unfold saturating_add_u64, u64_max. lia.
Qed.

#[local] Hint Resolve audit_inv_call : proxy.

Lemma audit_inv_calls a a' : audit_inv a → audit_calls a a' → audit_inv a'.
Proof. intros Ha Hc. induction Hc; eauto with proxy. Qed.

(** ** The record *)

Lemma undecided_some a error : action a = None → is_Some (undecided a error).
Proof. unfold undecided. intros ->. destruct error; by eexists. Qed.

(** What [settle] leaves to report: an action, and a reason exactly on failure. *)
Lemma settle_spec a error (e := undecided a error) :
  audit_inv a →
  let a' := settle a e in
  let out := outcome a (bool_decide (is_Some e)) in
  is_Some (action a') ∧
  (out = Success → (action a' = Some ActForward ∨ action a' = Some ActBypass) ∧ reason a' = None) ∧
  (out ≠ Success → is_Some (reason a')) ∧
  au_machine a' = au_machine a ∧ au_attestation a' = au_attestation a ∧
  au_presented_cert a' = au_presented_cert a ∧ host a' = host a ∧ method a' = method a.
Proof.
  intros [Hd _ _ _ _ _ _ _] a' out. subst a' out e. unfold undecided, settle, outcome.
  destruct (action a) as [[]|] eqn:Ha, error as [[r msg]|]; cbn in *;
    rewrite ?Ha; repeat split; try done; eauto; try (intros; by eauto).
Qed.

Lemma note_presented_spec a :
  let a' := note_presented a in
  action a' = action a ∧ reason a' = reason a ∧ message a' = message a ∧
  au_attestation a' = au_attestation a ∧
  ma_status (au_machine a') = ma_status (au_machine a) ∧
  ma_hostname (au_machine a') = ma_hostname (au_machine a) ∧
  ma_chain_verified (au_machine a') = ma_chain_verified (au_machine a) ∧
  (is_Some (ma_subject_dn (au_machine a)) →
   ma_subject_dn (au_machine a') = ma_subject_dn (au_machine a)).
Proof.
  unfold note_presented.
  destruct (ma_subject_dn (au_machine a)) as [dn|] eqn:Hdn, (au_presented_cert a); cbn;
    rewrite ?Hdn; repeat split; try done; by intros [].
Qed.

Lemma record_conforms a conn error ts dur :
  audit_inv a → connection_ok conn → is_timestamp ts = true → 0 ≤ dur →
  conforms (audit_record show_ip a conn error ts dur).2.
Proof.
  intros Hinv [Hst Hby] Hts Hdur. unfold audit_record. cbn [snd].
  pose proof (settle_spec a error Hinv) as (Hact & Hsucc & Hfail & Hm & Hat & _ & _ & _).
  set (a1 := settle a (undecided a error)) in *.
  pose proof (note_presented_spec a1) as (Na & Nr & _ & Nat & Ns & Nh & Nc & Nd).
  set (a2 := note_presented a1) in *.
  destruct Hinv as [_ _ Ht Hv Hma Hho Hcts _].
  constructor; cbn; rewrite ?Na, ?Nr, ?Nat, ?Ns, ?Nh, ?Nc, ?Hat, ?Hm in *; try done.
  - intros Ho. destruct (Hsucc Ho) as [Hact' Hr]. rewrite Hr. unfold level. rewrite Ho.
    split; [done|split; [|done]]. destruct Hact' as [->| ->]; cbn; auto.
  - intros Ho. destruct (Hfail Ho) as [r Hr]. rewrite Hr. cbn. unfold level.
    destruct (outcome a _); [done|]. split; [done|].
    split; [eauto|split; [eauto|apply reason_risk_not_info]].
  - intros re Hre. by rewrite Hre.
  - destruct (cn_client conn); cbn; split; intros [? ?]; eauto; done.
  - intros Hs. destruct (Hma Hs) as (Hdn & Hhn & Hcv). rewrite Nd by done. done.
  - intros Hs. apply Ht, Hv, Hs.
Qed.

(** What [finish] emits for a sound audit state. *)
Lemma finish_conforms enabled clk a conn error a' lvl record :
  audit_inv a → connection_ok conn → iso_time (wall clk) →
  finish show_ip enabled clk a conn error = (a', Some (lvl, record)) →
  conforms record ∧ ar_level record = level_str lvl ∧ enabled lvl = true ∧
  (lvl = LevelInfo ↔ ev_outcome (ar_event record) = Success).
Proof.
  intros Hinv Hconn Hwall Hf.
  unfold finish in Hf. destruct (negb (enabled _)) eqn:He; [done|].
  destruct (audit_record _ _ _ _ _ _) as [a1 rec] eqn:Hr. injection Hf as <- <- <-.
  assert (rec = (audit_record show_ip a conn error (timestamp (wall clk))
                   (Z.min u64_max (duration_since (instant clk) (started a) / 1000000))).2)
    as -> by by rewrite Hr.
  assert (level a (bool_decide (is_Some error))
          = level a (bool_decide (is_Some (undecided a error)))) as Hl.
  { unfold level, outcome, undecided. by destruct (action a), error. }
  split; [|split; [|split]].
  - apply record_conforms; [done..| |].
    + apply format_utc_matches. by apply calendar_range.
    + unfold duration_since, u64_max. lia.
  - cbn. by rewrite Hl.
  - apply negb_false_iff in He. revert He. unfold level.
    by destruct (outcome a _); rewrite ?decide_True, ?decide_False by done.
  - rewrite Hl. cbn. unfold level. by destruct (outcome a _).
Qed.

(** The same of a record after a legal sequence of calls. *)
Lemma emitted_record_conforms enabled clk now m a conn error a' lvl record :
  audit_calls (RequestAudit_new now m) a → connection_ok conn → iso_time (wall clk) →
  finish show_ip enabled clk a conn error = (a', Some (lvl, record)) →
  conforms record ∧ ar_level record = level_str lvl ∧ enabled lvl = true ∧
  (lvl = LevelInfo ↔ ev_outcome (ar_event record) = Success).
Proof.
  intros Hcalls Hconn Hwall. apply finish_conforms; [|done..].
  exact (audit_inv_calls _ _ (audit_inv_new now m) Hcalls).
Qed.

(** A refusal is reported as it was decided. *)
Lemma record_refusal a conn error ts dur :
  action a = Some ActReject ∨ action a = Some ActRateLimit →
  let r := (audit_record show_ip a conn error ts dur).2 in
  ev_reason (ar_event r) = reason a ∧ Some (ev_action (ar_event r)) = action a ∧
  ev_outcome (ar_event r) = Failure.
Proof.
  intros Ha r. subst r. unfold audit_record. cbn.
  pose proof (note_presented_spec (settle a (undecided a error))) as (-> & -> & _).
  unfold undecided, settle, outcome.
  destruct Ha as [Ha|Ha]; rewrite Ha; destruct error as [[]|]; cbn; by rewrite Ha.
Qed.

(** A request that went upstream and met no error is reported as a success. *)
Lemma record_success a conn ts dur :
  audit_inv a → action a = Some ActForward ∨ action a = Some ActBypass →
  let r := (audit_record show_ip a conn None ts dur).2 in
  ev_reason (ar_event r) = None ∧ Some (ev_action (ar_event r)) = action a ∧
  ev_outcome (ar_event r) = Success.
Proof.
  intros [Hd _ _ _ _ _ _ _] Ha r. subst r. unfold audit_record. cbn.
  pose proof (note_presented_spec (settle a (undecided a None))) as (-> & -> & _).
  unfold undecided, settle, outcome.
  destruct Ha as [Ha|Ha]; rewrite Ha in Hd |- *; cbn; by rewrite Ha, Hd.
Qed.

(** Claim C27. How a transport error is charged: a refusal keeps its own action,
    reason and message whatever error follows; a forwarded or bypassed request
    keeps its action, and its attestation result, and reports the error's reason;
    and a request without a decision is an error, [internal_error] when nothing
    else explains it. *)
Theorem terminal_error_attribution a conn error ts dur :
  audit_inv a →
  let ev := ar_event (audit_record show_ip a conn error ts dur).2 in
  let msg := ar_message (audit_record show_ip a conn error ts dur).2 in
  ar_attestation (audit_record show_ip a conn error ts dur).2 = au_attestation a ∧
  match action a, error with
  | Some ActReject, _ | Some ActRateLimit, _ =>
      Some (ev_action ev) = action a ∧ ev_reason ev = reason a ∧
      msg = default [] (message a) ∧ ev_outcome ev = Failure
  | Some ActForward, Some (r, m) | Some ActBypass, Some (r, m) =>
      Some (ev_action ev) = action a ∧ ev_reason ev = Some r ∧ msg = m ∧ ev_outcome ev = Failure
  | Some ActForward, None | Some ActBypass, None =>
      Some (ev_action ev) = action a ∧ ev_reason ev = None ∧ ev_outcome ev = Success
  | None, Some (r, m) => ev_action ev = ActError ∧ ev_reason ev = Some r ∧ msg = m
  | None, None => ev_action ev = ActError ∧ ev_reason ev = Some InternalError
  | Some ActError, _ => False
  end.
Proof.
  intros [Hd _ _ _ _ _ _ _] ev msg. subst ev msg. unfold audit_record. cbn.
  pose proof (note_presented_spec (settle a (undecided a error))) as (-> & -> & -> & -> & _).
  unfold undecided, settle, outcome.
  destruct (action a) as [[]|] eqn:Ha, error as [[r m]|]; cbn in *; rewrite ?Ha; done.
Qed.
End Calls.

Section Examples.
#[local] Existing Instances Toy.crypto ToyRate.globs ToyMachine.x509 ToyMachine.tls
  Gregorian.calendar Gregorian.calendar_laws.

Definition quote (s : str) : str := DQUOTE :: s ++ [DQUOTE].
Definition ip_text (ip : IpAddr) : str := match ip with V4 a => show a | V6 a => show a end.

Definition sample_connection : Connection :=
  {| cn_proxy := Some {| sa_ip := V4 167772165; sa_port := 8443 |};
     cn_client := Some {| sa_ip := V4 167772161; sa_port := 52144 |};
     cn_tls_client_subject := None; cn_status_code := Some 502; cn_request_body_bytes := 0;
     cn_response_body_bytes := 0 |}.

(** An attested request that is forwarded. *)
Definition forwarded : RequestAudit :=
  forward (token_verified
    (attestation_headers (audit_request (RequestAudit_new 0 false) "GET" (Some ("docs" : str)))
       (Some ("1010" : str)) (Some ("bm9uY2U=" : str))) Bound).

Lemma forwarded_calls :
  audit_calls quote ip_text (RequestAudit_new 0 false) forwarded.
Proof.
  unfold audit_calls, forwarded.
  eapply rtc_l; [by apply (CallRequest quote ip_text _ "GET" (Some ("docs" : str)))|].
  eapply rtc_l; [by apply (CallHeaders quote ip_text _ (Some ("1010" : str)) (Some ("bm9uY2U=" : str)))|].
  eapply rtc_l; [apply (CallToken quote ip_text _ Bound); [done|by eexists]|].
  eapply rtc_l; [by apply CallForward|]. apply rtc_refl.
Qed.

Lemma sample_connection_ok : connection_ok sample_connection.
Proof. split; cbn; [intros code [= <-]; lia|lia]. Qed.

(** The upstream then refuses the connection. *)
Lemma terminal_error_attribution_witness :
  let error := Some (UpstreamError, "upstream error: ConnectRefused" : str) in
  ev_action (ar_event (audit_record ip_text forwarded sample_connection error [] 5).2) = ActForward ∧
  ev_reason (ar_event (audit_record ip_text forwarded sample_connection error [] 5).2)
    = Some UpstreamError.
Proof.
  intros error.
  assert (audit_inv forwarded) as Hinv
    by exact (audit_inv_calls quote ip_text _ _ (audit_inv_new 0 false) forwarded_calls).
  destruct (terminal_error_attribution ip_text forwarded sample_connection error [] 5 Hinv)
    as (_ & Ha & Hr & _).
  split; [|exact Hr]. change (Some (ev_action (ar_event (audit_record ip_text forwarded
    sample_connection error [] 5).2)) = Some ActForward) in Ha. congruence.
Defined.
End Examples.
