(* ===== verification/AuditJson.v ===== *)
(** The audit record as the JSON document serde writes, and the published schema
    ([src/proxy/audit/audit-log.schema.json]) as an executable validator: every
    document the proxy emits for a request validates. *)

From S2P Require Import Prelude Net AuditTypes Attest AttestToken RateLimit RateLimitFacts Mtls Machine MachineFacts AuditLog MtlsFacts AuditTime AuditFacts.

(** ** Documents *)

(** The values an audit record is made of. *)
Inductive Doc :=
  | DNull
  | DBool (b : bool)
  | DInt (n : Z)
  | DStr (s : str)
  | DObj (fields : list (str * Doc)).

Definition doc_opt {A} (f : A → Doc) (o : option A) : Doc :=
  match o with Some x => f x | None => DNull end.

Fixpoint lookup_key (k : str) (fs : list (str * Doc)) : option Doc :=
  match fs with
  | [] => None
  | (k', v) :: fs => if decide (k' = k) then Some v else lookup_key k fs
  end.

(** ** [#[derive(Serialize)]]: the names and the order of the keys *)

Definition action_name (a : Action) : str :=
  match a with
  | ActForward => "forward" | ActBypass => "bypass" | ActReject => "reject"
  | ActRateLimit => "rate_limit" | ActError => "error"
  end.
Definition outcome_name (o : AuditTypes.Outcome) : str :=
  match o with Success => "success" | Failure => "failure" end.
Definition attestation_status_name (s : AttestationStatus) : str :=
  match s with
  | AttVerified => "verified" | AttFailed => "failed" | AttBypassed => "bypassed"
  | AttIncomplete => "incomplete" | AttNotEvaluated => "not_evaluated"
  end.
Definition machine_status_name (s : MachineStatus) : str :=
  match s with
  | MachVerified => "verified" | MachFailed => "failed" | MachAbsent => "absent"
  | MachNotEvaluated => "not_evaluated" | MachDisabled => "disabled"
  end.
Definition binding_name (b : Binding) : str :=
  match b with Bound => "bound" | Unbound => "unbound" end.

(** [Serialize for Reason]: its code. *)
Definition reason_doc (r : Reason) : Doc := DStr (reason_code r).

Definition event_doc (e : AuditEvent) : Doc :=
  DObj [("kind" : str, DStr (ev_kind e));
        ("action" : str, DStr (action_name (ev_action e)));
        ("outcome" : str, DStr (outcome_name (ev_outcome e)));
        ("stage" : str, doc_opt (DStr ∘ stage_name) (ev_stage e));
        ("reason" : str, doc_opt reason_doc (ev_reason e));
        ("risk" : str, DStr (risk_name (ev_risk e)));
        ("duration_ms" : str, DInt (ev_duration_ms e))].

Definition machine_doc (m : MachineFields) : Doc :=
  DObj [("status" : str, DStr (machine_status_name (ma_status m)));
        ("subject_dn" : str, doc_opt DStr (ma_subject_dn m));
        ("hostname" : str, doc_opt DStr (ma_hostname m));
        ("chain_verified" : str, DBool (ma_chain_verified m))].

Definition attestation_doc (a : AttestationFields) : Doc :=
  DObj [("status" : str, DStr (attestation_status_name (at_status a)));
        ("nonce" : str, doc_opt DStr (at_nonce a));
        ("client_timestamp" : str, doc_opt DStr (at_client_timestamp a));
        ("body_binding" : str, doc_opt (DStr ∘ binding_name) (at_body_binding a))].

(** [ServerFields], [TlsFields], [HttpFields] and [TransferFields]. *)
Definition server_doc (address : option str) : Doc := DObj [("address" : str, doc_opt DStr address)].
Definition tls_doc (subject : option str) : Doc :=
  DObj [("client" : str, DObj [("subject" : str, doc_opt DStr subject)])].
Definition http_doc (method : option str) (status : option Z) : Doc :=
  DObj [("request" : str, DObj [("method" : str, doc_opt DStr method)]);
        ("response" : str, DObj [("status_code" : str, doc_opt DInt status)])].
Definition transfer_doc (read sent : Z) : Doc :=
  DObj [("request_body_bytes" : str, DInt read); ("response_body_bytes" : str, DInt sent)].

Section Serialize.
Variable show_ip : IpAddr → str.

Definition endpoint_doc (e : Endpoint) : Doc :=
  DObj [("ip" : str, doc_opt (DStr ∘ show_ip) (ep_ip e)); ("port" : str, doc_opt DInt (ep_port e))].

Definition client_doc (c : ClientFields) : Doc :=
  DObj [("address" : str, doc_opt DStr (cl_address c));
        ("ip" : str, doc_opt (DStr ∘ show_ip) (cl_ip c)); ("port" : str, doc_opt DInt (cl_port c))].

Definition record_doc (r : AuditRecord) : Doc :=
  DObj [("timestamp" : str, DStr (ar_timestamp r));
        ("schema_version" : str, DStr (ar_schema_version r));
        ("level" : str, DStr (ar_level r));
        ("logger" : str, DStr (ar_logger r));
        ("event" : str, event_doc (ar_event r));
        ("message" : str, DStr (ar_message r));
        ("proxy" : str, endpoint_doc (ar_proxy r));
        ("client" : str, client_doc (ar_client r));
        ("server" : str, server_doc (ar_server_address r));
        ("tls" : str, tls_doc (ar_tls_client_subject r));
        ("machine" : str, machine_doc (ar_machine r));
        ("attestation" : str, attestation_doc (ar_attestation r));
        ("http" : str, http_doc (ar_http_method r) (ar_http_status r));
        ("transfer" : str, transfer_doc (ar_request_body_bytes r) (ar_response_body_bytes r))].
End Serialize.

(** ** JSON Schema, as far as the published schema uses it

    [description], [x-stage] and [x-risk] are annotations, and so is [format]
    under the 2020-12 dialect; [$ref]s are expanded. *)

Inductive JType := TNull | TBoolean | TInteger | TString | TObject.
#[global] Instance JType_eq_dec : EqDecision JType. Proof. solve_decision. Defined.

Definition type_of (d : Doc) : JType :=
  match d with
  | DNull => TNull | DBool _ => TBoolean | DInt _ => TInteger | DStr _ => TString | DObj _ => TObject
  end.

Inductive Schema :=
  | SType (ts : list JType)
  | SConst (s : str)
  | STrue                                         (* "const": true *)
  | SEnum (l : list str)
  | SPattern (template : str)                     (* 9 stands for [0-9] *)
  | SMinimum (n : Z)
  | SMaximum (n : Z)
  | SRequired (keys : list str)
  | SProperties (ps : list (str * Schema))
  | SClosed (keys : list str)                     (* "additionalProperties": false *)
  | SAllOf (l : list Schema)
  | SAnyOf (l : list Schema)
  | SOneOf (l : list Schema)
  | SNot (s : Schema)
  | SIf (c t e : Schema).

Definition count_true (l : list bool) : nat := length (filter (λ b, b = true) l).

(** A keyword says nothing of a document of another type. *)
Fixpoint valid (s : Schema) (d : Doc) {struct s} : bool :=
  match s with
  | SType ts => bool_decide (type_of d ∈ ts)
  | SConst c => match d with DStr x => bool_decide (x = c) | _ => false end
  | STrue => match d with DBool b => b | _ => false end
  | SEnum l => match d with DStr x => bool_decide (x ∈ l) | _ => false end
  | SPattern t => match d with DStr x => matches_template t x | _ => true end
  | SMinimum n => match d with DInt x => n <=? x | _ => true end
  | SMaximum n => match d with DInt x => x <=? n | _ => true end
  | SRequired ks =>
      match d with
      | DObj fs => forallb (λ k, bool_decide (is_Some (lookup_key k fs))) ks
      | _ => true
      end
  | SProperties ps =>
      match d with
      | DObj fs =>
          forallb (λ p, match lookup_key p.1 fs with Some v => valid p.2 v | None => true end) ps
      | _ => true
      end
  | SClosed ks =>
      match d with DObj fs => forallb (λ f, bool_decide (f.1 ∈ ks)) fs | _ => true end
  | SAllOf l => forallb (λ s, valid s d) l
  | SAnyOf l => existsb (λ s, valid s d) l
  | SOneOf l => bool_decide (count_true (map (λ s, valid s d) l) = 1%nat)
  | SNot s => negb (valid s d)
  | SIf c t e => if valid c d then valid t d else valid e d
  end.

(** ** The schema *)

Definition words : list String.string → list str := fmap String.list_ascii_of_string.

(** An object with exactly these keys, each of its schema. *)
Definition object (ps : list (str * Schema)) : Schema :=
  SAllOf [SType [TObject]; SClosed (fst <$> ps); SRequired (fst <$> ps); SProperties ps].

Definition or_null (s : Schema) : Schema := SAnyOf [s; SType [TNull]].
Definition nullable_string : Schema := SType [TString; TNull].

Definition timestamp_schema : Schema :=
  SAllOf [SType [TString]; SPattern "9999-99-99T99:99:99.999Z"].
Definition reason_schema : Schema := SOneOf ((λ row, SConst row.1.1) <$> schema_reasons).
Definition stage_schema : Schema :=
  SEnum (words ["rate_limit"; "attestation_headers"; "machine_identity"; "attestation_token";
         "attestation_body"; "upstream"; "downstream"; "internal"]).
Definition risk_schema : Schema := SEnum (words ["info"; "low"; "medium"; "high"; "critical"]).

Definition event_schema : Schema :=
  object
    [("kind" : str, SConst "audit");
     ("action" : str, SEnum (words ["forward"; "bypass"; "reject"; "rate_limit"; "error"]));
     ("outcome" : str, SEnum (words ["success"; "failure"]));
     ("stage" : str, or_null stage_schema);
     ("reason" : str, or_null reason_schema);
     ("risk" : str, risk_schema);
     ("duration_ms" : str, SAllOf [SType [TInteger]; SMinimum 0])].

Definition ip_schema : Schema := SAnyOf [SType [TString]; SType [TString]; SType [TNull]].
Definition port_schema : Schema := SAllOf [SType [TInteger; TNull]; SMinimum 0; SMaximum 65535].
Definition endpoint_schema : Schema := object [("ip" : str, ip_schema); ("port" : str, port_schema)].
Definition client_schema : Schema :=
  object [("address" : str, ip_schema); ("ip" : str, ip_schema); ("port" : str, port_schema)].
Definition server_schema : Schema := object [("address" : str, nullable_string)].
Definition tls_schema : Schema :=
  object [("client" : str, object [("subject" : str, or_null (SType [TString]))])].

Definition status_is (value : str) : Schema :=
  SAllOf [SRequired (words ["status"]); SProperties [("status" : str, SConst value)]].

Definition machine_schema : Schema :=
  SAllOf
    [object
       [("status" : str, SEnum (words ["verified"; "failed"; "absent"; "not_evaluated"; "disabled"]));
        ("subject_dn" : str, or_null (SType [TString])); ("hostname" : str, nullable_string);
        ("chain_verified" : str, SType [TBoolean])];
     SIf (status_is "verified")
       (SProperties [("subject_dn" : str, SType [TString]); ("hostname" : str, SType [TString]);
                     ("chain_verified" : str, STrue)])
       (SProperties [("hostname" : str, SType [TNull])])].

Definition attestation_schema : Schema :=
  SAllOf
    [object
       [("status" : str, SEnum (words ["verified"; "failed"; "bypassed"; "incomplete"; "not_evaluated"]));
        ("nonce" : str, nullable_string); ("client_timestamp" : str, or_null timestamp_schema);
        ("body_binding" : str, or_null (SEnum (words ["bound"; "unbound"])))];
     SIf (status_is "verified")
       (SProperties [("nonce" : str, SType [TString]); ("body_binding" : str, SType [TString])])
       (SAllOf [])].

Definition http_schema : Schema :=
  object
    [("request" : str, object [("method" : str, nullable_string)]);
     ("response" : str,
       object [("status_code" : str,
                 SAllOf [SType [TInteger; TNull]; SMinimum 100; SMaximum 999])])].

Definition transfer_schema : Schema :=
  object [("request_body_bytes" : str, SAllOf [SType [TInteger]; SMinimum 0]);
          ("response_body_bytes" : str, SAllOf [SType [TInteger]; SMinimum 0])].

Definition is_success : Schema :=
  SAllOf [SRequired (words ["event"]);
    SProperties [("event" : str,
      SAllOf [SRequired (words ["outcome"]); SProperties [("outcome" : str, SConst "success")]])]].

Definition audit_schema : Schema :=
  SAllOf
    [object
       [("timestamp" : str, timestamp_schema); ("schema_version" : str, SConst "1.0");
        ("level" : str, SEnum (words ["INFO"; "WARN"]));
        ("logger" : str, SConst "denbrowser_proxy::audit"); ("event" : str, event_schema);
        ("message" : str, SType [TString]); ("proxy" : str, endpoint_schema);
        ("client" : str, client_schema); ("server" : str, server_schema);
        ("tls" : str, tls_schema); ("machine" : str, machine_schema);
        ("attestation" : str, attestation_schema); ("http" : str, http_schema);
        ("transfer" : str, transfer_schema)];
     SIf is_success
       (SProperties [("level" : str, SConst "INFO");
          ("event" : str, SProperties
             [("action" : str, SEnum (words ["forward"; "bypass"])); ("stage" : str, SType [TNull]);
              ("reason" : str, SType [TNull]); ("risk" : str, SConst "info")])])
       (SProperties [("level" : str, SConst "WARN");
          ("event" : str, SProperties
             [("stage" : str, SType [TString]); ("reason" : str, SType [TString]);
              ("risk" : str, SNot (SConst "info"))])])].

Definition system_schema : Schema :=
  SAllOf
    [SType [TObject];
     SClosed (words ["timestamp"; "schema_version"; "level"; "logger"; "event"; "message"; "fields"]);
     SRequired (words ["timestamp"; "schema_version"; "level"; "logger"; "event"; "message"]);
     SProperties
       [("timestamp" : str, timestamp_schema); ("schema_version" : str, SConst "1.0");
        ("level" : str, SEnum (words ["TRACE"; "DEBUG"; "INFO"; "WARN"; "ERROR"]));
        ("logger" : str, SType [TString]);
        ("event" : str, object [("kind" : str, SConst "system")]);
        ("message" : str, SType [TString]); ("fields" : str, SType [TObject])]].

(** One line of the log. *)
Definition log_schema : Schema := SOneOf [audit_schema; system_schema].

(** ** Objects *)

Lemma lookup_key_elem fs k v : NoDup (fst <$> fs) → (k, v) ∈ fs → lookup_key k fs = Some v.
Proof.
  induction fs as [|[k' v'] fs IH]; intros Hnd Hin; [set_solver|]. cbn in Hnd |- *.
  apply NoDup_cons in Hnd as [Hn Hnd]. apply elem_of_cons in Hin as [Heq|Hin].
  - injection Heq as -> ->. by rewrite decide_True.
  - rewrite decide_False; [by apply IH|]. intros ->. apply Hn, list_elem_of_fmap. by exists (k, v).
Qed.

(** A document with the schema's keys in order, each of its schema. *)
Lemma object_valid ps fs :
  NoDup (fst <$> ps) → Forall2 (λ p f, f.1 = p.1 ∧ valid p.2 f.2 = true) ps fs →
  valid (object ps) (DObj fs) = true.
Proof.
  intros Hnd Hall.
  assert (fst <$> fs = fst <$> ps) as Hk.
  { clear Hnd. induction Hall as [|p f ps fs [Hf _] _ IH]; cbn; [done|]. by rewrite Hf, IH. }
  assert (∀ p, p ∈ ps → ∃ v, lookup_key p.1 fs = Some v ∧ valid p.2 v = true) as Hv.
  { intros p [i Hi]%list_elem_of_lookup.
    destruct (Forall2_lookup_l _ _ _ _ _ Hall Hi) as (f & Hf & Hkf & Hvf). exists f.2.
    split; [|done]. apply lookup_key_elem; [by rewrite Hk|]. rewrite <-Hkf.
    apply list_elem_of_lookup. exists i. by destruct f. }
  cbn [valid object forallb]. rewrite !andb_true_iff. split; [done|]. split; [|split; [|split]]; [..|done].
  - apply forallb_forall. intros f Hf%list_elem_of_In. apply bool_decide_eq_true.
    rewrite <-Hk. apply list_elem_of_fmap. by exists f.
  - apply forallb_forall. intros k Hin%list_elem_of_In. apply bool_decide_eq_true.
    apply list_elem_of_fmap in Hin as (p & -> & Hp). destruct (Hv p Hp) as (v & -> & _). by eexists.
  - apply forallb_forall. intros p Hp%list_elem_of_In. by destruct (Hv p Hp) as (v & -> & ->).
Qed.

(** Apply [object_valid] to a concrete object: one goal per key. *)
Ltac object_keys :=
  apply object_valid;
  [apply (bool_decide_eq_true_1 _); vm_compute; reflexivity
  |repeat (constructor; [split; [reflexivity|]; cbn [fst snd]|]); try apply List.Forall2_nil].

(** ** The parts of a record *)

Lemma reason_valid r : valid reason_schema (reason_doc r) = true.
Proof. by destruct r; vm_compute. Qed.

Lemma timestamp_valid ts : is_timestamp ts = true → valid timestamp_schema (DStr ts) = true.
Proof.
  unfold is_timestamp. intros Ht. unfold timestamp_schema. cbn [valid forallb]. by rewrite Ht.
Qed.

Lemma or_null_valid {A} s (f : A → Doc) o :
  (∀ x, o = Some x → valid s (f x) = true) → valid (or_null s) (doc_opt f o) = true.
Proof.
  intros Hs. destruct o as [x|]; [|unfold or_null; cbn; by rewrite orb_true_r].
  unfold or_null. cbn [valid existsb doc_opt]. by rewrite Hs.
Qed.

Lemma nullable_string_valid o : valid nullable_string (doc_opt DStr o) = true.
Proof. by destruct o. Qed.

Lemma natural_valid n : 0 ≤ n → valid (SAllOf [SType [TInteger]; SMinimum 0]) (DInt n) = true.
Proof. intros Hn. cbn. by rewrite (proj2 (Z.leb_le _ _) Hn). Qed.

Lemma event_valid e :
  ev_kind e = "audit" → 0 ≤ ev_duration_ms e → valid event_schema (event_doc e) = true.
Proof.
  intros Hk Hd. unfold event_schema, event_doc. object_keys.
  - by rewrite Hk.
  - by destruct (ev_action e).
  - by destruct (ev_outcome e).
  - apply or_null_valid. by intros [] _.
  - apply or_null_valid. intros r _. apply reason_valid.
  - by destruct (ev_risk e).
  - by apply natural_valid.
Qed.

(** A port of a socket address. *)
Definition port_typed (o : option Z) : Prop := ∀ p, o = Some p → 0 ≤ p ≤ 65535.

Lemma port_valid o : port_typed o → valid port_schema (doc_opt DInt o) = true.
Proof.
  intros Ho. destruct o as [p|]; [|done]. destruct (Ho p eq_refl). cbn.
  by rewrite !(proj2 (Z.leb_le _ _)) by done.
Qed.

Lemma ip_valid {A} (f : A → str) o : valid ip_schema (doc_opt (DStr ∘ f) o) = true.
Proof. by destruct o. Qed.

Lemma endpoint_valid show_ip e :
  port_typed (ep_port e) → valid endpoint_schema (endpoint_doc show_ip e) = true.
Proof.
  intros Hp. unfold endpoint_schema, endpoint_doc. object_keys; [apply ip_valid|by apply port_valid].
Qed.

Lemma client_valid show_ip c :
  port_typed (cl_port c) → valid client_schema (client_doc show_ip c) = true.
Proof.
  intros Hp. unfold client_schema, client_doc.
  object_keys; [apply (ip_valid id)|apply ip_valid|by apply port_valid].
Qed.

Lemma tls_valid o : valid tls_schema (tls_doc o) = true.
Proof. by destruct o. Qed.

Lemma server_valid o : valid server_schema (server_doc o) = true.
Proof. by destruct o. Qed.

Lemma machine_valid m :
  (ma_status m = MachVerified → is_Some (ma_subject_dn m) ∧ is_Some (ma_hostname m) ∧
     ma_chain_verified m = true) →
  (ma_status m ≠ MachVerified → ma_hostname m = None) →
  valid machine_schema (machine_doc m) = true.
Proof.
  destruct m as [st dn host chain]. cbn. intros Hv Ho.
  destruct st; [destruct (Hv eq_refl) as ([? ->] & [? ->] & ->); reflexivity|..];
    rewrite Ho by done; by destruct dn.
Qed.

Lemma attestation_valid a :
  (at_status a = AttVerified → is_Some (at_nonce a) ∧ is_Some (at_body_binding a)) →
  (∀ ts, at_client_timestamp a = Some ts → is_timestamp ts = true) →
  valid attestation_schema (attestation_doc a) = true.
Proof.
  intros Hv Ht. unfold attestation_schema. cbn [valid forallb]. rewrite !andb_true_iff. split.
  - unfold attestation_doc. object_keys.
    + by destruct (at_status a).
    + apply nullable_string_valid.
    + apply or_null_valid. intros ts Hts. by apply timestamp_valid, Ht.
    + apply or_null_valid. by intros [] _.
  - split; [|done]. destruct a as [st nonce ts b]. cbn in Hv. destruct st; [|reflexivity..].
    by destruct (Hv eq_refl) as [[? ->] [? ->]].
Qed.

Lemma http_valid m st :
  (∀ code, st = Some code → 100 ≤ code ≤ 999) → valid http_schema (http_doc m st) = true.
Proof.
  intros Hst. unfold http_schema, http_doc. object_keys; object_keys; [apply nullable_string_valid|].
  destruct st as [code|]; [|done]. destruct (Hst code eq_refl). cbn.
  by rewrite !(proj2 (Z.leb_le _ _)) by done.
Qed.

Lemma transfer_valid read sent :
  0 ≤ read → 0 ≤ sent → valid transfer_schema (transfer_doc read sent) = true.
Proof. intros. unfold transfer_schema, transfer_doc. object_keys; by apply natural_valid. Qed.

(** ** The record *)

(** [u16] ports, on both ends of the connection. *)
Definition ports_typed (r : AuditRecord) : Prop :=
  port_typed (ep_port (ar_proxy r)) ∧ port_typed (cl_port (ar_client r)).

Lemma level_valid (l : str) :
  l = "INFO" ∨ l = "WARN" → valid (SEnum (words ["INFO"; "WARN"])) (DStr l) = true.
Proof. by intros [->| ->]. Qed.

Lemma conforms_valid show_ip r :
  conforms r → ports_typed r → valid audit_schema (record_doc show_ip r) = true.
Proof.
  intros Hc [Hpp Hcp]. unfold audit_schema. set (cond := SIf is_success _ _).
  assert (valid cond (record_doc show_ip r) = true) as Hcond.
  { destruct Hc as [_ _ _ _ _ Hs Hf _ _ _ _ _ _ _ _].
    destruct r as [ts sv lvl lg [kind act out stage re risk dur] msg px cl sa sub ma at' me st rb sb].
    cbn in Hs, Hf. destruct out.
    - destruct (Hs eq_refl) as (-> & [->| ->] & -> & -> & ->); reflexivity.
    - destruct (Hf ltac:(done)) as (-> & [? ->] & [? ->] & Hr). by destruct risk. }
  cbn [valid forallb]. rewrite Hcond, !andb_true_r. unfold record_doc. object_keys.
  - apply timestamp_valid, Hc.
  - by rewrite (cf_version _ Hc).
  - apply level_valid. destruct (ev_outcome (ar_event r)) eqn:Ho.
    + left. by apply (cf_success _ Hc).
    + right. apply (cf_failure _ Hc). by rewrite Ho.
  - by rewrite (cf_logger _ Hc).
  - apply event_valid; apply Hc.
  - done.
  - by apply endpoint_valid.
  - by apply client_valid.
  - apply server_valid.
  - apply tls_valid.
  - apply machine_valid; apply Hc.
  - apply attestation_valid; apply Hc.
  - apply http_valid, Hc.
  - apply transfer_valid; apply (cf_bytes _ Hc).
Qed.

(** No audit record passes for a system record: it has keys of its own. *)
Lemma record_not_system show_ip r : valid system_schema (record_doc show_ip r) = false.
Proof. reflexivity. Qed.

Section Emitted.
Context `{Crypto, GlobOps, MachineTls, CalendarLaws}.
Variables (debug_str : str → str) (show_ip : IpAddr → str).

(** The addresses of a connection have [u16] ports. *)
Definition addresses_typed (c : Connection) : Prop :=
  ∀ a, cn_proxy c = Some a ∨ cn_client c = Some a → 0 ≤ sa_port a ≤ 65535.

Lemma record_ports a conn error ts dur :
  addresses_typed conn → ports_typed (audit_record show_ip a conn error ts dur).2.
Proof.
  intros Hc. unfold audit_record. split; cbn; intros p Hp.
  - destruct (cn_proxy conn) as [s|] eqn:E; [|done]. injection Hp as <-. apply Hc. by left.
  - destruct (cn_client conn) as [s|] eqn:E; [|done]. injection Hp as <-. apply Hc. by right.
Qed.

Lemma finish_validates enabled clk a conn error a' lvl record :
  audit_inv a → connection_ok conn → addresses_typed conn → iso_time (wall clk) →
  finish show_ip enabled clk a conn error = (a', Some (lvl, record)) →
  valid log_schema (record_doc show_ip record) = true.
Proof.
  intros Hinv Hconn Haddr Hwall Hf.
  destruct (finish_conforms show_ip enabled clk a conn error a' lvl record Hinv Hconn Hwall Hf)
    as [Hc _].
  assert (ports_typed record) as Hports.
  { unfold finish in Hf. destruct (negb (enabled _)); [done|].
    destruct (audit_record _ _ _ _ _ _) as [a1 rec] eqn:Hr. injection Hf as _ _ <-.
    change rec with (a1, rec).2. rewrite <-Hr. by apply record_ports. }
  unfold log_schema. cbn [valid map]. rewrite record_not_system.
  rewrite (conforms_valid show_ip record Hc Hports). reflexivity.
Qed.

(** Claim C26. Every record validates against the published schema: whatever a
    legal sequence of calls noted of the request and whatever error ended it, the
    JSON document that is emitted has exactly the schema's keys at every level
    with values of their types, is a success without a reason at level INFO or a
    failure with a reason, its stage and its risk at level WARN, calls a machine
    or an attestation verified only with what that needs, and is an audit record
    and not a system record. *)
Theorem emitted_record_validates enabled clk now m a conn error a' lvl record :
  audit_calls debug_str show_ip (RequestAudit_new now m) a → connection_ok conn →
  addresses_typed conn → iso_time (wall clk) →
  finish show_ip enabled clk a conn error = (a', Some (lvl, record)) →
  valid log_schema (record_doc show_ip record) = true ∧
  conforms record ∧ ar_level record = level_str lvl ∧ enabled lvl = true ∧
  (lvl = LevelInfo ↔ ev_outcome (ar_event record) = Success).
Proof.
  intros Hcalls Hconn Haddr Hwall Hf. split; [|by eapply emitted_record_conforms].
  eapply finish_validates; [|done..].
  exact (audit_inv_calls debug_str show_ip _ _ (audit_inv_new now m) Hcalls).
Qed.
End Emitted.

(** ** A forwarded request whose upstream failed *)

Section Examples.
#[local] Existing Instances Toy.crypto ToyRate.globs ToyMachine.x509 ToyMachine.tls
  Gregorian.calendar Gregorian.calendar_laws.

Lemma emitted_record_validates_witness :
  match (finish ip_text (λ _, true) Toy.clk forwarded sample_connection None).2 with
  | Some (lvl, record) => valid log_schema (record_doc ip_text record) = true ∧ lvl = LevelInfo
  | None => False
  end.
Proof.
  destruct (finish ip_text (λ _, true) Toy.clk forwarded sample_connection None)
    as [a' [[lvl record]|]] eqn:Hf; [|by vm_compute in Hf].
  change (valid log_schema (record_doc ip_text record) = true ∧ lvl = LevelInfo).
  assert (iso_time (wall Toy.clk)) as Hw
    by (unfold iso_time, MAX_ISO_UNIX_SECS, NANOS; cbn; unfold from_secs, NANOS; lia).
  assert (addresses_typed sample_connection) as Ha by (intros a [[= <-]|[= <-]]; cbn; lia).
  split.
  - exact (proj1 (emitted_record_validates quote ip_text (λ _, true) Toy.clk 0 false forwarded
             sample_connection None a' lvl record forwarded_calls sample_connection_ok Ha Hw Hf)).
  - assert (fst <$> (finish ip_text (λ _, true) Toy.clk forwarded sample_connection None).2
            = Some LevelInfo) as Hl by reflexivity.
    rewrite Hf in Hl. by injection Hl.
Defined.
End Examples.
