(* ===== verification/Tls.v ===== *)
(** TLS material: trust in the upstream ([src/proxy/src/upstream_tls.rs]) and
    the listener's private key ([src/proxy/src/tls_key.rs]).  PEM parsing and
    decryption are OpenSSL's (classes [X509Ops], [PKeyOps]); files are read
    through a parameter. *)

From S2P Require Import Prelude Attest Config Mtls.

(** ** The upstream *)

(** The part of pingora's [HttpPeer] the proxy sets. *)
Record HttpPeer `{X509Ops} := {
  peer_host : str;
  peer_port : Z;
  peer_tls : bool;
  peer_sni : str;
  peer_http_max : Z;
  peer_http_min : Z;
  peer_ca : option (list X509);
  peer_verify_cert : bool;
  peer_verify_hostname : bool }.

Section Upstream.
Context `{X509Ops}.

Record UpstreamTls := { up_ca_certs : option (list X509); up_insecure : bool }.

(** [UpstreamTls::from_config]. *)
Definition UpstreamTls_from_config (read : str → result str str) (cfg : ProxyConfig)
    (insecure : bool) : result UpstreamTls str :=
  let? ca_certs :=
    (if is_empty (upstream_ca cfg) then Ok None
     else
       let path := upstream_ca cfg in
       let? pem := map_err (λ e, "cannot read [proxy].upstream_ca " ++ path ++ ": " ++ e)
                     (read path) in
       let? certs := map_err (λ e, "cannot parse [proxy].upstream_ca " ++ path ++ ": " ++ e)
                       (stack_from_pem pem) in
       bail_if is_empty certs
       with ("[proxy].upstream_ca " ++ path ++ " contains no certificates") in
       Ok (Some certs)) in
  Ok {| up_ca_certs := ca_certs; up_insecure := insecure |}.

(** [UpstreamTls::apply]. *)
Definition upstream_apply (t : UpstreamTls) (p : HttpPeer) : HttpPeer :=
  {| peer_host := peer_host p; peer_port := peer_port p; peer_tls := peer_tls p;
     peer_sni := peer_sni p; peer_http_max := peer_http_max p; peer_http_min := peer_http_min p;
     peer_ca := up_ca_certs t; peer_verify_cert := negb (up_insecure t);
     peer_verify_hostname := negb (up_insecure t) |}.
End Upstream.

(** ** The listener's key *)

(** [PKey::private_key_from_pem_callback]: from the file and a supplier of the
    passphrase (given the space there is for it), whether the supplier was
    called, and the key. *)
Class PKeyOps := {
  PKey : Type;
  private_key_from_pem : str → (nat → str) → bool * result PKey str }.

(** The supplier is called for an encrypted key and only then, so a plaintext
    key does not depend on it. *)
Class PKeyLaws `{PKeyOps} := {
  pkey_called pem f g : (private_key_from_pem pem f).1 = (private_key_from_pem pem g).1;
  pkey_plain pem f g : (private_key_from_pem pem f).1 = false →
    private_key_from_pem pem f = private_key_from_pem pem g }.

Definition CR : ascii := "013".

Definition strip_cr (line : str) : str :=
  match reverse line with
  | c :: r => if decide (c = CR) then reverse r else line
  | [] => line
  end.

Section ListenerKey.
Context `{PKeyOps}.
Variable read : str → result str str.               (* std::fs::read *)

(** [tls_key::passphrase]. *)
Definition passphrase (cfg : ProxyConfig) : result (option str) str :=
  if negb (secret_is_empty (tls_key_passphrase cfg)) then
    Ok (Some (secret_expose (tls_key_passphrase cfg)))
  else
    let path := tls_key_passphrase_file cfg in
    if is_empty path then Ok None
    else
      let? contents := map_err (λ e, "cannot read [proxy].tls_key_passphrase_file " ++ path
                                     ++ ": " ++ e) (read path) in
      let line := strip_cr (default [] (head (split_on LF contents))) in
      bail_if is_empty line
      with ("[proxy].tls_key_passphrase_file " ++ path
            ++ " is empty — its first line must be the passphrase") in
      Ok (Some line).

(** The callback: a passphrase that does not fit the buffer is not given. *)
Definition supply (pass : option str) (space : nat) : str :=
  let p := default [] pass in if (length p <=? space)%nat then p else [].

(** [tls_key::load]: the key, and whether the unused-passphrase warning is
    logged. *)
Definition load (cfg : ProxyConfig) : result (PKey * bool) str :=
  let? pem := map_err (λ e, "cannot read [proxy].tls_key " ++ tls_key cfg ++ ": " ++ e)
                (read (tls_key cfg)) in
  let? pass := passphrase cfg in
  match private_key_from_pem pem (supply pass) with
  | (false, Ok key) => Ok (key, bool_decide (is_Some pass))
  | (true, Ok key) => Ok (key, false)
  | (true, Err e) =>
      match pass with
      | None =>
          Err ("[proxy].tls_key " ++ tls_key cfg ++ " is encrypted but no passphrase is "
               ++ "configured — set [proxy].tls_key_passphrase_file (or "
               ++ "[proxy].tls_key_passphrase)")
      | Some _ =>
          Err ("cannot decrypt [proxy].tls_key " ++ tls_key cfg
               ++ " with the configured passphrase: " ++ e)
      end
  | (false, Err e) => Err ("cannot parse [proxy].tls_key " ++ tls_key cfg ++ ": " ++ e)
  end.
End ListenerKey.
