(* ===== verification/TlsFacts.v ===== *)
(** What the TLS settings guarantee: whom the proxy trusts as its upstream, and
    which private keys the listener starts with. *)

From S2P Require Import Prelude Attest Config Mtls MachineFacts Tls.

Section Upstream.
Context `{X509Ops}.

(** A bundle that can be read, parsed and holds a certificate. *)
Definition usable_bundle (read : str → result str str) (path : str) (certs : list X509) : Prop :=
  certs ≠ [] ∧ ∃ pem, read path = Ok pem ∧ stack_from_pem pem = Ok certs.

(** Claim C38. Whom the proxy takes for its upstream: a configuration is accepted
    exactly when it names no bundle or a usable one, with or without
    [--insecure-upstream].  Then every connection verifies the certificate and
    its host name unless that flag is given, trusts exactly the bundle's
    certificates when there is one and the connector's default roots otherwise,
    and keeps its address, its server name, TLS and the HTTP versions. *)
Theorem upstream_trust_classified read cfg insecure :
  match UpstreamTls_from_config read cfg insecure with
  | Ok t =>
      (upstream_ca cfg = [] ∨ ∃ certs, usable_bundle read (upstream_ca cfg) certs) ∧
      ∀ p, let q := upstream_apply t p in
        peer_verify_cert q = negb insecure ∧ peer_verify_hostname q = negb insecure ∧
        (peer_ca q = None ↔ upstream_ca cfg = []) ∧
        (∀ certs, peer_ca q = Some certs → usable_bundle read (upstream_ca cfg) certs) ∧
        (peer_host q, peer_port q, peer_sni q) = (peer_host p, peer_port p, peer_sni p) ∧
        (peer_tls q, peer_http_max q, peer_http_min q)
          = (peer_tls p, peer_http_max p, peer_http_min p)
  | Err _ => upstream_ca cfg ≠ [] ∧ ∀ certs, ¬ usable_bundle read (upstream_ca cfg) certs
  end.
Proof.
  unfold UpstreamTls_from_config, usable_bundle, map_err.
  destruct (upstream_ca cfg) as [|a path] eqn:Hp; cbn [is_empty].
  - split; [by left|]. by intros p.
  - destruct (read (a :: path)) as [pem|e] eqn:Hr; [|by split; [|intros ? (_ & ? & [=] & _)]].
    destruct (stack_from_pem pem) as [[|c cs]|e] eqn:Hs; cbn [is_empty].
    + split; [done|]. intros certs (Hne & pem' & [= <-] & Hs'). congruence.
    + split; [right; exists (c :: cs); eauto|]. intros p. cbn. split_and!; try done.
      intros certs [= <-]. eauto.
    + split; [done|]. intros certs (Hne & pem' & [= <-] & Hs'). congruence.
Qed.
End Upstream.

(** ** The listener's key *)

Lemma strip_cr_plain line : last line ≠ Some CR → strip_cr line = line.
Proof.
  unfold strip_cr. intros Hl. destruct (reverse line) as [|c r] eqn:Hr; [done|].
  case_decide as Hc; [|done]. subst c. destruct Hl.
  rewrite <-(reverse_involutive line), Hr, reverse_cons. apply last_snoc.
Qed.

Lemma strip_cr_cr line : strip_cr (line ++ [CR]) = line.
Proof. unfold strip_cr. rewrite reverse_snoc, decide_True by done. apply reverse_involutive. Qed.

Lemma split_first_line line rest : LF ∉ line → head (split_on LF (line ++ LF :: rest)) = Some line.
Proof. intros Hl. by rewrite split_on_app_free. Qed.

Section ListenerKey.
Context `{PKeyLaws}.
Variable read : str → result str str.

(** The ways a passphrase file may end its first line. *)
Inductive line_ending : str → Prop :=
  | EndOfFile : line_ending []
  | LfEnding rest : line_ending (LF :: rest)
  | CrEndOfFile : line_ending [CR]
  | CrLfEnding rest : line_ending (CR :: LF :: rest).

Lemma CR_not_LF : CR ≠ LF.
Proof. by vm_compute. Qed.

Lemma not_in_snoc line : LF ∉ line → LF ∉ line ++ [CR].
Proof.
  rewrite elem_of_app, list_elem_of_singleton. intros Hl [?|?]; [done|]. by apply CR_not_LF.
Qed.

Lemma passphrase_first_line line ending :
  LF ∉ line → last line ≠ Some CR → line_ending ending →
  strip_cr (default [] (head (split_on LF (line ++ ending)))) = line.
Proof.
  intros Hlf Hcr He. destruct He as [|rest| |rest].
  - rewrite app_nil_r, split_on_id by done. by apply strip_cr_plain.
  - rewrite split_first_line by done. by apply strip_cr_plain.
  - rewrite split_on_id; [by apply strip_cr_cr|].
    by apply not_in_snoc.
  - replace (line ++ CR :: LF :: rest) with ((line ++ [CR]) ++ LF :: rest) by by rewrite <-app_assoc.
    rewrite split_first_line; [by apply strip_cr_cr|].
    by apply not_in_snoc.
Qed.

(** The passphrase an operator means: the setting's own value, or the first
    line of the file, however that line ends. *)
Inductive means (cfg : ProxyConfig) : option str → Prop :=
  | MeansInline :
      secret_value (tls_key_passphrase cfg) ≠ [] →
      means cfg (Some (secret_value (tls_key_passphrase cfg)))
  | MeansFile line ending :
      secret_value (tls_key_passphrase cfg) = [] → tls_key_passphrase_file cfg ≠ [] →
      line ≠ [] → LF ∉ line → last line ≠ Some CR → line_ending ending →
      read (tls_key_passphrase_file cfg) = Ok (line ++ ending) →
      means cfg (Some line)
  | MeansNothing :
      secret_value (tls_key_passphrase cfg) = [] → tls_key_passphrase_file cfg = [] →
      means cfg None.

Lemma passphrase_means cfg pass : means cfg pass → passphrase read cfg = Ok pass.
Proof.
  unfold passphrase, secret_is_empty, secret_expose. intros [Hv|line ending Hv Hf Hl Hlf Hcr He Hr|Hv Hf].
  - by destruct (secret_value _).
  - rewrite Hv. cbn. destruct (tls_key_passphrase_file cfg) as [|a f]; [done|]. cbn [is_empty].
    rewrite Hr. cbn [map_err]. rewrite passphrase_first_line by done. by destruct line.
  - by rewrite Hv, Hf.
Qed.

(** Claim C39. The listener's key: with the passphrase the settings mean (the
    first line of the file loses its line ending, LF or CRLF, and nothing else),
    a plaintext key loads or fails the same whatever the passphrase, with a
    warning exactly when one is set; an encrypted key loads exactly when OpenSSL
    opens it with the whole passphrase, or with none when it does not fit the
    buffer, never with a truncated one; and without a passphrase the failure
    names the settings to use. *)
Theorem listener_key_loads cfg pem pass :
  read (tls_key cfg) = Ok pem → means cfg pass →
  let encrypted := (private_key_from_pem pem (λ _, [])).1 in
  let opened := (private_key_from_pem pem (supply pass)).2 in
  (∀ space, supply pass space = default [] pass ∨
            (supply pass space = [] ∧ (space < length (default [] pass))%nat)) ∧
  match opened with
  | Ok key => load read cfg = Ok (key, negb encrypted && bool_decide (is_Some pass))
  | Err _ => ∃ msg, load read cfg = Err msg ∧
      (encrypted = true → pass = None →
       msg = "[proxy].tls_key " ++ tls_key cfg ++ " is encrypted but no passphrase is "
             ++ "configured — set [proxy].tls_key_passphrase_file (or "
             ++ "[proxy].tls_key_passphrase)")
  end ∧
  (encrypted = false → opened = (private_key_from_pem pem (λ _, [])).2).
Proof.
  intros Hr Hm encrypted opened. split; [|split].
  - intros space. unfold supply. destruct (Nat.leb_spec (length (default [] pass)) space); auto.
  - assert (private_key_from_pem pem (supply pass) = (encrypted, opened)) as Hp
      by (unfold encrypted, opened; rewrite (pkey_called pem (λ _, []) (supply pass));
          apply surjective_pairing).
    clearbody encrypted opened. unfold load. rewrite Hr, (passphrase_means _ _ Hm). cbn [map_err].
    rewrite Hp. destruct encrypted, opened as [key|e], pass; try done.
    all: eexists; split; [reflexivity|done].
  - intros He. unfold opened. by rewrite (pkey_plain pem (λ _, []) (supply pass)).
Qed.
End ListenerKey.

(** ** Concrete keys *)

(** An encrypted key starts with [E] and is opened by the passphrase that
    follows; a plaintext one starts with [P]. *)
Module ToyKeys.
#[export] Instance keys : PKeyOps :=
  {| PKey := str;
     private_key_from_pem pem ask :=
       match pem with
       | a :: rest =>
           if decide (a = "P"%char) then (false, Ok rest)
           else if decide (a = "E"%char) then
             (true, if decide (ask 1024%nat = rest) then Ok rest else Err ("bad decrypt" : str))
           else (false, Err ("no start line" : str))
       | [] => (false, Err ("no start line" : str))
       end |}.

#[export] Instance key_laws : PKeyLaws.
Proof. split; intros [|a pem] f g; cbn; by repeat case_decide. Qed.
End ToyKeys.

Section Examples.
#[local] Existing Instances ToyKeys.keys ToyKeys.key_laws ToyMachine.x509.

Definition key_file (path : str) : result str str :=
  if decide (path = "key.pem") then Ok ("Esesame" : str)
  else if decide (path = "pass") then Ok ("sesame" ++ [CR; LF] ++ "second line")
  else Err ("not found" : str).

Definition key_config : ProxyConfig :=
  {| listen := ":8443"; upstream := "backend:443"; upstream_ca := ""; tls_cert := "cert.pem";
     tls_key := "key.pem"; tls_key_passphrase := {| secret_value := "" |};
     tls_key_passphrase_file := "pass" |}.

Definition opened_key : PKey := ("sesame" : str).

Lemma listener_key_loads_witness :
  load key_file key_config = Ok (opened_key, false).
Proof.
  assert (means key_file key_config (Some ("sesame" : str))) as Hm.
  { apply (MeansFile key_file key_config "sesame" ([CR; LF] ++ "second line")); try done.
    - apply (bool_decide_eq_true_1 _). by vm_compute.
    - apply CrLfEnding. }
  destruct (listener_key_loads key_file key_config "Esesame" (Some ("sesame" : str)) eq_refl Hm)
    as (_ & Hl & _).
  exact Hl.
Defined.
End Examples.
