(* ===== verification/Proxy.v ===== *)
(** The request path ([src/proxy/src/main.rs], the [ProxyHttp] hooks): which
    requests reach the upstream, what they lose on the way, and what is noted
    of them for the audit record.

    pingora's session is the record [Session]: the request head, the body still
    to be read, and what the hooks do to it (answer the client, buffer the body
    for replay).  [request_filter] awaits in the name lookup and at the body,
    and other requests run there and on other threads: an [Env] gives the clock
    at each stage and what the others have done to the shared state meanwhile. *)

From S2P Require Import Prelude Net AuditTypes Attest RateLimit Mtls Passthrough Machine AuditLog Tls.

(** ** Constants *)

Definition BOUND_BODY_MAX : Z := 64 * 1024.
Definition MACHINE_CERT_HEADER : str := "x-denbrowser-machine-cert".
Definition TS_HEADER : str := "x-denbrowser-ts".
Definition NONCE_HEADER : str := "x-denbrowser-nonce".
Definition TOKEN_HEADER : str := "x-denbrowser-token".
Definition ATTESTATION_HEADERS : list str := [TS_HEADER; NONCE_HEADER; TOKEN_HEADER].

(** ** Requests *)

(** [HeaderValue::to_str] of the [http] crate. *)
Class HttpOps := { to_str : str → option str }.

(** A header map: its fields in order, names in lower case. *)
Abbreviation HeaderMap := (list (str * str)).

Definition header_get (hs : HeaderMap) (name : str) : option str :=
  snd <$> head (filter (λ f, f.1 = name) hs).
Definition contains_key (hs : HeaderMap) (name : str) : bool :=
  bool_decide (is_Some (header_get hs name)).
Definition remove_header (hs : HeaderMap) (name : str) : HeaderMap :=
  filter (λ f, f.1 ≠ name) hs.

Record RequestHeader := {
  rq_method : str;
  headers : HeaderMap;
  uri_authority : option str;
  uri_path_and_query : option str }.

(** The body as [read_request_body] delivers it: chunks, then the end or an
    error with the text of its type. *)
Inductive BodyStream :=
  | BodyChunk (chunk : str) (rest : BodyStream)
  | BodyEnd
  | BodyError (etype : str).

(** pingora's retry buffer, as the comment on [BOUND_BODY_MAX] describes it: past
    its capacity it marks itself truncated and drops what it had buffered. *)
Definition BODY_BUF_LIMIT : Z := 64 * 1024.

Record RetryBuffer := { rb_held : str; rb_truncated : bool }.

Definition retry_empty : RetryBuffer := {| rb_held := []; rb_truncated := false |}.
Definition retry_write (b : RetryBuffer) (chunk : str) : RetryBuffer :=
  if rb_truncated b || (BODY_BUF_LIMIT <? Z.of_nat (length (rb_held b) + length chunk))
  then {| rb_held := []; rb_truncated := true |}
  else {| rb_held := rb_held b ++ chunk; rb_truncated := false |}.

(** [ss_open]: a response can still be written, the client has not gone away. *)
Record Session := {
  ss_client : option SocketAddr;
  ss_server : option SocketAddr;
  ss_request : RequestHeader;
  ss_cert : option ClientCert;         (* the connection digest's extension *)
  ss_body : BodyStream;
  ss_body_read : Z;                    (* body_bytes_read() *)
  ss_retry : option RetryBuffer;       (* the retry buffer, once enabled *)
  ss_open : bool;
  ss_response : option Z }.            (* the status the client was answered with *)

Definition set_body (s : Session) (b : BodyStream) (n : Z) (retry : option RetryBuffer) : Session :=
  {| ss_client := ss_client s; ss_server := ss_server s; ss_request := ss_request s;
     ss_cert := ss_cert s; ss_body := b; ss_body_read := n; ss_retry := retry;
     ss_open := ss_open s; ss_response := ss_response s |}.

Definition enable_retry_buffering (s : Session) : Session :=
  set_body s (ss_body s) (ss_body_read s) (Some retry_empty).

(** [read_request_body] delivers a chunk: it is counted, and kept for replay. *)
Definition read_chunk (s : Session) (chunk : str) (rest : BodyStream) : Session :=
  set_body s rest (ss_body_read s + Z.of_nat (length chunk))
    ((λ b, retry_write b chunk) <$> ss_retry s).

(** [respond_error], and whether its write succeeds. *)
Definition respond_error (s : Session) (status : Z) : Session * bool :=
  ({| ss_client := ss_client s; ss_server := ss_server s; ss_request := ss_request s;
      ss_cert := ss_cert s; ss_body := ss_body s; ss_body_read := ss_body_read s;
      ss_retry := ss_retry s; ss_open := ss_open s; ss_response := Some status |}, ss_open s).

(** [response_written]: the answer, if it could be written. *)
Definition response_written (s : Session) : option Z :=
  if ss_open s then ss_response s else None.

Section Requests.
Context `{HttpOps}.

(** [header_str]. *)
Definition header_str (hs : HeaderMap) (name : str) : option str :=
  header_get hs name ≫= to_str.

(** [request_host]: [Host], else the authority, up to the first colon. *)
Definition request_host (req : RequestHeader) : option str :=
  let authority :=
    match header_str (headers req) "host" with
    | Some h => Some h
    | None => uri_authority req
    end in
  (λ a, default a (head (split_on ":" a))) <$> authority.

(** [describe_incomplete]. *)
Definition describe_incomplete (hs : HeaderMap) (has_host machine_present : bool) : str :=
  if machine_present && negb (existsb (contains_key hs) ATTESTATION_HEADERS)
  then "machine certificate sent without any attestation headers"
  else
    let unusable := filter (λ h, header_str hs h = None) ATTESTATION_HEADERS in
    let problems :=
      (if negb (is_empty unusable) then ["missing or unreadable: " ++ join ", " unusable] else [])
      ++ (if negb has_host then ["no Host header or :authority" : str] else []) in
    "incomplete attestation headers (" ++ join "; " problems ++ ")".

(** [path_and_query], [/] when the URI has none. *)
Definition request_path (req : RequestHeader) : str := default ("/" : str) (uri_path_and_query req).

(** [request_summary]. *)
Definition request_summary (req : RequestHeader) : str :=
  rq_method req ++ " " ++ default ("-" : str) (request_host req).
End Requests.

(** ** The proxy *)

Section Proxy.
Context `{Crypto, GlobOps, RateOps, IpNetOps, MachineTls, Calendar, HttpOps}.
Variables (debug_str : str → str) (show_ip : IpAddr → str).

Record DenBrowserProxy := {
  verifier : Verifier;
  upstream_host : str;
  upstream_port : Z;
  upstream_tls : UpstreamTls;
  rate_limiter : option RateLimiter;
  px_bypass : option BypassPolicy;
  px_machine : option MachineIdentity }.

(** [DenBrowserProxy::new]; [parse_error] is the text of a port's parse error. *)
Definition DenBrowserProxy_new (parse_error : str → str) (v : Verifier) (upstream : str)
    (tls : UpstreamTls) (rl : option RateLimiter) (bp : option BypassPolicy)
    (m : option MachineIdentity) : result DenBrowserProxy str :=
  let? (host, port_str) :=
    ok_or (rsplit_once ":" upstream) ("upstream must be host:port, got " ++ debug_str upstream) in
  let? port := ok_or (parse_u16 port_str) (parse_error port_str) in
  Ok {| verifier := v; upstream_host := host; upstream_port := port; upstream_tls := tls;
        rate_limiter := rl; px_bypass := bp; px_machine := m |}.

(** Assignments to the state the components keep behind [&self]. *)
Definition set_verifier (p : DenBrowserProxy) (v : Verifier) : DenBrowserProxy :=
  {| verifier := v; upstream_host := upstream_host p; upstream_port := upstream_port p;
     upstream_tls := upstream_tls p; rate_limiter := rate_limiter p; px_bypass := px_bypass p;
     px_machine := px_machine p |}.
Definition set_rate_limiter (p : DenBrowserProxy) (rl : option RateLimiter) : DenBrowserProxy :=
  {| verifier := verifier p; upstream_host := upstream_host p; upstream_port := upstream_port p;
     upstream_tls := upstream_tls p; rate_limiter := rl; px_bypass := px_bypass p;
     px_machine := px_machine p |}.
Definition set_px_machine (p : DenBrowserProxy) (m : option MachineIdentity) : DenBrowserProxy :=
  {| verifier := verifier p; upstream_host := upstream_host p; upstream_port := upstream_port p;
     upstream_tls := upstream_tls p; rate_limiter := rate_limiter p; px_bypass := px_bypass p;
     px_machine := m |}.

(** [new_ctx]. *)
Definition new_ctx (p : DenBrowserProxy) (now : Z) : RequestAudit :=
  RequestAudit_new now (bool_decide (is_Some (px_machine p))).

(** [upstream_peer]. *)
Definition upstream_peer (p : DenBrowserProxy) : HttpPeer :=
  upstream_apply (upstream_tls p)
    {| peer_host := upstream_host p; peer_port := upstream_port p; peer_tls := true;
       peer_sni := upstream_host p; peer_http_max := 2; peer_http_min := 1;
       peer_ca := None; peer_verify_cert := true; peer_verify_hostname := true |}.

(** ** [request_filter] *)

(** The proxy, this request's session and this request's audit state. *)
Record World := {
  w_proxy : DenBrowserProxy;
  w_session : Session;
  w_ctx : RequestAudit }.

Definition with_proxy (w : World) (p : DenBrowserProxy) : World :=
  {| w_proxy := p; w_session := w_session w; w_ctx := w_ctx w |}.
Definition with_session (w : World) (s : Session) : World :=
  {| w_proxy := w_proxy w; w_session := s; w_ctx := w_ctx w |}.
Definition with_ctx (w : World) (c : RequestAudit) : World :=
  {| w_proxy := w_proxy w; w_session := w_session w; w_ctx := c |}.

(** The world around one run of [request_filter]: the clock when the request
    arrives, when the machine's name is looked up and found, and when the nonce
    is committed; the resolver; and what the other requests do to the shared
    state meanwhile: between this one's token and its machine check, during the
    check, and while its body is read. *)
Record Env := {
  clk_arrival : Clock;
  dns_asked : Z;
  dns_found : Z;
  resolver : str → option (list IpAddr);
  clk_commit : Clock;
  before_machine : DenBrowserProxy → DenBrowserProxy;
  during_lookup : DenBrowserProxy → DenBrowserProxy;
  during_body : DenBrowserProxy → DenBrowserProxy }.

(** A stage goes on with [Ok] or ends the filter with [Err]: [true] when the
    client has been answered, [false] to go upstream. *)
Definition stage (A : Type) := result A (World * bool).

(** [ctx.reject], [let _ = respond_error], then [Ok(true)]: whether the answer
    could be written makes no difference. *)
Definition refuse {A} (w : World) (ctx : RequestAudit) (status : Z) : stage A :=
  let '(s, _) := respond_error (w_session w) status in
  Err ({| w_proxy := w_proxy w; w_session := s; w_ctx := ctx |}, true).

(** What is recorded before any check can refuse the request. *)
Definition note_request (w : World) : World :=
  let req := ss_request (w_session w) in
  let ctx := audit_request (w_ctx w) (rq_method req) (request_host req) in
  let ctx := attestation_headers ctx (header_str (headers req) TS_HEADER)
               (header_str (headers req) NONCE_HEADER) in
  with_ctx w (match header_str (headers req) MACHINE_CERT_HEADER with
              | Some cert => machine_cert_presented ctx cert
              | None => ctx
              end).

Definition client_ip (s : Session) : option IpAddr := sa_ip <$> ss_client s.

Definition rate_limit (env : Env) (host : option str) (w : World) : stage World :=
  match rate_limiter (w_proxy w), client_ip (w_session w) with
  | Some limiter, Some ip =>
      let target := default [] host ++ request_path (ss_request (w_session w)) in
      let '(limiter, admitted) := RateLimiter_admit limiter (instant (clk_arrival env)) ip target in
      let w := with_proxy w (set_rate_limiter (w_proxy w) (Some limiter)) in
      if negb admitted then
        refuse w (reject (w_ctx w) RateLimited "request rate limit exceeded") 429
      else Ok w
  | _, _ => Ok w
  end.

Definition try_bypass (w : World) : stage World :=
  match px_bypass (w_proxy w), client_ip (w_session w), ss_cert (w_session w) with
  | Some policy, Some ip, Some cert =>
      match authorizes policy ip cert with
      | Some subject => Err (with_ctx w (bypass (w_ctx w) subject), false)
      | None => Ok w
      end
  | _, _, _ => Ok w
  end.

(** The attestation headers, complete, or the refusal that says what is wrong
    with them. *)
Definition collect_inputs (host : option str) (machine_present : bool) (w : World)
    : stage AttestInputs :=
  let req := ss_request (w_session w) in
  match header_str (headers req) TS_HEADER, header_str (headers req) NONCE_HEADER,
        header_str (headers req) TOKEN_HEADER, host with
  | Some ts, Some nonce, Some token, Some h =>
      Ok {| in_ts := ts; in_nonce_b64 := nonce; in_token_b64 := token; in_host := h;
            in_method := rq_method req; in_path := request_path req |}
  | _, _, _, _ =>
      let sent := length (filter (λ h, contains_key (headers req) h = true) ATTESTATION_HEADERS) in
      if (sent =? 0)%nat && negb machine_present then
        refuse w (reject (w_ctx w) NoAttestationHeaders
          ("no DenBrowser attestation headers — not DenBrowser, or a "
           ++ "DenBrowser not configured for this proxy")) 403
      else
        refuse w (reject (w_ctx w) IncompleteAttestationHeaders
          (describe_incomplete (headers req) (bool_decide (is_Some host)) machine_present)) 403
  end.

Definition machine_preflight (machine_present : bool) (w : World) : stage World :=
  match px_machine (w_proxy w) with
  | Some m =>
      if negb machine_present then
        if required m then refuse w (machine_rejected debug_str show_ip (w_ctx w) Missing) 403
        else Ok (with_ctx w (machine_absent (w_ctx w)))
      else Ok w
  | None => Ok w
  end.

Definition phase_one (env : Env) (inputs : AttestInputs) (w : World) : stage (World * PhaseOne) :=
  match verify_headers (verifier (w_proxy w)) (clk_arrival env) inputs with
  | Ok p1 => Ok (with_ctx w (token_verified (w_ctx w) (binding_of (p1_body_binding p1))), p1)
  | Err e => refuse w (reject (w_ctx w) (attest_error_reason e) (attest_error_message e)) 403
  end.

Definition machine_check (env : Env) (machine_present : bool) (w : World) : stage World :=
  let p := during_lookup env (w_proxy w) in
  match px_machine (w_proxy w) with
  | Some m =>
      if machine_present then
        let during := λ m, default m (px_machine p) in
        let '(m, verified) :=
          match au_presented_cert (w_ctx w) with
          | Some cert_b64 =>
              verify m during (dns_asked env) (dns_found env) (resolver env) cert_b64
                (client_ip (w_session w))
          | None => (during m, Err NotBase64)
          end in
        let w := with_proxy w (set_px_machine p (Some m)) in
        match verified with
        | Ok vm => Ok (with_ctx w (machine_verified (w_ctx w) vm))
        | Err e => refuse w (machine_rejected debug_str show_ip (w_ctx w) e) 403
        end
      else Ok (with_proxy w p)
  | None => Ok (with_proxy w p)
  end.

(** ** The body *)

Inductive BodyOutcome :=
  | BodyRead (body : str)
  | BodyOverflow
  | BodyFailed (etype : str).

(** The read loop: [hashed] is what the hasher has been given; [b] is the body
    still to come, [ss_body s]. *)
Fixpoint read_body (hashed : str) (b : BodyStream) (s : Session) : Session * BodyOutcome :=
  match b with
  | BodyChunk chunk rest =>
      let s := read_chunk s chunk rest in
      let total := Z.of_nat (length hashed + length chunk) in
      if BOUND_BODY_MAX <? total then (s, BodyOverflow)
      else read_body (hashed ++ chunk) rest s
  | BodyEnd => (s, BodyRead hashed)
  | BodyError etype => (s, BodyFailed etype)
  end.

(** Commit under either body binding: [Ok(false)] and [forward], or a refusal. *)
Definition conclude (w : World) (r : Verifier * result unit AttestError) : World * bool :=
  let '(v, res) := r in
  let w := with_proxy w (set_verifier (w_proxy w) v) in
  match res with
  | Ok _ => (with_ctx w (forward (w_ctx w)), false)
  | Err e =>
      match refuse w (reject (w_ctx w) (attest_error_reason e) (attest_error_message e)) 403 with
      | Ok r | Err r => r
      end
  end.

Definition phase_two (env : Env) (p1 : PhaseOne) (w : World) : World * bool :=
  match p1_body_binding p1 with
  | UnboundBody => conclude w (commit_nonce (verifier (w_proxy w)) (clk_commit env) p1)
  | HashBody _ =>
      let s := enable_retry_buffering (w_session w) in
      let '(s, r) := read_body [] (ss_body s) s in
      let w := with_session w s in
      match r with
      | BodyRead body =>
          conclude w (verify_body_and_commit (verifier (w_proxy w)) (clk_commit env) p1
                        (sha256 body))
      | BodyOverflow =>
          match refuse w (reject (w_ctx w) BodyTooLarge
                  ("bound body exceeds " ++ show BOUND_BODY_MAX
                   ++ " bytes (must be sent as an unbound upload)")) 413 with
          | Ok r | Err r => r
          end
      | BodyFailed etype =>
          match refuse w (reject (w_ctx w) BodyReadFailed
                  ("could not read request body: " ++ etype)) 400 with
          | Ok r | Err r => r
          end
      end
  end.

(** [request_filter]. *)
Definition request_filter (env : Env) (w : World) : World * bool :=
  let req := ss_request (w_session w) in
  let host := request_host req in
  let machine_present := contains_key (headers req) MACHINE_CERT_HEADER in
  let w := note_request w in
  let r : stage (World * bool) :=
    let? w := rate_limit env host w in
    let? w := try_bypass w in
    let? inputs := collect_inputs host machine_present w in
    let? w := machine_preflight machine_present w in
    let? (w, p1) := phase_one env inputs w in
    let w := with_proxy w (before_machine env (w_proxy w)) in
    let? w := machine_check env machine_present w in
    let w := with_proxy w (during_body env (w_proxy w)) in
    Ok (phase_two env p1 w) in
  match r with Ok r | Err r => r end.

(** ** The other hooks *)

(** [upstream_request_filter]. *)
Definition upstream_request_filter (hs : HeaderMap) : HeaderMap :=
  remove_header (fold_left remove_header ATTESTATION_HEADERS hs) MACHINE_CERT_HEADER.

(** [response_body_filter]. *)
Definition response_body_filter (ctx : RequestAudit) (body : option str) : RequestAudit :=
  match body with
  | Some chunk => response_body ctx (Z.of_nat (length chunk))
  | None => ctx
  end.

(** The facts [logging] gathers. *)
Definition connection_facts (s : Session) (ctx : RequestAudit) : Connection :=
  {| cn_proxy := ss_server s; cn_client := ss_client s;
     cn_tls_client_subject := subject_dn <$> ss_cert s;
     cn_status_code := response_written s; cn_request_body_bytes := ss_body_read s;
     cn_response_body_bytes := au_response_bytes ctx |}.

(** [logging]. *)
Definition logging (enabled : Level → bool) (clk : Clock) (s : Session)
    (e : option ProxyError) (ctx : RequestAudit) : RequestAudit * option (Level * AuditRecord) :=
  finish show_ip enabled clk ctx (connection_facts s ctx) (classify_proxy_error <$> e).
End Proxy.
