(* ===== verification/ProxyStages.v ===== *)
(** The stages of [request_filter], one by one: what each does when it goes on
    and when it refuses, and what no request can change of the proxy. *)

From S2P Require Import Prelude Net AuditTypes Attest AttestCache AttestToken RateLimit RateLimitFacts MachineFacts Mtls Passthrough Machine AuditLog AuditTime AuditFacts Tls Proxy.

Section Facts.
Context `{Crypto, GlobOps, RateOps, IpNetOps, MachineTls, Calendar, HttpOps}.
Variables (debug_str : str → str) (show_ip : IpAddr → str).

Notation filter_request := (request_filter debug_str show_ip).

(** ** Stages, one by one *)

(** The headers of a request, read as attestation inputs. *)
Record inputs_of (req : RequestHeader) (i : AttestInputs) : Prop := {
  io_ts : header_str (headers req) TS_HEADER = Some (in_ts i);
  io_nonce : header_str (headers req) NONCE_HEADER = Some (in_nonce_b64 i);
  io_token : header_str (headers req) TOKEN_HEADER = Some (in_token_b64 i);
  io_host : request_host req = Some (in_host i);
  io_method : in_method i = rq_method req;
  io_path : in_path i = request_path req }.

(** The status a refusal is answered with. *)
Definition status_of (r : Reason) : Z :=
  match r with
  | RateLimited => 429 | BodyTooLarge => 413 | BodyReadFailed => 400 | _ => 403
  end.

(** An answered refusal: the audit state has the reason, and the client was
    answered with its status. *)
Definition refused (r : Reason) (w' : World) : Prop :=
  reason (w_ctx w') = Some r ∧
  action (w_ctx w') = Some (if decide (r = RateLimited) then ActRateLimit else ActReject) ∧
  ss_response (w_session w') = Some (status_of r).

(** A stage that ended by refusing for [r], the proxy left as [p]. *)
Definition ends_refused {A} (o : stage A) (p : DenBrowserProxy) (s : Session) (r : Reason) : Prop :=
  ∃ w', o = Err (w', true) ∧ refused r w' ∧ w_proxy w' = p ∧
        w_session w' = (respond_error s (status_of r)).1.

Lemma refuse_ends {A} w c r msg status :
  status = status_of r →
  ends_refused (A := A) (refuse w (reject c r msg) status) (w_proxy w) (w_session w) r.
Proof. intros ->. eexists. split; [reflexivity|]. done. Qed.

Lemma machine_refuse_ends {A} w c e :
  ends_refused (A := A) (refuse w (machine_rejected debug_str show_ip c e) 403)
    (w_proxy w) (w_session w) (machine_error_reason e).
Proof. apply refuse_ends. by destruct e. Qed.

Lemma rate_limit_cases env host w :
  (∃ rl, rate_limit env host w = Ok (with_proxy w (set_rate_limiter (w_proxy w) rl)) ∧
     (∀ limiter ip, rate_limiter (w_proxy w) = Some limiter → client_ip (w_session w) = Some ip →
        RateLimiter_admit limiter (instant (clk_arrival env)) ip
          (default [] host ++ request_path (ss_request (w_session w)))
        = (default limiter rl, true) ∧ is_Some rl)) ∨
  (∃ rl, ends_refused (rate_limit env host w) (set_rate_limiter (w_proxy w) rl) (w_session w)
           RateLimited ∧ is_Some (client_ip (w_session w))).
Proof.
  unfold rate_limit.
  destruct (rate_limiter (w_proxy w)) as [limiter|] eqn:Hl.
  - destruct (client_ip (w_session w)) as [ip|] eqn:Hip.
    + destruct (RateLimiter_admit limiter _ ip _) as [l' []] eqn:Ha; cbn [negb].
      * left. exists (Some l'). split; [done|]. intros ? ? [= <-] [= <-]. by rewrite Ha.
      * right. exists (Some l'). split; [|by eexists]. by apply (refuse_ends (with_proxy w _)).
    + left. exists (Some limiter). split; [|done]. rewrite <-Hl.
      by destruct w as [[] s c].
  - left. exists None. split; [|done]. rewrite <-Hl. by destruct w as [[] s c].
Qed.

Lemma try_bypass_cases w :
  (try_bypass w = Ok w) ∨
  (∃ policy ip cert subject, px_bypass (w_proxy w) = Some policy ∧
     client_ip (w_session w) = Some ip ∧ ss_cert (w_session w) = Some cert ∧
     authorizes policy ip cert = Some subject ∧
     try_bypass w = Err (with_ctx w (bypass (w_ctx w) subject), false)).
Proof. unfold try_bypass. repeat case_match; try (by left). right. naive_solver. Qed.

Lemma collect_inputs_cases host mp w :
  (∃ i, collect_inputs host mp w = Ok i ∧
     (host = request_host (ss_request (w_session w)) → inputs_of (ss_request (w_session w)) i)) ∨
  ((ends_refused (collect_inputs host mp w) (w_proxy w) (w_session w) NoAttestationHeaders ∨
    ends_refused (collect_inputs host mp w) (w_proxy w) (w_session w) IncompleteAttestationHeaders) ∧
   (host = request_host (ss_request (w_session w)) →
    ¬ ∃ i, inputs_of (ss_request (w_session w)) i)).
Proof.
  unfold collect_inputs. set (req := ss_request (w_session w)).
  destruct (header_str (headers req) TS_HEADER) as [ts|] eqn:E1,
    (header_str (headers req) NONCE_HEADER) as [nonce|] eqn:E2,
    (header_str (headers req) TOKEN_HEADER) as [token|] eqn:E3, host as [h|] eqn:E4.
  1: left; eexists; split; [reflexivity|]; intros Hh; by constructor.
  all: right; split;
    [destruct (_ && _); [left|right]; by apply refuse_ends
    |intros Hh [i []]; congruence].
Qed.

Lemma machine_preflight_cases mp w :
  (∃ c, machine_preflight debug_str show_ip mp w = Ok (with_ctx w c) ∧
     (c = w_ctx w ∨ (c = machine_absent (w_ctx w) ∧ mp = false)) ∧
     (∀ m, px_machine (w_proxy w) = Some m → mp = false → required m = false)) ∨
  (∃ m, px_machine (w_proxy w) = Some m ∧ mp = false ∧ required m = true ∧
     ends_refused (machine_preflight debug_str show_ip mp w) (w_proxy w) (w_session w)
       MachineCertMissing).
Proof.
  assert (w = with_ctx w (w_ctx w)) as Hw by by destruct w.
  unfold machine_preflight. destruct (px_machine (w_proxy w)) as [m|].
  - destruct mp; cbn [negb].
    + left. exists (w_ctx w). rewrite <-Hw. split; [done|]. split; [by left|done].
    + destruct (required m) eqn:Hr.
      * right. exists m. do 3 (split; [done|]). by apply (machine_refuse_ends w _ Missing).
      * left. eexists. split; [reflexivity|]. split; [by right|]. by intros ? [= <-].
  - left. exists (w_ctx w). rewrite <-Hw. split; [done|]. split; [by left|done].
Qed.

Lemma phase_one_cases env i w :
  (∃ p1, verify_headers (verifier (w_proxy w)) (clk_arrival env) i = Ok p1 ∧
     phase_one env i w
       = Ok (with_ctx w (token_verified (w_ctx w) (binding_of (p1_body_binding p1))), p1)) ∨
  (∃ e, verify_headers (verifier (w_proxy w)) (clk_arrival env) i = Err e ∧
     ends_refused (phase_one env i w) (w_proxy w) (w_session w) (attest_error_reason e)).
Proof.
  unfold phase_one. destruct (verify_headers _ _ _) as [p1|e]; [left; eauto|right].
  exists e. split; [done|]. apply refuse_ends. by destruct e.
Qed.

Lemma machine_check_cases env mp w :
  (∃ p c, machine_check debug_str show_ip env mp w = Ok (with_ctx (with_proxy w p) c) ∧
     (c = w_ctx w ∨ ∃ vm, c = machine_verified (w_ctx w) vm) ∧
     (p = during_lookup env (w_proxy w) ∨
      ∃ m m0 c, p = set_px_machine (during_lookup env (w_proxy w)) (Some m) ∧
        px_machine (w_proxy w) = Some m0 ∧
        m = set_dns_cache (default m0 (px_machine (during_lookup env (w_proxy w)))) c) ∧
     (∀ m0, px_machine (w_proxy w) = Some m0 → mp = true →
        ∃ cert vm m, au_presented_cert (w_ctx w) = Some cert ∧
          c = machine_verified (w_ctx w) vm ∧
          p = set_px_machine (during_lookup env (w_proxy w)) (Some m) ∧
          verify m0 (λ m, default m (px_machine (during_lookup env (w_proxy w))))
            (dns_asked env) (dns_found env) (resolver env) cert (client_ip (w_session w))
          = (m, Ok vm))) ∨
  (∃ m e m', px_machine (w_proxy w) = Some m ∧ mp = true ∧
     (∃ c, m' = set_dns_cache (default m (px_machine (during_lookup env (w_proxy w)))) c) ∧
     ends_refused (machine_check debug_str show_ip env mp w)
       (set_px_machine (during_lookup env (w_proxy w)) (Some m')) (w_session w)
       (machine_error_reason e)).
Proof.
  assert (w = with_ctx w (w_ctx w)) as Hw by by destruct w.
  unfold machine_check. cbv zeta. set (p := during_lookup env (w_proxy w)).
  destruct (px_machine (w_proxy w)) as [m|] eqn:Hm.
  2: { left. exists p, (w_ctx w). naive_solver. }
  destruct mp.
  2: { left. exists p, (w_ctx w). naive_solver. }
  destruct (au_presented_cert (w_ctx w)) as [cert|] eqn:Hc.
  - destruct (verify m _ _ _ _ cert _) as [m' [vm|e]] eqn:Hv.
    all: destruct (verify_config m (λ m, default m (px_machine p)) _ _ _ _ _ m' (f_equal fst Hv))
      as [c Hc'].
    + left. eexists _, _. split; [reflexivity|]. split; [right; by eexists|].
      split; [|intros m0 [= <-] _; by exists cert, vm, m'].
      right. by exists m', m, c.
    + right. exists m, e, m'. do 2 (split; [done|]). split; [by exists c|].
      by apply (machine_refuse_ends (with_proxy w _)).
  - right. exists m, NotBase64. eexists. do 2 (split; [done|]).
    split; [|by apply (machine_refuse_ends (with_proxy w _) _ NotBase64)].
    eexists. symmetry. apply set_dns_cache_id.
Qed.

(** A certificate that is presented must verify, even where none is required. *)
Lemma presented_machine_must_verify env w m cert e :
  px_machine (w_proxy w) = Some m → au_presented_cert (w_ctx w) = Some cert →
  (verify m (λ m, default m (px_machine (during_lookup env (w_proxy w)))) (dns_asked env)
     (dns_found env) (resolver env) cert (client_ip (w_session w))).2 = Err e →
  ∃ w', machine_check debug_str show_ip env true w = Err (w', true).
Proof.
  intros Hm Hc He. unfold machine_check. rewrite Hm, Hc.
  destruct (verify _ _ _ _ _ _ _) as [m' r]. cbn in He. subst r. by eexists.
Qed.

(** ** What no request changes *)

(** The configuration of a proxy: everything but the replay cache, the DNS cache
    and the rate limiter's counts. *)
Definition static_machine (m : option MachineIdentity) : option MachineIdentity :=
  (λ m, set_dns_cache m ∅) <$> m.

Record same_config (p q : DenBrowserProxy) : Prop := {
  sc_bypass : px_bypass q = px_bypass p;
  sc_key : private_key (verifier q) = private_key (verifier p);
  sc_machine : static_machine (px_machine q) = static_machine (px_machine p);
  sc_upstream : (upstream_host q, upstream_port q, upstream_tls q)
                = (upstream_host p, upstream_port p, upstream_tls p) }.

#[global] Instance same_config_equiv : Equivalence same_config.
Proof.
  split.
  - intros p. by split.
  - intros p q []. by split.
  - intros p q r [] []. split; congruence.
Qed.

Lemma same_config_limiter p rl : same_config p (set_rate_limiter p rl).
Proof. by split. Qed.
Lemma same_config_verifier p v :
  private_key v = private_key (verifier p) → same_config p (set_verifier p v).
Proof. by split. Qed.
Lemma same_config_machine p m c :
  px_machine p = Some m → same_config p (set_px_machine p (Some (set_dns_cache m c))).
Proof. intros Hm. split; try done. cbn. by rewrite Hm. Qed.

Lemma static_machine_some p q m :
  same_config p q → px_machine p = Some m →
  ∃ m', px_machine q = Some m' ∧ set_dns_cache m' ∅ = set_dns_cache m ∅.
Proof.
  intros [_ _ Hs _] Hm. unfold static_machine in Hs. rewrite Hm in Hs.
  destruct (px_machine q) as [m'|]; [|done]. cbn in Hs. exists m'. split; [done|]. congruence.
Qed.

(** ** The body and the commit *)

(** The whole body of a stream that ends well. *)
Fixpoint body_all (b : BodyStream) : option str :=
  match b with
  | BodyChunk c rest => match body_all rest with Some t => Some (c ++ t) | None => None end
  | BodyEnd => Some []
  | BodyError _ => None
  end.

(** What the hooks never touch of a session: the connection and what was asked,
    and whether and how it has been answered. *)
Record same_connection (s s' : Session) : Prop := {
  sn_client : ss_client s' = ss_client s;
  sn_server : ss_server s' = ss_server s;
  sn_request : ss_request s' = ss_request s;
  sn_cert : ss_cert s' = ss_cert s;
  sn_open : ss_open s' = ss_open s;
  sn_response : ss_response s' = ss_response s }.

#[export] Instance same_connection_po : PreOrder same_connection.
Proof. split; [by intros s|]. intros s1 s2 s3 [] []. split; congruence. Qed.

Lemma read_body_connection hashed b s : same_connection s (read_body hashed b s).1.
Proof.
  revert hashed s. induction b as [c b IH| |e]; intros hashed s; cbn; [|done..].
  assert (same_connection s (read_chunk s c b)) as Hc by done.
  case_match; [exact Hc|]. etrans; [exact Hc|apply IH].
Qed.

(** A retry buffer that can replay [body]. *)
Definition replays (body : str) : RetryBuffer := {| rb_held := body; rb_truncated := false |}.

Lemma retry_write_fits held c :
  Z.of_nat (length (held ++ c)) ≤ BODY_BUF_LIMIT →
  retry_write (replays held) c = replays (held ++ c).
Proof.
  intros Hl. rewrite length_app in Hl. unfold retry_write. cbn.
  by rewrite (proj2 (Z.ltb_ge _ _)) by lia.
Qed.

Lemma retry_write_bound rb c :
  Z.of_nat (length (rb_held rb)) ≤ BODY_BUF_LIMIT →
  Z.of_nat (length (rb_held (retry_write rb c))) ≤ BODY_BUF_LIMIT.
Proof.
  intros Hl. unfold retry_write. destruct (rb_truncated rb); cbn; [unfold BODY_BUF_LIMIT; lia|].
  case_match; cbn; [unfold BODY_BUF_LIMIT; lia|]. to_prop. rewrite length_app. lia.
Qed.

(** What was hashed within the limit is what the retry buffer replays. *)
Lemma read_body_read hashed b s s' d :
  Z.of_nat (length hashed) ≤ BOUND_BODY_MAX → ss_retry s = Some (replays hashed) →
  read_body hashed b s = (s', BodyRead d) →
  ∃ t, body_all b = Some t ∧ d = hashed ++ t ∧ Z.of_nat (length d) ≤ BOUND_BODY_MAX ∧
       ss_retry s' = Some (replays d).
Proof.
  revert hashed s. induction b as [c b IH| |e]; intros hashed s Hl Hs Hr; cbn in Hr; [| |done].
  - destruct (_ <? _) eqn:E; [done|]. to_prop. rewrite <-length_app in E.
    destruct (IH (hashed ++ c) (read_chunk s c b)) as (t & Ht & -> & Hm & Hk); [lia| |done|].
    { cbn. rewrite Hs. cbn. by rewrite retry_write_fits. }
    exists (c ++ t). cbn. rewrite Ht, <-!app_assoc in *. done.
  - injection Hr as <- <-. exists []. by rewrite app_nil_r.
Qed.

Lemma read_body_complete hashed b s t :
  body_all b = Some t → Z.of_nat (length (hashed ++ t)) ≤ BOUND_BODY_MAX →
  (read_body hashed b s).2 = BodyRead (hashed ++ t).
Proof.
  revert hashed s t. induction b as [c b IH| |e]; intros hashed s t Hb Hl; cbn in *; [| |done].
  - destruct (body_all b) as [t'|]; [|done]. injection Hb as <-.
    rewrite !length_app in Hl. rewrite (proj2 (Z.ltb_ge _ _)) by lia.
    rewrite (IH (hashed ++ c) _ t' eq_refl); rewrite <-!app_assoc; [done|].
    rewrite !length_app. lia.
  - injection Hb as <-. by rewrite app_nil_r.
Qed.

Lemma commit_nonce_ok v clk p1 v' u :
  commit_nonce v clk p1 = (v', Ok u) →
  p1_nonce p1 ∉ seen (nonce_cache v) ∧ p1_nonce p1 ∈ seen (nonce_cache v').
Proof.
  unfold commit_nonce, cache_contains. case_bool_decide as Hin; [done|].
  destruct (check_commit_window _ _); [|done]. unfold cache_commit.
  destruct (cache_contains _ _); cbn; [done|]. intros [= <- _]. cbn. split; [done|set_solver].
Qed.

Lemma commit_nonce_key v clk p1 v' r :
  (v', r) = commit_nonce v clk p1 → private_key v' = private_key v.
Proof.
  unfold commit_nonce. intros E. destruct (cache_contains _ _); [by injection E as -> _|].
  destruct (check_commit_window _ _); [|by injection E as -> _].
  destruct (cache_commit _ _ _). by injection E as -> _.
Qed.

Lemma set_verifier_id p : set_verifier p (verifier p) = p.
Proof. by destruct p. Qed.

(** The outcomes of the commit step as the filter concludes them. *)
Lemma conclude_cases w v res :
  (∃ u, res = Ok u ∧ conclude w (v, res)
     = (with_ctx (with_proxy w (set_verifier (w_proxy w) v)) (forward (w_ctx w)), false)) ∨
  (∃ e w', res = Err e ∧ conclude w (v, res) = (w', true) ∧ refused (attest_error_reason e) w' ∧
     w_proxy w' = set_verifier (w_proxy w) v).
Proof.
  destruct res as [u|e]; [left; by exists u|right]. exists e. eexists.
  split; [done|]. split; [reflexivity|]. split; [|done]. split; [done|]. split; [done|].
  by destruct e.
Qed.

Lemma commit_err_same v clk p1 v' e : commit_nonce v clk p1 = (v', Err e) → v' = v.
Proof.
  unfold commit_nonce, cache_contains. case_bool_decide as Hin; [by intros [= <- _]|].
  destruct (check_commit_window _ _); [|by intros [= <- _]].
  unfold cache_commit, cache_contains. rewrite bool_decide_eq_false_2; [done|].
  rewrite evict_expired_eq. cbn. set_solver.
Qed.

(** The body a commit accepted is the one the token commits to. *)
Definition body_accepted (p1 : PhaseOne) (before after : Session) : Prop :=
  match p1_body_binding p1 with
  | UnboundBody => after = before
  | HashBody h => ∃ body, body_all (ss_body before) = Some body ∧
      Z.of_nat (length body) ≤ BOUND_BODY_MAX ∧ sha256 body = h ∧
      ss_retry after = Some (replays body) ∧ same_connection before after
  end.

Lemma phase_two_cases' env p1 w :
  (∃ w' v, phase_two env p1 w = (w', false) ∧ w_ctx w' = forward (w_ctx w) ∧
     w_proxy w' = set_verifier (w_proxy w) v ∧
     (v, Ok tt) = commit_nonce (verifier (w_proxy w)) (clk_commit env) p1 ∧
     body_accepted p1 (w_session w) (w_session w')) ∨
  (∃ w' r, phase_two env p1 w = (w', true) ∧ refused r w' ∧ w_proxy w' = w_proxy w).
Proof.
  unfold phase_two, body_accepted. destruct (p1_body_binding p1) as [h|] eqn:Hb.
  - set (s0 := enable_retry_buffering (w_session w)).
    pose proof (read_body_connection [] (ss_body s0) s0) as Hco.
    assert (same_connection (w_session w) s0) as Hs0 by done.
    destruct (read_body [] (ss_body s0) s0) as [s [d| |etype]] eqn:Hr.
    + apply read_body_read in Hr as (t & Ht & Hd & Hm & Hk); [|done..]. cbn in Hd. subst t.
      unfold verify_body_and_commit. rewrite Hb. set (w2 := with_session w _).
      destruct (decide (h ≠ sha256 d)) as [Hne|Heq%dec_stable].
      * right. destruct (conclude_cases w2 (verifier (w_proxy w2)) (Err BodyHashMismatch))
          as [(u & [=] & _)|(e & w' & [= <-] & -> & Href & Hp)].
        exists w', ReasonBodyHashMismatch. by rewrite Hp, set_verifier_id.
      * destruct (commit_nonce _ _ p1) as [v res] eqn:Hc.
        destruct (conclude_cases w2 v res) as [([] & -> & ->)|(e & w' & -> & -> & Href & Hp)].
        -- left. eexists. exists v. split; [reflexivity|]. do 3 (split; [done|]).
           exists d. do 4 (split; [done|]). etrans; [exact Hs0|exact Hco].
        -- right. exists w'. eexists. split; [done|]. split; [exact Href|].
           rewrite Hp. cbn. apply commit_err_same in Hc. subst v. apply set_verifier_id.
    + right. eexists. exists BodyTooLarge. done.
    + right. eexists. exists BodyReadFailed. done.
  - destruct (commit_nonce _ _ p1) as [v res] eqn:Hc.
    destruct (conclude_cases w v res) as [([] & -> & ->)|(e & w' & -> & -> & Href & Hp)].
    + left. eexists. exists v. split; [reflexivity|]. done.
    + right. exists w'. eexists. split; [done|]. split; [exact Href|].
      rewrite Hp. cbn. apply commit_err_same in Hc. subst v. apply set_verifier_id.
Qed.

(** What a request makes the proxy read and keep of its body, when the body comes
    in chunks of at most [B] bytes. *)
Fixpoint chunks_within (B : Z) (b : BodyStream) : Prop :=
  match b with
  | BodyChunk c rest => Z.of_nat (length c) ≤ B ∧ chunks_within B rest
  | BodyEnd | BodyError _ => True
  end.

Definition reads_within (B : Z) (before after : Session) : Prop :=
  ss_body_read after ≤ ss_body_read before + BOUND_BODY_MAX + B ∧
  (ss_retry after = ss_retry before ∨
   ∃ kept, ss_retry after = Some kept ∧ Z.of_nat (length (rb_held kept)) ≤ BODY_BUF_LIMIT).

Lemma read_body_count B hashed b s :
  0 ≤ B → chunks_within B b → Z.of_nat (length hashed) ≤ BOUND_BODY_MAX →
  ss_body_read (read_body hashed b s).1
    ≤ ss_body_read s + BOUND_BODY_MAX + B - Z.of_nat (length hashed).
Proof.
  intros HB. revert hashed s. induction b as [c b IH| |e]; intros hashed s Hb Hs; cbn; try lia.
  destruct Hb as [Hc Hb].
  destruct (Z.ltb_spec BOUND_BODY_MAX (Z.of_nat (length hashed + length c))) as [Hlt|Hge]; [cbn; lia|].
  specialize (IH (hashed ++ c) (read_chunk s c b) Hb). rewrite length_app in IH. cbn in IH. lia.
Qed.

Lemma read_body_kept hashed b s rb :
  ss_retry s = Some rb → Z.of_nat (length (rb_held rb)) ≤ BODY_BUF_LIMIT →
  ∃ kept, ss_retry (read_body hashed b s).1 = Some kept ∧
          Z.of_nat (length (rb_held kept)) ≤ BODY_BUF_LIMIT.
Proof.
  revert hashed s rb. induction b as [c b IH| |e]; intros hashed s rb Hs Hl; cbn; [|by eauto..].
  assert (ss_retry (read_chunk s c b) = Some (retry_write rb c)) as Hs' by (cbn; by rewrite Hs).
  pose proof (retry_write_bound rb c Hl). case_match; [by eauto|by eapply IH].
Qed.

Lemma reads_within_same B before after :
  0 ≤ B → ss_body_read after = ss_body_read before → ss_retry after = ss_retry before →
  reads_within B before after.
Proof. intros HB Hr Ht. split; [unfold BOUND_BODY_MAX; lia|by left]. Qed.

Lemma conclude_session w r :
  let s := w_session w in let s' := w_session (conclude w r).1 in
  ss_body_read s' = ss_body_read s ∧ ss_retry s' = ss_retry s ∧ ss_open s' = ss_open s ∧
  ss_request s' = ss_request s.
Proof. by destruct r as [v [u|e]]. Qed.

Lemma read_body_within B s :
  0 ≤ B → chunks_within B (ss_body s) →
  let s0 := enable_retry_buffering s in reads_within B s (read_body [] (ss_body s0) s0).1.
Proof.
  intros HB Hb s0. pose proof (read_body_count B [] (ss_body s0) s0 HB Hb ltac:(done)) as Hc.
  split; [cbn in Hc |- *; lia|right]. by apply (read_body_kept _ _ s0 retry_empty).
Qed.

Lemma phase_two_reads env p1 w B :
  0 ≤ B → chunks_within B (ss_body (w_session w)) →
  reads_within B (w_session w) (w_session (phase_two env p1 w).1).
Proof.
  intros HB Hb. unfold phase_two. destruct (p1_body_binding p1).
  - pose proof (read_body_within B _ HB Hb) as Hw. cbv zeta in Hw.
    destruct (read_body [] _ _) as [s r]. cbn in Hw.
    destruct r; cbn; try exact Hw. set (w2 := with_session w _).
    pose proof (conclude_session w2 (verify_body_and_commit (verifier (w_proxy w2))
      (clk_commit env) p1 (sha256 body))) as (Hr & Ht & _).
    destruct Hw as [Hw1 Hw2]. unfold reads_within. cbn in Hr, Ht |- *. by rewrite Hr, Ht.
  - pose proof (conclude_session w (commit_nonce (verifier (w_proxy w)) (clk_commit env) p1))
      as (Hr & Ht & _). by apply reads_within_same.
Qed.

Lemma phase_two_connection env p1 w :
  let s := w_session w in let s' := w_session (phase_two env p1 w).1 in
  ss_open s' = ss_open s ∧ ss_request s' = ss_request s.
Proof.
  cbv zeta. unfold phase_two. destruct (p1_body_binding p1).
  - set (s0 := enable_retry_buffering _).
    destruct (read_body_connection [] (ss_body s0) s0) as [_ _ Hq _ Ho _].
    destruct (read_body [] _ _) as [s r]. cbn in Ho, Hq.
    destruct r as [body| |]; cbn; [|done..]. set (w2 := with_session w s).
    destruct (conclude_session w2 (verify_body_and_commit (verifier (w_proxy w2))
      (clk_commit env) p1 (sha256 body))) as (_ & _ & E1 & E2).
    split; [etrans; [exact E1|exact Ho]|etrans; [exact E2|exact Hq]].
  - pose proof (conclude_session w (commit_nonce (verifier (w_proxy w)) (clk_commit env) p1))
      as (_ & _ & -> & ->). done.
Qed.

End Facts.
