(* ===== verification/ProxyFacts.v ===== *)
(** What the request path guarantees: only verified or bypassed requests go
    upstream, every refusal is answered and explained, and nothing expensive runs
    before the token is verified. *)

From S2P Require Import Prelude Net AuditTypes Attest AttestCache AttestToken RateLimit RateLimitFacts MachineFacts Mtls Passthrough Machine AuditLog AuditTime AuditFacts Tls Proxy ProxyStages.

Section Facts.
Context `{Crypto, GlobOps, RateOps, IpNetOps, MachineTls, Calendar, HttpOps}.
Variables (debug_str : str → str) (show_ip : IpAddr → str).

Notation filter_request := (request_filter debug_str show_ip).

(** ** The whole filter *)

(** The other requests leave the configuration alone. *)
Definition env_ok (env : Env) : Prop :=
  ∀ p, same_config p (before_machine env p) ∧ same_config p (during_lookup env p) ∧
       same_config p (during_body env p).

(** A request as pingora hands it to the filter: nothing noted yet. *)
Definition fresh (w : World) : Prop := ∃ now, w_ctx w = new_ctx (w_proxy w) now.

Definition machine_present (w : World) : bool :=
  contains_key (headers (ss_request (w_session w))) MACHINE_CERT_HEADER.

(** The universal cap and the pattern's cap admitted the request. *)
Definition within_limits (env : Env) (w : World) : Prop :=
  ∀ limiter ip, rate_limiter (w_proxy w) = Some limiter → client_ip (w_session w) = Some ip →
    (RateLimiter_admit limiter (instant (clk_arrival env)) ip
       (default [] (request_host (ss_request (w_session w)))
        ++ request_path (ss_request (w_session w)))).2 = true.

(** The policy, the address and the certificate that let a request bypass. *)
Definition bypassed (w w' : World) : Prop :=
  action (w_ctx w') = Some ActBypass ∧ w_session w' = w_session w ∧
  verifier (w_proxy w') = verifier (w_proxy w) ∧
  ∃ policy ip cert subject, px_bypass (w_proxy w) = Some policy ∧
    client_ip (w_session w) = Some ip ∧ ss_cert (w_session w) = Some cert ∧
    authorizes policy ip cert = Some subject.

(** Everything a request that goes upstream on its token has passed. *)
Record attested (env : Env) (w w' : World) (i : AttestInputs) (p1 : PhaseOne) : Prop := {
  ad_action : action (w_ctx w') = Some ActForward;
  ad_inputs : inputs_of (ss_request (w_session w)) i;
  ad_token : verify_headers (verifier (w_proxy w)) (clk_arrival env) i = Ok p1;
  ad_machine : ∀ m, px_machine (w_proxy w) = Some m →
    if machine_present w then
      ∃ m' m'' cert vm, set_dns_cache m' ∅ = set_dns_cache m ∅ ∧
        set_dns_cache m'' ∅ = set_dns_cache m ∅ ∧
        header_str (headers (ss_request (w_session w))) MACHINE_CERT_HEADER = Some cert ∧
        (verify m' (λ _, m'') (dns_asked env) (dns_found env) (resolver env) cert
           (client_ip (w_session w))).2 = Ok vm ∧
        ma_hostname (au_machine (w_ctx w')) = Some (hostname vm)
    else required m = false;
  ad_commit : ∃ v, (verifier (w_proxy w'), Ok tt) = commit_nonce v (clk_commit env) p1 ∧
    private_key v = private_key (verifier (w_proxy w)) ∧
    p1_nonce p1 ∉ seen (nonce_cache v) ∧
    p1_nonce p1 ∈ seen (nonce_cache (verifier (w_proxy w')));
  ad_body : body_accepted p1 (w_session w) (w_session w') }.

(** The verifier as the other requests, and nobody else, have changed it. *)
Definition other_change (env : Env) (v v' : Verifier) : Prop :=
  ∃ p f, f ∈ [before_machine env; during_lookup env; during_body env] ∧
         verifier p = v ∧ verifier (f p) = v'.
Definition others_only (env : Env) (w w' : World) : Prop :=
  rtc (other_change env) (verifier (w_proxy w)) (verifier (w_proxy w')).

Definition filter_outcome (env : Env) (w : World) (out : World * bool) : Prop :=
  let '(w', upstream) := out in
  if upstream then ∃ r, refused r w' ∧ others_only env w w'
  else within_limits env w ∧ (bypassed w w' ∨ ∃ i p1, attested env w w' i p1).

Lemma note_request_world w :
  w_proxy (note_request w) = w_proxy w ∧ w_session (note_request w) = w_session w.
Proof. done. Qed.

Lemma note_request_cert w :
  fresh w →
  au_presented_cert (w_ctx (note_request w))
    = header_str (headers (ss_request (w_session w))) MACHINE_CERT_HEADER.
Proof.
  intros [now Hc]. unfold note_request. cbn.
  case_match; [done|]. cbn. by rewrite Hc.
Qed.

(** What has been established when phase 1 has accepted the token. *)
Record token_passed (env : Env) (w w3 : World) (i : AttestInputs) (p1 : PhaseOne) : Prop := {
  tp_session : w_session w3 = w_session w;
  tp_verifier : verifier (w_proxy w3) = verifier (w_proxy w);
  tp_machine : px_machine (w_proxy w3) = px_machine (w_proxy w);
  tp_cert : au_presented_cert (w_ctx w3)
              = header_str (headers (ss_request (w_session w))) MACHINE_CERT_HEADER;
  tp_inputs : inputs_of (ss_request (w_session w)) i;
  tp_token : verify_headers (verifier (w_proxy w)) (clk_arrival env) i = Ok p1;
  tp_required m : px_machine (w_proxy w) = Some m → machine_present w = false →
    required m = false;
  tp_limits : within_limits env w }.

(** The filter up to the token, and the rest. *)
Definition until_token (env : Env) (w : World) : stage (World * PhaseOne) :=
  let host := request_host (ss_request (w_session w)) in
  let? w1 := rate_limit env host (note_request w) in
  let? w2 := try_bypass w1 in
  let? inputs := collect_inputs host (machine_present w) w2 in
  let? w3 := machine_preflight debug_str show_ip (machine_present w) w2 in
  phase_one env inputs w3.

Definition after_token (env : Env) (w w3 : World) (p1 : PhaseOne) : World * bool :=
  let wd := with_proxy w3 (before_machine env (w_proxy w3)) in
  match machine_check debug_str show_ip env (machine_present w) wd with
  | Ok wm => phase_two env p1 (with_proxy wm (during_body env (w_proxy wm)))
  | Err r => r
  end.

Lemma filter_split env w :
  filter_request env w =
    match until_token env w with
    | Ok (w3, p1) => after_token env w w3 p1
    | Err r => r
    end.
Proof.
  unfold filter_request, until_token, after_token. fold (machine_present w). cbn zeta.
  destruct (rate_limit _ _ _) as [w1|]; [|done]. destruct (try_bypass w1) as [w2|]; [|done].
  destruct (collect_inputs _ _ w2) as [i|]; [|done].
  destruct (machine_preflight _ _ _ w2) as [w3|]; [|done].
  destruct (phase_one env i w3) as [[w4 p1]|]; [|done]. by destruct (machine_check _ _ _ _ _).
Qed.

(** A request that ends before its token is verified: nothing but the rate
    limiter has changed, the body is unread, and it has either been refused or
    bypasses attestation. *)
Record stopped_early (w w' : World) (upstream : bool) : Prop := {
  se_body : ss_body (w_session w') = ss_body (w_session w);
  se_read : ss_body_read (w_session w') = ss_body_read (w_session w);
  se_retry : ss_retry (w_session w') = ss_retry (w_session w);
  se_open : ss_open (w_session w') = ss_open (w_session w);
  se_request : ss_request (w_session w') = ss_request (w_session w);
  se_machine : px_machine (w_proxy w') = px_machine (w_proxy w);
  se_verifier : verifier (w_proxy w') = verifier (w_proxy w);
  se_outcome : if upstream then ∃ r, refused r w' else bypassed w w' }.

Lemma stopped_refused {A} (o : stage A) w p s r :
  ends_refused o p s r → s = w_session w → verifier p = verifier (w_proxy w) →
  px_machine p = px_machine (w_proxy w) →
  ∃ w', o = Err (w', true) ∧ stopped_early w w' true.
Proof.
  intros (w' & -> & Href & Hp & Hs) Hsw Hv Hm. exists w'. split; [done|].
  constructor; rewrite ?Hs, ?Hp, ?Hsw; try done. by exists r.
Qed.

Lemma until_token_cases env w :
  fresh w →
  (∃ w3 p1 i, until_token env w = Ok (w3, p1) ∧ token_passed env w w3 i p1) ∨
  (∃ w' b, until_token env w = Err (w', b) ∧ stopped_early w w' b ∧
     (b = false → within_limits env w)).
Proof.
  intros Hfresh. unfold until_token. cbn zeta.
  pose proof (note_request_cert w Hfresh) as Hcert.
  destruct (note_request_world w) as [Hp0 Hs0].
  set (w0 := note_request w) in *. clearbody w0.
  assert (∀ {A} (o : stage A) p s r,
    ends_refused o p s r → s = w_session w → verifier p = verifier (w_proxy w) →
    px_machine p = px_machine (w_proxy w) →
    ∃ w' b, o = Err (w', b) ∧ stopped_early w w' b ∧ (b = false → within_limits env w)) as Hstop.
  { intros A o p s r Hend Hs Hv Hm.
    destruct (stopped_refused o w p s r Hend Hs Hv Hm) as (w' & -> & He). by exists w', true. }
  destruct (rate_limit_cases env (request_host (ss_request (w_session w))) w0)
    as [(rl & -> & Hlim)|(rl & Hend & _)].
  2: { right. destruct (Hstop _ _ _ _ _ Hend) as (w' & b & -> & He); cbn; rewrite ?Hp0; eauto. }
  assert (within_limits env w) as Hwl.
  { intros limiter ip Hl Hip. rewrite Hp0, Hs0 in Hlim.
    destruct (Hlim limiter ip Hl Hip) as [Ha _]. by rewrite Ha. }
  set (w1 := with_proxy w0 _).
  assert (w_ctx w1 = w_ctx w0 ∧ w_session w1 = w_session w ∧
    verifier (w_proxy w1) = verifier (w_proxy w) ∧ px_machine (w_proxy w1) = px_machine (w_proxy w) ∧
    px_bypass (w_proxy w1) = px_bypass (w_proxy w)) as (Hc1 & Hs1 & Hv1 & Hm1 & Hb1)
    by (subst w1; cbn; rewrite Hp0; done).
  clearbody w1.
  destruct (try_bypass_cases debug_str show_ip w1)
    as [->|(policy & ip & cert & subject & Hpo & Hip & Hce & Hau & ->)].
  2: { right. eexists _, false. split; [reflexivity|]. split; [|done].
       constructor; cbn; rewrite ?Hs1; try done. unfold bypassed. cbn. rewrite Hs1, Hv1, <-Hb1, <-Hs1.
       do 3 (split; [done|]). by exists policy, ip, cert, subject. }
  destruct (collect_inputs_cases (request_host (ss_request (w_session w))) (machine_present w) w1)
    as [(i & -> & Hi)|[[Hend|Hend] _]].
  2,3: right; destruct (Hstop _ _ _ _ _ Hend Hs1 Hv1 Hm1) as (w' & b & -> & He); eauto.
  rewrite Hs1 in Hi. specialize (Hi eq_refl).
  destruct (machine_preflight_cases debug_str show_ip (machine_present w) w1)
    as [(c & -> & Hc & Hreq)|(m & _ & _ & _ & Hend)].
  2: { right; destruct (Hstop _ _ _ _ _ Hend Hs1 Hv1 Hm1) as (w' & b & -> & He); eauto. }
  set (w2 := with_ctx w1 c).
  assert (au_presented_cert c = au_presented_cert (w_ctx w0)) as Hcc
    by (destruct Hc as [->|[-> _]]; by rewrite <-Hc1).
  destruct (phase_one_cases env i w2) as [(p1 & Hv & ->)|(e & _ & Hend)].
  2: { right; destruct (Hstop _ _ _ _ _ Hend Hs1 Hv1 Hm1) as (w' & b & -> & He); eauto. }
  left. exists (with_ctx w2 (token_verified (w_ctx w2) (binding_of (p1_body_binding p1)))), p1, i.
  split; [done|]. constructor; try done; cbn.
  - by rewrite Hcc.
  - cbn in Hv. by rewrite <-Hv1.
  - intros m Hm Hmp. apply Hreq; [by rewrite Hm1|exact Hmp].
Qed.

(** The other requests leave the configuration alone at the points where this
    one meets them. *)
Record env_fits (env : Env) (w w3 : World) : Prop := {
  ef_before : same_config (w_proxy w3) (before_machine env (w_proxy w3));
  ef_lookup : let wd := with_proxy w3 (before_machine env (w_proxy w3)) in
    same_config (w_proxy wd) (during_lookup env (w_proxy wd));
  ef_body wm : let wd := with_proxy w3 (before_machine env (w_proxy w3)) in
    machine_check debug_str show_ip env (machine_present w) wd = Ok wm →
    same_config (w_proxy wm) (during_body env (w_proxy wm)) }.

Lemma env_ok_fits env w w3 : env_ok env → env_fits env w w3.
Proof. intros He. split; intros; apply He. Qed.

Lemma other_step env p f :
  f ∈ [before_machine env; during_lookup env; during_body env] →
  other_change env (verifier p) (verifier (f p)).
Proof. intros Hf. by exists p, f. Qed.

(** The machine check as an attested request has passed it. *)
Lemma machine_passed env w w3 p c :
  env_fits env w w3 →
  px_machine (w_proxy w3) = px_machine (w_proxy w) → w_session w3 = w_session w →
  au_presented_cert (w_ctx w3)
    = header_str (headers (ss_request (w_session w))) MACHINE_CERT_HEADER →
  let wd := with_proxy w3 (before_machine env (w_proxy w3)) in
  (∀ m0, px_machine (w_proxy wd) = Some m0 → machine_present w = true →
     ∃ cert vm m, au_presented_cert (w_ctx wd) = Some cert ∧ c = machine_verified (w_ctx wd) vm ∧
       p = set_px_machine (during_lookup env (w_proxy wd)) (Some m) ∧
       verify m0 (λ m, default m (px_machine (during_lookup env (w_proxy wd))))
         (dns_asked env) (dns_found env) (resolver env) cert (client_ip (w_session wd)) = (m, Ok vm)) →
  ∀ m, px_machine (w_proxy w) = Some m → machine_present w = true →
  ∃ m' m'' cert vm, set_dns_cache m' ∅ = set_dns_cache m ∅ ∧
    set_dns_cache m'' ∅ = set_dns_cache m ∅ ∧
    header_str (headers (ss_request (w_session w))) MACHINE_CERT_HEADER = Some cert ∧
    (verify m' (λ _, m'') (dns_asked env) (dns_found env) (resolver env) cert
       (client_ip (w_session w))).2 = Ok vm ∧
    ma_hostname (au_machine (forward c)) = Some (hostname vm).
Proof.
  intros Hfit Hm Hs Hcert wd Hver m Hpm Hmp. rewrite <-Hm in Hpm.
  destruct (static_machine_some _ _ _ (ef_before _ _ _ Hfit) Hpm) as (m1 & Hm1 & Heq1).
  destruct (static_machine_some _ _ _ (ef_lookup _ _ _ Hfit) Hm1) as (m2 & Hm2 & Heq2).
  destruct (Hver m1 Hm1 Hmp) as (cert & vm & m3 & Hce & -> & _ & Hok). rewrite <-Hcert, <-Hs.
  exists m1, m2, cert, vm. do 2 (split; [by etrans|]). split; [exact Hce|]. split; [|done].
  rewrite (verify_during _ _ (λ _, m2)) in Hok; [exact (f_equal snd Hok)|].
  fold wd in Hm2. by rewrite Hm2.
Qed.

Lemma tail_outcome env w w3 i p1 :
  env_fits env w w3 → token_passed env w w3 i p1 →
  filter_outcome env w (after_token env w w3 p1).
Proof.
  intros Hfit [Hs Hv Hm Hcert Hi Htok Hreq Hlim]. unfold after_token. cbv zeta.
  set (wd := with_proxy w3 _).
  assert (other_change env (verifier (w_proxy w)) (verifier (w_proxy wd))) as Ho1
    by (rewrite <-Hv; apply (other_step env (w_proxy w3)); set_solver).
  assert (other_change env (verifier (w_proxy wd)) (verifier (during_lookup env (w_proxy wd)))) as Ho2
    by (apply other_step; set_solver).
  destruct (machine_check_cases debug_str show_ip env (machine_present w) wd)
    as [(p & c & E & Hc & Hp & Hver)|(m & e & m' & _ & _ & _ & w' & -> & Href & Hp & _)].
  2: { cbn. exists (machine_error_reason e). split; [done|].
       unfold others_only. rewrite Hp. eapply rtc_l, rtc_once; [exact Ho1|exact Ho2]. }
  rewrite E. cbn beta iota zeta. set (wm := with_ctx _ c) in *. set (wb := with_proxy wm _).
  assert (rtc (other_change env) (verifier (w_proxy w)) (verifier (w_proxy wb))) as Hob.
  { eapply rtc_r; [|apply (other_step env (w_proxy wm)); set_solver].
    eapply rtc_l, rtc_once; [exact Ho1|]. by destruct Hp as [->|(m' & m0 & k & -> & _)]. }
  destruct (phase_two_cases' debug_str env p1 wb)
    as [(w' & v & -> & Hctx & Hpx & Hco & Hbody)|(w' & r & -> & Href & Hpx)].
  2: { cbn. exists r. split; [done|]. unfold others_only. by rewrite Hpx. }
  cbn. split; [done|]. right. exists i, p1. constructor; try done.
  - by rewrite Hctx.
  - intros m0 Hm0. destruct (machine_present w) eqn:Hmp; [|by eapply Hreq]. rewrite Hctx.
    apply (machine_passed env w w3 p c Hfit Hm Hs Hcert); try done. by rewrite Hmp.
  - exists (verifier (w_proxy wb)). rewrite Hpx. cbn [set_verifier verifier].
    split; [done|]. split; [|by eapply commit_nonce_ok].
    etrans; [apply (sc_key _ _ (ef_body _ _ _ Hfit wm E))|].
    rewrite <-Hv, <-(sc_key _ _ (ef_before _ _ _ Hfit)).
    etrans; [|exact (sc_key _ _ (ef_lookup _ _ _ Hfit))]. by destruct Hp as [->|(m' & m0 & k & -> & _)].
  - by rewrite <-Hs.
Qed.

Lemma filter_outcomes_fit env w :
  fresh w → (∀ w3 p1, until_token env w = Ok (w3, p1) → env_fits env w w3) →
  filter_outcome env w (filter_request env w).
Proof.
  intros Hf Hfit. rewrite filter_split.
  destruct (until_token_cases env w Hf) as [(w3 & p1 & i & E & Htp)|(w' & b & -> & [_ _ _ _ _ _ Hv Ho] & Hl)].
  - rewrite E. eapply tail_outcome; [by eapply Hfit|done].
  - destruct b; cbn; [|by auto]. destruct Ho as [r Hr]. exists r. split; [done|].
    unfold others_only. by rewrite Hv.
Qed.

Lemma filter_outcomes env w :
  fresh w → env_ok env → filter_outcome env w (filter_request env w).
Proof. intros Hf He. apply filter_outcomes_fit; [done|]. intros. by apply env_ok_fits. Qed.

(** Claim C17. Nothing expensive runs before the token is verified: when phase 1
    does not accept the request, no body byte is read, neither the machine
    verifier nor the replay cache changes, and the outcome is the same whatever
    the resolver, the later clocks and the other requests do. *)
Theorem token_before_expensive_checks env env' w w' up :
  fresh w → filter_request env w = (w', up) → clk_arrival env' = clk_arrival env →
  (¬ ∃ i p1, inputs_of (ss_request (w_session w)) i ∧
     verify_headers (verifier (w_proxy w)) (clk_arrival env) i = Ok p1) →
  filter_request env' w = (w', up) ∧ stopped_early w w' up.
Proof.
  intros Hf Hr Hclk Hno. rewrite filter_split in Hr |- *.
  assert (until_token env' w = until_token env w) as ->
    by (unfold until_token, rate_limit, phase_one; by rewrite Hclk).
  destruct (until_token_cases env w Hf) as [(w3 & p1 & i & _ & Htp)|(w1 & b & E & He & _)].
  - destruct Hno. exists i, p1. split; apply Htp.
  - rewrite E in Hr |- *. injection Hr as <- <-. done.
Qed.

(** Claim C2. Only verified requests go upstream.  Whatever the other requests do
    meanwhile, when the filter lets a request on, the rate limiter admitted it
    and either the bypass policy authorises its address and its verified
    certificate, or all of this holds: its headers are complete, phase 1
    accepted its token for exactly this request, its machine certificate was
    verified from this address (or is absent where it is optional), its nonce
    was unspent and is now spent, and a body the token commits to was read to
    the end, is at most 64 KiB, has the committed hash and is what pingora
    replays. *)
Theorem only_verified_requests_go_upstream env w w' :
  fresh w → env_ok env → filter_request env w = (w', false) →
  within_limits env w ∧ (bypassed w w' ∨ ∃ i p1, attested env w w' i p1).
Proof.
  intros Hf He Hr. pose proof (filter_outcomes env w Hf He) as Ho. by rewrite Hr in Ho.
Qed.

(** However the filter ends, it has read and kept at most the limit and a chunk. *)
Lemma filter_reads env w B :
  fresh w → 0 ≤ B → chunks_within B (ss_body (w_session w)) →
  reads_within B (w_session w) (w_session (filter_request env w).1).
Proof.
  intros Hf HB Hb. rewrite filter_split.
  destruct (until_token_cases env w Hf) as [(w3 & p1 & i & -> & Htp)|(w' & b & -> & He & _)].
  2: { by apply reads_within_same; [|apply (se_read _ _ _ He)|apply (se_retry _ _ _ He)]. }
  pose proof (tp_session _ _ _ _ _ Htp) as Hs. unfold after_token. cbv zeta.
  destruct (machine_check_cases debug_str show_ip env (machine_present w)
    (with_proxy w3 (before_machine env (w_proxy w3))))
    as [(p & c & -> & _)|(m & e & m' & _ & _ & _ & (w' & -> & _ & _ & Hw'))].
  - rewrite <-Hs in *.
    match goal with |- context [phase_two env p1 ?x] =>
      exact (phase_two_reads debug_str env p1 x B HB Hb) end.
  - cbn [fst]. rewrite Hw'. apply reads_within_same; [done|..]; cbn; by rewrite Hs.
Qed.

(** The filter neither closes the connection nor touches the request. *)
Lemma filter_connection env w :
  fresh w →
  let s := w_session w in let s' := w_session (filter_request env w).1 in
  ss_open s' = ss_open s ∧ ss_request s' = ss_request s.
Proof.
  intros Hf. cbv zeta. rewrite filter_split.
  destruct (until_token_cases env w Hf) as [(w3 & p1 & i & -> & Htp)|(w' & b & -> & He & _)];
    [|split; apply He].
  pose proof (tp_session _ _ _ _ _ Htp) as Hs. unfold after_token. cbv zeta.
  destruct (machine_check_cases debug_str show_ip env (machine_present w)
    (with_proxy w3 (before_machine env (w_proxy w3))))
    as [(p & c & -> & _)|(m & e & m' & _ & _ & _ & (w' & -> & _ & _ & Hw'))].
  - match goal with |- context [phase_two env p1 ?x] =>
      destruct (phase_two_connection env p1 x) as [-> ->] end. cbn. by rewrite Hs.
  - cbn [fst]. rewrite Hw'. cbn. by rewrite Hs.
Qed.

(** Claim C14. Every refusal is answered and explained, and costs no nonce: when
    the filter stops a request, the client is answered with 429 for the rate
    limit, 413 for an oversized bound body, 400 for a body that could not be read
    and 403 otherwise, and if the connection still takes a response that is the
    response written; the audit state holds that one reason and a rejecting
    action, whether or not the client was there to read it; and
    the verifier is as the other requests left it.  Nor can a body cost much
    memory: of one that comes in chunks of at most [B] bytes, however long it is,
    the filter has read at most 64 KiB and [B] bytes, and keeps at most the retry
    buffer's 64 KiB. *)
Theorem every_refusal_is_answered env w w' :
  fresh w → env_ok env → filter_request env w = (w', true) →
  (∃ r, refused r w' ∧ response_written (w_session w') =
          (if ss_open (w_session w) then Some (status_of r) else None)) ∧
  others_only env w w' ∧
  ∀ B, 0 ≤ B → chunks_within B (ss_body (w_session w)) →
    reads_within B (w_session w) (w_session w').
Proof.
  intros Hf He Hr. pose proof (filter_outcomes env w Hf He) as Ho. rewrite Hr in Ho.
  destruct Ho as (r & Href & Ho). split; [|split; [done|]].
  - exists r. split; [done|]. destruct (filter_connection env w Hf) as [Hop _]. rewrite Hr in Hop.
    unfold response_written. cbn in Hop. rewrite Hop. destruct Href as (_ & _ & ->). done.
  - intros B HB Hb. pose proof (filter_reads env w B Hf HB Hb) as Hw. by rewrite Hr in Hw.
Qed.

End Facts.

(** ** A run on concrete components *)

Module ToyHttp.
#[export] Instance http : HttpOps :=
  {| to_str v := if forallb (λ a, in_range 32 126 (code a)) v then Some v else None |}.
End ToyHttp.

Lemma pair_snd {A B} (p : A * B) b : p.2 = b → p = (p.1, b).
Proof. by destruct p; intros <-. Qed.

Section Examples.
#[local] Existing Instances Toy.crypto Toy.laws ToyRate.globs ToyRate.ops ToyNet.nets ToyMachine.x509
  ToyMachine.tls Gregorian.calendar Gregorian.calendar_laws ToyHttp.http.

Definition sample_proxy : DenBrowserProxy :=
  {| verifier := Toy.verifier; upstream_host := "backend"; upstream_port := 443;
     upstream_tls := {| up_ca_certs := None; up_insecure := false |};
     rate_limiter := Some sample_limiter; px_bypass := Some sample_policy;
     px_machine := Some fleet |}.

Definition sample_body : str := "a bound body".

(** A request of the browser on workstation [ws1], with a token bound to
    [sample_body]. *)
Definition sample_headers (ts : list (str * str)) : HeaderMap :=
  let i := Toy.inputs "/p" (sha256_hex sample_body) in
  ts ++ [("host" : str, "proxy.example:8443" : str); (NONCE_HEADER, in_nonce_b64 i);
         (TOKEN_HEADER, in_token_b64 i); (MACHINE_CERT_HEADER, ws1_header)].

Definition sample_world (ts : list (str * str)) (p : DenBrowserProxy) : World :=
  {| w_proxy := p;
     w_session :=
       {| ss_client := Some {| sa_ip := ws1_ip; sa_port := 50000 |}; ss_server := None;
          ss_request := {| rq_method := "POST"; headers := sample_headers ts;
                           uri_authority := None; uri_path_and_query := Some ("/p" : str) |};
          ss_cert := None; ss_body := BodyChunk "a bound " (BodyChunk "body" BodyEnd);
          ss_body_read := 0; ss_retry := None; ss_open := true; ss_response := None |};
     w_ctx := new_ctx p 0 |}.

Definition sample_ts : list (str * str) := [(TS_HEADER, "1010" : str)].

Definition sample_env : Env :=
  {| clk_arrival := Toy.clk; dns_asked := 1; dns_found := 2; resolver := dns;
     clk_commit := Toy.clk; before_machine := id; during_lookup := id; during_body := id |}.

Definition sample_filter : Env → World → World * bool := request_filter quote ip_text.
Definition first_run : World * bool := sample_filter sample_env (sample_world sample_ts sample_proxy).
Definition replayed : World := sample_world sample_ts (w_proxy first_run.1).

Lemma sample_env_ok : env_ok sample_env.
Proof. intros p. split; done. Qed.

Lemma sample_fresh ts p : fresh (sample_world ts p).
Proof. by exists 0. Qed.

Lemma only_verified_requests_go_upstream_witness :
  first_run.2 = false ∧
  ∃ i p1, attested sample_env (sample_world sample_ts sample_proxy) first_run.1 i p1.
Proof.
  assert (first_run = (first_run.1, false)) as Hr
    by (apply pair_snd; vm_compute; reflexivity).
  split; [by rewrite Hr|].
  destruct (only_verified_requests_go_upstream quote ip_text sample_env _ first_run.1
              (sample_fresh sample_ts sample_proxy) sample_env_ok Hr) as [_ [[Hb _]|Ha]]; [|exact Ha].
  assert (action (w_ctx first_run.1) = Some ActForward) as Hf by (vm_compute; reflexivity).
  congruence.
Defined.

(** The same request again is a replay. *)
Lemma every_refusal_is_answered_witness :
  (∃ r, refused r (sample_filter sample_env replayed).1) ∧
  reason (w_ctx (sample_filter sample_env replayed).1) = Some ReasonNonceReplay.
Proof.
  split; [|vm_compute; reflexivity].
  assert (sample_filter sample_env replayed = ((sample_filter sample_env replayed).1, true)) as Hr
    by (apply pair_snd; vm_compute; reflexivity).
  destruct (every_refusal_is_answered quote ip_text sample_env _ _
              (sample_fresh _ _) sample_env_ok Hr) as [(r & Href & _) _].
  by exists r.
Defined.

(** Without a timestamp the machine certificate is not looked at. *)
Lemma token_before_expensive_checks_witness :
  let w := sample_world [] sample_proxy in
  let env' := {| clk_arrival := Toy.clk; dns_asked := 1; dns_found := 2;
                 resolver := λ _, Some []; clk_commit := Toy.clk; before_machine := id;
                 during_lookup := id; during_body := id |} in
  sample_filter env' w = sample_filter sample_env w ∧
  stopped_early w (sample_filter sample_env w).1 true.
Proof.
  intros w env'.
  assert (sample_filter sample_env w = ((sample_filter sample_env w).1, true)) as Hr
    by (apply pair_snd; vm_compute; reflexivity).
  destruct (token_before_expensive_checks quote ip_text sample_env env' w
              (sample_filter sample_env w).1 true (sample_fresh _ _) Hr eq_refl) as [He Hs].
  - intros (i & p1 & [Hts _ _ _ _ _] & _). vm_compute in Hts. discriminate.
  - split; [|exact Hs]. etrans; [exact He|by symmetry].
Defined.
End Examples.
