(* ===== verification/ProxyHonest.v ===== *)
(** The other half of the filter's contract: it does not only stop what it must
    stop.  A request with a token sealed for this proxy, from a known machine, gets
    through, whatever else the proxy is doing, unless another request has spent
    its nonce.  [BrowserFacts] applies this to what the browser sends. *)

From S2P Require Import Prelude Net AuditTypes Attest AttestCache AttestToken Replay RateLimit RateLimitFacts MachineFacts Mtls Passthrough Machine AuditLog AuditTime AuditFacts Tls Proxy ProxyStages ProxyFacts.

Section Honest.
Context `{CryptoLaws, GlobOps, RateOps, IpNetOps, MachineTls, Calendar, HttpOps}.
Variables (debug_str : str → str) (show_ip : IpAddr → str).

(** ** The stages, on a request they accept *)

Lemma rate_limit_admits env w w0 :
  within_limits env w → w_proxy w0 = w_proxy w → w_session w0 = w_session w →
  ∃ rl, rate_limit env (request_host (ss_request (w_session w))) w0
        = Ok (with_proxy w0 (set_rate_limiter (w_proxy w) rl)).
Proof.
  intros Hl Hp Hs. unfold rate_limit, within_limits in *. rewrite Hp, Hs.
  destruct (rate_limiter (w_proxy w)) as [limiter|] eqn:El.
  - destruct (client_ip (w_session w)) as [ip|] eqn:Eip.
    + specialize (Hl limiter ip eq_refl eq_refl). destruct (RateLimiter_admit _ _ _ _) as [l b].
      cbn in Hl. subst b. by exists (Some l).
    + exists (Some limiter). f_equal. destruct w0 as [p s c]. cbn in *. subst p s.
      destruct w as [[] ? ?]. cbn in *. by subst.
  - exists None. f_equal. destruct w0 as [p s c]. cbn in *. subst p s.
    destruct w as [[] ? ?]. cbn in *. by subst.
Qed.

Lemma collect_inputs_complete host mp w i :
  host = request_host (ss_request (w_session w)) → inputs_of (ss_request (w_session w)) i →
  collect_inputs host mp w = Ok i.
Proof.
  intros -> [Ht Hn Hk Hh Hm Hp]. unfold collect_inputs. rewrite Ht, Hn, Hk, Hh.
  destruct i; cbn in *; by subst.
Qed.

(** A request with an acceptable token passes up to it, or bypasses it. *)
Lemma until_token_passes env w i p1 :
  within_limits env w → inputs_of (ss_request (w_session w)) i →
  verify_headers (verifier (w_proxy w)) (clk_arrival env) i = Ok p1 →
  (∀ m, px_machine (w_proxy w) = Some m → machine_present w = false → required m = false) →
  (∃ w3, until_token debug_str show_ip env w = Ok (w3, p1)) ∨
  (∃ w', until_token debug_str show_ip env w = Err (w', false)).
Proof.
  intros Hl Hi Hv Hreq. unfold until_token. cbv zeta. destruct (note_request_world w) as [Hp Hs].
  destruct (rate_limit_admits env w (note_request w) Hl Hp Hs) as [rl ->].
  set (w1 := with_proxy (note_request w) _).
  assert (w_session w1 = w_session w) as Hs1 by exact Hs.
  destruct (try_bypass_cases debug_str show_ip w1) as [->|(?&?&?&?&_&_&_&_&->)]; [|right; by eexists].
  rewrite (collect_inputs_complete _ _ w1 i) by (rewrite ?Hs1; done).
  destruct (machine_preflight_cases debug_str show_ip (machine_present w) w1)
    as [(c & -> & _)|(m & Hm & Hmp & Hr & _)].
  2: { rewrite (Hreq m Hm Hmp) in Hr. done. }
  left. unfold phase_one. change (verifier _) with (verifier (w_proxy w)). rewrite Hv. by eexists.
Qed.

Lemma verify_succeeds m m0 during asked found r cert a vm addrs :
  set_dns_cache m0 ∅ = set_dns_cache m ∅ → verify_cert m cert = Ok vm →
  r (hostname vm) = Some addrs → a ∈ addrs →
  (∀ e, dns_cache m0 !! hostname vm = Some e → a ∈ Machine.addrs e) →
  (verify m0 during asked found r cert (Some a)).2 = Ok vm.
Proof.
  intros Hs Hv Hr Ha Hc. unfold verify.
  assert (verify_cert m0 cert = Ok vm) as ->.
  { rewrite <-Hv.
    change (verify_cert (set_dns_cache m0 ∅) cert = verify_cert (set_dns_cache m ∅) cert).
    by rewrite Hs. }
  unfold resolve_cached. destruct (resolve_start m0 asked (hostname vm)) as [l|] eqn:E.
  - unfold resolve_start in E. destruct (dns_cache m0 !! _) as [e|] eqn:He; [|done].
    case_match; [|done]. injection E as <-. cbn. by rewrite bool_decide_true by auto.
  - rewrite Hr. cbn. by rewrite bool_decide_true.
Qed.

Lemma commit_accepts v clk p1 :
  check_commit_window (p1_ts p1) (unix_now clk) = Ok tt → p1_nonce p1 ∉ seen (nonce_cache v) →
  (commit_nonce v clk p1).2 = Ok tt.
Proof.
  intros Hw Hn. unfold commit_nonce, cache_contains. rewrite bool_decide_false by exact Hn.
  rewrite Hw. unfold cache_commit, cache_contains. rewrite bool_decide_eq_false_2; [done|].
  rewrite evict_expired_eq. cbn. set_solver.
Qed.

Lemma conclude_accepts w r : r.2 = Ok tt → ∃ w', conclude w r = (w', false).
Proof. destruct r as [v res]. cbn. intros ->. by eexists. Qed.

(** The body binding and the body behind it: a hash of a body that arrives whole
    within the limit, or none. *)
Inductive bound_as (s : BodyStream) : BodyBinding → Prop :=
  | bound_hash body :
      body_all s = Some body → Z.of_nat (length body) ≤ BOUND_BODY_MAX →
      bound_as s (HashBody (sha256 body))
  | bound_not : bound_as s UnboundBody.

Lemma phase_two_accepts env p1 w :
  bound_as (ss_body (w_session w)) (p1_body_binding p1) →
  check_commit_window (p1_ts p1) (unix_now (clk_commit env)) = Ok tt →
  p1_nonce p1 ∉ seen (nonce_cache (verifier (w_proxy w))) →
  ∃ w', phase_two env p1 w = (w', false).
Proof.
  intros Hb Hw Hn. unfold phase_two. inversion Hb as [body Hall Hlen Heq|Heq].
  - pose proof (read_body_complete debug_str [] _ (enable_retry_buffering (w_session w))
      body Hall Hlen) as Hr. cbn [app] in Hr.
    destruct (read_body [] _ _) as [s r]. cbn in Hr. subst r.
    apply conclude_accepts. unfold verify_body_and_commit. rewrite <-Heq.
    rewrite decide_False by tauto. by apply commit_accepts.
  - by apply conclude_accepts, commit_accepts.
Qed.

(** ** A browser's request *)

(** The request carries a token sealed for this proxy over exactly this request,
    with the body field [field] that binds its body as [binding]. *)
Record browser_request (w : World) (i : AttestInputs) (ephem : SecretKey)
    (nonce iv field : str) (binding : BodyBinding) (ts : Z) : Prop := {
  br_inputs : inputs_of (ss_request (w_session w)) i;
  br_ts : parse_i64 (in_ts i) = Some ts;
  br_nonce : length nonce = NONCE_LEN ∧ in_nonce_b64 i = base64_encode nonce;
  br_lines : LF ∉ in_host i ∧ LF ∉ in_method i ∧ LF ∉ in_path i;
  br_iv : length iv = 12%nat;
  br_token : in_token_b64 i =
    sealed_token ephem (public_key (private_key (verifier (w_proxy w)))) iv
      (token_plaintext (in_nonce_b64 i) (in_ts i) (in_host i) (in_method i) (in_path i) field);
  br_field : LF ∉ field ∧ parse_body_binding field = Ok binding;
  br_body : bound_as (ss_body (w_session w)) binding }.

(** It arrives within 30 s of its timestamp and commits within 90 s. *)
Record timely (env : Env) (ts : Z) : Prop := {
  tl_clocks : clock_ok (clk_arrival env) ∧ clock_ok (clk_commit env);
  tl_arrival : Z.abs (unix_now (clk_arrival env) - ts) ≤ 30;
  tl_commit : -30 ≤ unix_now (clk_commit env) - ts ≤ 90 }.

(** Where machines are checked it comes from one: its certificate verifies, its
    address is in the resolver's answer and in the answer that is cached. *)
Definition from_machine (env : Env) (w : World) : Prop :=
  ∀ m, px_machine (w_proxy w) = Some m →
    if machine_present w then
      ∃ cert vm a addrs,
        header_str (headers (ss_request (w_session w))) MACHINE_CERT_HEADER = Some cert ∧
        verify_cert m cert = Ok vm ∧ client_ip (w_session w) = Some a ∧
        resolver env (hostname vm) = Some addrs ∧ a ∈ addrs ∧
        ∀ w3 p1 m1 e, until_token debug_str show_ip env w = Ok (w3, p1) →
          px_machine (before_machine env (w_proxy w3)) = Some m1 →
          dns_cache m1 !! hostname vm = Some e → a ∈ Machine.addrs e
    else required m = false.

(** Nobody else has spent its nonce, when it arrives and when it commits. *)
Definition nonce_unspent (env : Env) (w : World) (nonce : str) : Prop :=
  nonce ∉ seen (nonce_cache (verifier (w_proxy w))) ∧
  ∀ w3 p1 wm, until_token debug_str show_ip env w = Ok (w3, p1) →
    machine_check debug_str show_ip env (machine_present w)
      (with_proxy w3 (before_machine env (w_proxy w3))) = Ok wm →
    nonce ∉ seen (nonce_cache (verifier (during_body env (w_proxy wm)))).

Lemma browser_token w i ephem nonce iv field binding ts clk :
  browser_request w i ephem nonce iv field binding ts →
  clock_ok clk → Z.abs (unix_now clk - ts) ≤ 30 →
  nonce ∉ seen (nonce_cache (verifier (w_proxy w))) →
  verify_headers (verifier (w_proxy w)) clk i
    = Ok {| p1_nonce := nonce; p1_body_binding := binding; p1_ts := ts |}.
Proof.
  intros [_ Hts [Hlen Hn] (Hh & Hm & Hp) Hiv Htok [Hf Hb] _] Hc Hd Hs.
  destruct i as [ts_s nonce_s token host method path]. cbn in *. subst nonce_s token.
  by apply (verify_headers_sealed _ clk ephem iv ts_s ts nonce host method path field binding).
Qed.

(** Its machine is known when the check meets it: its certificate verifies, its
    address is in the resolver's answer and in the answer that is cached. *)
Definition machine_ready (env : Env) (w w3 : World) : Prop :=
  ∀ m, px_machine (w_proxy w) = Some m → machine_present w = true →
    ∃ cert vm a addrs,
      header_str (headers (ss_request (w_session w))) MACHINE_CERT_HEADER = Some cert ∧
      verify_cert m cert = Ok vm ∧ client_ip (w_session w) = Some a ∧
      resolver env (hostname vm) = Some addrs ∧ a ∈ addrs ∧
      ∀ m1 e, px_machine (before_machine env (w_proxy w3)) = Some m1 →
        dns_cache m1 !! hostname vm = Some e → a ∈ Machine.addrs e.

(** The machine check lets it on, with its session as it was. *)
Lemma honest_machine_check env w w3 i p1 :
  same_config (w_proxy w3) (before_machine env (w_proxy w3)) → token_passed env w w3 i p1 →
  machine_ready env w w3 →
  ∃ wm, machine_check debug_str show_ip env (machine_present w)
          (with_proxy w3 (before_machine env (w_proxy w3))) = Ok wm ∧ w_session wm = w_session w.
Proof.
  intros Hb [Hs _ Hm Hcert _ _ _ _] Hf. set (wd := with_proxy w3 _).
  destruct (machine_check_cases debug_str show_ip env (machine_present w) wd)
    as [(p & c & -> & _)|(m1 & e & m' & Hm1 & Hmp & _ & (w' & E & _))]; [by eexists|].
  destruct (px_machine (w_proxy w)) as [m|] eqn:Hpm.
  2: { pose proof (sc_machine _ _ Hb) as Hst. rewrite Hm in Hst. cbn in Hst, Hm1.
       rewrite Hm1 in Hst. done. }
  destruct (static_machine_some _ _ m Hb Hm) as (m1' & Hm1' & Heq).
  cbn in Hm1. rewrite Hm1 in Hm1'. injection Hm1' as <-.
  destruct (Hf m Hpm Hmp) as (cert & vm & a & addrs & Hce & Hv & Ha & Hr & Hin & Hc).
  exfalso. unfold machine_check in E. cbn [w_proxy w_ctx w_session wd with_proxy] in E.
  rewrite Hm1, Hmp, Hcert, Hce in E. rewrite Hs, Ha in E. cbv zeta in E.
  pose proof (verify_succeeds m m1 (λ m, default m
      (px_machine (during_lookup env (before_machine env (w_proxy w3)))))
    (dns_asked env) (dns_found env) (resolver env) cert a vm addrs Heq Hv Hr Hin) as Hok.
  specialize (Hok ltac:(intros e' He'; by eapply Hc)).
  destruct (verify _ _ _ _ _ _ _) as [m2 res]. cbn in Hok. by subst res.
Qed.

(** The machine check, where the request comes to it. *)
Definition check_ready (env : Env) (w : World) : Prop :=
  (∀ m, px_machine (w_proxy w) = Some m → machine_present w = false → required m = false) ∧
  ∀ w3 p1, until_token debug_str show_ip env w = Ok (w3, p1) →
    same_config (w_proxy w3) (before_machine env (w_proxy w3)) ∧ machine_ready env w w3.

(** A request with an acceptable token from a machine that is known gets through:
    whatever the other requests do meanwhile, as long as none of them spends its
    nonce. *)
Lemma ready_request_passes env w i ephem nonce iv field binding ts :
  fresh w → within_limits env w → browser_request w i ephem nonce iv field binding ts →
  timely env ts → check_ready env w → nonce_unspent env w nonce →
  ∃ w', request_filter debug_str show_ip env w = (w', false).
Proof.
  intros Hf Hl Hbr [[Hca Hcc] Hta Htc] [Hreq Hm] [Hn0 Hn1].
  pose proof (browser_token w i ephem nonce iv field binding ts _ Hbr Hca Hta Hn0) as Hv.
  set (p1 := {| p1_nonce := nonce |}) in Hv.
  destruct (until_token_passes env w i p1 Hl (br_inputs _ _ _ _ _ _ _ _ Hbr) Hv Hreq)
    as [[w3 E]|[w' E]]; [|exists w'; by rewrite filter_split, E].
  destruct (until_token_cases debug_str show_ip env w Hf)
    as [(w3' & p1' & i' & E' & Htp)|(?&?&E'&_)]; rewrite E in E'; [|done].
  injection E' as <- <-. destruct (Hm _ _ E) as [Hb Hmr].
  destruct (honest_machine_check env w w3 i' p1 Hb Htp Hmr) as (wm & Ec & Hs).
  destruct (phase_two_accepts env p1 (with_proxy wm (during_body env (w_proxy wm))))
    as [w' Hw]; [cbn; rewrite Hs; apply Hbr| |exact (Hn1 _ _ _ E Ec)|].
  - assert (is_i64 ts) by by eapply parse_i64_range, Hbr.
    cbn. rewrite check_commit_window_eq by auto with proxy.
    rewrite (proj2 (Z.ltb_ge _ _)), (proj2 (Z.ltb_ge _ _)) by lia. done.
  - exists w'. rewrite filter_split, E. unfold after_token. cbv zeta. by rewrite Ec.
Qed.

Lemma honest_request_passes env w i ephem nonce iv field binding ts :
  fresh w → env_ok env → within_limits env w →
  browser_request w i ephem nonce iv field binding ts →
  timely env ts → from_machine env w → nonce_unspent env w nonce →
  ∃ w', request_filter debug_str show_ip env w = (w', false).
Proof.
  intros Hf He Hl Hbr Ht Hm Hn. eapply ready_request_passes; try done. split.
  - intros m Hpm Hmp. specialize (Hm m Hpm). by rewrite Hmp in Hm.
  - intros w3 p1 E. split; [apply He|]. intros m Hpm Hmp. specialize (Hm m Hpm).
    rewrite Hmp in Hm. destruct Hm as (cert & vm & a & addrs & ? & ? & ? & ? & ? & Hc).
    exists cert, vm, a, addrs. do 5 (split; [done|]). intros m1 e. by eapply Hc.
Qed.
End Honest.

(** ** The request of workstation [ws1] *)

Section Examples.
#[local] Existing Instances Toy.crypto Toy.laws ToyRate.globs ToyRate.ops ToyNet.nets ToyMachine.x509
  ToyMachine.tls Gregorian.calendar Gregorian.calendar_laws ToyHttp.http.

Lemma sample_from_machine :
  from_machine quote ip_text sample_env (sample_world sample_ts sample_proxy).
Proof.
  intros m [= <-].
  assert (machine_present (sample_world sample_ts sample_proxy) = true) as -> by (vm_compute; reflexivity).
  eexists ws1_header, _, ws1_ip, _. split; [vm_compute; reflexivity|].
  split; [vm_compute; reflexivity|]. split; [reflexivity|]. split; [vm_compute; reflexivity|].
  split; [left|]. intros w3 p1 m1 e E Hm He. cbn in Hm.
  destruct (until_token_cases quote ip_text sample_env _ (sample_fresh sample_ts sample_proxy))
    as [(w3' & p1' & i & E' & Htp)|(?&?&E'&_)]; rewrite E in E'; [|done].
  injection E' as <- <-. rewrite (tp_machine _ _ _ _ _ Htp) in Hm. injection Hm as <-.
  assert (dns_cache fleet = ∅) as Hc by reflexivity. by rewrite Hc, lookup_empty in He.
Qed.

Lemma toy_nonce_unseen : Toy.nonce ∉ seen (nonce_cache Toy.verifier).
Proof. exact (not_elem_of_empty (C := gset str) Toy.nonce). Qed.

Lemma sample_nonce_unspent :
  nonce_unspent quote ip_text sample_env (sample_world sample_ts sample_proxy) Toy.nonce.
Proof.
  split; [exact toy_nonce_unseen|]. intros w3 p1 wm E Ec.
  destruct (until_token_cases quote ip_text sample_env _ (sample_fresh sample_ts sample_proxy))
    as [(w3' & p1' & i & E' & Htp)|(?&?&E'&_)]; rewrite E in E'; [|done].
  injection E' as <- <-. pose proof (tp_verifier _ _ _ _ _ Htp) as Hv.
  assert (verifier (w_proxy wm) = Toy.verifier) as Hwm.
  2: { change (during_body sample_env (w_proxy wm)) with (w_proxy wm). rewrite Hwm.
       exact toy_nonce_unseen. }
  destruct (machine_check_cases quote ip_text sample_env (machine_present (sample_world sample_ts sample_proxy))
    (with_proxy w3 (w_proxy w3))) as [(p & c & E2 & _ & Hp & _)|(?&?&?&_&_&_&?&E2&_)];
    cbn in Ec; rewrite Ec in E2; [|done].
  injection E2 as ->. cbn. by destruct Hp as [->|(m' & m0 & k & -> & _)].
Qed.

End Examples.
