(* ===== verification/ProxyAudit.v ===== *)
(** From a request to its audit line: the filter makes only legal audit calls,
    and what is logged of a request is what happened to it. *)

From S2P Require Import Prelude Net AuditTypes Attest AttestCache AttestToken RateLimit RateLimitFacts MachineFacts Mtls Passthrough Machine AuditLog AuditTime AuditFacts AuditJson Tls Proxy ProxyStages ProxyFacts.

Section Facts.
Context `{Crypto, GlobOps, RateOps, IpNetOps, MachineTls, Calendar, HttpOps}.
Variables (debug_str : str → str) (show_ip : IpAddr → str).

Notation filter_request := (request_filter debug_str show_ip).

(** ** The audit calls *)

Notation calls := (audit_calls debug_str show_ip).

(** No decision yet, no machine verified; the token as [tok] says. *)
Record ready (tok : bool) (a : RequestAudit) : Prop := {
  rd_action : action a = None;
  rd_token : au_token_verified a = tok;
  rd_machine : ma_status (au_machine a) ≠ MachVerified }.

Lemma calls_one a a' : audit_call debug_str show_ip a a' → calls a a'.
Proof. apply rtc_once. Qed.

Lemma calls_reject a r msg : action a = None → calls a (reject a r msg).
Proof. intros. by apply calls_one, CallReject. Qed.

Lemma calls_machine_rejected tok a e :
  ready tok a → calls a (machine_rejected debug_str show_ip a e).
Proof. intros []. by apply calls_one, CallMachineRejected. Qed.

(** A stage's effect on the audit state: legal calls either way. *)
Definition stage_calls {A} (a : RequestAudit) (ctx : A → RequestAudit) (o : stage A)
    (post : A → Prop) : Prop :=
  match o with
  | Ok x => calls a (ctx x) ∧ post x
  | Err (w', _) => calls a (w_ctx w')
  end.

Lemma note_request_calls w :
  fresh w →
  calls (w_ctx w) (w_ctx (note_request w)) ∧ ready false (w_ctx (note_request w)) ∧
  at_nonce (au_attestation (w_ctx (note_request w)))
    = (λ n, bounded n MAX_NONCE_CHARS) <$> header_str (headers (ss_request (w_session w))) NONCE_HEADER.
Proof.
  intros [now Hc]. unfold note_request. cbn. set (req := ss_request (w_session w)).
  set (a1 := audit_request _ _ _). set (a2 := attestation_headers a1 _ _).
  assert (ready false (w_ctx w)) as Hr0 by (rewrite Hc; constructor; cbn; try done; by case_match).
  assert (ready false a1) as Hr1 by (destruct Hr0; by constructor).
  assert (ready false a2) as Hr2 by (destruct Hr1; by constructor).
  assert (calls (w_ctx w) a2) as Hcalls.
  { eapply rtc_l; [apply CallRequest, Hr0|]. apply calls_one, CallHeaders; apply Hr1. }
  case_match; [|done]. cbn. split; [|split; [|done]].
  - eapply rtc_r; [exact Hcalls|]. apply CallCert; apply Hr2.
  - destruct Hr2. by constructor.
Qed.

Lemma rate_limit_calls env host w tok :
  ready tok (w_ctx w) →
  stage_calls (w_ctx w) w_ctx (rate_limit env host w) (λ w', w_ctx w' = w_ctx w).
Proof.
  intros Hr. unfold rate_limit.
  repeat case_match; cbn; try (by split; [apply rtc_refl|]). apply calls_reject, Hr.
Qed.

Lemma try_bypass_calls w tok :
  ready tok (w_ctx w) →
  stage_calls (w_ctx w) w_ctx (try_bypass w) (λ w', w' = w).
Proof.
  intros Hr. unfold try_bypass.
  repeat case_match; cbn; try (by split; [apply rtc_refl|]). apply calls_one, CallBypass, Hr.
Qed.

Lemma collect_inputs_calls host mp w tok :
  ready tok (w_ctx w) →
  stage_calls (w_ctx w) (λ _, w_ctx w) (collect_inputs host mp w)
    (λ _, is_Some (header_str (headers (ss_request (w_session w))) NONCE_HEADER)).
Proof.
  intros Hr. unfold collect_inputs. repeat case_match; cbn; try (apply calls_reject, Hr).
  split; [apply rtc_refl|by eexists].
Qed.

Lemma machine_preflight_calls mp w :
  ready false (w_ctx w) →
  stage_calls (w_ctx w) w_ctx (machine_preflight debug_str show_ip mp w)
    (λ w', ready false (w_ctx w') ∧ au_attestation (w_ctx w') = au_attestation (w_ctx w)).
Proof.
  intros Hr. unfold machine_preflight.
  repeat case_match; cbn; try (by split; [apply rtc_refl|]).
  - by eapply calls_machine_rejected.
  - destruct Hr. split; [by apply calls_one, CallAbsent|]. split; [by constructor|done].
Qed.

Lemma phase_one_calls env i w :
  ready false (w_ctx w) → is_Some (at_nonce (au_attestation (w_ctx w))) →
  stage_calls (w_ctx w) (λ x, w_ctx x.1) (phase_one env i w) (λ x, ready true (w_ctx x.1)).
Proof.
  intros Hr Hn. unfold phase_one. case_match; cbn; [|apply calls_reject, Hr].
  split; [apply calls_one, CallToken; [apply Hr|done]|]. destruct Hr. by constructor.
Qed.

Lemma machine_check_calls env mp w :
  ready true (w_ctx w) →
  stage_calls (w_ctx w) w_ctx (machine_check debug_str show_ip env mp w)
    (λ w', action (w_ctx w') = None ∧ au_token_verified (w_ctx w') = true).
Proof.
  intros Hr. unfold machine_check.
  destruct (px_machine (w_proxy w)); [|destruct Hr; by split; [apply rtc_refl|]].
  destruct mp; [|destruct Hr; by split; [apply rtc_refl|]].
  destruct (match au_presented_cert _ with Some _ => _ | None => _ end) as [m' [vm|e]]; cbn.
  - destruct Hr. split; [by apply calls_one, CallMachine|done].
  - by eapply calls_machine_rejected.
Qed.

Lemma phase_two_calls env p1 w :
  action (w_ctx w) = None → au_token_verified (w_ctx w) = true →
  calls (w_ctx w) (w_ctx (phase_two env p1 w).1).
Proof.
  intros Ha Ht.
  assert (∀ x : Verifier * result unit AttestError, ∀ w', w_ctx w' = w_ctx w →
    calls (w_ctx w) (w_ctx (conclude w' x).1)) as Hc.
  { intros [v [u|e]] w' Hw; cbn; rewrite Hw; [by apply calls_one, CallForward|by apply calls_reject]. }
  unfold phase_two. case_match; [|by apply Hc].
  destruct (read_body _ _ _) as [s []]; [by apply Hc|by apply calls_reject..].
Qed.

(** One stage after the other. *)
Lemma stage_bind {A} a (ctx : A → RequestAudit) (o : stage A) post
    (k : A → stage (World * bool)) :
  stage_calls a ctx o post →
  (∀ x, o = Ok x → post x →
     calls (ctx x) (w_ctx (match k x with Ok r | Err r => r end).1)) →
  calls a (w_ctx (match (match o with Ok x => k x | Err e => Err e end : stage (World * bool))
                  with Ok r | Err r => r end).1).
Proof.
  intros Ho Hk. unfold stage_calls in Ho. destruct o as [x|[w' b]]; cbn; [|exact Ho].
  destruct Ho as [Hc Hp]. etrans; [exact Hc|by apply Hk].
Qed.

Lemma filter_calls env w :
  fresh w → calls (w_ctx w) (w_ctx (filter_request env w).1).
Proof.
  intros Hf. destruct (note_request_calls w Hf) as (Hc & Hr & Hn). unfold filter_request.
  etrans; [exact Hc|]. clear Hc. destruct (note_request_world w) as [_ Hs].
  set (w0 := note_request w) in *. clearbody w0.
  eapply stage_bind; [by eapply rate_limit_calls|]. intros w1 E1 Hc1.
  assert (w_session w1 = w_session w) as Hs1.
  { destruct (rate_limit_cases env (request_host (ss_request (w_session w))) w0)
      as [(rl & E & _)|(rl & (w' & E & _) & _)]; rewrite E1 in E; simplify_eq; done. }
  eapply stage_bind; [eapply try_bypass_calls; by rewrite Hc1|]. intros w2 _ ->.
  rewrite <-Hc1 in Hr, Hn.
  eapply (stage_bind _ (λ _, w_ctx w1)); [by eapply collect_inputs_calls|].
  intros i _ [nonce Hnonce]. rewrite Hs1 in Hnonce. rewrite Hnonce in Hn.
  eapply stage_bind; [by eapply machine_preflight_calls|]. intros w2 _ [Hr2 Ha2].
  eapply (stage_bind _ (λ x, w_ctx x.1)); [apply phase_one_calls; [done|rewrite Ha2, Hn; by eexists]|].
  intros [w3 p1] _ Hr3. cbn in Hr3 |- *.
  eapply stage_bind; [by apply (machine_check_calls env _ (with_proxy w3 _))|].
  intros w4 _ [Ha4 Ht4]. by apply (phase_two_calls env p1 (with_proxy w4 _)).
Qed.

(** ** From the filter to the record *)

Lemma response_chunks_calls a chunks : calls a (fold_left response_body_filter chunks a).
Proof.
  revert a. induction chunks as [|[c|] chunks IH]; intros a; cbn; [apply rtc_refl| |apply IH].
  eapply rtc_l; [apply (CallResponse _ _ a (Z.of_nat (length c))); lia|apply IH].
Qed.

Lemma response_chunks_decision a chunks :
  action (fold_left response_body_filter chunks a) = action a ∧
  reason (fold_left response_body_filter chunks a) = reason a.
Proof.
  revert a. induction chunks as [|[c|] chunks IH]; intros a; cbn; [done| |apply IH].
  destruct (IH (response_body a (Z.of_nat (length c)))) as [-> ->]. done.
Qed.
End Facts.

Section Records.
Context `{Crypto, GlobOps, RateOps, IpNetOps, MachineTls, CalendarLaws, HttpOps}.
Variables (debug_str : str → str) (show_ip : IpAddr → str).

(** Claim C15. From the request to its audit line: however a request fares in
    the filter, whatever is then streamed to the client and whatever error ends
    the exchange, the record that is logged validates against the schema; a refusal is
    logged as a failure with the refusal's reason, and a request that went
    upstream without an error as a success without one. *)
Theorem every_request_is_logged_truthfully enabled clk env w w' up chunks s e ctx lvl record :
  fresh w → env_ok env → request_filter debug_str show_ip env w = (w', up) →
  (∀ code, ss_response s = Some code → 100 ≤ code ≤ 999) → 0 ≤ ss_body_read s →
  (∀ a, ss_server s = Some a ∨ ss_client s = Some a → 0 ≤ sa_port a ≤ 65535) →
  iso_time (wall clk) →
  logging show_ip enabled clk s e (fold_left response_body_filter chunks (w_ctx w'))
    = (ctx, Some (lvl, record)) →
  valid log_schema (record_doc show_ip record) = true ∧ conforms record ∧
  (if up then ev_outcome (ar_event record) = Failure ∧
              ∃ r, refused r w' ∧ ev_reason (ar_event record) = Some r
   else e = None → ev_outcome (ar_event record) = Success ∧ ev_reason (ar_event record) = None).
Proof.
  intros Hf He Hr Hst Hbr Hports Hwall Hl.
  pose proof (filter_calls debug_str show_ip env w Hf) as Hcalls. rewrite Hr in Hcalls. cbn in Hcalls.
  pose proof (filter_outcomes debug_str show_ip env w Hf He) as Hout. rewrite Hr in Hout.
  set (a := fold_left response_body_filter chunks (w_ctx w')) in *.
  destruct (response_chunks_decision (w_ctx w') chunks) as [Ha Hre]. fold a in Ha, Hre.
  assert (audit_inv a) as Hinv.
  { destruct Hf as [now Hc]. rewrite Hc in Hcalls.
    eapply (audit_inv_calls debug_str show_ip); [apply audit_inv_new|].
    etrans; [exact Hcalls|apply response_chunks_calls]. }
  assert (connection_ok (connection_facts s a)) as Hconn.
  { constructor; [|split; [exact Hbr|apply Hinv]].
    intros code. cbn. unfold response_written. case_match; [apply Hst|done]. }
  split; [by eapply (finish_validates show_ip enabled clk a)|].
  split; [by eapply (finish_conforms show_ip enabled clk a)|].
  unfold logging, finish in Hl. destruct (negb (enabled _)); [done|].
  destruct (audit_record _ _ _ _ _ _) as [a1 rec] eqn:Hrec. injection Hl as <- <- <-.
  apply (f_equal snd) in Hrec. cbn [snd] in Hrec. subst rec.
  destruct up.
  - destruct Hout as (r & Href & _). destruct Href as (Hreason & Hact & Hresp').
    pose proof (record_refusal show_ip a (connection_facts s a) (classify_proxy_error <$> e)
      (timestamp (wall clk)) (Z.min u64_max (duration_since (instant clk) (started a) / 1000000)))
      as Hrr.
    destruct Hrr as (Hr1 & _ & Hr3); [rewrite Ha, Hact; case_decide; auto|].
    split; [exact Hr3|]. exists r. split; [done|]. by rewrite Hr1, Hre.
  - intros ->. destruct Hout as [_ Hout].
    pose proof (record_success show_ip a (connection_facts s a)
      (timestamp (wall clk)) (Z.min u64_max (duration_since (instant clk) (started a) / 1000000))
      Hinv) as Hrs.
    destruct Hrs as (Hr1 & _ & Hr3); [|done].
    rewrite Ha. destruct Hout as [[Hb _]|(i & p1 & [Hb])]; [by right|by left].
Qed.
End Records.

Section Examples.
#[local] Existing Instances Toy.crypto Toy.laws ToyRate.globs ToyRate.ops ToyNet.nets ToyMachine.x509
  ToyMachine.tls Gregorian.calendar Gregorian.calendar_laws ToyHttp.http.

(** The replay's audit line. *)
Lemma every_request_is_logged_truthfully_witness :
  let out := sample_filter sample_env replayed in
  match (logging ip_text (λ _, true) Toy.clk (w_session out.1) None
           (fold_left response_body_filter [Some ("x" : str)] (w_ctx out.1))).2 with
  | Some (_, record) => conforms record ∧ ev_reason (ar_event record) = Some ReasonNonceReplay
  | None => False
  end.
Proof.
  intros out.
  assert (request_filter quote ip_text sample_env replayed = (out.1, true)) as Hr
    by (apply (pair_snd out); vm_compute; reflexivity).
  destruct (logging _ _ _ _ _ _) as [ctx [[lvl record]|]] eqn:Hl; [|by vm_compute in Hl]. cbn.
  destruct (every_request_is_logged_truthfully quote ip_text (λ _, true) Toy.clk sample_env
              replayed out.1 true [Some ("x" : str)] (w_session out.1) None ctx lvl record
              (sample_fresh _ _) sample_env_ok Hr) as (_ & Hc & _ & r & (Hre & _) & Hev).
  - intros c Hc. vm_compute in Hc. injection Hc as <-. lia.
  - vm_compute. discriminate.
  - intros a [Ha|Ha]; vm_compute in Ha; [discriminate|]. injection Ha as <-. cbn. lia.
  - unfold iso_time, MAX_ISO_UNIX_SECS, NANOS. cbn. unfold from_secs, NANOS. lia.
  - exact Hl.
  - split; [exact Hc|]. rewrite Hev, <-Hre. vm_compute. reflexivity.
Defined.
End Examples.
