(* ===== verification/ProxyServer.v ===== *)
(** The proxy serving many requests at once.

    [request_filter] gives up its worker at two points, the machine's name
    lookup and the body, and other threads run between any two of its accesses
    to the shared state: a [Job] is a request after its token, inside its machine
    check, or at its body.  A server step moves time, lets a request arrive and
    run to its token, or lets a job go on, on the shared state as it then is.
    The job collects the [Env] it meets, so that a finished request is literally
    a run of [request_filter].
    [sv_arrived] and [sv_done] are its history. *)

From S2P Require Import Prelude Net AuditTypes Attest AttestCache AttestToken Replay RateLimit RateLimitFacts MachineFacts Mtls Passthrough Machine AuditLog AuditTime AuditFacts Tls Proxy ProxyFacts ProxyStages.

(** ** The environment a request meets, as far as it has got *)

Section Met.
Context `{Crypto, GlobOps, RateOps, IpNetOps, MachineTls}.

Definition met_nothing (clk : Clock) : Env :=
  {| clk_arrival := clk; dns_asked := 0; dns_found := 0; resolver := λ _, None; clk_commit := clk;
     before_machine := id; during_lookup := id; during_body := id |}.

Definition meet_check (env : Env) (asked : Z) (p : DenBrowserProxy) : Env :=
  {| clk_arrival := clk_arrival env; dns_asked := asked; dns_found := dns_found env;
     resolver := resolver env; clk_commit := clk_commit env; before_machine := λ _, p;
     during_lookup := during_lookup env; during_body := during_body env |}.

Definition meet_answer (env : Env) (found : Z) (r : str → option (list IpAddr))
    (p : DenBrowserProxy) : Env :=
  {| clk_arrival := clk_arrival env; dns_asked := dns_asked env; dns_found := found;
     resolver := r; clk_commit := clk_commit env; before_machine := before_machine env;
     during_lookup := λ _, p; during_body := during_body env |}.

Definition meet_commit (env : Env) (clk : Clock) (p : DenBrowserProxy) : Env :=
  {| clk_arrival := clk_arrival env; dns_asked := dns_asked env; dns_found := dns_found env;
     resolver := resolver env; clk_commit := clk; before_machine := before_machine env;
     during_lookup := during_lookup env; during_body := λ _, p |}.
End Met.

Section Server.
Context `{Crypto, GlobOps, RateOps, IpNetOps, MachineTls, Calendar, HttpOps}.
Variables (debug_str : str → str) (show_ip : IpAddr → str).

Notation first_wait := (until_token debug_str show_ip).
Notation check_machine := (machine_check debug_str show_ip).

(** Where a request waits: after its token, in its machine check, at its body. *)
Inductive Wait := AfterToken | InCheck | AtBody.

(** A request on its way: what it has met, as it arrived, as it is now, and
    what phase 1 found. *)
Record Job := {
  j_wait : Wait;
  j_env : Env;
  j_start : World;
  j_now : World;
  j_p1 : PhaseOne }.

(** A request the filter is done with; [dn_token] is what phase 1 found when it
    got that far. *)
Record Done := {
  dn_env : Env;
  dn_start : World;
  dn_end : World;
  dn_answered : bool;
  dn_token : option PhaseOne }.

Record Server := {
  sv_proxy : DenBrowserProxy;
  sv_clock : Clock;
  sv_lead : Z;
  sv_jobs : list Job;
  sv_done : list Done;
  sv_arrived : list (Clock * World) }.   (* every request so far, in order *)

Definition with_jobs (s : Server) (p : DenBrowserProxy) (js : list Job) : Server :=
  {| sv_proxy := p; sv_clock := sv_clock s; sv_lead := sv_lead s; sv_jobs := js;
     sv_done := sv_done s; sv_arrived := sv_arrived s |}.

Definition finish_request (s : Server) (env : Env) (w : World) (out : World * bool)
    (p1 : option PhaseOne) (js : list Job) : Server :=
  {| sv_proxy := w_proxy out.1; sv_clock := sv_clock s; sv_lead := sv_lead s; sv_jobs := js;
     sv_done := sv_done s ++
       [{| dn_env := env; dn_start := w; dn_end := out.1; dn_answered := out.2;
           dn_token := p1 |}];
     sv_arrived := sv_arrived s |}.

Definition note_arrival (s : Server) (w : World) : Server :=
  {| sv_proxy := sv_proxy s; sv_clock := sv_clock s; sv_lead := sv_lead s; sv_jobs := sv_jobs s;
     sv_done := sv_done s; sv_arrived := sv_arrived s ++ [(sv_clock s, w)] |}.

(** A request arrives and runs to its token. *)
Definition arrive (s : Server) (w : World) : Server :=
  let s := note_arrival s w in
  let env := met_nothing (sv_clock s) in
  match first_wait env w with
  | Ok (w3, p1) =>
      with_jobs s (w_proxy w3)
        ({| j_wait := AfterToken; j_env := env; j_start := w; j_now := w3; j_p1 := p1 |}
         :: sv_jobs s)
  | Err out => finish_request s env w out None (sv_jobs s)
  end.

(** A job goes on, [js] being the others: it enters its machine check; the check
    ends, with [r] for the resolver; the body has been read. *)
Definition go_on (s : Server) (j : Job) (r : str → option (list IpAddr)) (js : list Job) : Server :=
  match j_wait j with
  | AfterToken =>
      with_jobs s (sv_proxy s)
        ({| j_wait := InCheck; j_env := meet_check (j_env j) (instant (sv_clock s)) (sv_proxy s);
            j_start := j_start j; j_now := with_proxy (j_now j) (sv_proxy s); j_p1 := j_p1 j |}
         :: js)
  | InCheck =>
      let env := meet_answer (j_env j) (instant (sv_clock s)) r (sv_proxy s) in
      match check_machine env (machine_present (j_start j)) (j_now j) with
      | Ok wm =>
          with_jobs s (w_proxy wm)
            ({| j_wait := AtBody; j_env := env; j_start := j_start j; j_now := wm;
                j_p1 := j_p1 j |} :: js)
      | Err out => finish_request s env (j_start j) out (Some (j_p1 j)) js
      end
  | AtBody =>
      let env := meet_commit (j_env j) (sv_clock s) (sv_proxy s) in
      finish_request s env (j_start j)
        (phase_two env (j_p1 j) (with_proxy (j_now j) (sv_proxy s))) (Some (j_p1 j)) js
  end.

Inductive resume (s : Server) : Server → Prop :=
  | resume_job js1 j js2 r :
      sv_jobs s = js1 ++ j :: js2 → resume s (go_on s j r (js1 ++ js2)).

Inductive server_step (tol : Z) (s : Server) : Server → Prop :=
  | server_tick clk :
      clock_ok clk → instant (sv_clock s) ≤ instant clk → sv_lead s - tol ≤ skew clk →
      server_step tol s
        {| sv_proxy := sv_proxy s; sv_clock := clk; sv_lead := Z.max (sv_lead s) (skew clk);
           sv_jobs := sv_jobs s; sv_done := sv_done s; sv_arrived := sv_arrived s |}
  | server_arrive w :
      fresh w → w_proxy w = sv_proxy s → server_step tol s (arrive s w)
  | server_resume s' : resume s s' → server_step tol s s'.

(** The proxy as [main] starts it: nothing in flight and an empty replay cache. *)
Definition server_start (p : DenBrowserProxy) (clk : Clock) : Server :=
  {| sv_proxy := p; sv_clock := clk; sv_lead := skew clk; sv_jobs := []; sv_done := [];
     sv_arrived := [] |}.

Definition server_reachable (tol : Z) (p : DenBrowserProxy) (s : Server) : Prop :=
  ∃ clk, clock_ok clk ∧ nonce_cache (verifier p) = empty_cache ∧
         rtc (server_step tol) (server_start p clk) s.

(** ** What a request changes of the configuration: nothing *)

(** The limiter is the only part of the proxy a request touches up to its token:
    it is charged for the request, when there is one and an address. *)
Definition limiter_after (env : Env) (w : World) : option RateLimiter :=
  match rate_limiter (w_proxy w), client_ip (w_session w) with
  | Some limiter, Some ip =>
      Some (RateLimiter_admit limiter (instant (clk_arrival env)) ip
              (default [] (request_host (ss_request (w_session w)))
               ++ request_path (ss_request (w_session w)))).1
  | rl, _ => rl
  end.

Lemma set_rate_limiter_id p : set_rate_limiter p (rate_limiter p) = p.
Proof. by destruct p. Qed.

Lemma rate_limit_proxy env w :
  w_proxy match rate_limit env (request_host (ss_request (w_session w))) (note_request w) with
          | Ok w' => w' | Err (w', _) => w' end
  = set_rate_limiter (w_proxy w) (limiter_after env w).
Proof.
  unfold rate_limit, limiter_after. change (w_proxy (note_request w)) with (w_proxy w).
  change (w_session (note_request w)) with (w_session w).
  destruct (rate_limiter (w_proxy w)) as [limiter|] eqn:El; [|by rewrite <-El, set_rate_limiter_id].
  destruct (client_ip (w_session w)) as [ip|]; [|by rewrite <-El, set_rate_limiter_id].
  by destruct (RateLimiter_admit limiter _ ip _) as [l []].
Qed.

Lemma until_token_proxy env w :
  w_proxy match first_wait env w with Ok (w3, _) => w3 | Err (w', _) => w' end
  = set_rate_limiter (w_proxy w) (limiter_after env w).
Proof.
  rewrite <-rate_limit_proxy. unfold until_token. cbv zeta.
  destruct (rate_limit _ _ _) as [w1|[w1 b]]; [|done].
  destruct (try_bypass_cases debug_str show_ip w1) as [->|(?&?&?&?&_&_&_&_&->)]; [|done].
  destruct (collect_inputs_cases (request_host (ss_request (w_session w))) (machine_present w) w1)
    as [(i & -> & _)|[[(w' & -> & _ & -> & _)|(w' & -> & _ & -> & _)] _]]; [|done..].
  destruct (machine_preflight_cases debug_str show_ip (machine_present w) w1)
    as [(c & -> & _)|(m & _ & _ & _ & w' & -> & _ & -> & _)]; [|done].
  by destruct (phase_one_cases env i (with_ctx w1 c)) as [(p1 & _ & ->)|(e & _ & w' & -> & _ & -> & _)].
Qed.

Lemma until_token_config env w :
  same_config (w_proxy w) (w_proxy match first_wait env w with
                                   | Ok (w3, _) => w3 | Err (w', _) => w' end).
Proof. rewrite until_token_proxy. apply same_config_limiter. Qed.

Lemma machine_check_config env present w :
  same_config (w_proxy w) (during_lookup env (w_proxy w)) →
  same_config (w_proxy w) (w_proxy match check_machine env present w with
                                   | Ok wm => wm | Err (w', _) => w' end).
Proof.
  intros Hs.
  assert (∀ m0 m' c, px_machine (w_proxy w) = Some m0 →
    m' = set_dns_cache (default m0 (px_machine (during_lookup env (w_proxy w)))) c →
    same_config (w_proxy w) (set_px_machine (during_lookup env (w_proxy w)) (Some m'))) as Hset.
  { intros m0 m' c Hm ->. etrans; [exact Hs|].
    destruct (static_machine_some _ _ _ Hs Hm) as (m1 & Hm1 & _). rewrite Hm1.
    by apply same_config_machine. }
  destruct (machine_check_cases debug_str show_ip env present w)
    as [(p & c & -> & _ & Hp & _)|(m & e & m' & Hm & _ & [c Hc] & w' & -> & _ & -> & _)].
  - cbn. destruct Hp as [->|(m' & m0 & k & -> & Hm & Hk)]; [done|by eapply Hset].
  - by eapply Hset.
Qed.

Lemma phase_two_config env p1 w : same_config (w_proxy w) (w_proxy (phase_two env p1 w).1).
Proof.
  destruct (phase_two_cases' debug_str env p1 w)
    as [(w' & v & -> & _ & Hpx & Hco & _)|(w' & r & -> & _ & Hpx)]; cbn; rewrite Hpx; [|done].
  apply same_config_verifier. by eapply commit_nonce_key.
Qed.

(** ** Finished requests are runs of the filter

    [p0] is the proxy the server started with; only its configuration matters. *)

Section Runs.
Variable p0 : DenBrowserProxy.

Lemma same_as_p0 p q : same_config p0 p → same_config p0 q → same_config p q.
Proof. intros Hp Hq. by rewrite <-Hp. Qed.

(** How a job has got where it is, and what the others had left of the
    configuration when it met them. *)
Definition job_ok (j : Job) : Prop :=
  let env := j_env j in
  (fresh (j_start j) ∧ same_config p0 (w_proxy (j_start j))) ∧ same_config p0 (w_proxy (j_now j)) ∧
  ∃ w3, first_wait env (j_start j) = Ok (w3, j_p1 j) ∧ same_config p0 (w_proxy w3) ∧
    let wd := with_proxy w3 (before_machine env (w_proxy w3)) in
    match j_wait j with
    | AfterToken => j_now j = w3
    | InCheck => j_now j = wd
    | AtBody =>
        same_config p0 (w_proxy wd) ∧ same_config p0 (during_lookup env (w_proxy wd)) ∧
        check_machine env (machine_present (j_start j)) wd = Ok (j_now j)
    end.

Record done_ok (d : Done) : Prop := {
  do_fresh : fresh (dn_start d);
  do_config : same_config p0 (w_proxy (dn_start d));
  do_run : request_filter debug_str show_ip (dn_env d) (dn_start d) = (dn_end d, dn_answered d);
  do_fits w3 p1 : first_wait (dn_env d) (dn_start d) = Ok (w3, p1) →
    env_fits debug_str show_ip (dn_env d) (dn_start d) w3;
  do_token : match dn_token d with
             | Some p1 => ∃ w3, first_wait (dn_env d) (dn_start d) = Ok (w3, p1)
             | None => dn_answered d = false → action (w_ctx (dn_end d)) = Some ActBypass
             end }.

Record server_ok (s : Server) : Prop := {
  so_config : same_config p0 (sv_proxy s);
  so_jobs : Forall job_ok (sv_jobs s);
  so_done : Forall done_ok (sv_done s) }.

Lemma finish_request_ok s env w out p1 js :
  server_ok s → Forall job_ok js → same_config p0 (w_proxy out.1) →
  done_ok {| dn_env := env; dn_start := w; dn_end := out.1; dn_answered := out.2; dn_token := p1 |} →
  server_ok (finish_request s env w out p1 js).
Proof.
  intros [_ _ Hd] Hj Hc Hn. split; [done..|]. apply Forall_app. by split; [|constructor].
Qed.

Lemma arrive_ok s w : fresh w → w_proxy w = sv_proxy s → server_ok s → server_ok (arrive s w).
Proof.
  intros Hf Hp Hs. unfold arrive. cbv zeta. set (env := met_nothing _).
  pose proof (until_token_config env w) as Hc. rewrite Hp in Hc.
  assert (same_config p0 (sv_proxy s)) as Hp0 by apply Hs.
  destruct (first_wait env w) as [[w3 p1]|[w' b]] eqn:E.
  - destruct Hs as [_ Hj Hd]. assert (same_config p0 (w_proxy w3)) by by etrans.
    split; [done| |done]. constructor; [|done].
    split; [split; [done|by cbn; rewrite Hp]|]. split; [done|]. by exists w3.
  - apply finish_request_ok; [by destruct Hs|apply Hs|by etrans|]. split; cbn; [done|by rewrite Hp| | |].
    + by rewrite filter_split, E.
    + intros ? ? E'. by rewrite E in E'.
    + intros ->. destruct (until_token_cases debug_str show_ip env w Hf)
        as [(?&?&?&E'&_)|(w1&b&E'&[? ? ? ? ? ? ? Ho]&_)]; rewrite E in E'; [done|].
      injection E' as <- <-. apply Ho.
Qed.

Lemma jobs_split (P : Job → Prop) j js1 js2 :
  Forall P (js1 ++ j :: js2) ↔ P j ∧ Forall P (js1 ++ js2).
Proof. rewrite !Forall_app, Forall_cons. tauto. Qed.

(** The environment fits a request all of whose meetings kept the configuration. *)
Lemma fits_from_config env w w3 :
  same_config p0 (w_proxy w3) → same_config p0 (before_machine env (w_proxy w3)) →
  let wd := with_proxy w3 (before_machine env (w_proxy w3)) in
  same_config p0 (during_lookup env (w_proxy wd)) →
  (∀ wm, check_machine env (machine_present w) wd = Ok wm →
     same_config p0 (during_body env (w_proxy wm))) →
  env_fits debug_str show_ip env w w3.
Proof.
  intros Hw3 Hb wd Hl Hbody. assert (same_config p0 (w_proxy wd)) as Hwd by done.
  split; [by apply same_as_p0|by apply same_as_p0|]. intros wm wd' E. subst wd'.
  pose proof (machine_check_config env (machine_present w) wd) as Hm. fold wd in E. rewrite E in Hm.
  apply same_as_p0; [|by apply Hbody]. etrans; [exact Hwd|]. by apply Hm, same_as_p0.
Qed.

Lemma check_done_ok s j r js :
  j_wait j = InCheck → job_ok j → server_ok s → Forall job_ok js →
  server_ok (go_on s j r js).
Proof.
  intros Hw ([Hf Hst] & Hn & w3 & E & Hw3 & Hnow) Hs Hj. unfold go_on. rewrite Hw in Hnow |- *. cbv zeta.
  set (env := meet_answer _ _ r _).
  assert (first_wait env (j_start j) = Ok (w3, j_p1 j)) as E' by exact E.
  assert (j_now j = with_proxy w3 (before_machine env (w_proxy w3))) as Hnow' by exact Hnow.
  assert (same_config p0 (before_machine env (w_proxy w3))) as Hb by (rewrite Hnow' in Hn; exact Hn).
  pose proof (so_config _ Hs) as Hp.
  pose proof (machine_check_config env (machine_present (j_start j)) (j_now j)) as Hm.
  specialize (Hm (same_as_p0 _ _ Hn Hp)).
  destruct (check_machine env _ (j_now j)) as [wm|[w' b]] eqn:Ec.
  - assert (same_config p0 (w_proxy wm)) by by (etrans; [exact Hn|]). split; [done| |apply Hs].
    constructor; [|done]. do 2 (split; [done|]). exists w3. do 2 (split; [done|]). cbn zeta.
    cbn [j_env j_wait]. by rewrite <-Hnow'.
  - apply finish_request_ok; [done..|by etrans; [exact Hn|]|]. split; cbn; [done..| | |by exists w3].
    + rewrite filter_split, E'. unfold after_token. cbv zeta. by rewrite <-Hnow', Ec.
    + intros w3' p1 Ew. rewrite E' in Ew. injection Ew as <- _.
      apply fits_from_config; try done. intros wm Ewm. by rewrite <-Hnow', Ec in Ewm.
Qed.

Lemma body_done_ok s j r js :
  j_wait j = AtBody → job_ok j → server_ok s → Forall job_ok js →
  server_ok (go_on s j r js).
Proof.
  intros Hw ([Hf Hst] & Hn & w3 & E & Hw3 & Hnow) Hs Hj. unfold go_on. rewrite Hw in Hnow |- *. cbv zeta.
  destruct Hnow as (Hb & Hl & Ec). set (env := meet_commit _ _ _).
  assert (first_wait env (j_start j) = Ok (w3, j_p1 j)) as E' by exact E.
  set (wd := with_proxy w3 (before_machine env (w_proxy w3))).
  assert (check_machine env (machine_present (j_start j)) wd = Ok (j_now j)) as Ec' by exact Ec.
  pose proof (so_config _ Hs) as Hp. set (wb := with_proxy (j_now j) (sv_proxy s)).
  apply finish_request_ok; [done..| |].
  - etrans; [exact Hp|]. exact (phase_two_config env (j_p1 j) wb).
  - split; cbn; [done..| | |by exists w3].
    + rewrite filter_split, E'. unfold after_token. cbv zeta. fold wd. rewrite Ec'. cbn.
      fold wb. by destruct (phase_two env (j_p1 j) wb).
    + intros w3' p1 Ew. rewrite E' in Ew. injection Ew as <- _. by apply fits_from_config.
Qed.

Lemma go_on_ok s j r js :
  job_ok j → server_ok s → Forall job_ok js → server_ok (go_on s j r js).
Proof.
  intros Hj Hs Hjs. destruct (j_wait j) eqn:Hw; [|by apply check_done_ok|by apply body_done_ok].
  unfold go_on. rewrite Hw. destruct Hj as ([Hf Hst] & Hn & w3 & E & Hw3 & Hnow). rewrite Hw in Hnow.
  split; [apply Hs| |apply Hs]. constructor; [|done]. split; [done|]. split; [apply Hs|].
  exists w3. cbn. split; [exact E|]. split; [done|]. by rewrite Hnow.
Qed.

Lemma resume_ok s s' : resume s s' → server_ok s → server_ok s'.
Proof.
  intros [js1 j js2 r Hjs] Hs. pose proof (so_jobs _ Hs) as Hj. rewrite Hjs in Hj.
  apply jobs_split in Hj as [Hj Hjs']. by apply go_on_ok.
Qed.

Lemma server_step_ok tol s s' : server_step tol s s' → server_ok s → server_ok s'.
Proof.
  intros [clk _ _ _|w Hf Hp|s'' Hr] Hs.
  - by destruct Hs.
  - by apply arrive_ok.
  - by eapply resume_ok.
Qed.

Lemma server_reachable_ok tol s : server_reachable tol p0 s → server_ok s.
Proof.
  intros (clk & _ & _ & Hr). assert (server_ok (server_start p0 clk)) as Hi by done.
  induction Hr as [|s1 s2 s3 Hs _ IH]; [done|]. eauto using server_step_ok.
Qed.
End Runs.
End Server.
