(* ===== verification/ServerReplay.v ===== *)
(** The server against the replay system: the shared verifier, the tokens
    verified and the requests forwarded are one run of [Replay.v], however the
    requests interleave; so no token goes upstream twice. *)

From S2P Require Import Prelude Net AuditTypes Attest AttestCache AttestToken Replay RateLimit RateLimitFacts MachineFacts Mtls Passthrough Machine AuditLog AuditTime AuditFacts Tls Proxy ProxyFacts ProxyStages ProxyServer.

Section Simulation.
Context `{Crypto, GlobOps, RateOps, IpNetOps, MachineTls, Calendar, HttpOps}.
Variables (debug_str : str → str) (show_ip : IpAddr → str).

Notation first_wait := (until_token debug_str show_ip).
Notation check_machine := (machine_check debug_str show_ip).
Notation step_of := (server_step debug_str show_ip).

(** ** The replay system behind the server *)

(** The acceptance a finished request stands for. *)
Definition acceptance (d : Done) : option Acceptance :=
  if dn_answered d then None
  else (λ p1, {| acc_nonce := p1_nonce p1; acc_ts := p1_ts p1;
                 acc_clock := clk_commit (dn_env d) |}) <$> dn_token d.

Record simulates (s : Server) (r : System) : Prop := {
  sm_verifier : sys_verifier r = verifier (sv_proxy s);
  sm_clock : sys_clock r = sv_clock s;
  sm_lead : sys_lead r = sv_lead s;
  sm_inflight : Forall (λ j, j_p1 j ∈ sys_inflight r) (sv_jobs s);
  sm_accepted : sys_accepted r = omap acceptance (sv_done s) }.

Lemma machine_check_verifier env present w :
  let v := verifier (during_lookup env (w_proxy w)) in
  match check_machine env present w with
  | Ok wm => verifier (w_proxy wm) = v
  | Err (w', up) => verifier (w_proxy w') = v ∧ up = true
  end.
Proof.
  cbv zeta. destruct (machine_check_cases debug_str show_ip env present w)
    as [(p & c & -> & _ & Hp & _)|(m & e & m' & _ & _ & _ & w' & -> & _ & -> & _)]; cbn; [|done].
  by destruct Hp as [->|(m' & m0 & k & -> & _)].
Qed.

Lemma omap_snoc (l : list Done) d :
  omap acceptance (l ++ [d]) = omap acceptance l ++ option_list (acceptance d).
Proof. rewrite omap_app. cbn. by destruct (acceptance d). Qed.

(** A request that ends without an acceptance leaves the replay system alone. *)
Lemma simulates_finish s r env w w' up p1 js :
  simulates s r → verifier (w_proxy w') = verifier (sv_proxy s) →
  (up = false → p1 = None) → Forall (λ j, j_p1 j ∈ sys_inflight r) js →
  simulates (finish_request s env w (w', up) p1 js) r.
Proof.
  intros [Hv Hc Hl Hi Ha] Hw Hup Hjs. constructor; cbn; try done; [by rewrite Hw|].
  rewrite omap_snoc, <-Ha. unfold acceptance. cbn.
  destruct up; cbn; [by rewrite app_nil_r|]. rewrite Hup by done. by rewrite app_nil_r.
Qed.

Lemma simulates_arrive tol s r w :
  fresh w → w_proxy w = sv_proxy s → simulates s r →
  ∃ r', rtc (step tol) r r' ∧ simulates (arrive debug_str show_ip s w) r'.
Proof.
  intros Hf Hp Hsim. unfold arrive. cbv zeta. set (env := met_nothing _).
  pose proof Hsim as [Hv Hc Hl Hi Ha].
  destruct (until_token_cases debug_str show_ip env w Hf)
    as [(w3 & p1 & i & -> & Htp)|(w' & b & -> & Hse & _)].
  - eexists. split.
    + eapply rtc_once, (step_phase_one _ _ i p1). rewrite Hv, Hc, <-Hp. apply Htp.
    + constructor; cbn; try done.
      * by rewrite (tp_verifier _ _ _ _ _ Htp), Hp.
      * constructor; [by left|]. eapply Forall_impl; [exact Hi|]. intros j Hj. by right.
  - exists r. split; [done|]. apply simulates_finish; [by constructor| |done..].
    cbn. by rewrite (se_verifier _ _ _ Hse), Hp.
Qed.

Lemma simulates_check s r j res js :
  j_wait j = InCheck → simulates s r → Forall (λ j, j_p1 j ∈ sys_inflight r) (j :: js) →
  simulates (go_on debug_str show_ip s j res js) r.
Proof.
  intros Hw Hsim [Hj Hjs]%Forall_cons. pose proof Hsim as [Hv Hc Hl Hi Ha].
  unfold go_on. rewrite Hw. cbv zeta. set (env := meet_answer _ _ res _).
  pose proof (machine_check_verifier env (machine_present (j_start j)) (j_now j)) as Hm.
  destruct (check_machine env _ (j_now j)) as [wm|[w' up]]; cbn in Hm.
  - constructor; cbn; try done; [by rewrite Hm|by constructor].
  - destruct Hm as [Hm ->]. by apply simulates_finish.
Qed.

Lemma simulates_body tol s r j res js :
  j_wait j = AtBody → simulates s r → Forall (λ j, j_p1 j ∈ sys_inflight r) (j :: js) →
  ∃ r', rtc (step tol) r r' ∧ simulates (go_on debug_str show_ip s j res js) r'.
Proof.
  intros Hw Hsim [Hj Hjs]%Forall_cons. pose proof Hsim as [Hv Hc Hl Hi Ha].
  unfold go_on. rewrite Hw. cbv zeta. set (env := meet_commit _ _ _). set (wb := with_proxy _ _).
  destruct (phase_two_cases' debug_str env (j_p1 j) wb)
    as [(w' & v & -> & _ & Hpx & Hco & _)|(w' & reason & -> & _ & Hpx)].
  - exists (record_commit r (j_p1 j) (commit_nonce (sys_verifier r) (sys_clock r) (j_p1 j))). split.
    + by apply rtc_once, step_commit_unbound.
    + cbn in Hco. rewrite Hv, Hc, <-Hco. constructor; cbn; try done.
      * by rewrite Hpx.
      * by rewrite omap_snoc, <-Ha, Hc.
  - exists r. split; [done|]. apply simulates_finish; [done|by rewrite Hpx|done..].
Qed.

Lemma simulates_step tol s s' r :
  step_of tol s s' → simulates s r → ∃ r', rtc (step tol) r r' ∧ simulates s' r'.
Proof.
  intros Hstep Hsim. pose proof Hsim as [Hv Hck Hld Hin Ha].
  destruct Hstep as [clk Hok Hi Hl|w Hf Hp|s' [js1 j js2 res Hjs]].
  - eexists. split.
    + apply rtc_once, (step_tick _ _ clk Hok); [by rewrite Hck|by rewrite Hld].
    + constructor; cbn; try done. by rewrite Hld.
  - by apply simulates_arrive.
  - rewrite Hjs in Hin. apply jobs_split in Hin as [Hj Hjs'].
    assert (Forall (λ j, j_p1 j ∈ sys_inflight r) (j :: js1 ++ js2)) as Hi by by constructor.
    destruct (j_wait j) eqn:Hw; [|exists r; split; [done|by apply simulates_check]|by apply simulates_body].
    exists r. split; [done|]. unfold go_on. rewrite Hw.
    constructor; cbn; try done. by constructor.
Qed.

Lemma server_simulated tol p s :
  server_reachable debug_str show_ip tol p s →
  ∃ r, reachable tol (private_key (verifier p)) r ∧ simulates s r.
Proof.
  intros (clk & Hok & Hcache & Hr). unfold reachable.
  assert (simulates (server_start p clk) (initial (private_key (verifier p)) clk)) as Hi.
  { constructor; cbn; try done. rewrite <-Hcache. by destruct (verifier p). }
  assert (∃ r, rtc (step tol) (initial (private_key (verifier p)) clk) r ∧ simulates s r)
    as (r & ? & ?); [|by eauto 6].
  revert Hi. generalize (initial (private_key (verifier p)) clk).
  induction Hr as [|s1 s2 s3 Hs _ IH]; intros r Hi; [by exists r|].
  destruct (simulates_step _ _ _ _ Hs Hi) as (r1 & Hr1 & Hsim1).
  destruct (IH _ Hsim1) as (r2 & ? & ?). exists r2. split; [by etrans|done].
Qed.

(** ** What the clients see *)

(** The request went upstream on its token. *)
Definition forwarded_on_token (d : Done) : Prop :=
  dn_answered d = false ∧ action (w_ctx (dn_end d)) = Some ActForward.

(** Two requests carry the same token: the same timestamp and nonce headers. *)
Definition same_token (d e : Done) : Prop :=
  let hs x := headers (ss_request (w_session (dn_start x))) in
  header_str (hs d) TS_HEADER = header_str (hs e) TS_HEADER ∧
  header_str (hs d) NONCE_HEADER = header_str (hs e) NONCE_HEADER.

Lemma forwarded_token p0 d :
  done_ok debug_str show_ip p0 d → forwarded_on_token d →
  ∃ p1 i v, dn_token d = Some p1 ∧ inputs_of (ss_request (w_session (dn_start d))) i ∧
            verify_headers v (clk_arrival (dn_env d)) i = Ok p1.
Proof.
  intros [Hf _ _ _ Ht] [Ha Hact]. destruct (dn_token d) as [p1|] eqn:E.
  - destruct Ht as [w3 Hw].
    destruct (until_token_cases debug_str show_ip (dn_env d) (dn_start d) Hf)
      as [(?&?&i&E'&Htp)|(?&?&E'&_)]; rewrite Hw in E'; [|done].
    injection E' as <- <-. exists p1, i. eexists. split; [done|]. split; apply Htp.
  - rewrite Ht in Hact; done.
Qed.

(** Phase 1's token is a function of the two headers. *)
Lemma verify_headers_token v v' clk clk' i i' p1 p1' :
  verify_headers v clk i = Ok p1 → verify_headers v' clk' i' = Ok p1' →
  in_ts i = in_ts i' → in_nonce_b64 i = in_nonce_b64 i' →
  (p1_nonce p1, p1_ts p1) = (p1_nonce p1', p1_ts p1').
Proof.
  unfold verify_headers. intros Hv Hv' Hts Hn. rewrite <-Hts, <-Hn in Hv'.
  inv_match Hv. inv_match Hv'. cbn in *. congruence.
Qed.

Lemma NoDup_omap_index {A B} (f : A → option B) l i j x y b :
  NoDup (omap f l) → l !! i = Some x → l !! j = Some y → f x = Some b → f y = Some b → i = j.
Proof.
  revert i j. induction l as [|a l IH]; intros i j Hnd Hi Hj Hx Hy; [done|].
  assert (∀ k z, l !! k = Some z → f z = Some b → f a = Some b → False) as Hne.
  { intros k z Hk Hz Ha. cbn in Hnd. rewrite Ha in Hnd. apply NoDup_cons in Hnd as [Hn _].
    apply Hn, list_elem_of_omap. exists z. split; [|done]. by eapply list_elem_of_lookup_2. }
  destruct i as [|i], j as [|j]; cbn in Hi, Hj; simplify_eq; [done|by edestruct Hne..|].
  f_equal. apply IH; try done. cbn in Hnd. destruct (f a); [|done]. by apply NoDup_cons in Hnd as [].
Qed.

(** Claim C1. However many requests the proxy serves at once, and however their
    arrivals, name lookups, bodies and the clock ticks interleave, no two of the
    requests it lets upstream on a token carry the same timestamp and nonce
    headers, as long as the wall clock never falls more than 59 s below its
    highest lead over the monotonic clock. *)
Theorem no_token_goes_upstream_twice tol p s :
  0 ≤ tol ≤ from_secs 59 → server_reachable debug_str show_ip tol p s →
  ∀ i j d e, sv_done s !! i = Some d → sv_done s !! j = Some e →
    forwarded_on_token d → forwarded_on_token e → same_token d e → i = j.
Proof.
  intros Htol Hs i j d e Hi Hj Hd He [Hts Hn].
  pose proof (so_done _ _ _ _ (server_reachable_ok _ _ _ _ _ Hs)) as Hok.
  rewrite Forall_lookup in Hok.
  destruct (forwarded_token p d (Hok _ _ Hi) Hd) as (p1 & i1 & v1 & Ht1 & [Hi1 Hn1] & Hv1).
  destruct (forwarded_token p e (Hok _ _ Hj) He) as (p2 & i2 & v2 & Ht2 & [Hi2 Hn2] & Hv2).
  assert ((p1_nonce p1, p1_ts p1) = (p1_nonce p2, p1_ts p2)) as Heq.
  { eapply verify_headers_token; [exact Hv1|exact Hv2|congruence|congruence]. }
  destruct (server_simulated _ _ _ Hs) as (r & Hr & Hsim).
  apply (reachable_inv _ _ _ Htol) in Hr as [_ _ _ _ _ _ Hu].
  rewrite (sm_accepted _ _ Hsim) in Hu.
  assert (acc_token <$> omap acceptance (sv_done s)
          = omap (λ x, acc_token <$> acceptance x) (sv_done s)) as Hmap.
  { generalize (sv_done s). intros l. induction l as [|x l IH]; [done|]. cbn.
    destruct (acceptance x); cbn; by rewrite IH. }
  rewrite Hmap in Hu. destruct Hd as [Ha _], He as [Hb _].
  eapply (NoDup_omap_index _ _ i j d e _ Hu Hi Hj).
  - unfold acceptance. by rewrite Ha, Ht1.
  - unfold acceptance. rewrite Hb, Ht2. unfold acc_token. cbn. by rewrite Heq.
Qed.

(** Claim C6. The interleaved server runs the filter: every finished request is
    one run of [request_filter] on the state it arrived at, in the environment
    it met, and the shared verifier, the tokens verified and the requests
    forwarded are always those of a run of the replay system. *)
Theorem server_refines_filter_and_replay tol p s :
  server_reachable debug_str show_ip tol p s →
  Forall (λ d, request_filter debug_str show_ip (dn_env d) (dn_start d)
                 = (dn_end d, dn_answered d)) (sv_done s) ∧
  ∃ r, reachable tol (private_key (verifier p)) r ∧ simulates s r.
Proof.
  intros Hs. split; [|by apply server_simulated].
  eapply Forall_impl; [exact (so_done _ _ _ _ (server_reachable_ok _ _ _ _ _ Hs))|]. by intros d [].
Qed.
End Simulation.

(** ** Requests served one after the other *)

Section Alone.
Context `{Crypto, GlobOps, RateOps, IpNetOps, MachineTls, Calendar, HttpOps}.
Variables (debug_str : str → str) (show_ip : IpAddr → str).

(** The environment of a request nothing interrupts. *)
Definition quiet (clk : Clock) (r : str → option (list IpAddr)) : Env :=
  {| clk_arrival := clk; dns_asked := instant clk; dns_found := instant clk; resolver := r;
     clk_commit := clk; before_machine := id; during_lookup := id; during_body := id |}.

Definition quiet_run (clk : Clock) (r : str → option (list IpAddr)) (w : World) : World * bool :=
  request_filter debug_str show_ip (quiet clk r) w.

(** What such a request leaves behind. *)
Definition alone (env : Env) (w : World) (out : World * bool) (p1 : option PhaseOne) : Done :=
  {| dn_env := env; dn_start := w; dn_end := out.1; dn_answered := out.2; dn_token := p1 |}.

(** A resumption of the newest job. *)
Lemma resume_first tol s j js r :
  sv_jobs s = j :: js → server_step debug_str show_ip tol s (go_on debug_str show_ip s j r js).
Proof. intros Hj. apply server_resume. by apply (resume_job debug_str show_ip s [] j js r). Qed.

(** What it meets: one time throughout, and the resolver [r], if it is asked. *)
Definition met_alone (clk : Clock) (r : str → option (list IpAddr)) (w : World) (env : Env) : Prop :=
  clk_arrival env = clk ∧ clk_commit env = clk ∧
  if until_token debug_str show_ip env w then resolver env = r else ∀ host, resolver env host = None.

Lemma serve_alone tol s w r :
  fresh w → w_proxy w = sv_proxy s →
  ∃ env p1, met_alone (sv_clock s) r w env ∧
    rtc (server_step debug_str show_ip tol) s
      (finish_request (note_arrival s w) env w (quiet_run (sv_clock s) r w) p1 (sv_jobs s)).
Proof.
  intros Hf Hp. unfold quiet_run. rewrite filter_split. unfold after_token. cbn zeta.
  pose proof (server_arrive debug_str show_ip tol s w Hf Hp) as Ha. revert Ha. unfold arrive. cbv zeta.
  change (until_token debug_str show_ip (quiet (sv_clock s) r) w)
    with (until_token debug_str show_ip (met_nothing (sv_clock s)) w).
  assert (∀ env, clk_arrival env = sv_clock s → until_token debug_str show_ip env w
    = until_token debug_str show_ip (met_nothing (sv_clock s)) w) as Hsame.
  { intros env Hc. unfold until_token, rate_limit, phase_one. by rewrite Hc. }
  destruct (until_token _ _ (met_nothing _) w) as [[w3 p1]|out] eqn:E; intros Ha.
  2: { exists (met_nothing (sv_clock s)), None. split; [|by apply rtc_once].
       unfold met_alone. by rewrite E. }
  set (s1 := with_jobs _ _ _) in Ha.
  pose proof (resume_first tol s1 _ _ r eq_refl) as Hb. cbn in Hb.
  set (s2 := with_jobs _ _ _) in Hb.
  pose proof (resume_first tol s2 _ _ r eq_refl) as Hm. revert Hm. unfold go_on. cbn [j_wait].
  cbv zeta. cbn [j_now j_start j_p1]. set (env2 := meet_answer _ _ _ _).
  change (machine_check debug_str show_ip (quiet (sv_clock s) r) (machine_present w)
            (with_proxy w3 (before_machine (quiet (sv_clock s) r) (w_proxy w3))))
    with (machine_check debug_str show_ip env2 (machine_present w) (with_proxy w3 (w_proxy w3))).
  assert (met_alone (sv_clock s) r w env2) as Hmet by (unfold met_alone; by rewrite Hsame).
  destruct (machine_check _ _ _ _ _) as [wm|out]; intros Hm.
  2: { exists env2, (Some p1). split; [exact Hmet|].
       eapply rtc_l; [exact Ha|]. eapply rtc_l; [exact Hb|by apply rtc_once]. }
  set (s3 := with_jobs s2 _ _) in Hm. pose proof (resume_first tol s3 _ _ r eq_refl) as Hc.
  eexists _, (Some p1).
  assert (met_alone (sv_clock s) r w (meet_commit env2 (sv_clock s) (w_proxy wm))) as Hmc
    by (unfold met_alone; by rewrite Hsame).
  split; [exact Hmc|]. eapply rtc_l; [exact Ha|]. eapply rtc_l; [exact Hb|].
  eapply rtc_l; [exact Hm|]. apply rtc_once. exact Hc.
Qed.

Lemma serve_two tol w1 w2 clk r :
  clock_ok clk → nonce_cache (verifier (w_proxy w1)) = empty_cache → fresh w1 → fresh w2 →
  w_proxy w2 = w_proxy (quiet_run clk r w1).1 →
  ∃ s e1 p1 e2 p2, server_reachable debug_str show_ip tol (w_proxy w1) s ∧
    sv_done s = [alone e1 w1 (quiet_run clk r w1) p1; alone e2 w2 (quiet_run clk r w2) p2] ∧
    sv_jobs s = [] ∧ met_alone clk r w1 e1 ∧ met_alone clk r w2 e2.
Proof.
  intros Hok Hc Hf1 Hf2 Hp.
  destruct (serve_alone tol (server_start (w_proxy w1) clk) w1 r) as (e1 & p1 & Hm1 & Hr1); [done..|].
  set (s1 := finish_request _ _ _ _ _ _) in Hr1.
  destruct (serve_alone tol s1 w2 r) as (e2 & p2 & Hm2 & Hr2); [done..|].
  set (s2 := finish_request (note_arrival s1 w2) _ _ _ _ _) in Hr2.
  exists s2, e1, p1, e2, p2. split; [|done]. exists clk. do 2 (split; [done|]). by etrans.
Qed.
End Alone.

Section Examples.
#[local] Existing Instances Toy.crypto Toy.laws ToyRate.globs ToyRate.ops ToyNet.nets ToyMachine.x509
  ToyMachine.tls Gregorian.calendar Gregorian.calendar_laws ToyHttp.http.

Definition sample_start : World := sample_world sample_ts sample_proxy.
Definition sample_served : World → World * bool := quiet_run quote ip_text Toy.clk dns.
Definition sample_again : World := sample_world sample_ts (w_proxy (sample_served sample_start).1).

Lemma sample_world_proxy ts p : w_proxy (sample_world ts p) = p.
Proof. done. Qed.

Lemma replayed_run_met :
  ∃ s e1 p1 e2 p2, server_reachable quote ip_text (from_secs 59) sample_proxy s ∧
    sv_done s = [alone e1 sample_start (sample_served sample_start) p1;
                 alone e2 sample_again (sample_served sample_again) p2] ∧
    sv_jobs s = [] ∧ met_alone quote ip_text Toy.clk dns sample_start e1 ∧
    met_alone quote ip_text Toy.clk dns sample_again e2.
Proof.
  apply (serve_two quote ip_text (from_secs 59) sample_start sample_again Toy.clk dns);
    [split; vm_compute; discriminate|done|apply sample_fresh|apply sample_fresh|].
  exact (sample_world_proxy sample_ts (w_proxy (sample_served sample_start).1)).
Qed.

Lemma replayed_run :
  ∃ s d1 d2, server_reachable quote ip_text (from_secs 59) sample_proxy s ∧ sv_done s = [d1; d2] ∧
    (∃ env p1, d1 = alone env sample_start (sample_served sample_start) p1) ∧
    (∃ env p1, d2 = alone env sample_again (sample_served sample_again) p1).
Proof.
  destruct replayed_run_met as (s & e1 & p1 & e2 & p2 & Hr & Hd & _). exists s.
  eexists _, _. do 2 (split; [done|]). split; by eexists _, _.
Qed.

Lemma sample_forwarded env p1 :
  forwarded_on_token (alone env sample_start (sample_served sample_start) p1).
Proof. split; vm_compute; reflexivity. Qed.

(** The first request goes upstream, and nothing after it with its token. *)
Lemma no_token_goes_upstream_twice_witness :
  ∃ s d1 d2, server_reachable quote ip_text (from_secs 59) sample_proxy s ∧
    sv_done s = [d1; d2] ∧ forwarded_on_token d1 ∧ same_token d1 d2 ∧ ¬ forwarded_on_token d2.
Proof.
  destruct replayed_run as (s & d1 & d2 & Hr & Hd & (e1 & p1 & ->) & (e2 & p2 & ->)).
  eexists s, _, _. do 2 (split; [done|]). split; [apply sample_forwarded|]. split; [done|]. intros Hf.
  assert (0 = 1)%nat as Heq; [|discriminate].
  eapply (no_token_goes_upstream_twice quote ip_text (from_secs 59) sample_proxy s
            ltac:(unfold from_secs, NANOS; lia) Hr 0%nat 1%nat);
    [by rewrite Hd|by rewrite Hd|apply sample_forwarded|exact Hf|done].
Defined.

Lemma server_refines_filter_and_replay_witness :
  ∃ s, server_reachable quote ip_text (from_secs 59) sample_proxy s ∧ length (sv_done s) = 2%nat ∧
    ∃ r, reachable (from_secs 59) (private_key Toy.verifier) r ∧ simulates s r.
Proof.
  destruct replayed_run as (s & d1 & d2 & Hr & Hd & _). exists s. split; [done|].
  split; [by rewrite Hd|]. exact (proj2 (server_refines_filter_and_replay quote ip_text _ _ s Hr)).
Defined.
End Examples.
