(* ===== verification/ServerRuns.v ===== *)
(** What the requests get from the server that runs many of them: each is checked
    by the configuration the server started with. *)

From S2P Require Import Prelude Net AuditTypes Attest AttestCache AttestToken Replay RateLimit RateLimitFacts MachineFacts Mtls Passthrough Machine AuditLog AuditTime AuditFacts Tls Proxy ProxyFacts ProxyStages ProxyServer ServerReplay.

Section Runs.
Context `{Crypto, GlobOps, RateOps, IpNetOps, MachineTls, Calendar, HttpOps}.
Variables (debug_str : str → str) (show_ip : IpAddr → str).

(** ** Every request is checked *)

Lemma done_outcome tol p s d :
  server_reachable debug_str show_ip tol p s → d ∈ sv_done s →
  same_config p (w_proxy (dn_start d)) ∧
  filter_outcome (dn_env d) (dn_start d) (dn_end d, dn_answered d).
Proof.
  intros Hs Hd. pose proof (so_done _ _ _ _ (server_reachable_ok _ _ _ _ _ Hs)) as Hok.
  rewrite Forall_forall in Hok. destruct (Hok d Hd) as [Hf Hc Hr Hfit _]. split; [done|].
  rewrite <-Hr. by apply filter_outcomes_fit.
Qed.

(** Claim C7. Every request the server finishes has been checked, however the
    others ran in between and with nothing assumed of them: it was let upstream
    inside its limits by the bypass or by its token, machine and body, or
    refused with its reason and at no cost to the replay cache; and the
    configuration it was checked against (bypass policy, keys, machine CA,
    upstream) is the one the server was started with. *)
Theorem served_requests_verified tol p s d :
  server_reachable debug_str show_ip tol p s → d ∈ sv_done s →
  same_config p (w_proxy (dn_start d)) ∧
  if dn_answered d then
    (∃ r, refused r (dn_end d)) ∧ others_only (dn_env d) (dn_start d) (dn_end d)
  else within_limits (dn_env d) (dn_start d) ∧
       (bypassed (dn_start d) (dn_end d) ∨
        ∃ i p1, attested (dn_env d) (dn_start d) (dn_end d) i p1).
Proof.
  intros Hs Hd. destruct (done_outcome tol p s d Hs Hd) as [Hc Ho]. split; [done|].
  cbn in Ho. destruct (dn_answered d); [|done]. destruct Ho as (r & ? & ?). eauto.
Qed.

(** ** The history *)

Lemma arrive_arrived s w :
  sv_arrived (arrive debug_str show_ip s w) = sv_arrived s ++ [(sv_clock s, w)].
Proof. unfold arrive. cbv zeta. by destruct (until_token _ _ _ w) as [[w3 p1]|out]. Qed.

Lemma go_on_arrived s j r js : sv_arrived (go_on debug_str show_ip s j r js) = sv_arrived s.
Proof. unfold go_on. destruct (j_wait j); [done| |done]. cbv zeta. by case_match. Qed.
End Runs.

(** ** Two requests, one refused *)

Section Examples.
#[local] Existing Instances Toy.crypto Toy.laws ToyRate.globs ToyRate.ops ToyNet.nets ToyMachine.x509
  ToyMachine.tls Gregorian.calendar Gregorian.calendar_laws ToyHttp.http.

(** Both requests of [replayed_run] were checked; one of them was refused. *)
Lemma served_requests_verified_witness :
  ∃ s d, server_reachable quote ip_text (from_secs 59) sample_proxy s ∧ d ∈ sv_done s ∧
    dn_answered d = true ∧ ∃ r, refused r (dn_end d).
Proof.
  destruct replayed_run as (s & d1 & d2 & Hr & Hd & _ & (env & p1 & Hd2)). exists s, d2.
  assert (d2 ∈ sv_done s) as Hin by (rewrite Hd; set_solver).
  assert (dn_answered d2 = true) as Ha by (rewrite Hd2; vm_compute; reflexivity).
  do 3 (split; [done|]).
  destruct (served_requests_verified quote ip_text (from_secs 59) sample_proxy s d2 Hr Hin) as [_ Ho].
  rewrite Ha in Ho. apply Ho.
Defined.

(** A request in flight. *)
Definition one_in_flight : Server :=
  arrive quote ip_text (server_start sample_proxy Toy.clk) sample_start.

Lemma one_in_flight_reachable : server_reachable quote ip_text 0 sample_proxy one_in_flight.
Proof.
  exists Toy.clk. split; [split; vm_compute; discriminate|]. split; [done|]. apply rtc_once.
  apply server_arrive; [apply sample_fresh|done].
Qed.
End Examples.
