(* ===== verification/ServerTypes.v ===== *)
(** The well-formedness of the state the requests share, kept by every step of
    the server: the replay cache is one ordered queue of 16-byte nonces and its
    set, the limits stay usable, the tokens in flight have their shapes. *)

From S2P Require Import Prelude Net AuditTypes Attest AttestCache AttestToken Replay RateLimit RateLimitFacts MachineFacts Mtls Passthrough Machine AuditLog AuditTime AuditFacts Tls Proxy ProxyFacts ProxyStages ProxyServer ServerReplay ServerRuns.

(** ** What a token looks like *)

Definition HASH_LEN : nat := 32.

Record token_typed (p1 : PhaseOne) : Prop := {
  tt_nonce : length (p1_nonce p1) = NONCE_LEN;
  tt_ts : is_i64 (p1_ts p1);
  tt_hash h : p1_body_binding p1 = HashBody h → length h = HASH_LEN }.

Lemma length_chunks2 {A} n (l : list A) : length l = (2 * n)%nat → length (chunks2 l) = n.
Proof.
  revert l. induction n as [|n IH]; intros [|a [|b l]] Hl; cbn in Hl; try lia; [done|].
  cbn. f_equal. apply IH. lia.
Qed.

Lemma parse_body_binding_hash field h :
  parse_body_binding field = Ok (HashBody h) → length h = HASH_LEN.
Proof.
  unfold parse_body_binding. destruct (decide _); [done|].
  destruct (negb _) eqn:Hl; [done|]. apply negb_false_iff, Nat.eqb_eq in Hl.
  destruct (try_map _ _) as [hash|] eqn:Hm; [|done]. intros [= <-].
  apply try_map_ok, Forall2_length in Hm. rewrite <-Hm. by apply length_chunks2.
Qed.

Lemma verify_headers_typed `{Crypto} v clk i p1 : verify_headers v clk i = Ok p1 → token_typed p1.
Proof.
  intros Hv. pose proof (verify_headers_ts _ _ _ _ Hv).
  apply verify_headers_facts in Hv as (raw & f & [_ _ _ Hlen _ _ _ _ _ Hb]).
  split; [done..|]. intros h Hh. rewrite Hh in Hb. by eapply parse_body_binding_hash.
Qed.

(** ** The shared state *)

Definition nonces_typed (now : Z) (q : list (str * Z)) : Prop :=
  Forall (λ e, length e.1 = NONCE_LEN ∧ e.2 ≤ now) q.

Definition limits_wf `{GlobOps, RateLaws} (rl : RateLimiter) : Prop :=
  (∀ u, universal rl = Some u → limit_wf u) ∧ Forall (λ r, limit_wf (limit r)) (rules rl).

Record proxy_typed `{Crypto, GlobOps, RateLaws, IpNetOps, MachineTls} (now : Z)
    (p : DenBrowserProxy) : Prop := {
  pt_cache : cache_wf (nonce_cache (verifier p));
  pt_nonces : nonces_typed now (expiry (nonce_cache (verifier p)));
  pt_limits rl : rate_limiter p = Some rl → limits_wf rl }.

Lemma nonces_typed_later now now' q : now ≤ now' → nonces_typed now q → nonces_typed now' q.
Proof. intros Hle Hq. eapply Forall_impl; [exact Hq|]. intros e []. split; [done|lia]. Qed.

Lemma evict_typed now t c :
  nonces_typed now (expiry c) → nonces_typed now (expiry (evict_expired t c)).
Proof. intros Hn. rewrite evict_expired_eq. by apply Forall_drop. Qed.

Lemma commit_nonce_typed `{Crypto} v clk p1 :
  token_typed p1 → cache_wf (nonce_cache v) → nonces_typed (instant clk) (expiry (nonce_cache v)) →
  let v' := (commit_nonce v clk p1).1 in
  cache_wf (nonce_cache v') ∧ nonces_typed (instant clk) (expiry (nonce_cache v')).
Proof.
  intros [Hlen _ _] Hwf Hn. unfold commit_nonce. destruct (cache_contains _ _); [done|].
  destruct (check_commit_window _ _); [|done]. unfold cache_commit.
  pose proof (evict_wf (instant clk) _ Hwf) as Hwf'.
  pose proof (evict_typed _ (instant clk) _ Hn) as Hn'. set (c := evict_expired _ _) in *.
  destruct (cache_contains c _) eqn:Hc; cbn; [done|]. split.
  - apply insert_wf; [done..|]. eapply Forall_impl; [exact Hn'|]. by intros e [].
  - apply Forall_app. split; [done|]. repeat constructor; cbn; [done|lia].
Qed.

Section Limits.
Context `{GlobOps, RateLaws}.

Lemma admit_rules_wf rs now ip target :
  Forall (λ r, limit_wf (limit r)) rs →
  Forall (λ r, limit_wf (limit r)) (admit_rules rs now ip target).1.
Proof.
  induction 1 as [|r rs Hr Hrs IH]; [done|]. cbn. destruct (is_match _ _).
  - pose proof (admit_wf _ now ip Hr) as Hw. destruct (Limit_admit _ _ _). by constructor.
  - destruct (admit_rules _ _ _ _). by constructor.
Qed.

Lemma limiter_admit_wf rl now ip target :
  limits_wf rl → limits_wf (RateLimiter_admit rl now ip target).1.
Proof.
  intros [Hu Hr]. unfold RateLimiter_admit.
  pose proof (admit_rules_wf _ now ip target Hr) as Hrs.
  destruct (universal rl) as [u|].
  - pose proof (admit_wf u now ip (Hu u eq_refl)) as Hw. destruct (Limit_admit u now ip) as [u' []]; cbn in *.
    + destruct (admit_rules _ _ _ _); cbn in *. split; cbn; [by intros ? [= <-]|done].
    + split; cbn; [by intros ? [= <-]|done].
  - destruct (admit_rules _ _ _ _); cbn in *. by split.
Qed.
End Limits.

(** ** Every step keeps it *)

Section Types.
Context `{Crypto, GlobOps, RateLaws, IpNetOps, MachineTls, Calendar, HttpOps}.
Variables (debug_str : str → str) (show_ip : IpAddr → str).

Notation first_wait := (until_token debug_str show_ip).
Notation check_machine := (machine_check debug_str show_ip).

Record server_typed (s : Server) : Prop := {
  st_proxy : proxy_typed (instant (sv_clock s)) (sv_proxy s);
  st_tokens : Forall (λ j, token_typed (j_p1 j)) (sv_jobs s) }.

(** A change of the machine's state alone keeps the types. *)
Lemma proxy_typed_as now p q :
  verifier q = verifier p → rate_limiter q = rate_limiter p →
  proxy_typed now p → proxy_typed now q.
Proof. intros Hv Hl []. split; by rewrite ?Hv, ?Hl. Qed.

Lemma arrive_typed s w :
  fresh w → w_proxy w = sv_proxy s → server_typed s → server_typed (arrive debug_str show_ip s w).
Proof.
  intros Hf Hp [Hpx Hj]. unfold arrive. cbv zeta. set (env := met_nothing _).
  pose proof (until_token_proxy debug_str show_ip env w) as Hq. rewrite Hp in Hq.
  assert (proxy_typed (instant (sv_clock s)) (set_rate_limiter (sv_proxy s) (limiter_after env w))) as Hpx'.
  { destruct Hpx as [Hc Hn Hl]. split; [done..|]. cbn. unfold limiter_after. rewrite Hp. intros l.
    destruct (rate_limiter (sv_proxy s)) as [limiter|]; [|done].
    destruct (client_ip _); intros [= <-]; [by apply limiter_admit_wf, Hl|by apply Hl]. }
  destruct (until_token_cases debug_str show_ip env w Hf)
    as [(w3 & p1 & i & E & Htp)|(w' & b & E & _)]; rewrite E in Hq |- *; split; cbn; rewrite ?Hq; try done.
  constructor; [|done]. by eapply verify_headers_typed, Htp.
Qed.

Lemma check_typed s j r js :
  j_wait j = InCheck → server_typed s → Forall (λ j, token_typed (j_p1 j)) (j :: js) →
  server_typed (go_on debug_str show_ip s j r js).
Proof.
  intros Hw [Hpx _] [Hj Hjs]%Forall_cons. unfold go_on. rewrite Hw. cbv zeta.
  set (env := meet_answer _ _ r _).
  assert (proxy_typed (instant (sv_clock s)) (w_proxy
    match check_machine env (machine_present (j_start j)) (j_now j) with
    | Ok wm => wm | Err (w', _) => w' end)) as Hq.
  { eapply proxy_typed_as; [..|exact Hpx];
      destruct (machine_check_cases debug_str show_ip env (machine_present (j_start j)) (j_now j))
        as [(p & c & -> & _ & [->|(m' & m0 & k & -> & _)] & _)|(m & e & m' & _ & _ & _ & w' & -> & _ & -> & _)];
      done. }
  destruct (check_machine _ _ _) as [wm|[w' b]]; split; cbn; try done. by constructor.
Qed.

Lemma body_typed s j r js :
  j_wait j = AtBody → server_typed s → Forall (λ j, token_typed (j_p1 j)) (j :: js) →
  server_typed (go_on debug_str show_ip s j r js).
Proof.
  intros Hw [Hpx _] [Hj Hjs]%Forall_cons. unfold go_on. rewrite Hw. cbv zeta.
  set (env := meet_commit _ _ _). set (wb := with_proxy _ _). split; [|done]. cbn.
  destruct (phase_two_cases' debug_str env (j_p1 j) wb)
    as [(w' & v & -> & _ & Hq & Hco & _)|(w' & reason & -> & _ & Hq)]; cbn; rewrite Hq; [|done].
  destruct Hpx as [Hc Hn Hl].
  pose proof (commit_nonce_typed (verifier (sv_proxy s)) (sv_clock s) (j_p1 j) Hj Hc Hn) as Hcv.
  cbn in Hco. rewrite <-Hco in Hcv. by split; [apply Hcv..|].
Qed.

Lemma server_step_typed tol s s' :
  server_step debug_str show_ip tol s s' → server_typed s → server_typed s'.
Proof.
  intros Hstep Hs. destruct Hstep as [clk _ Hi _|w Hf Hp|s' [js1 j js2 r Hjs]].
  - destruct Hs as [[Hc Hn Hl] Hj]. split; [split|]; cbn; try done. by eapply nonces_typed_later.
  - by apply arrive_typed.
  - pose proof Hs as [Hpx Hj]. rewrite Hjs in Hj. apply jobs_split in Hj as [Hj Hjs'].
    assert (Forall (λ j, token_typed (j_p1 j)) (j :: js1 ++ js2)) as Hall by by constructor.
    destruct (j_wait j) eqn:Hw; [|by apply check_typed|by apply body_typed].
    unfold go_on. rewrite Hw. split; cbn; [done|by constructor].
Qed.

(** Claim C13. The shared state stays well-formed whatever requests arrive and
    however they interleave: the replay cache is a queue of 16-byte nonces in
    the order of their commits, none from the future, and exactly their set; the
    limits stay usable; every token in flight has a 16-byte nonce, an [i64]
    timestamp and a 32-byte hash if any; and the configuration is the one the
    server was started with. *)
Theorem server_state_well_typed tol p s :
  (∀ rl, rate_limiter p = Some rl → limits_wf rl) →
  server_reachable debug_str show_ip tol p s →
  server_typed s ∧ same_config p (sv_proxy s).
Proof.
  intros Hl Hs. split; [|exact (so_config _ _ _ _ (server_reachable_ok _ _ _ _ _ Hs))].
  destruct Hs as (clk & _ & Hc & Hr).
  assert (server_typed (server_start p clk)) as Hi.
  { split; [|by constructor]. split; cbn; [rewrite Hc|rewrite Hc|done].
    - split; cbn; [done|constructor|constructor].
    - constructor. }
  induction Hr as [|s1 s2 s3 Hs _ IH]; [done|]. eauto using server_step_typed.
Qed.
End Types.

Section Examples.
#[local] Existing Instances Toy.crypto Toy.laws ToyRate.globs ToyRate.ops ToyRate.laws ToyNet.nets
  ToyMachine.x509 ToyMachine.tls Gregorian.calendar Gregorian.calendar_laws ToyHttp.http.

Lemma sample_limits : limits_wf sample_limiter.
Proof.
  destruct sample_limiter_ok as [Hu Hr]. split; [intros u Hu'; by apply Hu|].
  apply Forall_lookup. intros j r Hj. by apply (Hr j).
Qed.

Lemma server_state_well_typed_witness :
  server_typed one_in_flight ∧ length (sv_jobs one_in_flight) = 1%nat.
Proof.
  split; [|vm_compute; reflexivity].
  apply (server_state_well_typed quote ip_text 0 sample_proxy one_in_flight);
    [|exact one_in_flight_reachable].
  intros rl [= <-]. exact sample_limits.
Defined.
End Examples.
