(* ===== verification/ServerDns.v ===== *)
(** The machine's address behind the server: the DNS cache is shared by all
    requests, and still a machine's certificate lets a request upstream only
    from an address the resolver gave for the certificate's name. *)

From S2P Require Import Prelude Net AuditTypes Attest AttestCache AttestToken Replay RateLimit RateLimitFacts MachineFacts Mtls Passthrough Machine AuditLog AuditTime AuditFacts Tls Proxy ProxyFacts ProxyStages ProxyServer ServerReplay ServerRuns.

(** The answers known so far: host, addresses and the time they came. *)
Abbreviation Known := (str → list IpAddr → Z → Prop).

(** ** One verification *)

Section Verify.
Context `{Crypto, GlobOps, IpNetOps, MachineTls}.

Definition cache_known (K : Known) (m : MachineIdentity) : Prop :=
  ∀ host e, dns_cache m !! host = Some e → K host (addrs e) (fetched e).

(** The addresses a request was checked against: the resolver's answer to this
    request, or an answer to some request, young enough. *)
Definition answer_used (K : Known) (m : MachineIdentity) (asked found : Z)
    (r : str → option (list IpAddr)) (host : str) (addrs : list IpAddr) : Prop :=
  r host = Some addrs ∨
  ∃ t, K host addrs t ∧
    (duration_since asked t < dns_ttl m ∨
     (r host = None ∧ duration_since found t < dns_ttl m + dns_stale_grace m)).

Lemma verify_cache_known (K : Known) m during asked found r cert ip :
  cache_known K (during m) → (∀ host a, r host = Some a → K host a found) →
  cache_known K (verify m during asked found r cert ip).1.
Proof.
  intros Hd Hr. unfold verify. destruct ip as [ip|]; [|done].
  destruct (verify_cert m cert) as [vm|]; [|done]. unfold resolve_cached.
  destruct (resolve_start _ _ _); cbn; [done|]. unfold resolve_finish.
  destruct (r (hostname vm)) as [a|] eqn:Ha; cbn.
  - intros host e [[-> ->]|(_ & Hl & _)]%store_lookup; [by apply Hr|by apply Hd].
  - repeat case_match; by simplify_eq.
Qed.

Lemma verify_cert_static m m' cert :
  set_dns_cache m' ∅ = set_dns_cache m ∅ → verify_cert m' cert = verify_cert m cert.
Proof.
  intros Hs.
  change (verify_cert (set_dns_cache m' ∅) cert = verify_cert (set_dns_cache m ∅) cert).
  by rewrite Hs.
Qed.

(** A success rests on a known answer that has the client's address. *)
Lemma verify_answer_used (K : Known) m m0 during asked found r cert ip vm :
  set_dns_cache m0 ∅ = set_dns_cache m ∅ → set_dns_cache (during m0) ∅ = set_dns_cache m ∅ →
  cache_known K m0 → cache_known K (during m0) →
  (verify m0 during asked found r cert ip).2 = Ok vm →
  verify_cert m cert = Ok vm ∧
  ∃ a addrs, ip = Some a ∧ a ∈ addrs ∧ answer_used K m asked found r (hostname vm) addrs.
Proof.
  intros Hs0 Hsd Hk0 Hkd. unfold verify. destruct ip as [a|]; [|done].
  rewrite (verify_cert_static _ _ _ Hs0). destruct (verify_cert m cert) as [vm'|]; [|done].
  destruct (resolve_cached _ _ _ _ _ _) as [m' ans] eqn:E. cbn. unfold forward_check.
  destruct ans as [addrs|]; [|done]. case_bool_decide as Hin; [|by case_match].
  intros [= <-]. split; [done|]. exists a, addrs. do 2 (split; [done|]). unfold answer_used.
  assert (dns_ttl m0 = dns_ttl m) as Ht by exact (f_equal dns_ttl Hs0).
  assert (dns_ttl (during m0) = dns_ttl m) as Htd by exact (f_equal dns_ttl Hsd).
  assert (dns_stale_grace (during m0) = dns_stale_grace m) as Hg by exact (f_equal dns_stale_grace Hsd).
  unfold resolve_cached in E. destruct (resolve_start m0 asked _) as [l|] eqn:Es.
  - injection E as _ ->. right. unfold resolve_start in Es.
    destruct (dns_cache m0 !! _) as [e|] eqn:He; [|done]. case_match eqn:Hlt; [|done].
    injection Es as <-. exists (fetched e). split; [by apply Hk0|]. left.
    unfold is_negative, elapsed in Hlt. destruct (Machine.addrs e); [set_solver|].
    cbn [is_empty] in Hlt. to_prop. lia.
  - unfold resolve_finish in E. destruct (r (hostname vm')) as [l|]; [left; congruence|right].
    destruct (dns_cache (during m0) !! _) as [e|] eqn:He; [|done]. case_match eqn:Hlt; [|done].
    injection E as _ <-. exists (fetched e). split; [by apply Hkd|]. right. split; [done|].
    apply andb_true_iff in Hlt as [_ Hlt]. to_prop. unfold elapsed in Hlt. lia.
Qed.
End Verify.

(** ** The server *)

Section Server.
Context `{Crypto, GlobOps, RateOps, IpNetOps, MachineTls, Calendar, HttpOps}.
Variables (debug_str : str → str) (show_ip : IpAddr → str).

Notation first_wait := (until_token debug_str show_ip).
Notation check_machine := (machine_check debug_str show_ip).

(** The environments met so far, and the answers the resolver gave in them. *)
Definition envs (s : Server) : list Env := (j_env <$> sv_jobs s) ++ (dn_env <$> sv_done s).

Definition given (l : list Env) : Known := λ host addrs t,
  ∃ env, env ∈ l ∧ resolver env host = Some addrs ∧ dns_found env = t.

Definition proxy_known (K : Known) (p : DenBrowserProxy) : Prop :=
  ∀ m, px_machine p = Some m → cache_known K m.

(** A machine certificate was presented to a proxy that checks them: it verified,
    and the client has an address the resolver gave for its name. *)
Definition machine_answered (K : Known) (env : Env) (w : World) : Prop :=
  ∀ m, px_machine (w_proxy w) = Some m → machine_present w = true →
    ∃ cert vm a addrs,
      header_str (headers (ss_request (w_session w))) MACHINE_CERT_HEADER = Some cert ∧
      verify_cert m cert = Ok vm ∧ client_ip (w_session w) = Some a ∧ a ∈ addrs ∧
      answer_used K m (dns_asked env) (dns_found env) (resolver env) (hostname vm) addrs.

Definition no_answer (env : Env) : Prop := ∀ host, resolver env host = None.

Definition job_known (K : Known) (j : Job) : Prop :=
  match j_wait j with
  | AfterToken => no_answer (j_env j)
  | InCheck => no_answer (j_env j) ∧ proxy_known K (w_proxy (j_now j))
  | AtBody => machine_answered K (j_env j) (j_start j)
  end.

Definition done_known (K : Known) (d : Done) : Prop :=
  forwarded_on_token d → machine_answered K (dn_env d) (dn_start d).

Record dns_ok (s : Server) : Prop := {
  dk_proxy : proxy_known (given (envs s)) (sv_proxy s);
  dk_jobs : Forall (job_known (given (envs s))) (sv_jobs s);
  dk_done : Forall (done_known (given (envs s))) (sv_done s) }.

(** More answers never hurt. *)
Definition Known_le (K K' : Known) : Prop := ∀ host addrs t, K host addrs t → K' host addrs t.

Lemma proxy_known_more K K' p : Known_le K K' → proxy_known K p → proxy_known K' p.
Proof. intros Hle Hp m Hm host e He. by apply Hle, (Hp m Hm). Qed.

Lemma machine_answered_more K K' env w :
  Known_le K K' → machine_answered K env w → machine_answered K' env w.
Proof.
  intros Hle Hw m Hm Hp. destruct (Hw m Hm Hp) as (cert & vm & a & addrs & ? & ? & ? & ? & Hu).
  exists cert, vm, a, addrs. do 4 (split; [done|]). destruct Hu as [|(t & ? & ?)]; [by left|right].
  exists t. split; [by apply Hle|done].
Qed.

Lemma job_known_more K K' j : Known_le K K' → job_known K j → job_known K' j.
Proof.
  intros Hle. unfold job_known. destruct (j_wait j); [done| |by apply machine_answered_more].
  intros []. split; [done|by eapply proxy_known_more].
Qed.

Lemma done_known_more K K' d : Known_le K K' → done_known K d → done_known K' d.
Proof. intros Hle Hd Hf. by eapply machine_answered_more, Hd. Qed.

Definition same_answer (e e' : Env) : Prop :=
  resolver e' = resolver e ∧ dns_found e' = dns_found e.

Lemma given_more l l' :
  (∀ e, e ∈ l → no_answer e ∨ ∃ e', e' ∈ l' ∧ same_answer e e') → Known_le (given l) (given l').
Proof.
  intros Hl host addrs t (env & Hin & Hr & Ht). destruct (Hl env Hin) as [Hno|(e' & ? & Hre & Hte)].
  - by rewrite Hno in Hr.
  - exists e'. by rewrite Hre, Hte.
Qed.

Lemma kept (l : list Env) e : e ∈ l → ∃ e', e' ∈ l ∧ same_answer e e'.
Proof. intros He. by exists e. Qed.

(** The parts of [dns_ok] survive in a state that knows more. *)
Lemma dns_ok_more s K :
  Known_le (given (envs s)) K → dns_ok s →
  proxy_known K (sv_proxy s) ∧ Forall (job_known K) (sv_jobs s) ∧ Forall (done_known K) (sv_done s).
Proof.
  intros Hle [Hp Hj Hd]. split; [by eapply proxy_known_more|]. split.
  - eapply Forall_impl; [exact Hj|]. intros. by eapply job_known_more.
  - eapply Forall_impl; [exact Hd|]. intros. by eapply done_known_more.
Qed.

(** What the machine check leaves in the cache, and what its success means. *)
Lemma machine_check_known (K : Known) env present w :
  proxy_known K (w_proxy w) → proxy_known K (during_lookup env (w_proxy w)) →
  (∀ host a, resolver env host = Some a → K host a (dns_found env)) →
  proxy_known K (w_proxy match check_machine env present w with
                         | Ok wm => wm | Err (w', _) => w' end).
Proof.
  intros Hw Hp Hr. unfold machine_check. cbv zeta. set (p := during_lookup env (w_proxy w)) in *.
  destruct (px_machine (w_proxy w)) as [m|] eqn:Hm; [|done]. destruct present; [|done].
  assert (cache_known K (default m (px_machine p))) as Hd.
  { destruct (px_machine p) as [m'|] eqn:Hm'; [by apply Hp|by apply Hw]. }
  set (o := match au_presented_cert _ with Some _ => _ | None => _ end).
  assert (cache_known K o.1) as Ho.
  { subst o. case_match; [|done]. by apply verify_cache_known. }
  clearbody o. destruct o as [m' [vm|e]]; cbn; by intros ? [= <-].
Qed.

Lemma machine_check_answered (K : Known) env w w3 wm :
  px_machine (w_proxy w3) = px_machine (w_proxy w) → w_session w3 = w_session w →
  au_presented_cert (w_ctx w3)
    = header_str (headers (ss_request (w_session w))) MACHINE_CERT_HEADER →
  same_config (w_proxy w3) (before_machine env (w_proxy w3)) →
  let wd := with_proxy w3 (before_machine env (w_proxy w3)) in
  same_config (w_proxy wd) (during_lookup env (w_proxy wd)) →
  proxy_known K (w_proxy wd) → proxy_known K (during_lookup env (w_proxy wd)) →
  check_machine env (machine_present w) wd = Ok wm → machine_answered K env w.
Proof.
  intros Hm Hs Hc Hb wd Hl Hkb Hkl E m Hpm Hmp. rewrite <-Hm in Hpm.
  destruct (static_machine_some _ _ _ Hb Hpm) as (m1 & Hm1 & Heq1).
  destruct (static_machine_some _ _ _ Hl Hm1) as (m2 & Hm2 & Heq2).
  destruct (machine_check_cases debug_str show_ip env (machine_present w) wd)
    as [(p & c & E' & _ & _ & Hver)|(?&?&?&_&_&_&?&E'&_)]; rewrite E in E'; [|done].
  destruct (Hver m1 Hm1 Hmp) as (cert & vm & m3 & Hce & _ & _ & Hok).
  set (during := λ m, default m (px_machine (during_lookup env (w_proxy wd)))) in Hok.
  assert (during m1 = m2) as Hdm by (subst during; cbn beta; by rewrite Hm2).
  assert (set_dns_cache m2 ∅ = set_dns_cache m ∅) as Heq by (etrans; [exact Heq2|exact Heq1]).
  apply (f_equal snd) in Hok. apply (verify_answer_used K m) in Hok
    as (Hvc & a & addrs & Ha & Hin & Hu); rewrite ?Hdm; auto.
  exists cert, vm, a, addrs. rewrite <-Hc, <-Hs. done.
Qed.
(** ** Every step keeps it *)

(** The new state knows what the old one did. *)
Lemma envs_split s js1 j js2 env :
  sv_jobs s = js1 ++ j :: js2 → env ∈ envs s → env = j_env j ∨ env ∈ j_env <$> js1 ++ js2 ∨
    env ∈ dn_env <$> sv_done s.
Proof. unfold envs. intros ->. rewrite !fmap_app, fmap_cons, !elem_of_app, elem_of_cons. tauto. Qed.

Lemma envs_finish s env w out p1 js e :
  e ∈ envs (finish_request s env w out p1 js) ↔
    e = env ∨ e ∈ j_env <$> js ∨ e ∈ dn_env <$> sv_done s.
Proof.
  unfold envs, finish_request. cbn [sv_jobs sv_done]. rewrite fmap_app, !elem_of_app.
  cbn. rewrite list_elem_of_singleton. tauto.
Qed.

Lemma envs_jobs s p j js e :
  e ∈ envs (with_jobs s p (j :: js)) ↔
    e = j_env j ∨ e ∈ j_env <$> js ∨ e ∈ dn_env <$> sv_done s.
Proof.
  unfold envs, with_jobs. cbn [sv_jobs sv_done]. rewrite fmap_cons, elem_of_app, elem_of_cons. tauto.
Qed.

Lemma arrive_dns_ok s w :
  fresh w → w_proxy w = sv_proxy s → dns_ok s → dns_ok (arrive debug_str show_ip s w).
Proof.
  intros Hf Hp Hs. unfold arrive. cbv zeta. set (env := met_nothing _).
  pose proof (until_token_proxy debug_str show_ip env w) as Hq. rewrite Hp in Hq.
  destruct (until_token_cases debug_str show_ip env w Hf)
    as [(w3 & p1 & i & E & _)|(w' & b & E & [_ _ _ _ _ _ _ Hout] & _)]; rewrite E in Hq |- *.
  - set (s' := with_jobs _ _ _).
    destruct (dns_ok_more s (given (envs s'))) as (Hp' & Hj' & Hd'); [|done|].
    { apply given_more. intros e He. right. apply kept, envs_jobs. right. by apply elem_of_app. }
    split; [change (sv_proxy s') with (w_proxy w3); by rewrite Hq|by constructor|done].
  - set (s' := finish_request _ _ _ _ _ _).
    destruct (dns_ok_more s (given (envs s'))) as (Hp' & Hj' & Hd'); [|done|].
    { apply given_more. intros e He. right. apply kept, envs_finish. right. by apply elem_of_app. }
    split; [change (sv_proxy s') with (w_proxy w'); by rewrite Hq|done|].
    apply Forall_app. split; [done|]. constructor; [|done].
    intros [Ha Hact]. cbn in Ha, Hact. subst b. destruct Hout as [Hb _]. congruence.
Qed.

Lemma job_start_facts p j :
  job_ok debug_str show_ip p j →
  ∃ w3, px_machine (w_proxy w3) = px_machine (w_proxy (j_start j)) ∧
    w_session w3 = w_session (j_start j) ∧
    au_presented_cert (w_ctx w3)
      = header_str (headers (ss_request (w_session (j_start j)))) MACHINE_CERT_HEADER ∧
    same_config p (w_proxy w3) ∧
    (j_wait j = InCheck → j_now j = with_proxy w3 (before_machine (j_env j) (w_proxy w3))).
Proof.
  intros ([Hf _] & _ & w3 & E & Hw3 & Hnow). exists w3.
  destruct (until_token_cases debug_str show_ip (j_env j) (j_start j) Hf)
    as [(w3' & p1 & i & E' & [? ? ? ? _ _ _ _])|(?&?&E'&_)]; rewrite E in E'; [|done].
  injection E' as <- _. do 4 (split; [done|]). intros Hw. by rewrite Hw in Hnow.
Qed.

Lemma check_dns_ok p s js1 j js2 r :
  sv_jobs s = js1 ++ j :: js2 → j_wait j = InCheck → server_ok debug_str show_ip p s → dns_ok s →
  dns_ok (go_on debug_str show_ip s j r (js1 ++ js2)).
Proof.
  intros Hjs Hw Hok Hs. pose proof (so_jobs _ _ _ _ Hok) as Hjo. pose proof (dk_jobs _ Hs) as Hjk.
  rewrite Hjs in Hjo, Hjk. apply jobs_split in Hjo as [Hjo _].
  apply jobs_split in Hjk as [Hjk _]. unfold job_known in Hjk. rewrite Hw in Hjk.
  destruct Hjk as [Hno Hkn]. pose proof (so_config _ _ _ _ Hok) as Hcs.
  pose proof Hjo as (_ & Hcn & _).
  destruct (job_start_facts p j Hjo) as (w3 & Hm3 & Hs3 & Hc3 & Hcw3 & Hnow). specialize (Hnow Hw).
  unfold go_on. rewrite Hw. cbv zeta. set (env := meet_answer _ _ r _).
  change (before_machine (j_env j)) with (before_machine env) in Hnow.
  assert (∀ l, env ∈ l → (∀ e, e ∈ j_env <$> js1 ++ js2 → e ∈ l) →
    (∀ e, e ∈ dn_env <$> sv_done s → e ∈ l) → Known_le (given (envs s)) (given l)) as Hle.
  { intros l He Hl1 Hl2. apply given_more. intros e Hin.
    destruct (envs_split _ _ _ _ _ Hjs Hin) as [->|[?|?]]; auto using kept. }
  assert (∀ l, env ∈ l → ∀ host a, resolver env host = Some a →
    given l host a (dns_found env)) as Hr by (intros l He host a Hr; by exists env).
  assert (∀ K, Known_le (given (envs s)) K → proxy_known K (w_proxy (j_now j)) ∧
    proxy_known K (during_lookup env (w_proxy (j_now j)))) as Hk
    by (intros K HK; split; [by eapply proxy_known_more|by eapply proxy_known_more, Hs]).
  pose proof (λ K HK, machine_check_known K env (machine_present (j_start j)) (j_now j)
    (proj1 (Hk K HK)) (proj2 (Hk K HK))) as Hmk.
  destruct (check_machine env _ (j_now j)) as [wm|[w' b]] eqn:Ec.
  - set (s' := with_jobs _ _ _).
    assert (Known_le (given (envs s)) (given (envs s'))) as HK
      by (apply Hle; intros; apply envs_jobs; auto).
    destruct (dns_ok_more s _ HK Hs) as (_ & Hj' & Hd'). rewrite Hjs in Hj'.
    apply jobs_split in Hj' as [_ Hj']. split; [apply Hmk; [done|apply Hr; left]| |done].
    constructor; [|done]. unfold job_known. cbn [j_wait j_env j_start]. destruct (Hk _ HK) as [Hk1 Hk2].
    rewrite Hnow in Hk1, Hk2, Ec, Hcn.
    eapply (machine_check_answered _ env (j_start j) w3 wm); try done.
    + exact (same_as_p0 p _ _ Hcw3 Hcn).
    + exact (same_as_p0 p _ _ Hcn Hcs).
  - set (s' := finish_request _ _ _ _ _ _).
    assert (env ∈ envs s') as He by (apply envs_finish; auto).
    assert (Known_le (given (envs s)) (given (envs s'))) as HK
      by (apply Hle; intros; apply envs_finish; auto).
    destruct (dns_ok_more s _ HK Hs) as (_ & Hj' & Hd'). rewrite Hjs in Hj'.
    apply jobs_split in Hj' as [_ Hj']. split; [by apply Hmk, Hr|done|].
    apply Forall_app. split; [done|]. constructor; [|done]. intros [Ha _]. cbn in Ha. subst b.
    pose proof (machine_check_verifier debug_str show_ip env (machine_present (j_start j)) (j_now j)) as Hv.
    rewrite Ec in Hv. by destruct Hv.
Qed.

Lemma body_dns_ok s js1 j js2 r :
  sv_jobs s = js1 ++ j :: js2 → j_wait j = AtBody → dns_ok s →
  dns_ok (go_on debug_str show_ip s j r (js1 ++ js2)).
Proof.
  intros Hjs Hw Hs. unfold go_on. rewrite Hw. cbv zeta. set (env := meet_commit _ _ _).
  set (out := phase_two _ _ _). set (s' := finish_request _ _ _ _ _ _).
  assert (Known_le (given (envs s)) (given (envs s'))) as HK.
  { apply given_more. intros e [->|He]%(envs_split _ _ _ _ _ Hjs); right;
      [|by apply kept, envs_finish; right].
    exists env. split; [by apply envs_finish; left|done]. }
  destruct (dns_ok_more s _ HK Hs) as (Hp' & Hj' & Hd'). rewrite Hjs in Hj'.
  apply jobs_split in Hj' as [Hj Hj']. unfold job_known in Hj. rewrite Hw in Hj.
  split; [|done|apply Forall_app; split; [done|]; constructor; [|done]; intros _; exact Hj].
  change (sv_proxy s') with (w_proxy out.1). subst out.
  destruct (phase_two_cases' debug_str env (j_p1 j) (with_proxy (j_now j) (sv_proxy s)))
    as [(w' & v & -> & _ & Hq & _)|(w' & reason & -> & _ & Hq)]; cbn; rewrite Hq; exact Hp'.
Qed.

Lemma enter_dns_ok s js1 j js2 r :
  sv_jobs s = js1 ++ j :: js2 → j_wait j = AfterToken → dns_ok s →
  dns_ok (go_on debug_str show_ip s j r (js1 ++ js2)).
Proof.
  intros Hjs Hw Hs. unfold go_on. rewrite Hw. set (s' := with_jobs _ _ _).
  pose proof (dk_jobs _ Hs) as Hj. rewrite Hjs in Hj. apply jobs_split in Hj as [Hj _].
  unfold job_known in Hj. rewrite Hw in Hj.
  assert (Known_le (given (envs s)) (given (envs s'))) as HK.
  { apply given_more. intros e [->|He]%(envs_split _ _ _ _ _ Hjs); [by left|right].
    by apply kept, envs_jobs; right. }
  destruct (dns_ok_more s _ HK Hs) as (Hp' & Hj' & Hd'). rewrite Hjs in Hj'.
  apply jobs_split in Hj' as [_ Hj']. split; [done| |done]. by constructor.
Qed.

Lemma server_step_dns_ok tol p s s' :
  server_step debug_str show_ip tol s s' → server_ok debug_str show_ip p s → dns_ok s → dns_ok s'.
Proof.
  intros Hstep Hok Hs. destruct Hstep as [clk _ _ _|w Hf Hp|s' [js1 j js2 r Hjs]].
  - by destruct Hs.
  - by apply arrive_dns_ok.
  - destruct (j_wait j) eqn:Hw; [by apply enter_dns_ok|by eapply check_dns_ok|by apply body_dns_ok].
Qed.

Lemma server_dns_ok tol p s :
  proxy_known (λ _ _ _, False) p → server_reachable debug_str show_ip tol p s → dns_ok s.
Proof.
  intros Hp (clk & _ & _ & Hr).
  assert (dns_ok (server_start p clk)) as Hi 
    by (split; [eapply proxy_known_more; [|exact Hp]; by intros ??? []|done..]).
  assert (server_ok debug_str show_ip p (server_start p clk)) as Ho by done.
  induction Hr as [|s1 s2 s3 Hs _ IH]; [done|].
  apply IH; [by eapply server_step_dns_ok|by eapply server_step_ok].
Qed.

Lemma forwarded_answered tol p s d :
  server_reachable debug_str show_ip tol p s → (∀ m, px_machine p = Some m → dns_cache m = ∅) →
  d ∈ sv_done s → forwarded_on_token d →
  machine_answered (given (envs s)) (dn_env d) (dn_start d).
Proof.
  intros Hs Hm Hd Hf. assert (dns_ok s) as [_ _ Hk].
  { eapply server_dns_ok; [|exact Hs]. intros m Hp host e He. by rewrite Hm, lookup_empty in He. }
  rewrite Forall_forall in Hk. by apply Hk.
Qed.

(** Claim C10. Where machine certificates are checked, a request that carries one
    goes upstream on its token only if that certificate verifies and the client's
    address is among those the resolver gave for the certificate's name: in
    answer to this very request, or, from the cache the requests share, in answer
    to some request less than the TTL ago, or less than the TTL and the grace
    period ago when the resolver failed this time. *)
Theorem machine_address_was_resolved tol p s d m :
  server_reachable debug_str show_ip tol p s → (∀ m, px_machine p = Some m → dns_cache m = ∅) →
  d ∈ sv_done s → forwarded_on_token d → machine_present (dn_start d) = true →
  px_machine (w_proxy (dn_start d)) = Some m →
  ∃ cert vm a addrs,
    header_str (headers (ss_request (w_session (dn_start d)))) MACHINE_CERT_HEADER = Some cert ∧
    verify_cert m cert = Ok vm ∧ client_ip (w_session (dn_start d)) = Some a ∧ a ∈ addrs ∧
    (resolver (dn_env d) (hostname vm) = Some addrs ∨
     ∃ e, e ∈ envs s ∧ resolver e (hostname vm) = Some addrs ∧
       (duration_since (dns_asked (dn_env d)) (dns_found e) < dns_ttl m ∨
        (resolver (dn_env d) (hostname vm) = None ∧
         duration_since (dns_found (dn_env d)) (dns_found e) < dns_ttl m + dns_stale_grace m))).
Proof.
  intros Hs Hm Hd Hf Hmp Hpm.
  destruct (forwarded_answered tol p s d Hs Hm Hd Hf m Hpm Hmp) as (cert & vm & a & addrs & ? & ? & ? & ? & Hu).
  exists cert, vm, a, addrs. do 4 (split; [done|]).
  destruct Hu as [|(t & (e & ? & ? & <-) & ?)]; [by left|right]. by exists e.
Qed.
End Server.

Section Examples.
#[local] Existing Instances Toy.crypto Toy.laws ToyRate.globs ToyRate.ops ToyNet.nets ToyMachine.x509
  ToyMachine.tls Gregorian.calendar Gregorian.calendar_laws ToyHttp.http.

(** The request of [ws1], from its address. *)
Lemma machine_address_was_resolved_witness :
  ∃ s d cert vm a (addrs : list IpAddr), server_reachable quote ip_text (from_secs 59) sample_proxy s ∧
    d ∈ sv_done s ∧ forwarded_on_token d ∧
    verify_cert fleet cert = Ok vm ∧ client_ip (w_session sample_start) = Some a ∧ a ∈ addrs.
Proof.
  destruct replayed_run as (s & d1 & d2 & Hr & Hd & (e1 & p1 & ->) & _).
  set (d := alone _ _ _ _) in *.
  assert (forwarded_on_token d) as Hf by apply sample_forwarded.
  assert (d ∈ sv_done s) as Hin by (rewrite Hd; left).
  destruct (machine_address_was_resolved quote ip_text (from_secs 59) sample_proxy s d fleet Hr)
    as (cert & vm & a & addrs & _ & Hv & Ha & Hi & _); [by intros m [= <-]|done..|].
  exists s, d, cert, vm, a, addrs. auto 8.
Defined.
End Examples.
