(* ===== verification/ServerHonest.v ===== *)
(** What an honest request gets from the server: the requests share the replay
    cache, the DNS cache and the limiter, and still none of them can keep an
    honest one from the upstream, unless it goes upstream itself on a token with
    the same nonce. *)

From S2P Require Import Prelude Net AuditTypes Attest AttestCache AttestToken Replay RateLimit RateLimitFacts MachineFacts Mtls Passthrough Machine AuditLog AuditTime AuditFacts Tls Proxy ProxyFacts ProxyStages ProxyHonest ProxyServer ServerReplay ServerRuns ServerDns.

Section Honest.
Context `{CryptoLaws, GlobOps, RateOps, IpNetOps, MachineTls, Calendar, HttpOps}.
Variables (debug_str : str → str) (show_ip : IpAddr → str).

Notation first_wait := (until_token debug_str show_ip).
Notation check_machine := (machine_check debug_str show_ip).
Notation step_of := (server_step debug_str show_ip).

(** ** Who has spent a nonce *)

(** A request of the history went upstream on a token with this nonce. *)
Definition spent (s : Server) (nonce : str) : Prop :=
  ∃ d p1, d ∈ sv_done s ∧ dn_answered d = false ∧ dn_token d = Some p1 ∧ p1_nonce p1 = nonce.

(** Every nonce of the proxy's replay cache is one of [S]. *)
Definition cache_in (S : str → Prop) (p : DenBrowserProxy) : Prop :=
  ∀ n, n ∈ seen (nonce_cache (verifier p)) → S n.

Lemma commit_nonce_seen v clk p1 v' r :
  commit_nonce v clk p1 = (v', r) →
  ∀ n, n ∈ seen (nonce_cache v') → n ∈ seen (nonce_cache v) ∨ n = p1_nonce p1.
Proof.
  unfold commit_nonce. destruct (cache_contains _ _); [intros [= <- _]; by left|].
  destruct (check_commit_window _ _); [|intros [= <- _]; by left].
  unfold cache_commit. rewrite evict_expired_eq. cbv zeta.
  destruct (cache_contains _ _); intros [= <- _] n; cbn; set_solver.
Qed.

(** ** What the requests have met *)

(** [S] the nonces spent, [K] the resolver's answers so far. *)
Record job_met (S : str → Prop) (K : Known) (j : Job) : Prop := {
  jm_start : cache_in S (w_proxy (j_start j));
  jm_check : j_wait j = AfterToken ∨ ∀ p, proxy_known K (before_machine (j_env j) p) }.

Record done_met (S : str → Prop) (K : Known) (d : Done) : Prop := {
  dm_start : cache_in S (w_proxy (dn_start d));
  dm_check w3 p1 : first_wait (dn_env d) (dn_start d) = Ok (w3, p1) →
    proxy_known K (before_machine (dn_env d) (w_proxy w3));
  dm_commit w3 p1 wm : first_wait (dn_env d) (dn_start d) = Ok (w3, p1) →
    check_machine (dn_env d) (machine_present (dn_start d))
      (with_proxy w3 (before_machine (dn_env d) (w_proxy w3))) = Ok wm →
    cache_in S (during_body (dn_env d) (w_proxy wm)) }.

Record met_ok (s : Server) : Prop := {
  mt_proxy : cache_in (spent s) (sv_proxy s);
  mt_jobs : Forall (job_met (spent s) (given (envs s))) (sv_jobs s);
  mt_done : Forall (done_met (spent s) (given (envs s))) (sv_done s) }.

(** The later state knows more answers and has spent more nonces. *)
Record grows (s s' : Server) : Prop := {
  gr_known : Known_le (given (envs s)) (given (envs s'));
  gr_done : ∃ l, sv_done s' = sv_done s ++ l }.

Lemma spent_more s s' n : grows s s' → spent s n → spent s' n.
Proof.
  intros [_ [l Hl]] (d & p1 & Hd & Hrest). exists d, p1. split; [|done]. rewrite Hl.
  apply elem_of_app. by left.
Qed.

Lemma cache_in_more s s' p : grows s s' → cache_in (spent s) p → cache_in (spent s') p.
Proof. intros Hg Hp n Hn. by eapply spent_more, Hp. Qed.

Lemma job_met_more s s' j :
  grows s s' → job_met (spent s) (given (envs s)) j → job_met (spent s') (given (envs s')) j.
Proof.
  intros Hg [Hs Hc]. split; [by eapply cache_in_more|]. destruct Hc as [?|Hc]; [by left|right].
  intros p. eapply proxy_known_more; [apply Hg|apply Hc].
Qed.

Lemma done_met_more s s' d :
  grows s s' → done_met (spent s) (given (envs s)) d → done_met (spent s') (given (envs s')) d.
Proof.
  intros Hg [Hs Hc Hb]. split.
  - by eapply cache_in_more.
  - intros w3 p1 E. eapply proxy_known_more; [apply Hg|by eapply Hc].
  - intros w3 p1 wm E Em. eapply cache_in_more; [done|by eapply Hb].
Qed.

(** A step has to account for the proxy, the job and the finished request it makes. *)
Lemma met_step s s' :
  grows s s' → met_ok s → cache_in (spent s') (sv_proxy s') →
  (∀ j, j ∈ sv_jobs s' → j ∈ sv_jobs s ∨ job_met (spent s') (given (envs s')) j) →
  (∀ d, d ∈ sv_done s' → d ∈ sv_done s ∨ done_met (spent s') (given (envs s')) d) →
  met_ok s'.
Proof.
  intros Hg [_ Hj Hd] Hp Hj' Hd'. rewrite Forall_forall in Hj. rewrite Forall_forall in Hd. split; [done|..]; apply Forall_forall.
  - intros j [Hin|?]%Hj'; [|done]. by eapply job_met_more, Hj.
  - intros d [Hin|?]%Hd'; [|done]. by eapply done_met_more, Hd.
Qed.

(** ** Every step keeps it *)

Lemma step_grows tol s s' : step_of tol s s' → dns_ok s → grows s s'.
Proof.
  intros Hstep Hok. destruct Hstep as [clk _ _ _|w _ _|s' [js1 j js2 r Hjs]].
  - split; [by intros ??? ?|]. exists []. by rewrite app_nil_r.
  - unfold arrive. cbv zeta. destruct (first_wait _ w) as [[w3 p1]|out]; split.
    + apply given_more. intros e He. right. apply kept, envs_jobs. right. by apply elem_of_app.
    + exists []. by rewrite app_nil_r.
    + apply given_more. intros e He. right. apply kept, envs_finish. right. by apply elem_of_app.
    + by eexists.
  - pose proof (dk_jobs _ Hok) as Hj. rewrite Hjs in Hj. apply jobs_split in Hj as [Hj _].
    unfold job_known in Hj. unfold go_on.
    assert (∀ l, (no_answer (j_env j) ∨ ∃ e', e' ∈ l ∧ same_answer (j_env j) e') →
      (∀ e, e ∈ j_env <$> js1 ++ js2 → e ∈ l) → (∀ e, e ∈ dn_env <$> sv_done s → e ∈ l) →
      Known_le (given (envs s)) (given l)) as Hle.
    { intros l He Hl1 Hl2. apply given_more. intros e [->|[?|?]]%(envs_split _ _ _ _ _ Hjs);
        auto using kept. }
    destruct (j_wait j); cbv zeta.
    + split; [|exists []; by rewrite app_nil_r]. apply Hle; [by left|..]; intros; apply envs_jobs; auto.
    + destruct Hj as [Hno _]. destruct (check_machine _ _ _) as [wm|out]; split.
      * apply Hle; [by left|..]; intros; apply envs_jobs; auto.
      * exists []. by rewrite app_nil_r.
      * apply Hle; [by left|..]; intros; apply envs_finish; auto.
      * by eexists.
    + split; [|by eexists]. apply Hle; [|intros; apply envs_finish; auto..]. right.
      eexists. split; [apply envs_finish; by left|done].
Qed.

Lemma cache_in_verifier S p q : verifier p = verifier q → cache_in S q → cache_in S p.
Proof. intros Hv Hq n. rewrite Hv. apply Hq. Qed.

Lemma arrive_met s w :
  fresh w → w_proxy w = sv_proxy s → grows s (arrive debug_str show_ip s w) → met_ok s →
  met_ok (arrive debug_str show_ip s w).
Proof.
  intros Hf Hp Hg Hs. pose proof (cache_in_more _ _ _ Hg (mt_proxy _ Hs)) as Hc.
  revert Hg Hc. unfold arrive. cbv zeta. set (env := met_nothing _).
  destruct (until_token_cases debug_str show_ip env w Hf)
    as [(w3 & p1 & i & E & Htp)|(w' & b & E & Hse & _)]; rewrite E; intros Hg Hc;
    (eapply met_step; [exact Hg|exact Hs|..]).
  - apply (cache_in_verifier _ _ (sv_proxy s)); [|exact Hc].
    cbn. rewrite <-Hp. apply Htp.
  - intros j [-> | ?]%elem_of_cons; [right|by left]. split; [by rewrite <-Hp in Hc|by left].
  - intros d Hd. by left.
  - apply (cache_in_verifier _ _ (sv_proxy s)); [|exact Hc].
    cbn. rewrite <-Hp. apply Hse.
  - intros j Hj. by left.
  - intros d [? | ->%list_elem_of_singleton]%elem_of_app; [by left|right]. split.
    + by rewrite <-Hp in Hc.
    + intros w3 p1 E'. cbn in E'. by rewrite E in E'.
    + intros w3 p1 wm E'. cbn in E'. by rewrite E in E'.
Qed.

Lemma enter_met s js1 j js2 r :
  let s' := go_on debug_str show_ip s j r (js1 ++ js2) in
  sv_jobs s = js1 ++ j :: js2 → j_wait j = AfterToken → dns_ok s → grows s s' → met_ok s →
  met_ok s'.
Proof.
  cbv zeta. unfold go_on. intros Hjs Hw Hdns. rewrite Hw. intros Hg Hs.
  pose proof (mt_jobs _ Hs) as Hj. rewrite Hjs in Hj. apply jobs_split in Hj as [Hj _].
  apply (job_met_more _ _ _ Hg) in Hj as [Hst _]. eapply met_step; [exact Hg|exact Hs|..].
  - exact (cache_in_more _ _ _ Hg (mt_proxy _ Hs)).
  - intros j' [-> | Hin]%elem_of_cons; [right|left; rewrite Hjs; set_solver].
    split; [exact Hst|]. right. intros p. eapply proxy_known_more; [apply Hg|apply Hdns].
  - intros d Hd. by left.
Qed.

Lemma check_met p0 s js1 j js2 r :
  let s' := go_on debug_str show_ip s j r (js1 ++ js2) in
  sv_jobs s = js1 ++ j :: js2 → j_wait j = InCheck → server_ok debug_str show_ip p0 s →
  grows s s' → met_ok s → met_ok s'.
Proof.
  cbv zeta. unfold go_on. intros Hjs Hw Hok. rewrite Hw. cbv zeta. intros Hg Hs.
  pose proof (mt_jobs _ Hs) as Hj. rewrite Hjs in Hj. apply jobs_split in Hj as [Hj _].
  apply (job_met_more _ _ _ Hg) in Hj as [Hst [?|Hck]]; [congruence|].
  pose proof (so_jobs _ _ _ _ Hok) as Hjo. rewrite Hjs in Hjo. apply jobs_split in Hjo as [Hjo _].
  destruct Hjo as (_ & _ & w3 & E3 & _ & Hnow). rewrite Hw in Hnow.
  pose proof (cache_in_more _ _ _ Hg (mt_proxy _ Hs)) as Hc. revert Hg Hst Hck Hc.
  set (env := meet_answer _ _ r _).
  pose proof (machine_check_verifier debug_str show_ip env (machine_present (j_start j)) (j_now j)) as Hv.
  cbv zeta in Hv. change (during_lookup env (w_proxy (j_now j))) with (sv_proxy s) in Hv.
  destruct (check_machine env _ (j_now j)) as [wm|[w' b]] eqn:Ec; intros Hg Hst Hck Hc;
    (eapply met_step; [exact Hg|exact Hs|..]).
  - by apply (cache_in_verifier _ _ (sv_proxy s)).
  - intros j' [-> | Hin]%elem_of_cons; [right|left; rewrite Hjs; set_solver].
    split; [exact Hst|]. right. exact Hck.
  - intros d Hd. by left.
  - apply (cache_in_verifier _ _ (sv_proxy s)); [apply Hv|exact Hc].
  - intros j' Hin. left. change (j' ∈ js1 ++ js2) in Hin. rewrite Hjs. set_solver.
  - intros d [? | ->%list_elem_of_singleton]%elem_of_app; [by left|right]. split; [exact Hst|..].
    + intros w3' p1 _. apply Hck.
    + intros w3' p1 wm E'. change (first_wait (j_env j) (j_start j) = Ok (w3', p1)) in E'.
      rewrite E3 in E'. injection E' as <- <-. cbn [dn_env dn_start].
      change (before_machine env) with (before_machine (j_env j)). rewrite <-Hnow, Ec. done.
Qed.

Lemma body_met s js1 j js2 r :
  let s' := go_on debug_str show_ip s j r (js1 ++ js2) in
  sv_jobs s = js1 ++ j :: js2 → j_wait j = AtBody → grows s s' → met_ok s → met_ok s'.
Proof.
  cbv zeta. unfold go_on. intros Hjs Hw. rewrite Hw. cbv zeta. intros Hg Hs.
  pose proof (mt_jobs _ Hs) as Hj. rewrite Hjs in Hj. apply jobs_split in Hj as [Hj _].
  apply (job_met_more _ _ _ Hg) in Hj as [Hst [?|Hck]]; [congruence|].
  pose proof (cache_in_more _ _ _ Hg (mt_proxy _ Hs)) as Hc. revert Hg Hst Hck Hc.
  set (env := meet_commit _ _ _). set (wb := with_proxy _ _). intros Hg Hst Hck Hc.
  eapply met_step; [exact Hg|exact Hs|..].
  - destruct (phase_two_cases' debug_str env (j_p1 j) wb)
      as [(w' & v & Eo & _ & Hpx & Hco & _)|(w' & reason & Eo & _ & Hpx)].
    + intros n Hn. change (n ∈ seen (nonce_cache (verifier (w_proxy (phase_two env (j_p1 j) wb).1)))) in Hn.
      rewrite Eo in Hn. cbn [fst] in Hn. rewrite Hpx in Hn. symmetry in Hco.
      destruct (commit_nonce_seen _ _ _ _ _ Hco n Hn) as [Hin| ->]; [by apply Hc|].
      eexists _, (j_p1 j). split; [apply elem_of_app; right; by apply list_elem_of_singleton|].
      cbn. by rewrite Eo.
    + apply (cache_in_verifier _ _ (sv_proxy s)); [|exact Hc]. cbn. rewrite Eo. cbn. by rewrite Hpx.
  - intros j' Hin. left. change (j' ∈ js1 ++ js2) in Hin. rewrite Hjs. set_solver.
  - intros d [? | ->%list_elem_of_singleton]%elem_of_app; [by left|right]. split; [exact Hst|..].
    + intros w3 p1 _. apply Hck.
    + intros w3 p1 wm _ _. exact Hc.
Qed.

Lemma server_met_ok tol p s :
  (∀ m, px_machine p = Some m → dns_cache m = ∅) → server_reachable debug_str show_ip tol p s →
  dns_ok s ∧ met_ok s.
Proof.
  intros Hm (clk & _ & Hcache & Hr).
  assert (dns_ok (server_start p clk)) as Hd.
  { split; [|done..]. intros m Hp host e He. by rewrite Hm, lookup_empty in He. }
  assert (met_ok (server_start p clk)) as Hi.
  { split; [|done..]. intros n. cbn. rewrite Hcache. cbn. set_solver. }
  assert (server_ok debug_str show_ip p (server_start p clk)) as Ho by done.
  clear Hm Hcache. induction Hr as [|s1 s2 s3 Hs _ IH]; [done|].
  assert (grows s1 s2) as Hg by by eapply step_grows.
  apply IH; [by eapply server_step_dns_ok| |by eapply server_step_ok]. clear IH.
  destruct Hs as [clk' _ _ _|w Hf Hp|s' [js1 j js2 r Hjs]].
  - by destruct Hi.
  - by apply arrive_met.
  - destruct (j_wait j) eqn:Hw; [by apply enter_met|by eapply check_met|by apply body_met].
Qed.

(** ** Honest requests *)

(** Where machines are checked it comes from one: its certificate verifies, the
    resolver, asked once the token is accepted, has its address, and so had every
    answer for that name in [l]. *)
Definition known_machine (l : list Env) (env : Env) (w : World) : Prop :=
  ∀ m, px_machine (w_proxy w) = Some m →
    if machine_present w then
      ∃ cert vm a,
        header_str (headers (ss_request (w_session w))) MACHINE_CERT_HEADER = Some cert ∧
        verify_cert m cert = Ok vm ∧ client_ip (w_session w) = Some a ∧
        (∀ w3 p1, first_wait env w = Ok (w3, p1) →
           ∃ addrs, resolver env (hostname vm) = Some addrs ∧ a ∈ addrs) ∧
        ∀ e addrs, e ∈ l → resolver e (hostname vm) = Some addrs → a ∈ addrs
    else required m = false.

(** The browser sealed its token, with [nonce], for this proxy and over exactly
    this request; it is in time, within its address's limits and from a known
    machine.  Nothing is said of any other request. *)
Record honest (l : list Env) (env : Env) (w : World) (nonce : str) : Prop := {
  hn_request : ∃ i ephem iv field binding ts,
    browser_request w i ephem nonce iv field binding ts ∧ timely env ts;
  hn_limits : within_limits env w;
  hn_machine : known_machine l env w }.

Lemma known_machine_ready l env w :
  known_machine l env w →
  (∀ w3 p1, first_wait env w = Ok (w3, p1) →
     same_config (w_proxy w3) (before_machine env (w_proxy w3)) ∧
     proxy_known (given l) (before_machine env (w_proxy w3))) →
  check_ready debug_str show_ip env w.
Proof.
  intros Hk Hb. split.
  - intros m Hm Hp. specialize (Hk m Hm). by rewrite Hp in Hk.
  - intros w3 p1 E. destruct (Hb w3 p1 E) as [Hc Hkn]. split; [done|]. intros m Hm Hp.
    specialize (Hk m Hm). rewrite Hp in Hk. destruct Hk as (cert & vm & a & ? & ? & ? & Hr & Hl).
    destruct (Hr w3 p1 E) as (addrs & Ha & Hin). exists cert, vm, a, addrs.
    do 5 (split; [done|]). intros m1 e Hm1 He.
    destruct (Hkn m1 Hm1 _ e He) as (e' & Hin' & Ha' & _). by eapply Hl.
Qed.

Lemma honest_passes l env w nonce :
  fresh w → honest l env w nonce →
  (∀ w3 p1, first_wait env w = Ok (w3, p1) →
     same_config (w_proxy w3) (before_machine env (w_proxy w3)) ∧
     proxy_known (given l) (before_machine env (w_proxy w3))) →
  nonce_unspent debug_str show_ip env w nonce →
  (request_filter debug_str show_ip env w).2 = false.
Proof.
  intros Hf [(i & ephem & iv & field & binding & ts & Hbr & Ht) Hl Hm] Hb Hn.
  destruct (ready_request_passes debug_str show_ip env w i ephem nonce iv field binding ts)
    as [w' ->]; try done. by eapply known_machine_ready.
Qed.

Lemma spent_iff s nonce :
  spent s nonce ↔
  nonce ∈ omap (λ d, if dn_answered d then None else p1_nonce <$> dn_token d) (sv_done s).
Proof.
  rewrite list_elem_of_omap. split.
  - intros (d & p1 & Hd & Ha & Ht & <-). exists d. by rewrite Ha, Ht.
  - intros (d & Hd & Hs). destruct (dn_answered d) eqn:Ha; [done|].
    destruct (dn_token d) as [p1|] eqn:Ht; [|done]. injection Hs as <-. by exists d, p1.
Qed.

Lemma done_unspent s d nonce :
  ¬ spent s nonce → done_met (spent s) (given (envs s)) d →
  nonce_unspent debug_str show_ip (dn_env d) (dn_start d) nonce.
Proof.
  intros Hn [Hs _ Hc]. split; [by intros ?%Hs|]. intros w3 p1 wm E Em ?. by eapply Hn, Hc.
Qed.

(** Alone, a request meets the state as it found it. *)
Lemma alone_unspent clk r w nonce :
  fresh w → nonce ∉ seen (nonce_cache (verifier (w_proxy w))) →
  nonce_unspent debug_str show_ip (quiet clk r) w nonce.
Proof.
  intros Hf Hn. split; [done|]. intros w3 p1 wm E Em.
  destruct (until_token_cases debug_str show_ip (quiet clk r) w Hf)
    as [(w3' & p1' & i & E' & Htp)|(?&?&E'&_)]; rewrite E in E'; [|done].
  injection E' as <- <-.
  pose proof (machine_check_verifier debug_str show_ip (quiet clk r) (machine_present w)
    (with_proxy w3 (w_proxy w3))) as Hv. cbv zeta in Hv.
  change (before_machine (quiet clk r) (w_proxy w3)) with (w_proxy w3) in Em. rewrite Em in Hv.
  change (verifier (w_proxy wm) = verifier (w_proxy w3)) in Hv.
  change (nonce ∉ seen (nonce_cache (verifier (w_proxy wm)))). by rewrite Hv, (tp_verifier _ _ _ _ _ Htp).
Qed.

(** Claim C11. No request can keep an honest one from the upstream.  An honest
    request carries a token the browser sealed for this proxy over exactly this
    request, is in time and within the limits of its address, and comes from a
    known machine where machines are checked; nothing is assumed of the others,
    which may be forged, replayed, oversized or stuck.  In whatever state they
    have brought the server, an honest request that arrives with an unspent nonce
    can be served at once: it goes upstream while all the others stay where they
    are.  And however they interleave with it, the server finishes no honest
    request other than by letting it upstream, unless its nonce has been spent:
    by a request that went upstream itself on a token with that nonce. *)
Theorem honest_requests_get_through tol p s :
  server_reachable debug_str show_ip tol p s → (∀ m, px_machine p = Some m → dns_cache m = ∅) →
  (∀ w r nonce, fresh w → w_proxy w = sv_proxy s →
     honest (envs s) (quiet (sv_clock s) r) w nonce → ¬ spent s nonce →
     ∃ s' d, rtc (step_of tol) s s' ∧ sv_jobs s' = sv_jobs s ∧ sv_done s' = sv_done s ++ [d] ∧
       dn_start d = w ∧ dn_answered d = false) ∧
  (∀ d nonce, d ∈ sv_done s → honest (envs s) (dn_env d) (dn_start d) nonce →
     dn_answered d = false ∨ spent s nonce).
Proof.
  intros Hs Hm. pose proof (server_reachable_ok _ _ _ _ _ Hs) as Hok.
  destruct (server_met_ok tol p s Hm Hs) as [Hdns Hmet]. split.
  - intros w r nonce Hf Hp Hh Hn. set (env := quiet (sv_clock s) r) in *.
    destruct (serve_alone debug_str show_ip tol s w r Hf Hp) as (e & p1 & _ & Hr).
    eexists _, _. split; [exact Hr|]. do 3 (split; [done|]). cbn [dn_answered].
    apply (honest_passes (envs s) env w nonce Hf Hh).
    + intros w3 p1' E. split; [done|].
      destruct (until_token_cases debug_str show_ip env w Hf)
        as [(?&?&i&E'&Htp)|(?&?&E'&_)]; rewrite E in E'; [|done]. injection E' as <- <-.
      intros m Hm3. cbn in Hm3. rewrite (tp_machine _ _ _ _ _ Htp), Hp in Hm3. by apply Hdns.
    + apply alone_unspent; [done|]. rewrite Hp. by intros ?%(mt_proxy _ Hmet).
  - intros d nonce Hd Hh. destruct (dn_answered d) eqn:Ha; [right|by left].
    apply spent_iff. apply dec_stable. rewrite <-spent_iff. intros Hn.
    pose proof (so_done _ _ _ _ Hok) as Ho. rewrite Forall_forall in Ho.
    destruct (Ho d Hd) as [Hf _ Hrun Hfit _].
    pose proof (mt_done _ Hmet) as Hdm. rewrite Forall_forall in Hdm. specialize (Hdm d Hd).
    pose proof (honest_passes (envs s) (dn_env d) (dn_start d) nonce Hf Hh) as Hpass.
    rewrite Hrun in Hpass. cbn [snd] in Hpass. rewrite Ha in Hpass. discriminate Hpass.
    + intros w3 p1 E. split; [apply (Hfit _ _ E)|by eapply dm_check].
    + by apply (done_unspent s).
Qed.
End Honest.

(** ** The request of [ws1] and its replay *)

Section Examples.
#[local] Existing Instances Toy.crypto Toy.laws ToyRate.globs ToyRate.ops ToyNet.nets ToyMachine.x509
  ToyMachine.tls Gregorian.calendar Gregorian.calendar_laws ToyHttp.http.

(** Whatever the proxy has served before, as long as its configuration is as it was. *)
Lemma sample_browser_request p :
  private_key (verifier p) = private_key Toy.verifier →
  browser_request (sample_world sample_ts p) (Toy.inputs "/p" (sha256_hex sample_body)) Toy.browser_key
    Toy.nonce (repeat "000"%char 12) (sha256_hex sample_body) (HashBody (sha256 sample_body)) 1010.
Proof.
  intros Hk. split.
  - split; vm_compute; reflexivity.
  - vm_compute. reflexivity.
  - split; vm_compute; reflexivity.
  - split_and!; apply (bool_decide_unpack _); vm_compute; exact I.
  - reflexivity.
  - change (w_proxy (sample_world sample_ts p)) with p. rewrite Hk. vm_compute. reflexivity.
  - split; [apply (bool_decide_unpack _); vm_compute; exact I|vm_compute; reflexivity].
  - apply bound_hash; [vm_compute; reflexivity|vm_compute; discriminate].
Qed.

Lemma sample_known_machine l env p m :
  px_machine p = Some m → set_dns_cache m ∅ = set_dns_cache fleet ∅ →
  ((∃ w3 p1, until_token quote ip_text env (sample_world sample_ts p) = Ok (w3, p1)) →
   resolver env = dns) →
  (∀ e, e ∈ l → resolver e = dns ∨ ∀ host, resolver e host = None) →
  known_machine quote ip_text l env (sample_world sample_ts p).
Proof.
  intros Hm Hf Hr Hl m' Hm'. change (px_machine p = Some m') in Hm'. rewrite Hm in Hm'.
  injection Hm' as <-.
  assert (machine_present (sample_world sample_ts p) = true) as -> by (vm_compute; reflexivity).
  assert (∃ vm, verify_cert fleet ws1_header = Ok vm ∧ ∃ addrs, dns (hostname vm) = Some addrs ∧ ws1_ip ∈ addrs)
    as (vm & Hv & addrs & Ha & Hin).
  { eexists. split; [vm_compute; reflexivity|]. eexists. split; [vm_compute; reflexivity|left]. }
  exists ws1_header, vm, ws1_ip. split; [vm_compute; reflexivity|].
  split; [by rewrite (verify_cert_static fleet m ws1_header Hf)|]. split; [reflexivity|]. split.
  - intros w3 p1 E. exists addrs. by rewrite Hr by eauto.
  - intros e addrs' [He|He]%Hl; rewrite He; [|done]. rewrite Ha. by intros [= <-].
Qed.

Lemma sample_honest l env p :
  same_config sample_proxy p →
  match rate_limiter p with
  | Some limiter => (RateLimiter_admit limiter (instant Toy.clk) ws1_ip "proxy.example/p").2
  | None => true
  end = true →
  met_alone quote ip_text Toy.clk dns (sample_world sample_ts p) env →
  (∀ e, e ∈ l → resolver e = dns ∨ ∀ host, resolver e host = None) →
  honest quote ip_text l env (sample_world sample_ts p) Toy.nonce.
Proof.
  intros Hsc Hlim (Ha & Hc & Hr) Hl. split.
  - do 6 eexists. split; [by apply sample_browser_request, Hsc|].
    split; rewrite ?Ha, ?Hc; [split; split; vm_compute; discriminate|vm_compute; discriminate|].
    split; vm_compute; discriminate.
  - intros limiter ip Hli [= <-]. change (rate_limiter p = Some limiter) in Hli.
    rewrite Hli in Hlim. rewrite Ha. exact Hlim.
  - destruct (static_machine_some _ _ fleet Hsc eq_refl) as (m & Hm & Hf).
    eapply sample_known_machine; try done. intros (w3 & p1 & E). by rewrite E in Hr.
Qed.

Lemma sample_start_honest :
  honest quote ip_text [] (quiet Toy.clk dns) sample_start Toy.nonce.
Proof.
  apply (sample_honest [] _ sample_proxy); [done|vm_compute; reflexivity|..].
  - split; [done|]. split; [done|].
    assert ((if until_token quote ip_text (quiet Toy.clk dns) sample_start then true else false) = true)
      as Hu by (vm_compute; reflexivity).
    change (sample_world sample_ts sample_proxy) with sample_start.
    by destruct (until_token _ _ _ sample_start).
  - by intros e ?%elem_of_nil.
Qed.

Lemma sample_again_honest l env :
  same_config sample_proxy (w_proxy sample_again) →
  met_alone quote ip_text Toy.clk dns sample_again env →
  (∀ e, e ∈ l → resolver e = dns ∨ ∀ host, resolver e host = None) →
  honest quote ip_text l env sample_again Toy.nonce.
Proof.
  assert (w_proxy sample_again = w_proxy (sample_served sample_start).1) as Hp
    by exact (sample_world_proxy sample_ts (w_proxy (sample_served sample_start).1)).
  rewrite Hp. clear Hp. unfold sample_again.
  assert (match rate_limiter (w_proxy (sample_served sample_start).1) with
          | Some limiter => (RateLimiter_admit limiter (instant Toy.clk) ws1_ip "proxy.example/p").2
          | None => true
          end = true) as Hlim by (vm_compute; reflexivity).
  revert Hlim. generalize (w_proxy (sample_served sample_start).1). intros p Hlim Hsc.
  by apply sample_honest.
Qed.

Lemma met_alone_answers w env :
  met_alone quote ip_text Toy.clk dns w env → resolver env = dns ∨ ∀ host, resolver env host = None.
Proof. intros (_ & _ & Hr). destruct (until_token _ _ _ _); [by left|by right]. Qed.

(** The request gets through; its replay, honest but for that, does not, and the
    theorem names the reason. *)
Lemma honest_requests_get_through_witness :
  (∃ s d, rtc (server_step quote ip_text 0) (server_start sample_proxy Toy.clk) s ∧
     sv_done s = [d] ∧ dn_start d = sample_start ∧ dn_answered d = false) ∧
  (∃ s d, d ∈ sv_done s ∧ honest quote ip_text (envs s) (dn_env d) (dn_start d) Toy.nonce ∧
     dn_answered d = true ∧ spent s Toy.nonce).
Proof.
  assert (∀ m, px_machine sample_proxy = Some m → dns_cache m = ∅) as Hempty by by intros m [= <-].
  split.
  - assert (server_reachable quote ip_text 0 sample_proxy (server_start sample_proxy Toy.clk)) as Hr.
    { exists Toy.clk. split; [split; vm_compute; discriminate|]. by split. }
    destruct (honest_requests_get_through quote ip_text 0 sample_proxy _ Hr Hempty) as [Hnow _].
    destruct (Hnow sample_start dns Toy.nonce (sample_fresh _ _) eq_refl sample_start_honest)
      as (s & d & Hs & _ & Hd & Hst & Ha); [|by exists s, d].
    by intros (d & p1 & ?%elem_of_nil & _).
  - destruct replayed_run_met as (s & e1 & p1 & e2 & p2 & Hr & Hd & Hj & Hm1 & Hm2).
    set (d2 := alone e2 _ _ p2) in Hd.
    assert (d2 ∈ sv_done s) as Hin by (rewrite Hd; set_solver).
    assert (honest quote ip_text (envs s) (dn_env d2) (dn_start d2) Toy.nonce) as Hh.
    { apply sample_again_honest; [|exact Hm2|].
      { pose proof (so_done _ _ _ _ (server_reachable_ok _ _ _ _ _ Hr)) as Ho.
        rewrite Forall_forall in Ho. exact (do_config _ _ _ _ (Ho d2 Hin)). }
      unfold envs. rewrite Hd, Hj. cbn.
      intros e [->|[->|?%elem_of_nil]%elem_of_cons]%elem_of_cons; [..|done];
        by eapply met_alone_answers. }
    assert (dn_answered d2 = true) as Ha by (vm_compute; reflexivity).
    exists s, d2. do 3 (split; [assumption|]).
    destruct (honest_requests_get_through quote ip_text (from_secs 59) sample_proxy s Hr Hempty)
      as [_ Hdone].
    destruct (Hdone d2 Toy.nonce Hin Hh) as [Hf|Hs]; [|exact Hs]. rewrite Ha in Hf. discriminate.
Defined.
End Examples.
