(* ===== verification/ServerLimits.v ===== *)
(** The rate limits behind the server: the limiter the requests share decides
    over them as it would over the plain sequence of their arrivals, so its caps
    hold for the server however the requests interleave. *)

From Stdlib Require Import Sorted.
From S2P Require Import Prelude Net AuditTypes Attest AttestCache AttestToken Replay Config RateLimit RateLimitFacts MachineFacts Mtls Passthrough Machine AuditLog AuditTime AuditFacts Tls Proxy ProxyFacts ProxyStages ProxyServer ServerReplay ServerRuns.

Section Limits.
Context `{Crypto, GlobOps, RateLaws, IpNetOps, MachineTls, Calendar, HttpOps}.
Variables (debug_str : str → str) (show_ip : IpAddr → str).

Notation first_wait := (until_token debug_str show_ip).

(** ** What a request is told *)

(** The client was answered [429 Too Many Requests]. *)
Definition answered_429 {A} (o : stage A) : bool :=
  match o with
  | Err (w', true) => bool_decide (ss_response (w_session w') = Some 429)
  | _ => false
  end.

(** The limiter's verdict on a request; it has none without a limiter or an address. *)
Definition admitted_by (env : Env) (w : World) : bool :=
  match rate_limiter (w_proxy w), client_ip (w_session w) with
  | Some limiter, Some ip =>
      (RateLimiter_admit limiter (instant (clk_arrival env)) ip
         (default [] (request_host (ss_request (w_session w)))
          ++ request_path (ss_request (w_session w)))).2
  | _, _ => true
  end.

Lemma refused_429 {A} (o : stage A) p s r :
  ends_refused o p s r → r ≠ RateLimited → answered_429 o = false.
Proof.
  intros (w' & -> & (_ & _ & Hr) & _) Hne. cbn. rewrite Hr.
  apply bool_decide_eq_false. by destruct r.
Qed.

(** Only the limiter answers 429, and always when it refuses. *)
Lemma until_token_429 env w : answered_429 (first_wait env w) = negb (admitted_by env w).
Proof.
  unfold until_token. cbv zeta.
  assert (∀ w0, w_proxy w0 = w_proxy w → w_session w0 = w_session w →
    if admitted_by env w
    then ∃ w1, rate_limit env (request_host (ss_request (w_session w))) w0 = Ok w1 ∧
               w_session w1 = w_session w
    else ∃ w1, rate_limit env (request_host (ss_request (w_session w))) w0 = Err (w1, true) ∧
               ss_response (w_session w1) = Some 429) as Hrl.
  { intros w0 Hp Hs. unfold rate_limit, admitted_by. rewrite Hp, Hs.
    destruct (rate_limiter (w_proxy w)) as [limiter|]; [|by eexists].
    destruct (client_ip (w_session w)) as [ip|]; [|by eexists].
    destruct (RateLimiter_admit limiter _ ip _) as [l []]; by eexists. }
  destruct (note_request_world w) as [Hp Hs]. specialize (Hrl _ Hp Hs).
  set (w0 := note_request w) in *. clearbody w0.
  destruct (admitted_by env w); cbn [negb].
  2: { destruct Hrl as (w1 & -> & Hr). cbn. by apply bool_decide_eq_true. }
  destruct Hrl as (w1 & -> & Hs1).
  destruct (try_bypass_cases debug_str show_ip w1) as [->|(?&?&?&?&_&_&_&_&->)]; [|done].
  destruct (collect_inputs_cases (request_host (ss_request (w_session w))) (machine_present w) w1)
    as [(i & -> & _)|[Hend _]].
  2: { destruct Hend as [(w' & E & Href)|(w' & E & Href)]; rewrite E; cbn;
       by rewrite (proj2 (proj2 (proj1 Href))). }
  destruct (machine_preflight_cases debug_str show_ip (machine_present w) w1)
    as [(c & -> & _)|(m & _ & _ & _ & w' & -> & (_ & _ & Hr) & _)].
  2: { cbn. by rewrite Hr. }
  destruct (phase_one_cases env i (with_ctx w1 c)) as [(p1 & _ & ->)|(e & _ & Hend)]; [done|].
  eapply refused_429; [exact Hend|]. by destruct e.
Qed.

(** ** The arrivals, as the limiter sees them *)

Definition arrival_request (a : Clock * World) : option Request :=
  (λ ip, {| rq_time := instant a.1; rq_ip := ip;
            rq_target := default [] (request_host (ss_request (w_session a.2)))
                         ++ request_path (ss_request (w_session a.2)) |})
  <$> client_ip (w_session a.2).

(** Every arrival that has an address, with whether it got past the limiter. *)
Definition arrival_verdict (a : Clock * World) : option (Request * bool) :=
  (λ q, (q, negb (answered_429 (first_wait (met_nothing a.1) a.2)))) <$> arrival_request a.

Definition arrival_log (s : Server) : list (Request * bool) := omap arrival_verdict (sv_arrived s).
Definition arrival_requests (s : Server) : list Request := omap arrival_request (sv_arrived s).

Lemma omap_snoc_option {A B} (f : A → option B) l a :
  omap f (l ++ [a]) = omap f l ++ option_list (f a).
Proof. rewrite omap_app. cbn. by destruct (f a). Qed.

(** ** The shared limiter *)

Record limits_ok (rl : RateLimiter) (t : Z) (s : Server) : Prop := {
  lo_limiter : rate_limiter (sv_proxy s) = Some (limiter_run rl (arrival_requests s));
  lo_log : arrival_log s = verdicts rl (arrival_requests s);
  lo_sorted : StronglySorted Z.le (rq_time <$> arrival_requests s);
  lo_times : Forall (λ q, t ≤ rq_time q ≤ instant (sv_clock s)) (arrival_requests s);
  lo_clock : t ≤ instant (sv_clock s) }.

Lemma go_on_limiter s j r js :
  rate_limiter (sv_proxy (go_on debug_str show_ip s j r js)) = rate_limiter (sv_proxy s).
Proof.
  unfold go_on. destruct (j_wait j); [done| |]; cbv zeta.
  - set (env := meet_answer _ _ r _).
    destruct (machine_check_cases debug_str show_ip env (machine_present (j_start j)) (j_now j))
      as [(p & c & -> & _ & [->|(m' & m0 & k & -> & _)] & _)|(m & e & m' & _ & _ & _ & w' & -> & _ & Hp & _)];
      [done..|]. cbn. by rewrite Hp.
  - set (env := meet_commit _ _ _).
    destruct (phase_two_cases' debug_str env (j_p1 j) (with_proxy (j_now j) (sv_proxy s)))
      as [(w' & v & -> & _ & Hp & _)|(w' & r' & -> & _ & Hp)]; cbn; by rewrite Hp.
Qed.

Lemma go_on_clock s j r js : sv_clock (go_on debug_str show_ip s j r js) = sv_clock s.
Proof. unfold go_on. destruct (j_wait j); [done| |done]. cbv zeta. by case_match. Qed.

Lemma arrive_effect s w :
  w_proxy w = sv_proxy s →
  let s' := arrive debug_str show_ip s w in
  rate_limiter (sv_proxy s') = limiter_after (met_nothing (sv_clock s)) w ∧
  sv_clock s' = sv_clock s.
Proof.
  intros Hp. pose proof (until_token_proxy debug_str show_ip (met_nothing (sv_clock s)) w) as Hq.
  unfold arrive. cbv zeta. cbn [sv_clock note_arrival].
  destruct (first_wait _ w) as [[w3 p1]|[w' b]]; cbn; by rewrite Hq.
Qed.

Lemma arrive_limits rl t s w :
  w_proxy w = sv_proxy s → limits_ok rl t s → limits_ok rl t (arrive debug_str show_ip s w).
Proof.
  intros Hp [Hl Hv Hs Ht Hc]. destruct (arrive_effect s w Hp) as [Hrl Hclk].
  pose proof (arrive_arrived debug_str show_ip s w) as Harr.
  pose proof (until_token_429 (met_nothing (sv_clock s)) w) as H429.
  unfold limiter_after, admitted_by in *. rewrite Hp, Hl in *. cbn [clk_arrival met_nothing] in *.
  unfold arrival_requests, arrival_log in *. set (qs := omap arrival_request (sv_arrived s)) in *.
  destruct (client_ip (w_session w)) as [ip|] eqn:Hip.
  - destruct (arrival_request (sv_clock s, w)) as [q|] eqn:Hq;
      unfold arrival_request in Hq; cbn in Hq; rewrite Hip in Hq; [|done]. injection Hq as Hq.
    assert (arrival_request (sv_clock s, w) = Some q) as Hreq
      by (unfold arrival_request; cbn; rewrite Hip; cbn; by rewrite Hq).
    assert (arrival_verdict (sv_clock s, w) = Some (q, (RateLimiter_admit (limiter_run rl qs)
      (rq_time q) (rq_ip q) (rq_target q)).2)) as Hver.
    { unfold arrival_verdict. rewrite Hreq. cbn [fst snd fmap option_fmap option_map].
      rewrite H429, negb_involutive. by rewrite <-Hq. }
    constructor; unfold arrival_requests, arrival_log;
      rewrite ?Harr, ?omap_snoc_option, ?Hrl, ?Hclk, ?Hver, ?Hreq; fold qs; cbn [option_list]; [..|done].
    + unfold limiter_run. rewrite fold_left_app. by rewrite <-Hq.
    + rewrite verdicts_app, <-Hv. change (option_list (Some q)) with [q]. by rewrite verdicts_cons.
    + rewrite fmap_app. apply StronglySorted_snoc; [done|]. apply Forall_fmap.
      eapply Forall_impl; [exact Ht|]. rewrite <-Hq. cbn. lia.
    + apply Forall_app. split; [done|]. repeat constructor; rewrite <-Hq; cbn; lia.
  - assert (arrival_request (sv_clock s, w) = None) as Hreq
      by (unfold arrival_request; cbn; by rewrite Hip).
    assert (arrival_verdict (sv_clock s, w) = None) as Hver
      by (unfold arrival_verdict; by rewrite Hreq).
    constructor; unfold arrival_requests, arrival_log;
      rewrite ?Harr, ?omap_snoc_option, ?Hrl, ?Hclk, ?Hver, ?Hreq; cbn [option_list];
      by rewrite ?app_nil_r.
Qed.

Lemma server_step_limits tol rl t s s' :
  server_step debug_str show_ip tol s s' → limits_ok rl t s → limits_ok rl t s'.
Proof.
  intros Hstep Hs. destruct Hstep as [clk _ Hi _|w _ Hp|s' [js1 j js2 r Hjs]].
  - destruct Hs as [Hl Hv Ho Ht Hc]. constructor; cbn; try done; [|lia].
    eapply Forall_impl; [exact Ht|]. cbn. lia.
  - by apply arrive_limits.
  - destruct Hs as [Hl Hv Ho Ht Hc]. unfold arrival_requests, arrival_log in *.
    constructor; unfold arrival_requests, arrival_log;
      by rewrite ?go_on_limiter, ?go_on_clock, ?go_on_arrived.
Qed.

Lemma server_limits_ok tol p clk s rl :
  rtc (server_step debug_str show_ip tol) (server_start p clk) s → rate_limiter p = Some rl →
  limits_ok rl (instant clk) s.
Proof.
  intros Hr Hrl.
  assert (limits_ok rl (instant clk) (server_start p clk)) as Hi
    by (constructor; [done|done|constructor|constructor|reflexivity]).
  clear Hrl. induction Hr as [|s1 s2 s3 Hs _ IH]; [done|]. eauto using server_step_limits.
Qed.

(** The caps of the limiter itself, over any span of the arrivals. *)
Lemma arrivals_within_caps tol p clk s rl ip a w :
  rtc (server_step debug_str show_ip tol) (server_start p clk) s →
  rate_limiter p = Some rl → limiter_ok rl (instant clk) →
  (∀ u, universal rl = Some u → w ≤ interval (rate u) →
     count_admitted (λ q, from_ip ip q && in_span a w q) (arrival_log s) ≤ 2 * max u) ∧
  (∀ j r, rules rl !! j = Some r → w ≤ interval (rate (limit r)) →
     count_admitted (λ q, from_ip ip q && charged_to (rules rl) j q && in_span a w q)
       (arrival_log s) ≤ 2 * max (limit r)).
Proof.
  intros Hr Hrl Hok. destruct (server_limits_ok tol p clk s rl Hr Hrl) as [_ -> Hs Ht _].
  assert (Forall (λ q, instant clk ≤ rq_time q) (arrival_requests s)) as Ht'
    by (eapply Forall_impl; [exact Ht|]; cbn; lia).
  split.
  - intros u Hu Hw. destruct Hok as [Hou Hor] eqn:E. destruct (Hou u Hu) as [[_ Hm] _].
    apply (caps_in_span rl (instant clk)); [done..| |lia].
    intros rl' qs' a' Hok' Hsame Hspan. destruct (sl_universal _ _ Hsame u Hu) as (u' & Hu' & <- & Hi).
    destruct (caps_hold rl' qs' ip a' w Hok' Hspan) as [Hcu _]. apply Hcu; [done|lia].
  - intros j r Hj Hw. destruct Hok as [Hou Hor] eqn:E. destruct (Hor j r Hj) as [[_ Hm] _].
    apply (caps_in_span rl (instant clk)); [done..| |lia].
    intros rl' qs' a' Hok' Hsame Hspan. destruct (sl_rules _ _ Hsame j r Hj) as (r' & Hj' & <- & Hi).
    destruct (caps_hold rl' qs' ip a' w Hok' Hspan) as [_ Hcr].
    destruct (Hcr j r' Hj' ltac:(lia)) as [Hc _]. etrans; [|exact Hc].
    rewrite (count_admitted_ext _ (λ q, from_ip ip q && charged_to (rules rl') j q)); [done|].
    apply Forall_forall. intros q _. by rewrite (sl_charged _ _ Hsame).
Qed.

(** What a [[rate_limiting]] section promises of the server: which requests are
    answered with 429, and how many of an address are not, in any span of time. *)
Record caps_enforced (cfg : RateLimitConfig) (p : DenBrowserProxy) (s : Server) : Prop := {
  ce_enabled : is_Some (rate_limiter p) ↔ rl_enabled cfg = true;
  ce_exactly rl : rate_limiter p = Some rl → arrival_log s = verdicts rl (arrival_requests s);
  ce_disabled : rl_enabled cfg = false →
    Forall (λ a, answered_429 (first_wait (met_nothing a.1) a.2) = false) (sv_arrived s);
  ce_universal ip a w : rl_enabled cfg = true →
    has_universal_cap cfg → w ≤ from_secs (rl_window_secs cfg) →
    count_admitted (λ q, from_ip ip q && in_span a w q) (arrival_log s) ≤ 2 * rl_max_requests cfg;
  ce_rule j rc ip a w : rl_enabled cfg = true →
    rl_rules cfg !! j = Some rc → w ≤ from_secs (rule_window_secs rc) →
    count_admitted (λ q, from_ip ip q && same_rule cfg j q && in_span a w q) (arrival_log s)
      ≤ 2 * rule_max_requests rc }.

(** Without a limiter nobody is answered 429. *)
Lemma server_without_limits tol p clk s :
  rtc (server_step debug_str show_ip tol) (server_start p clk) s → rate_limiter p = None →
  Forall (λ a, answered_429 (first_wait (met_nothing a.1) a.2) = false) (sv_arrived s).
Proof.
  intros Hr Hp.
  assert (rate_limiter (sv_proxy (server_start p clk)) = None) as Hn by done.
  assert (Forall (λ a, answered_429 (first_wait (met_nothing a.1) a.2) = false)
            (sv_arrived (server_start p clk))) as Ha by constructor.
  clear Hp. induction Hr as [|s1 s2 s3 Hs _ IH]; [done|].
  destruct Hs as [clk' _ Hi _|w _ Hw|s0 [js1 j js2 r Hjs]]; apply IH; clear IH; try done.
  - destruct (arrive_effect s1 w Hw) as [-> _]. unfold limiter_after. by rewrite Hw, Hn.
  - rewrite arrive_arrived. apply Forall_app. split; [done|]. repeat constructor. cbn.
    rewrite until_token_429. unfold admitted_by. by rewrite Hw, Hn.
  - by rewrite go_on_limiter.
  - by rewrite go_on_arrived.
Qed.

Lemma configured_caps tol now cfg p clk s :
  rate_config_typed cfg →
  RateLimiter_from_config debug_str now cfg = Ok (rate_limiter p) → now ≤ instant clk →
  rtc (server_step debug_str show_ip tol) (server_start p clk) s →
  caps_enforced cfg p s.
Proof.
  intros Hty Hc Hnow Hr. destruct (rate_limiter p) as [rl|] eqn:Hp.
  - destruct (from_config_limits debug_str now cfg rl Hty Hc) as [Hok Hu Hrs Hch].
    apply from_config_ok in Hc as (He & _).
    pose proof (arrivals_within_caps tol p clk s rl) as Hcaps.
    constructor; rewrite ?Hp; try congruence; [by split; [|by eexists]|..].
    + intros rl' [= <-]. apply (server_limits_ok tol p clk s rl Hr Hp).
    + intros ip a w _ Hcap Hw. destruct (Hu Hcap) as (u & Hlu & <- & Hi).
      apply (Hcaps ip a w Hr Hp (limiter_ok_later _ _ _ Hok Hnow)); [done|lia].
    + intros j rc ip a w _ Hj Hw. destruct (Hrs j rc Hj) as (r & Hlr & <- & Hi).
      destruct (Hcaps ip a w Hr Hp (limiter_ok_later _ _ _ Hok Hnow)) as [_ Hrc].
      specialize (Hrc j r Hlr ltac:(lia)). etrans; [|exact Hrc].
      apply Z.eq_le_incl. unfold count_admitted. do 2 f_equal. apply list_filter_iff.
      intros [q v]. cbn. by rewrite Hch.
  - assert (rl_enabled cfg = false) as He.
    { pose proof (rate_config_classified debug_str now cfg Hty) as Hcl. by rewrite Hc in Hcl. }
    constructor; rewrite ?Hp; try congruence.
    + rewrite He. split; [by intros []|done].
    + intros _. by eapply server_without_limits.
Qed.

(** Claim C12. The rate limits of the configuration hold for the server, however
    its requests interleave. With the section enabled, the requests it does not
    answer with 429 are exactly those the limiter admits when it is run on their
    arrivals one after the other, and in no span of time as long as a configured
    window does an address get more than twice the configured cap past the
    universal limit, or past a rule with the requests whose first matching
    pattern is the rule's. With the section disabled nobody is answered 429. *)
Theorem server_rate_caps tol now cfg p clk s :
  rate_config_typed cfg →
  RateLimiter_from_config debug_str now cfg = Ok (rate_limiter p) → now ≤ instant clk →
  rtc (server_step debug_str show_ip tol) (server_start p clk) s →
  caps_enforced cfg p s.
Proof. apply configured_caps. Qed.
End Limits.

Section Examples.
#[local] Existing Instances Toy.crypto Toy.laws ToyRate.globs ToyRate.ops ToyRate.laws ToyNet.nets
  ToyMachine.x509 ToyMachine.tls Gregorian.calendar Gregorian.calendar_laws ToyHttp.http.

(** One request has arrived, and was admitted within the universal cap. *)
Lemma server_rate_caps_witness :
  length (arrival_log quote ip_text one_in_flight) = 1%nat ∧
  count_admitted (λ q, from_ip ws1_ip q && in_span 0 1 q) (arrival_log quote ip_text one_in_flight)
    ≤ 2 * 3.
Proof.
  split; [vm_compute; reflexivity|].
  apply (ce_universal _ _ _ _ _
           (server_rate_caps quote ip_text 0 0 sample_config sample_proxy Toy.clk one_in_flight
              ltac:(split; [|repeat constructor]; discriminate) eq_refl ltac:(discriminate)
              (rtc_once _ _ (server_arrive _ _ _ _ _ (sample_fresh _ _) eq_refl)))
           ws1_ip 0 1); [reflexivity|split; reflexivity|discriminate].
Defined.
End Examples.
