(* ===== verification/Logging.v ===== *)
(** The log ([src/proxy/src/logging.rs], and the system records and [emit] of
    [src/proxy/src/audit.rs]): how an event becomes a line, and what [init]
    installs.

    Serialisation is [serde_json]'s (class [JsonOps]); the filter grammar, the
    file appender and the global subscriber are [tracing]'s (class [LogOps]). *)

From S2P Require Import Prelude Net Attest Config ConfigEnv AuditTypes RateLimit Mtls Machine AuditLog.

(** ** JSON values *)

(** [f64] and [serde_json::Number]. *)
Class NumberOps := {
  F64 : Type;
  JsonNumber : Type;
  number_of_int : Z → JsonNumber;
  number_from_f64 : F64 → option JsonNumber }.

(** The [serde_json::Value]s the log builds. *)
Inductive JsonValue `{NumberOps} :=
  | JNull
  | JBool (b : bool)
  | JNumber (n : JsonNumber)
  | JString (s : str).

(** [SystemRecord], its [SystemEvent] inlined. *)
Record SystemRecord `{NumberOps} := {
  sr_timestamp : str;
  sr_schema_version : str;
  sr_level : str;
  sr_logger : str;
  sr_kind : str;
  sr_message : str;
  sr_fields : gmap str JsonValue }.

Class JsonOps `{NumberOps} := {
  value_text : JsonValue → str;                (* Display for Value *)
  system_json : SystemRecord → result str str; (* serde_json::to_string *)
  audit_json : AuditRecord → result str str }.

(** Compact JSON escapes control characters, so it is a single line. *)
Class JsonLaws `{JsonOps} := {
  system_json_line r json : system_json r = Ok json → LF ∉ json;
  audit_json_line r json : audit_json r = Ok json → LF ∉ json }.

(** ** Events *)

Definition RECORD_FIELD : str := "audit_record".

Section Events.
Context `{NumberOps}.

(** A recorded value, by the [Visit] method that receives it; a [FvDebug] holds
    the text of its [Debug] form. *)
Inductive FieldValue :=
  | FvStr (s : str)
  | FvDebug (text : str)
  | FvInt (n : Z)                              (* record_i64, record_u64 *)
  | FvBool (b : bool)
  | FvF64 (x : F64).

Record LogEvent := {
  le_target : str;
  le_level : Level;
  le_fields : list (str * FieldValue) }.

(** [Fields]. *)
Record Fields := {
  f_audit : bool;
  f_audit_record : option str;
  f_message : str;
  f_log_target : option str;
  f_extra : gmap str JsonValue }.

Definition Fields_new (audit : bool) : Fields :=
  {| f_audit := audit; f_audit_record := None; f_message := []; f_log_target := None;
     f_extra := ∅ |}.
End Events.

Section Lines.
Context `{JsonOps, Calendar}.

(** [SystemRecord::new]. *)
Definition SystemRecord_new (ts : str) (level : Level) (logger message : str)
    (fields : gmap str JsonValue) : SystemRecord :=
  {| sr_timestamp := ts; sr_schema_version := SCHEMA_VERSION; sr_level := level_str level;
     sr_logger := logger; sr_kind := "system"; sr_message := message; sr_fields := fields |}.

(** [Fields::put]. *)
Definition put (f : Fields) (name : str) (value : JsonValue) : Fields :=
  if decide (name = "message") then
    {| f_audit := f_audit f; f_audit_record := f_audit_record f;
       f_message := match value with JString s => s | other => value_text other end;
       f_log_target := f_log_target f; f_extra := f_extra f |}
  else if decide (name ∈ ["log.module_path" : str; "log.file" : str; "log.line" : str]) then f
  else
    {| f_audit := f_audit f; f_audit_record := f_audit_record f; f_message := f_message f;
       f_log_target := f_log_target f; f_extra := <[name := value]> (f_extra f) |}.

(** [Fields::record_str]. *)
Definition record_str (f : Fields) (name value : str) : Fields :=
  if decide (name = RECORD_FIELD ∧ f_audit f = true) then
    {| f_audit := f_audit f; f_audit_record := Some value; f_message := f_message f;
       f_log_target := f_log_target f; f_extra := f_extra f |}
  else if decide (name = "log.target") then
    {| f_audit := f_audit f; f_audit_record := f_audit_record f; f_message := f_message f;
       f_log_target := Some value; f_extra := f_extra f |}
  else put f name (JString value).

(** [impl Visit for Fields]. *)
Definition visit (f : Fields) (field : str * FieldValue) : Fields :=
  let '(name, value) := field in
  match value with
  | FvStr s | FvDebug s => record_str f name s
  | FvInt n => put f name (JNumber (number_of_int n))
  | FvBool b => put f name (JBool b)
  | FvF64 x => put f name (default JNull (JNumber <$> number_from_f64 x))
  end.

(** [JsonLines::format_event], at the wall time [now]: the line written, or
    the formatter's error. *)
Definition format_event (now : Z) (event : LogEvent) : option str :=
  let fields := fold_left visit (le_fields event)
                  (Fields_new (bool_decide (le_target event = TARGET))) in
  match f_audit_record fields with
  | Some line => Some (line ++ [LF])
  | None =>
      let logger := default (le_target event) (f_log_target fields) in
      let record := SystemRecord_new (timestamp now) (le_level event) logger
                      (f_message fields) (f_extra fields) in
      match system_json record with
      | Ok line => Some (line ++ [LF])
      | Err _ => None
      end
  end.

(** [audit::emit]: the event raised for a record.  The error event has no
    explicit target, so it has its module's path, which is [TARGET] too. *)
Definition emit (level : Level) (record : AuditRecord) : LogEvent :=
  match audit_json record with
  | Ok line =>
      {| le_target := TARGET;
         le_level := if decide (level = LevelInfo) then LevelInfo else LevelWarn;
         le_fields := [(RECORD_FIELD, FvStr line)] |}
  | Err e =>
      {| le_target := TARGET; le_level := LevelError;
         le_fields := [("message" : str, FvDebug ("cannot serialize audit record: " ++ e))] |}
  end.
End Lines.

(** ** Initialisation *)

Inductive Rotation := MINUTELY | HOURLY | DAILY | NEVER.

(** [log::LevelFilter]. *)
Inductive LogLevelFilter := LfOff | LfError | LfWarn | LfInfo | LfDebug | LfTrace.

(** [open_appender] takes the rotation, the file name prefix, the number of
    files kept ([None]: all) and the directory. *)
Class LogOps := {
  EnvFilter : Type;
  filter_new : str → result EnvFilter str;
  max_level_hint : EnvFilter → option Level;
  FileAppender : Type;
  create_dir_all : str → result unit str;
  open_appender : Rotation → str → option Z → str → result FileAppender str;
  try_init : EnvFilter → option FileAppender → bool → result unit str }.

Section Init.
Context `{LogOps}.
Variable debug_str : str → str.

Definition ENV_FILTER_VAR : str := "RUST_LOG".

(** [build_filter]; the environment is [Config]'s. *)
Definition build_filter (env_var : Lookup) (cfg : LoggingConfig) : result EnvFilter str :=
  let from_config :=
    map_err (λ e, "invalid [logging].level " ++ debug_str (log_level cfg) ++ ": " ++ e)
      (filter_new (trim (log_level cfg))) in
  match env_var ENV_FILTER_VAR with
  | Ok var =>
      if blank var then from_config
      else map_err (λ e, "invalid " ++ ENV_FILTER_VAR ++ " " ++ debug_str var ++ ": " ++ e)
             (filter_new var)
  | Err _ => from_config
  end.

(** [rotation_from_str]. *)
Definition rotation_from_str (rotation : str) : result Rotation str :=
  if decide (rotation = "minutely") then Ok MINUTELY
  else if decide (rotation = "hourly") then Ok HOURLY
  else if decide (rotation = "daily") then Ok DAILY
  else if decide (rotation = "never") then Ok NEVER
  else Err ("unsupported [logging].rotation " ++ debug_str rotation).

(** [build_file_writer]. *)
Definition build_file_writer (cfg : LoggingConfig) : result FileAppender str :=
  let dir := trim (log_dir cfg) in
  let? _ := map_err (λ e, "cannot create [logging].dir " ++ debug_str dir ++ ": " ++ e)
              (create_dir_all dir) in
  let? rot := rotation_from_str (rotation cfg) in
  let keep := if 0 <? max_files cfg then Some (max_files cfg) else None in
  map_err (λ e, "cannot open log file in " ++ debug_str dir ++ ": " ++ e)
    (open_appender rot (trim (file_prefix cfg)) keep dir).

(** [sync_log_bridge_level]: the level set for the [log] facade. *)
Definition sync_log_bridge_level (current : option Level) : LogLevelFilter :=
  match current with
  | Some LevelError => LfError
  | Some LevelWarn => LfWarn
  | Some LevelInfo => LfInfo
  | Some LevelDebug => LfDebug
  | Some LevelTrace => LfTrace
  | None => LfOff
  end.

(** What [init] leaves installed; the guard it returns goes with the file. *)
Record Installed := {
  in_filter : EnvFilter;
  in_file : option FileAppender;
  in_stderr : bool;
  in_log_level : LogLevelFilter }.

(** [init]. *)
Definition init (env_var : Lookup) (cfg : LoggingConfig) : result Installed str :=
  let? _ := LoggingConfig_validate debug_str cfg in
  let? filter := build_filter env_var cfg in
  let? file :=
    (if file_enabled cfg then let? writer := build_file_writer cfg in Ok (Some writer)
     else Ok None) in
  let? _ := map_err (λ e, "cannot install log subscriber: " ++ e)
              (try_init filter file (log_stderr cfg)) in
  Ok {| in_filter := filter; in_file := file; in_stderr := log_stderr cfg;
        in_log_level := sync_log_bridge_level (max_level_hint filter) |}.
End Init.
