(* ===== verification/LoggingFacts.v ===== *)
(** What the log guarantees: one document per line, audit lines that only the
    audit code can write, and an [init] that never drops a configured output. *)

From S2P Require Import Prelude Net Attest AttestToken Config ConfigEnv AuditTypes RateLimit RateLimitFacts Mtls Machine MachineFacts AuditLog AuditTime AuditFacts AuditJson Logging.

(** ** Lines *)

Section Lines.
Context `{JsonLaws, CalendarLaws}.

(** Whether a field supplies a verbatim record on the audit target. *)
Definition record_field (field : str * FieldValue) (text : str) : Prop :=
  field = (RECORD_FIELD, FvStr text) ∨ field = (RECORD_FIELD, FvDebug text).

Lemma visit_audit f field :
  f_audit (visit f field) = f_audit f ∧
  (f_audit_record (visit f field) = f_audit_record f ∨
   ∃ text, f_audit_record (visit f field) = Some text ∧ f_audit f = true ∧
           record_field field text).
Proof.
  destruct field as [name [s|s|n|b|x]]; cbn; unfold record_str, put.
  all: repeat case_decide; cbn; split; try done; auto.
  all: right; exists s; destruct_and!; simplify_eq; unfold record_field; auto.
Qed.

Lemma visit_all_audit f fields :
  let g := fold_left visit fields f in
  f_audit g = f_audit f ∧
  (f_audit_record g = f_audit_record f ∨
   ∃ field text, field ∈ fields ∧ record_field field text ∧ f_audit f = true ∧
                 f_audit_record g = Some text).
Proof.
  revert f. induction fields as [|field fields IH]; intros f; cbn; [by auto|].
  destruct (visit_audit f field) as [Ha Hr].
  destruct (IH (visit f field)) as [Hga Hgr]. rewrite Ha in *. split; [done|].
  destruct Hgr as [->|(fd & text & Hin & Hfd & Hau & ->)].
  - destruct Hr as [->|(text & -> & Hau & Hfd)]; [by left|].
    right. exists field, text. split; [by left|done].
  - right. exists fd, text. split; [by right|done].
Qed.

(** A line is a record field of an event on the audit target, or the JSON of a
    system record of the event. *)
Lemma format_event_cases now e line :
  format_event now e = Some line →
  (∃ field text, field ∈ le_fields e ∧ record_field field text ∧ le_target e = TARGET ∧
                 line = text ++ [LF]) ∨
  (∃ logger message fields json,
     system_json (SystemRecord_new (timestamp now) (le_level e) logger message fields) = Ok json ∧
     line = json ++ [LF]).
Proof.
  unfold format_event. cbn zeta.
  destruct (visit_all_audit (Fields_new (bool_decide (le_target e = TARGET))) (le_fields e))
    as [_ Hr].
  destruct Hr as [->|(field & text & Hin & Hfd & Hau & ->)]; cbn.
  - intros Hl. right. destruct (system_json _) as [json|] eqn:Hj; [|done].
    injection Hl as <-. by eexists _, _, _, json.
  - intros [= <-]. left. exists field, text. cbn in Hau. by apply bool_decide_eq_true in Hau.
Qed.

(** [Serialize for SystemRecord]; [value_doc] is how a field's value is written.
    An empty [fields] is left out. *)
Definition system_doc (value_doc : JsonValue → Doc) (r : SystemRecord) : Doc :=
  let fields := map_to_list (sr_fields r) in
  DObj ([("timestamp" : str, DStr (sr_timestamp r));
         ("schema_version" : str, DStr (sr_schema_version r));
         ("level" : str, DStr (sr_level r));
         ("logger" : str, DStr (sr_logger r));
         ("event" : str, DObj [("kind" : str, DStr (sr_kind r))]);
         ("message" : str, DStr (sr_message r))]
        ++ (if is_empty fields then []
            else [("fields" : str, DObj ((λ f, (f.1, value_doc f.2)) <$> fields))])).

Lemma system_doc_valid value_doc now level logger message fields :
  iso_time now →
  let d := system_doc value_doc (SystemRecord_new (timestamp now) level logger message fields) in
  valid system_schema d = true ∧ valid audit_schema d = false.
Proof.
  intros Hnow. pose proof (format_utc_matches _ (calendar_range now Hnow)) as Hts.
  change (matches_template "9999-99-99T99:99:99.999Z" (timestamp now) = true) in Hts.
  cbv zeta. unfold system_doc, SystemRecord_new.
  cbn [sr_fields sr_timestamp sr_schema_version sr_level sr_logger sr_kind sr_message].
  revert Hts. generalize (timestamp now) (map_to_list fields). clear.
  intros ts l Hts. split; [|by destruct (is_empty l)].
  destruct (is_empty l), level; cbv -[matches_template] in *; by rewrite Hts.
Qed.

(** Claim C40. Every log line is one JSON document, and no event can forge an
    audit record: as long as the audit target is only used to [emit] records, a
    formatted event is a single line without an inner line break, and it is
    either the JSON of an emitted audit record, verbatim, or that of a record
    whose kind is [system], whatever the event's target, message and fields say.
    The latter validates against the published schema as a system record, and
    never as an audit record. *)
Theorem log_lines_are_not_forgeable (value_doc : JsonValue → Doc) now e line :
  (le_target e = TARGET → ∃ lvl r, e = emit lvl r) → iso_time now →
  format_event now e = Some line →
  ∃ json, line = json ++ [LF] ∧ LF ∉ json ∧
    ((∃ lvl r, e = emit lvl r ∧ audit_json r = Ok json) ∨
     (∃ r, system_json r = Ok json ∧ sr_kind r = "system" ∧ sr_level r = level_str (le_level e) ∧
        valid system_schema (system_doc value_doc r) = true ∧
        valid audit_schema (system_doc value_doc r) = false ∧
        valid log_schema (system_doc value_doc r) = true)).
Proof.
  intros He Hnow Hl.
  destruct (format_event_cases now e line Hl)
    as [(field & text & Hin & Hfd & Ht & ->)|(lg & msg & fs & json & Hj & ->)].
  - destruct (He Ht) as (lvl & r & ->). exists text. split; [done|].
    assert (audit_json r = Ok text) as Hj.
    { revert Hin. unfold emit. destruct (audit_json r) as [json|err]; cbn;
        intros ->%list_elem_of_singleton; destruct Hfd as [Hfd|Hfd]; by simplify_eq. }
    split; [by eapply audit_json_line|]. left. by exists lvl, r.
  - exists json. split; [done|]. split; [by eapply system_json_line|]. right.
    eexists. split; [exact Hj|]. do 2 (split; [done|]).
    destruct (system_doc_valid value_doc now (le_level e) lg msg fs Hnow) as [Hs Ha].
    split; [done|]. split; [done|]. unfold log_schema. cbn [valid map]. by rewrite Hs, Ha.
Qed.

(** An emitted record is written as it was serialised. *)
Lemma emitted_line now lvl r json :
  audit_json r = Ok json → format_event now (emit lvl r) = Some (json ++ [LF]).
Proof.
  intros Hj. unfold format_event, emit. rewrite Hj. cbn.
  rewrite bool_decide_eq_true_2 by done. unfold record_str. cbn. by rewrite decide_True.
Qed.
End Lines.

(** ** Initialisation *)

Section Init.
Context `{LogOps}.
Variable debug_str : str → str.

(** The filter text [init] uses: [RUST_LOG] when it has one, else the trimmed
    level. *)
Definition filter_text (env_var : Lookup) (cfg : LoggingConfig) : str :=
  match env_var ENV_FILTER_VAR with
  | Ok var => if blank var then trim (log_level cfg) else var
  | Err _ => trim (log_level cfg)
  end.

Lemma build_filter_ok env_var cfg f :
  build_filter debug_str env_var cfg = Ok f ↔ filter_new (filter_text env_var cfg) = Ok f.
Proof.
  unfold build_filter, filter_text, map_err. repeat case_match; naive_solver.
Qed.

(** A [RUST_LOG] that is not Unicode counts as unset. *)
Lemma unreadable_filter_is_ignored env_var cfg :
  env_var ENV_FILTER_VAR = Err NotUnicode →
  build_filter debug_str env_var cfg = build_filter debug_str (λ _, Err NotPresent) cfg.
Proof. unfold build_filter. by intros ->. Qed.

Lemma rotation_known r : r ∈ LOG_ROTATIONS ↔ is_Some (match rotation_from_str debug_str r with
                                                        | Ok rot => Some rot | Err _ => None end).
Proof.
  unfold rotation_from_str, LOG_ROTATIONS. rewrite !elem_of_cons.
  repeat case_decide; split; try (by eauto); try (by intros []).
  intros Hr. destruct_or!; try done. by apply elem_of_nil in Hr.
Qed.

(** How the file appender is opened. *)
Definition file_opened (cfg : LoggingConfig) (writer : FileAppender) : Prop :=
  ∃ rot, rotation_from_str debug_str (rotation cfg) = Ok rot ∧
    create_dir_all (trim (log_dir cfg)) = Ok tt ∧
    open_appender rot (trim (file_prefix cfg))
      (if 0 <? max_files cfg then Some (max_files cfg) else None) (trim (log_dir cfg)) = Ok writer.

Lemma build_file_writer_ok cfg writer :
  build_file_writer debug_str cfg = Ok writer ↔ file_opened cfg writer.
Proof.
  unfold build_file_writer, file_opened, map_err. split.
  - destruct (create_dir_all _) as [[]|]; [|done].
    destruct (rotation_from_str _ _) as [rot|]; [|done].
    intros Hb. exists rot. do 2 (split; [done|]). by destruct (open_appender _ _ _ _).
  - intros (rot & -> & -> & ->). done.
Qed.

(** Logging comes up exactly as configured or not at all: [init]
    succeeds exactly when the section is valid, the filter parses ([RUST_LOG]
    when it says something, else the trimmed level), every configured output
    could be opened and the subscriber installed; a configured directory always
    has its file, opened with the configured rotation, prefix and retention
    ([0] keeps all files), and a valid section never has an unknown rotation. *)
Lemma logging_init_classified env_var cfg i :
  (init debug_str env_var cfg = Ok i ↔
     LoggingConfig_validate debug_str cfg = Ok tt ∧
     filter_new (filter_text env_var cfg) = Ok (in_filter i) ∧
     (if file_enabled cfg then ∃ writer, in_file i = Some writer ∧ file_opened cfg writer
      else in_file i = None) ∧
     try_init (in_filter i) (in_file i) (log_stderr cfg) = Ok tt ∧
     in_stderr i = log_stderr cfg ∧
     in_log_level i = sync_log_bridge_level (max_level_hint (in_filter i))) ∧
  (LoggingConfig_validate debug_str cfg = Ok tt →
     ∃ rot, rotation_from_str debug_str (rotation cfg) = Ok rot).
Proof.
  split.
  - unfold init. split.
    + intros Hi. destruct (LoggingConfig_validate _ _) as [[]|] eqn:Hv; [|done].
      destruct (build_filter _ _ _) as [f|] eqn:Hf; [|done]. apply build_filter_ok in Hf.
      split; [done|].
      destruct (file_enabled cfg); [destruct (build_file_writer _ _) as [w|] eqn:Hw; [|done];
        apply build_file_writer_ok in Hw|]; cbn in Hi.
      all: destruct (try_init _ _ _) as [[]|] eqn:Ht; [|done]; injection Hi as <-; cbn; eauto 10.
    + intros (-> & Hf & Hfile & Ht & Hs & Hl). apply build_filter_ok in Hf. rewrite Hf.
      destruct i as [f file st lv]; cbn in *. subst st lv.
      destruct (file_enabled cfg).
      * destruct Hfile as (w & -> & Hw). apply build_file_writer_ok in Hw. rewrite Hw. cbn. by rewrite Ht.
      * subst file. cbn. by rewrite Ht.
  - intros Hv. unfold LoggingConfig_validate in Hv. case_match eqn:Hr; [done|].
    to_prop. apply rotation_known in Hr as [rot Hr].
    destruct (rotation_from_str _ _) as [rot'|]; [by exists rot'|done].
Qed.
End Init.

(** ** Concrete events *)

(** JSON that drops everything below a space: enough to keep to one line. *)
Module ToyLog.
Definition strip (s : str) : str := filter (λ a, 32 ≤ code a) s.

#[export] Instance numbers : NumberOps :=
  {| F64 := Z; JsonNumber := Z; number_of_int n := n; number_from_f64 x := Some x |}.
#[export] Instance json : JsonOps :=
  {| value_text v := match v with
                     | JNull => "null" | JBool b => if b then "true" else "false"
                     | JNumber n => show n | JString s => strip s
                     end;
     system_json r := Ok (strip (sr_kind r ++ " " ++ sr_logger r ++ " " ++ sr_message r));
     audit_json r := Ok (strip (ar_timestamp r ++ ar_level r)) |}.

Lemma strip_line s : LF ∉ strip s.
Proof. unfold strip. intros [Hc _]%list_elem_of_filter. by vm_compute in Hc. Qed.

#[export] Instance json_laws : JsonLaws.
Proof. constructor; intros r json [= <-]; apply strip_line. Qed.

#[export] Instance ops : LogOps :=
  {| EnvFilter := str; filter_new s := Ok s; max_level_hint _ := Some LevelInfo;
     FileAppender := str; create_dir_all _ := Ok tt;
     open_appender _ prefix _ dir := Ok (dir ++ "/" ++ prefix);
     try_init _ _ _ := Ok tt |}.
End ToyLog.

Section Examples.
#[local] Existing Instances ToyLog.numbers ToyLog.json ToyLog.json_laws ToyLog.ops Gregorian.calendar
  Gregorian.calendar_laws.

(** A library's event that poses as an audit record. *)
Definition posing : LogEvent :=
  {| le_target := "log"; le_level := LevelInfo;
     le_fields := [(RECORD_FIELD, FvStr ("forged" : str)); ("log.target" : str, FvStr TARGET);
                   ("message" : str, FvDebug ("two" ++ [LF] ++ "lines"))] |}.

Definition no_env : Lookup := λ _, Err NotPresent.
Definition file_logging : LoggingConfig :=
  {| log_dir := " /var/log/proxy "; file_prefix := "audit"; log_level := " info ";
     rotation := "daily"; max_files := 0; log_stderr := false |}.

Lemma log_lines_are_not_forgeable_witness :
  format_event 0 posing = Some ("system denbrowser_proxy::audit twolines" ++ [LF]) ∧
  ∃ r, system_json r = Ok ("system denbrowser_proxy::audit twolines" : str) ∧ sr_kind r = "system".
Proof.
  assert (format_event 0 posing = Some ("system denbrowser_proxy::audit twolines" ++ [LF])) as Hl
    by (vm_compute; reflexivity).
  split; [exact Hl|].
  assert (iso_time 0) as Ht by (split; vm_compute; [discriminate|reflexivity]).
  destruct (log_lines_are_not_forgeable (λ _, DNull) 0 posing _ ltac:(discriminate) Ht Hl)
    as (json & Heq & _ & Hc).
  apply app_inj_2 in Heq as [<- _]; [|done].
  destruct Hc as [(lvl & r & Hr & _)|(r & Hj & Hk & _)]; [discriminate|]. by exists r.
Defined.

Definition file_filter : EnvFilter := ("info" : str).
Definition file_appender : FileAppender := ("/var/log/proxy/audit" : str).

Example file_logging_starts :
  init quote no_env file_logging =
    Ok {| in_filter := file_filter; in_file := Some file_appender; in_stderr := false;
          in_log_level := LfInfo |}.
Proof. vm_compute. reflexivity. Qed.
End Examples.
