(* ===== verification/Startup.v ===== *)
(** Startup ([main] of [src/proxy/src/main.rs]): from the command line and the
    configuration to a listening proxy, or the fatal message it exits with.

    The TLS acceptor is OpenSSL's and the server pingora's (class
    [ListenerOps]): what [main] asks of them is the record [Acceptor]. *)

From S2P Require Import Prelude Net Attest Config ConfigEnv AuditTypes RateLimit Mtls MtlsFacts Passthrough Machine AuditLog Tls Proxy Logging.

(** [Args]. *)
Record Args := { insecure_upstream : bool; config_path : str }.

(** Subjects and public keys of certificates: [try_cmp(..).ok()], and whether
    the keys are equal when both could be read. *)
Class CertCompare `{X509Ops} := {
  subject_cmp : X509 → X509 → option comparison;
  same_public_key : X509 → X509 → option bool }.

(** The calls to the TLS acceptor and to pingora that can fail,
    with the text of the error. *)
Class ListenerOps `{X509Ops, PKeyOps} := {
  tls_with_callbacks : result unit str;
  mozilla_intermediate : result unit str;
  set_certificate_chain_file : str → result unit str;
  set_private_key : str → PKey → result unit str;   (* set and check, for a certificate file *)
  set_ca_file : str → result unit str;
  add_client_ca : X509 → result unit str;
  set_session_id_context : str → result unit str;
  server_new : result unit str }.

Section Startup.
Context `{Crypto, GlobOps, RateOps, IpNetOps, X509Ops, !MachineTls, Calendar, HttpOps, PKeyOps,
          LogOps, !CertCompare, !ListenerOps}.
Variables (debug_str parse_u16_error : str → str).

(** What the listener's acceptor is set up to do. *)
Record Acceptor := {
  ac_records_identity : bool;          (* the mTLS callbacks *)
  ac_certificate : str;
  ac_key : PKey;
  ac_ca_file : option str;             (* the verification store *)
  ac_client_cas : list X509;           (* advertised issuers *)
  ac_requires_client_cert : bool;      (* PEER | FAIL_IF_NO_PEER_CERT *)
  ac_session_context : str;
  ac_h2 : bool }.

Record Listening := {
  ls_log : Installed;
  ls_proxy : DenBrowserProxy;
  ls_acceptor : Acceptor;
  ls_address : str }.

(** How startup ends otherwise: before the log is up the message goes to
    stderr, afterwards through [fatal]. *)
Record Exit := { ex_logged : bool; ex_message : str }.

Definition early {A} (r : result A str) : result A Exit :=
  map_err (λ e, {| ex_logged := false; ex_message := "fatal: " ++ e |}) r.
Definition fatal {A} (r : result A str) : result A Exit :=
  map_err (λ e, {| ex_logged := true; ex_message := e |}) r.
Definition fatal_at {A} (what : str) (r : result A str) : result A Exit :=
  fatal (map_err (λ e, what ++ e) r).

(** The overlap of the two certificate authorities. *)
Definition same_ca (user_ca machine_ca : X509) : bool :=
  bool_decide (subject_cmp user_ca machine_ca = Some Eq)
  && default false (same_public_key user_ca machine_ca).

Definition ca_overlap (m : option Mtls) (mi : option MachineIdentity) : bool :=
  match m, mi with
  | Some m, Some mi =>
      existsb (λ user_ca, existsb (same_ca user_ca) (machine_ca_certs mi)) (ca_certs m)
  | _, _ => false
  end.

Definition CA_OVERLAP : str :=
  "[mtls].client_ca and [machine_identity].machine_ca share a certificate — "
  ++ "the user and machine identities must be issued by different CAs so they "
  ++ "can be told apart".

Fixpoint advertise (cas : list X509) : result unit str :=
  match cas with
  | [] => Ok tt
  | ca :: cas' =>
      let? _ := map_err (λ e, "mTLS client CA list setup failed: " ++ e) (add_client_ca ca) in
      advertise cas'
  end.

(** The TLS listener. *)
Definition acceptor (cfg : ProxyConfig) (m : option Mtls) (key : PKey) : result Acceptor str :=
  let? _ := match m with
            | Some _ => map_err (λ e, "TLS callback setup failed: " ++ e) tls_with_callbacks
            | None => map_err (λ e, "TLS acceptor setup failed: " ++ e) mozilla_intermediate
            end in
  let? _ := map_err (λ e, "TLS cert load failed (" ++ tls_cert cfg ++ "): " ++ e)
              (set_certificate_chain_file (tls_cert cfg)) in
  let? _ := map_err (λ e, "TLS key load failed (" ++ tls_key cfg ++ "): " ++ e
                          ++ " — is it the private key for " ++ tls_cert cfg ++ "?")
              (set_private_key (tls_cert cfg) key) in
  let? _ := match m with
            | Some m =>
                let? _ := map_err (λ e, "mTLS CA load failed (" ++ ca_path m ++ "): " ++ e)
                            (set_ca_file (ca_path m)) in
                advertise (ca_certs m)
            | None => Ok tt
            end in
  let? _ := map_err (λ e, "TLS session-ID context setup failed: " ++ e)
              (set_session_id_context "denbrowser-proxy") in
  Ok {| ac_records_identity := bool_decide (is_Some m); ac_certificate := tls_cert cfg;
        ac_key := key; ac_ca_file := ca_path <$> m; ac_client_cas := default [] (ca_certs <$> m);
        ac_requires_client_cert := bool_decide (is_Some m);
        ac_session_context := "denbrowser-proxy"; ac_h2 := true |}.

(** The components, in the order [main] builds them: the limiter, the two
    client identities, which must not share a CA, and the bypass. *)
Definition components (read : str → result str str) (now : Z) (cfg : Config)
    : result (option RateLimiter * option Mtls * option MachineIdentity * option BypassPolicy)
        Exit :=
  let? rl := fatal_at "invalid rate_limiting config: "
               (RateLimiter_from_config debug_str now (rate_limiting cfg)) in
  let? m := fatal_at "invalid mtls config: " (Mtls_from_config read (mtls cfg)) in
  let? mi := fatal_at "invalid machine_identity config: "
               (MachineIdentity_from_config debug_str read (machine_identity cfg)) in
  let? _ := fatal (if ca_overlap m mi then Err CA_OVERLAP else Ok tt) in
  let? bypass := fatal_at "invalid proxy_bypass config: "
                   (passthrough_from_config debug_str (proxy_bypass cfg)
                      (bool_decide (is_Some m))) in
  Ok (rl, m, mi, bypass).

(** [main] up to [run_forever], at the monotonic time [now]: [read] and
    [read_to_string] are the file system, [env_var] the environment, and
    [config] what [Config::load] makes of a path. *)
Definition startup (read read_to_string : str → result str str)
    (config : str → result Config str) (env_var : Lookup) (now : Z) (args : Args)
    : result Listening Exit :=
  let? cfg := early (config (config_path args)) in
  let? log := early (init debug_str env_var (Config.logging cfg)) in
  let? _ := fatal_at "invalid proxy config: " (ProxyConfig_validate (proxy cfg)) in
  let? tls := fatal (UpstreamTls_from_config read (proxy cfg) (insecure_upstream args)) in
  let? verifier := fatal (Verifier_from_config read_to_string
                            (cfg_private_key (attestation cfg))) in
  let? (rl, m, mi, bypass) := components read now cfg in
  let? px := fatal (DenBrowserProxy_new debug_str parse_u16_error verifier
                      (upstream (proxy cfg)) tls rl bypass mi) in
  let? _ := fatal_at "pingora init failed: " server_new in
  let? (key, _) := fatal (load read (proxy cfg)) in
  let? acc := fatal (acceptor (proxy cfg) m key) in
  Ok {| ls_log := log; ls_proxy := px; ls_acceptor := acc; ls_address := listen (proxy cfg) |}.
End Startup.
