(* ===== verification/StartupFacts.v ===== *)
(** What a proxy that got as far as listening has been set up to do. *)

From S2P Require Import Prelude Net Attest AttestToken Config ConfigEnv AuditTypes RateLimit RateLimitFacts Mtls MtlsFacts Passthrough Machine MachineFacts AuditLog AuditTime AuditFacts Tls TlsFacts Proxy Logging LoggingFacts Startup.

Section Facts.
Context `{Crypto, GlobOps, RateOps, IpNetOps, X509Ops, !MachineTls, Calendar, HttpOps, PKeyOps,
          LogOps, !CertCompare, !ListenerOps}.
Variables (debug_str parse_u16_error : str → str).

Notation start := (startup debug_str parse_u16_error).

(** ** The parts *)

Lemma fatal_ok {A} (r : result A str) a : fatal r = Ok a ↔ r = Ok a.
Proof. destruct r; cbn; naive_solver. Qed.
Lemma fatal_at_ok {A} what (r : result A str) a : fatal_at what r = Ok a ↔ r = Ok a.
Proof. destruct r; cbn; naive_solver. Qed.

Lemma mtls_from_config_ok read cfg m :
  Mtls_from_config read cfg = Ok m →
  if mtls_enabled cfg
  then ∃ pem cas, cas ≠ [] ∧ read (client_ca cfg) = Ok pem ∧ stack_from_pem pem = Ok cas ∧
                  m = Some {| ca_path := client_ca cfg; ca_certs := cas |}
  else m = None.
Proof.
  unfold Mtls_from_config, map_err. destruct (mtls_enabled cfg); cbn; [|by intros [= <-]].
  destruct (client_ca cfg) as [|a p]; [done|]. cbn [is_empty].
  destruct (read _) as [pem|]; [|done].
  destruct (stack_from_pem pem) as [[|c cs]|] eqn:Hs; [done| |done].
  intros [= <-]. by exists pem, (c :: cs).
Qed.

Lemma machine_from_config_enabled read cfg m :
  MachineIdentity_from_config debug_str read cfg = Ok m →
  bool_decide (is_Some m) = mi_enabled cfg ∧
  ∀ mi, m = Some mi → dns_cache mi = ∅ ∧ required mi = mi_required cfg.
Proof.
  unfold MachineIdentity_from_config. intros Hm. destruct (mi_enabled cfg); cbn in Hm; [|by simplify_eq].
  destruct (is_empty (machine_ca cfg)); [done|].
  destruct (map_err _ (read _)) as [pem|]; [|done].
  destruct (map_err _ (stack_from_pem pem)) as [cas|]; [|done]. destruct (is_empty cas); [done|].
  destruct (map_err _ store_new) as [b|]; [|done]. destruct (add_cas b cas) as [b'|]; [|done].
  destruct (if partial_chain cfg then _ else _) as [b''|]; [|done].
  destruct (try_map _ _) as [gs|]; [|done]. simplify_eq. split; [done|]. by intros mi [= <-].
Qed.

Lemma rate_from_config_enabled now cfg rl :
  RateLimiter_from_config debug_str now cfg = Ok rl → bool_decide (is_Some rl) = rl_enabled cfg.
Proof.
  unfold RateLimiter_from_config. intros Hr. destruct (rl_enabled cfg); cbn [negb] in Hr; [|by simplify_eq].
  cbn zeta in Hr. destruct (try_map _ _) as [rs|]; [|done].
  repeat split_match_in Hr; done.
Qed.

Lemma ca_overlap_false m mi u c :
  ca_overlap (Some m) (Some mi) = false → u ∈ ca_certs m → c ∈ machine_ca_certs mi →
  same_ca u c = false.
Proof.
  unfold ca_overlap. intros Ho Hu Hc.
  rewrite existsb_false, Forall_forall in Ho. specialize (Ho u Hu).
  rewrite existsb_false, Forall_forall in Ho. by apply Ho.
Qed.

(** The acceptor of a listener with these client certificates and this key. *)
Record acceptor_ok (cfg : ProxyConfig) (m : option Mtls) (key : PKey) (a : Acceptor) : Prop := {
  ao_identity : ac_records_identity a = bool_decide (is_Some m);
  ao_required : ac_requires_client_cert a = bool_decide (is_Some m);
  ao_ca_file : ac_ca_file a = ca_path <$> m;
  ao_cas : ac_client_cas a = default [] (ca_certs <$> m);
  ao_key : ac_certificate a = tls_cert cfg ∧ ac_key a = key ∧
           set_private_key (tls_cert cfg) key = Ok tt }.

Lemma acceptor_built cfg m key a : acceptor cfg m key = Ok a → acceptor_ok cfg m key a.
Proof.
  unfold acceptor. intros Ha.
  destruct (match m with Some _ => _ | None => _ end) as [[]|]; [|done].
  destruct (map_err _ (set_certificate_chain_file _)) as [[]|]; [|done].
  destruct (set_private_key _ _) as [[]|] eqn:Hk; [|done]. cbn [map_err] in Ha.
  destruct (match m with Some _ => _ | None => _ end) as [[]|]; [|done].
  destruct (map_err _ (set_session_id_context _)) as [[]|]; [|done].
  injection Ha as <-. by split.
Qed.

(** What [components] has established. *)
Record components_ok (read : str → result str str) (now : Z) (cfg : Config)
    (rl : option RateLimiter) (m : option Mtls) (mi : option MachineIdentity)
    (bypass : option BypassPolicy) : Prop := {
  co_rate : RateLimiter_from_config debug_str now (rate_limiting cfg) = Ok rl;
  co_mtls : Mtls_from_config read (mtls cfg) = Ok m;
  co_machine : MachineIdentity_from_config debug_str read (machine_identity cfg) = Ok mi;
  co_distinct : ca_overlap m mi = false;
  co_bypass : passthrough_from_config debug_str (proxy_bypass cfg) (bool_decide (is_Some m))
                = Ok bypass }.

Lemma components_built read now cfg rl m mi bypass :
  components debug_str read now cfg = Ok (rl, m, mi, bypass) →
  components_ok read now cfg rl m mi bypass.
Proof.
  unfold components. intros Hc.
  destruct (fatal_at _ (RateLimiter_from_config _ _ _)) as [rl'|] eqn:Hrl; [|done].
  destruct (fatal_at _ (Mtls_from_config _ _)) as [m'|] eqn:Hm; [|done].
  destruct (fatal_at _ (MachineIdentity_from_config _ _ _)) as [mi'|] eqn:Hmi; [|done].
  destruct (ca_overlap m' mi') eqn:Ho; [done|]. cbn in Hc.
  destruct (fatal_at _ (passthrough_from_config _ _ _)) as [b|] eqn:Hb; [|done]. simplify_eq.
  apply fatal_at_ok in Hrl, Hm, Hmi, Hb. by split.
Qed.

(** ** The listening proxy *)

(** Everything a listening proxy has been set up to do, in terms of the
    configuration it was started with. *)
Record configured (read read_to_string : str → result str str) (env_var : Lookup) (now : Z)
    (args : Args) (cfg : Config) (l : Listening) : Prop := {
  cf_log : init debug_str env_var (Config.logging cfg) = Ok (ls_log l);
  cf_proxy : ProxyConfig_validate (proxy cfg) = Ok tt ∧ ls_address l = listen (proxy cfg);
  (* the upstream is verified unless the flag says otherwise *)
  cf_upstream : up_insecure (upstream_tls (ls_proxy l)) = insecure_upstream args ∧
    UpstreamTls_from_config read (proxy cfg) (insecure_upstream args)
      = Ok (upstream_tls (ls_proxy l)) ∧
    ∃ port, rsplit_once ":" (upstream (proxy cfg)) = Some (upstream_host (ls_proxy l), port) ∧
            parse_u16 port = Some (upstream_port (ls_proxy l));
  (* the attestation key is the configured one, and nothing has been replayed *)
  cf_key : Verifier_from_config read_to_string (cfg_private_key (attestation cfg))
             = Ok (verifier (ls_proxy l));
  cf_cache : nonce_cache (verifier (ls_proxy l)) = empty_cache;
  cf_rate : RateLimiter_from_config debug_str now (rate_limiting cfg)
              = Ok (rate_limiter (ls_proxy l)) ∧
    bool_decide (is_Some (rate_limiter (ls_proxy l))) = rl_enabled (rate_limiting cfg);
  (* client certificates are required, recorded and checked against the CA
     exactly when mTLS is enabled *)
  cf_mtls : ac_requires_client_cert (ls_acceptor l) = mtls_enabled (mtls cfg) ∧
    ac_records_identity (ls_acceptor l) = mtls_enabled (mtls cfg) ∧
    ac_ca_file (ls_acceptor l)
      = (if mtls_enabled (mtls cfg) then Some (client_ca (mtls cfg)) else None) ∧
    (mtls_enabled (mtls cfg) = true → ac_client_cas (ls_acceptor l) ≠ []);
  (* no bypass without required client certificates *)
  cf_bypass : passthrough_from_config debug_str (proxy_bypass cfg) (mtls_enabled (mtls cfg))
                = Ok (px_bypass (ls_proxy l)) ∧
    ∀ policy, px_bypass (ls_proxy l) = Some policy →
    pb_enabled (proxy_bypass cfg) = true ∧ ac_requires_client_cert (ls_acceptor l) = true ∧
    policy_subjects policy = allowed_subjects (proxy_bypass cfg);
  cf_machine : MachineIdentity_from_config debug_str read (machine_identity cfg)
                 = Ok (px_machine (ls_proxy l)) ∧
    bool_decide (is_Some (px_machine (ls_proxy l))) = mi_enabled (machine_identity cfg) ∧
    ∀ mi, px_machine (ls_proxy l) = Some mi →
      dns_cache mi = ∅ ∧ required mi = mi_required (machine_identity cfg) ∧
      ∀ u c, u ∈ ac_client_cas (ls_acceptor l) → c ∈ machine_ca_certs mi → same_ca u c = false;
  cf_listener : ∃ warned, load read (proxy cfg) = Ok (ac_key (ls_acceptor l), warned) ∧
    set_private_key (tls_cert (proxy cfg)) (ac_key (ls_acceptor l)) = Ok tt }.

Lemma verifier_starts_empty read_to_string path v :
  Verifier_from_config read_to_string path = Ok v → nonce_cache v = empty_cache.
Proof.
  unfold Verifier_from_config, from_pem, map_err. intros Hv. inv_match Hv. done.
Qed.

Lemma new_proxy_ok v up tls rl bp m p :
  DenBrowserProxy_new debug_str parse_u16_error v up tls rl bp m = Ok p →
  ∃ host port n, rsplit_once ":" up = Some (host, port) ∧ parse_u16 port = Some n ∧
    p = {| verifier := v; upstream_host := host; upstream_port := n; upstream_tls := tls;
           rate_limiter := rl; px_bypass := bp; px_machine := m |}.
Proof.
  unfold DenBrowserProxy_new, ok_or. destruct (rsplit_once _ _) as [[host port]|]; [|done].
  destruct (parse_u16 port) as [n|] eqn:Hn; [|done]. intros [= <-]. by exists host, port, n.
Qed.

Lemma insecure_as_given read cfg b t : UpstreamTls_from_config read cfg b = Ok t → up_insecure t = b.
Proof. unfold UpstreamTls_from_config. intros Ht. by repeat split_match_in Ht. Qed.

(** The listener that [components] and [acceptor] give. *)
Lemma configured_intro read read_to_string env_var now args cfg log tls v rl m mi bp p key warned a :
  init debug_str env_var (Config.logging cfg) = Ok log →
  ProxyConfig_validate (proxy cfg) = Ok tt →
  UpstreamTls_from_config read (proxy cfg) (insecure_upstream args) = Ok tls →
  Verifier_from_config read_to_string (cfg_private_key (attestation cfg)) = Ok v →
  components_ok read now cfg rl m mi bp →
  DenBrowserProxy_new debug_str parse_u16_error v (upstream (proxy cfg)) tls rl bp mi = Ok p →
  load read (proxy cfg) = Ok (key, warned) → acceptor_ok (proxy cfg) m key a →
  configured read read_to_string env_var now args cfg
    {| ls_log := log; ls_proxy := p; ls_acceptor := a; ls_address := listen (proxy cfg) |}.
Proof.
  intros Hlog Hval Htls Hv [Hrl Hm Hmi Ho Hb] Hp Hkey [Hid Hreq Hfile Hcas (Hcert & Hk & Hset)].
  apply new_proxy_ok in Hp as (host & port & n & Hup & Hn & ->).
  pose proof (mtls_from_config_ok _ _ _ Hm) as Hmtls.
  pose proof (machine_from_config_enabled _ _ _ Hmi) as [Hme Hmr].
  assert (bool_decide (is_Some m) = mtls_enabled (mtls cfg)) as Hen.
  { destruct (mtls_enabled _); [by destruct Hmtls as (?&?&?&?&?&->)|by subst m]. }
  constructor; cbn [ls_log ls_proxy ls_acceptor ls_address verifier upstream_host upstream_port
    upstream_tls rate_limiter px_bypass px_machine]; try done.
  - split; [by eapply insecure_as_given|]. split; [done|]. by exists port.
  - by eapply verifier_starts_empty.
  - split; [done|by eapply rate_from_config_enabled].
  - rewrite Hreq, Hid, Hen, Hfile, Hcas.
    destruct (mtls_enabled _); [|by subst m]. by destruct Hmtls as (?&?&?&?&?&->).
  - rewrite <-Hen. split; [done|]. intros policy ->. rewrite Hreq.
    by apply passthrough_from_config_ok in Hb as (?&?&_&_&_&?).
  - do 2 (split; [done|]). intros mi' ->. destruct (Hmr mi' eq_refl) as [? ?]. do 2 (split; [done|]).
    rewrite Hcas. intros u c Hu Hc. destruct m as [m|]; [|by apply elem_of_nil in Hu].
    by eapply ca_overlap_false.
  - exists warned. by rewrite Hk.
Qed.

(** A result whose failure has been logged. *)
Definition logged {A} (r : result A Exit) : Prop := ∀ x, r = Err x → ex_logged x = true.

Lemma logged_ok {A} (a : A) : logged (Ok a).
Proof. by intros x [=]. Qed.
Lemma logged_fatal {A} (r : result A str) : logged (fatal r).
Proof. destruct r; [apply logged_ok|]. by intros x [= <-]. Qed.
Lemma logged_bind {A B} (r : result A Exit) (k : A → result B Exit) :
  logged r → (∀ a, logged (k a)) → logged (let? a := r in k a).
Proof. intros Hr Hk. destruct r as [|e]; [apply Hk|]. intros x [= <-]. by apply Hr. Qed.

(** Every stage after the log is up reports through the log. *)
Ltac solve_logged :=
  repeat first [apply logged_ok | apply logged_fatal
               | match goal with |- logged (match ?r with _ => _ end) =>
                   apply (logged_bind r); [|intros ?]
                 end
               | match goal with |- logged (match ?p with _ => _ end) => destruct p end].

Lemma components_logged read now cfg : logged (components debug_str read now cfg).
Proof. unfold components, fatal_at. solve_logged. Qed.

Lemma startup_failure read read_to_string config env_var now args x :
  start read read_to_string config env_var now args = Err x →
  (ex_logged x = true ↔
   ∃ cfg log, config (config_path args) = Ok cfg ∧
              init debug_str env_var (Config.logging cfg) = Ok log).
Proof.
  unfold startup. destruct (config _) as [cfg|e]; cbn [early map_err];
    [|by intros [= <-]; split; [|intros (?&?&?&_)]].
  destruct (init _ _ _) as [log|e] eqn:Hlog; cbn [map_err];
    [|by intros [= <-]; split; [|intros (?&?&[= <-]&?); congruence]].
  intros Hx. split; [by eauto|]. intros _. revert x Hx.
  lazymatch goal with |- ∀ x, ?r = Err x → _ => change (logged r) end.
  unfold fatal_at. solve_logged. apply components_logged.
Qed.

Lemma startup_listens read read_to_string config env_var now args l :
  start read read_to_string config env_var now args = Ok l →
  ∃ cfg, config (config_path args) = Ok cfg ∧
         configured read read_to_string env_var now args cfg l.
Proof.
  unfold startup. intros Hs. destruct (config _) as [cfg|]; [|done]. cbn [early map_err] in Hs.
  exists cfg. split; [done|].
  destruct (init _ _ _) as [log|] eqn:Hlog; [|done]. cbn [map_err] in Hs.
  destruct (fatal_at _ (ProxyConfig_validate _)) as [[]|] eqn:Hval; [|done].
  destruct (fatal (UpstreamTls_from_config _ _ _)) as [tls|] eqn:Htls; [|done].
  destruct (fatal (Verifier_from_config _ _)) as [v|] eqn:Hv; [|done].
  destruct (components _ _ _ _) as [[[[rl m] mi] bp]|] eqn:Hc; [|done].
  destruct (fatal (DenBrowserProxy_new _ _ _ _ _ _ _ _)) as [p|] eqn:Hp; [|done].
  destruct (fatal_at _ server_new) as [[]|]; [|done].
  destruct (fatal (load _ _)) as [[key warned]|] eqn:Hk; [|done].
  destruct (fatal (acceptor _ _ _)) as [a|] eqn:Ha; [|done]. injection Hs as <-.
  apply fatal_at_ok in Hval. apply fatal_ok in Htls, Hv, Hp, Hk, Ha.
  apply components_built in Hc. apply acceptor_built in Ha. by eapply configured_intro.
Qed.

(** Claim C18. What a listening proxy is: startup either exits, with a message
    that is logged exactly when the configuration and the log were fine, or it
    listens as configured. Then the sections are valid; the upstream is verified
    unless [--insecure-upstream] says otherwise; the attestation key is the
    configured one and the replay cache is empty; client certificates are
    required, checked against the mTLS CA and recorded exactly when mTLS is
    enabled; the bypass policy is the section's and does not exist without them;
    the limiter and the machine identity are those of their sections, on exactly
    when enabled; and no user CA shares its name and key with a machine CA. *)
Theorem listens_as_configured read read_to_string config env_var now args :
  match start read read_to_string config env_var now args with
  | Ok l => ∃ cfg, config (config_path args) = Ok cfg ∧
                   configured read read_to_string env_var now args cfg l
  | Err x => ex_logged x = true ↔
      ∃ cfg log, config (config_path args) = Ok cfg ∧
                 init debug_str env_var (Config.logging cfg) = Ok log
  end.
Proof.
  destruct (start _ _ _ _ _ _) as [l|x] eqn:Hs; [by eapply startup_listens|by eapply startup_failure].
Qed.
End Facts.

(** ** A proxy that starts, and one that does not *)

Module ToyListener.
#[export] Instance compare_certs : @CertCompare ToyMachine.x509 :=
  {| subject_cmp u c := Some (if decide (u = c) then Eq else Lt);
     same_public_key u c := Some (bool_decide (u = c)) |}.
#[export] Instance listener : @ListenerOps ToyMachine.x509 ToyKeys.keys :=
  {| tls_with_callbacks := Ok tt; mozilla_intermediate := Ok tt;
     set_certificate_chain_file _ := Ok tt; set_private_key _ _ := Ok tt; set_ca_file _ := Ok tt;
     add_client_ca _ := Ok tt; set_session_id_context _ := Ok tt; server_new := Ok tt |}.
End ToyListener.

Section Examples.
#[local] Existing Instances Toy.crypto ToyRate.globs ToyRate.ops ToyNet.nets ToyMachine.x509
  ToyMachine.tls ToyKeys.keys ToyLog.ops ToyListener.compare_certs ToyListener.listener.

Definition sample_files (users : str) (path : str) : result str str :=
  if decide (path = "key.pem") then Ok ("Pkey" : str)
  else if decide (path = "users.pem") then Ok users
  else if decide (path = "ca.pem") then Ok ("machines" : str)
  else if decide (path = "attest.pem") then Ok ("k" : str)
  else Err ("not found" : str).

Definition full_config : Config :=
  {| proxy := {| listen := ":8443"; upstream := "backend:443"; upstream_ca := "";
                 tls_cert := "cert.pem"; tls_key := "key.pem";
                 tls_key_passphrase := {| secret_value := "" |}; tls_key_passphrase_file := "" |};
     attestation := {| cfg_private_key := "attest.pem" |};
     rate_limiting := RateLimitConfig_default;
     mtls := {| mtls_enabled := true; client_ca := "users.pem" |};
     machine_identity := fleet_config; proxy_bypass := sample_bypass;
     Config.logging := LoggingConfig_default |}.

Definition sample_args : Args := {| insecure_upstream := false; config_path := "proxy.toml" |}.

Definition sample_startup (users : str) : result Listening Exit :=
  startup quote quote (sample_files users) (sample_files users) (λ _, Ok full_config) no_env 0
    sample_args.

(** Distinct authorities: it listens, with client certificates required. *)
Lemma listens_as_configured_witness :
  match sample_startup "users" with
  | Ok l => ac_requires_client_cert (ls_acceptor l) = true ∧ is_Some (px_bypass (ls_proxy l)) ∧
            nonce_cache (verifier (ls_proxy l)) = empty_cache
  | Err _ => False
  end.
Proof.
  assert (is_ok (sample_startup "users") = true) as Hok by (vm_compute; reflexivity).
  destruct (sample_startup "users") as [l|x] eqn:Hs; [|discriminate Hok].
  pose proof (listens_as_configured quote quote (sample_files "users") (sample_files "users")
                (λ _, Ok full_config) no_env 0 sample_args) as Hl.
  change (startup quote quote (sample_files "users") (sample_files "users") (λ _, Ok full_config)
            no_env 0 sample_args) with (sample_startup "users") in Hl.
  rewrite Hs in Hl. destruct Hl as (cfg & [= <-] & Hc).
  split; [exact (proj1 (cf_mtls _ _ _ _ _ _ _ _ Hc))|]. split; [|exact (cf_cache _ _ _ _ _ _ _ _ Hc)].
  assert (match sample_startup "users" with
          | Ok l => bool_decide (is_Some (px_bypass (ls_proxy l))) | Err _ => false
          end = true) as Hv by (vm_compute; reflexivity).
  rewrite Hs in Hv. by to_prop.
Defined.

(** One authority for users and machines: it refuses to start. *)
Example shared_authority_refused :
  match sample_startup "machines" with
  | Ok _ => None
  | Err x => Some (ex_logged x, ex_message x)
  end = Some (true, CA_OVERLAP).
Proof. vm_compute. reflexivity. Qed.
End Examples.
