(* ===== verification/Browser.v ===== *)
(** The patched browser's side of the protocol ([src/patches/006-attest-requests],
    with what 012, 014 and 024 add to it): the table of proxies compiled into the
    browser, the site policy, the TLS pin, the workstation certificate picked
    from the Windows stores, and [AddAttestHeaders], which every request passes
    on its way out.

    Firefox and NSS are classes of operations; what the system answers during one
    call (the time, random bytes, a key pair, the certificate stores) is the
    argument [Sys].  Static variables are the record [BrowserState]. *)

From S2P Require Import Prelude Attest.

(** ** Firefox and NSS *)

(** [nsHttpRequestHead]; header names are atoms, compared without case. *)
Class Necko := {
  RequestHead : Type;
  Method : RequestHead → str;
  GetHeader : RequestHead → str → option str;
  SetHeader : RequestHead → str → str → RequestHead;   (* merge = false *)
  ClearHeader : RequestHead → str → RequestHead }.

(** The keys are those of [Crypto]; [None] is a failed call. *)
Class Nss `{Crypto} := {
  SpkiInfo : Type;
  DecodeDERSubjectPublicKeyInfo : str → option SpkiInfo;
  ExtractPublicKey : SpkiInfo → option PublicKey;
  publicValue : PublicKey → str;                        (* u.ec.publicValue *)
  PubDeriveWithKDF : SecretKey → PublicKey → option str;
  Encrypt : str → str → str → option str;               (* key, IV, plaintext *)
  Base64Encode : str → option str;
  HashState : Type;
  HashInit : option HashState;
  HashUpdate : HashState → str → option HashState;
  HashFinish : HashState → option str;
  Certificate : Type;
  NewTempCertificate : str → option Certificate;
  EncodeSubjectPublicKeyInfo : Certificate → option str;
  HashBuf : str → option str }.                         (* PK11_HashBuf, SHA-256 *)

(** An [nsIURI]; [None] is a getter that fails. *)
Record Uri := {
  GetScheme : option str;
  GetAsciiHost : option str;
  GetPathQueryRef : option str }.

(** An upload stream: whether it can be cloned, and, if cloning succeeds, what
    the reads of the clone deliver in turn. *)
Record UploadStream := {
  GetCloneable : bool;
  CloneReads : option (list (option str)) }.

Inductive nsresult := NS_OK | NS_ERROR_FAILURE.

(** ** Hosts and patterns *)

(** [ProxyHostMatch] of patch 006, and [SiteHostMatches] of patch 014. *)
Definition ProxyHostMatch (host pat : str) : bool :=
  if decide (host = pat) then true
  else if (length pat + 1 <? length host)%nat then
    bool_decide (host !! (length host - length pat - 1)%nat = Some "."%char)
    && bool_decide (drop (length host - length pat) host = pat)
  else false.

Definition SiteHostMatches (host pattern : str) : bool :=
  if decide (host = pattern) then true
  else if (length pattern + 1 <? length host)%nat then
    bool_decide (host !! (length host - length pattern - 1)%nat = Some "."%char)
    && bool_decide (drop (length host - length pattern) host = pattern)
  else false.

(** [SiteAllowed] of patch 014, over the two compiled-in lists. *)
Definition SiteAllowed (whitelist blacklist : list str) (uri : option Uri) : bool :=
  match uri with
  | None => false
  | Some u =>
      match GetScheme u with
      | None => false
      | Some scheme =>
          if negb (bool_decide (scheme = "http")) && negb (bool_decide (scheme = "https"))
          then true
          else
            match GetAsciiHost u with
            | None | Some [] => false
            | Some host =>
                match whitelist with
                | _ :: _ => existsb (SiteHostMatches host) whitelist
                | [] => negb (existsb (SiteHostMatches host) blacklist)
                end
            end
      end
  end.

(** ** The proxy table *)

(** [DenProxyEntry]: the null-terminated arrays are lists. *)
Record DenProxyEntry := {
  mName : str;
  mDomains : list str;
  mAttestKey : str;
  mSpkiPin : option str }.

Definition claims_host (host : str) (e : DenProxyEntry) : bool :=
  existsb (ProxyHostMatch host) (mDomains e).

(** [FindProxyForHost]; [None] is -1. *)
Fixpoint FindProxyForHost (table : list DenProxyEntry) (host : str) : option nat :=
  match table with
  | [] => None
  | e :: rest =>
      if claims_host host e then Some 0%nat else S <$> FindProxyForHost rest host
  end.

Section Browser.
Context `{Necko, Nss}.

(** [VerifyProxyPin] of patch 012 and its call in [AuthCertificateHook]: [false]
    aborts the handshake. *)
Definition Sha256OfLeafSpki (cert_der : str) : option str :=
  if is_empty cert_der then None
  else
    match NewTempCertificate cert_der with
    | None => None
    | Some cert =>
        match EncodeSubjectPublicKeyInfo cert with
        | None => None
        | Some spki => HashBuf spki
        end
    end.

Definition VerifyProxyPin (table : list DenProxyEntry) (host leaf_der : str) : bool :=
  match FindProxyForHost table host ≫= (λ i, table !! i) with
  | None => true
  | Some entry =>
      match mSpkiPin entry with
      | None => true
      | Some pin =>
          match Sha256OfLeafSpki leaf_der with
          | None => false
          | Some hash => bool_decide (take 32 hash = take 32 pin)
          end
      end
  end.

Definition AuthCertificateHook_pin (table : list DenProxyEntry) (host : str)
    (peer_certs : list str) : bool :=
  match peer_certs with
  | [] => true
  | leaf :: _ => VerifyProxyPin table host leaf
  end.

(** ** The workstation certificate (patch 024, Windows) *)

Definition kMaxMachineCertDerBytes : Z := 16 * 1024.

(** [GetComputerNameExA] for one format: the size the first call asks for (when
    it fails with [ERROR_MORE_DATA]) and the name the second one gives. *)
Record ComputerName := { cn_size : option Z; cn_name : option str }.

(** A [CERT_CONTEXT] with what the API calls say of it: whether it is X.509, its
    DER, [CertVerifyTimeValidity] now, its end, and the two [CertGetNameStringA]
    calls (the size, then the size and the text). *)
Record CertContext := {
  cc_x509 : bool;
  cc_encoded : str;
  cc_time_valid : bool;
  cc_not_after : Z;
  cc_name_size : Z;
  cc_name_text : Z * str }.

(** [nsCaseInsensitiveCStringComparator]. *)
Definition equals_ci (a b : str) : bool :=
  bool_decide (to_ascii_lowercase a = to_ascii_lowercase b).

Definition AppendComputerName (q : ComputerName) (names : list str) : list str :=
  match cn_size q, cn_name q with
  | Some size, Some name =>
      if (size <=? 1) || is_empty name then names
      else if existsb (equals_ci name) names then names
      else names ++ [name]
  | _, _ => names
  end.

(** The name matched, as the certificate spells it. *)
Definition CertificateNamesComputer (cert : CertContext) (names : list str) : option str :=
  if cc_name_size cert <=? 1 then None
  else if negb ((cc_name_text cert).1 =? cc_name_size cert) then None
  else
    let candidate := take (Z.to_nat (cc_name_size cert - 1)) (cc_name_text cert).2 in
    if existsb (equals_ci candidate) names then Some candidate else None.

(** The checks one certificate of a store has to pass. *)
Definition usable_cert (names : list str) (cert : CertContext) : bool :=
  cc_x509 cert && negb (is_empty (cc_encoded cert))
  && (Z.of_nat (length (cc_encoded cert)) <=? kMaxMachineCertDerBytes)
  && cc_time_valid cert
  && bool_decide (is_Some (CertificateNamesComputer cert names)).

(** The loop over a store: [best] is the certificate kept so far. *)
Fixpoint enum_certificates (names : list str) (best : option CertContext)
    (certs : list CertContext) : option CertContext :=
  match certs with
  | [] => best
  | cert :: rest =>
      if negb (usable_cert names cert) then enum_certificates names best rest
      else
        match best with
        | Some b =>
            if cc_not_after cert <=? cc_not_after b then enum_certificates names best rest
            else enum_certificates names (Some cert) rest
        | None => enum_certificates names (Some cert) rest
        end
  end.

(** [FindMachineCertificateInStore]; a store that does not open is [None]. *)
Definition FindMachineCertificateInStore (names : list str) (store : option (list CertContext))
    : option CertContext :=
  store ≫= enum_certificates names None.

(** What Windows answers when it is scanned: the FQDN, the DNS and the NetBIOS
    name, and the four stores of [kMachineCertStoreLocations] in their order. *)
Record WindowsCerts := {
  wc_names : list ComputerName;
  wc_stores : list (option (list CertContext)) }.

(** The first store with a usable certificate settles it. *)
Fixpoint scan_stores (names : list str) (stores : list (option (list CertContext)))
    : option str :=
  match stores with
  | [] => None
  | store :: rest =>
      match FindMachineCertificateInStore names store with
      | None => scan_stores names rest
      | Some cert => Base64Encode (cc_encoded cert)
      end
  end.

Definition scan_machine_cert (w : WindowsCerts) : option str :=
  let names := fold_left (λ ns q, AppendComputerName q ns) (wc_names w) [] in
  if is_empty names then None else scan_stores names (wc_stores w).

(** ** Static variables *)

Record BrowserState := {
  sProxyPubKeys : list (option PublicKey);
  sKeysLoaded : bool;
  sMachineCertScanned : bool;
  sMachineCertBase64 : option str }.

Definition BrowserState_new (table : list DenProxyEntry) : BrowserState :=
  {| sProxyPubKeys := repeat None (S (length table)); sKeysLoaded := false;
     sMachineCertScanned := false; sMachineCertBase64 := None |}.

(** [EnsureMachineCertificateLoaded] and [GetMachineCertificateBase64]. *)
Definition EnsureMachineCertificateLoaded (w : WindowsCerts) (st : BrowserState)
    : BrowserState :=
  if sMachineCertScanned st then st
  else {| sProxyPubKeys := sProxyPubKeys st; sKeysLoaded := sKeysLoaded st;
          sMachineCertScanned := true; sMachineCertBase64 := scan_machine_cert w |}.

Definition GetMachineCertificateBase64 (w : WindowsCerts) (st : BrowserState)
    : BrowserState * option str :=
  let st := EnsureMachineCertificateLoaded w st in (st, sMachineCertBase64 st).

(** The import of one entry's key. *)
Definition import_key (e : DenProxyEntry) : option PublicKey :=
  match mAttestKey e with
  | [] => None
  | b :: _ =>
      if negb (code b =? 48) then None
      else DecodeDERSubjectPublicKeyInfo (mAttestKey e) ≫= ExtractPublicKey
  end.

(** The loop of [EnsureProxyKeysLoaded]: a key that cannot be imported leaves its
    slot as it is. *)
Fixpoint import_keys (i : nat) (table : list DenProxyEntry) (keys : list (option PublicKey))
    : list (option PublicKey) :=
  match table with
  | [] => keys
  | e :: rest =>
      import_keys (S i) rest
        (match import_key e with Some k => <[i := Some k]> keys | None => keys end)
  end.

Definition EnsureProxyKeysLoaded (table : list DenProxyEntry) (st : BrowserState)
    : BrowserState :=
  if sKeysLoaded st then st
  else {| sProxyPubKeys := import_keys 0 table (sProxyPubKeys st); sKeysLoaded := true;
          sMachineCertScanned := sMachineCertScanned st;
          sMachineCertBase64 := sMachineCertBase64 st |}.

Definition GetProxyPublicKey (table : list DenProxyEntry) (st : BrowserState) (index : nat)
    : BrowserState * option PublicKey :=
  let st := EnsureProxyKeysLoaded table st in
  (st, if (S (length table) <=? index)%nat then None
       else default None (sProxyPubKeys st !! index)).

(** ** The body *)

(** The read loop of [HashBody], over what the clone delivers. *)
Fixpoint hash_reads (h : HashState) (reads : list (option str)) : option HashState :=
  match reads with
  | [] | Some [] :: _ => Some h
  | None :: _ => None
  | Some buf :: rest =>
      match HashUpdate h buf with
      | None => None
      | Some h' => hash_reads h' rest
      end
  end.

(** [HashBody] of the patch: lower-case hex of the SHA-256. *)
Definition hash_upload (upload : option UploadStream) : option str :=
  match HashInit with
  | None => None
  | Some h =>
      match
        match upload with
        | None => Some h
        | Some s => match CloneReads s with None => None | Some reads => hash_reads h reads end
        end
      with
      | None => None
      | Some h =>
          match HashFinish h with
          | None => None
          | Some raw => Some (raw ≫= hex_byte)
          end
      end
  end.

Definition kMaxBoundBodyBytes : Z := 64 * 1024.

(** [ShouldSkipBodyHash]. *)
Definition ShouldSkipBodyHash (upload : option UploadStream) (upload_length : Z) : bool :=
  match upload with
  | None => false
  | Some s => if kMaxBoundBodyBytes <? upload_length then true else negb (GetCloneable s)
  end.

(** ** [AddAttestHeaders] *)

Definition X_TS : str := "X-DenBrowser-Ts".
Definition X_NONCE : str := "X-DenBrowser-Nonce".
Definition X_TOKEN : str := "X-DenBrowser-Token".
Definition X_MACHINE_CERT : str := "X-DenBrowser-Machine-Cert".

(** What the system answers during one call: [PR_Now] in microseconds, the two
    [PK11_GenerateRandom]s, whether there is an internal slot, the key pair. *)
Record Sys := {
  PR_Now : Z;
  random_nonce : option str;
  internal_slot : bool;
  GenerateKeyPair : option (SecretKey * PublicKey);
  random_iv : option str;
  windows : option WindowsCerts }.      (* [Some] on Windows *)

Definition PR_USEC_PER_SEC : Z := 1000000.

(** Step 5: the path and query without the fragment. *)
Definition request_target (path : str) : str :=
  match default [] (head (split_on "#" path)) with
  | [] => "/"
  | p => p
  end.

(** Steps 3 to 13, up to the first early return: the three header values. *)
Definition attest_values (sys : Sys) (key : PublicKey) (host : str) (head : RequestHead)
    (uri : Uri) (upload : option UploadStream) (upload_length : Z)
    : result (str * str * str) nsresult :=
  let ts := show (Z.quot (PR_Now sys) PR_USEC_PER_SEC) in
  let method := Method head in
  let? path := ok_or (GetPathQueryRef uri) NS_OK in
  let path := request_target path in
  let? nonce := ok_or (random_nonce sys) NS_OK in
  let? nonce_b64 := ok_or (Base64Encode nonce) NS_OK in
  let? body_hex :=
    (if ShouldSkipBodyHash upload upload_length then Ok ("unbound" : str)
     else ok_or (hash_upload upload) NS_ERROR_FAILURE) in
  let plaintext :=
    "denbrowser-attest:v2" ++ [LF] ++ nonce_b64 ++ [LF] ++ ts ++ [LF] ++ host ++ [LF]
    ++ method ++ [LF] ++ path ++ [LF] ++ body_hex in
  bail_if negb (internal_slot sys) with NS_OK in
  let? (ephem_priv, ephem_pub) := ok_or (GenerateKeyPair sys) NS_OK in
  let? aes_key := ok_or (PubDeriveWithKDF ephem_priv key) NS_OK in
  let? iv := ok_or (random_iv sys) NS_OK in
  let? ct := ok_or (Encrypt aes_key iv plaintext) NS_OK in
  let? token := ok_or (Base64Encode (publicValue ephem_pub ++ iv ++ ct)) NS_OK in
  Ok (ts, nonce_b64, token).

Definition AddAttestHeaders (table : list DenProxyEntry) (sys : Sys) (st : BrowserState)
    (head : RequestHead) (uri : Uri) (upload : option UploadStream) (upload_length : Z)
    : BrowserState * RequestHead * nsresult :=
  let head := ClearHeader head X_MACHINE_CERT in
  let st := EnsureProxyKeysLoaded table st in
  match GetAsciiHost uri with
  | None | Some [] => (st, head, NS_OK)
  | Some host =>
      match FindProxyForHost table host with
      | None => (st, head, NS_OK)
      | Some index =>
          let '(st, proxy_key) := GetProxyPublicKey table st index in
          match proxy_key with
          | None => (st, head, NS_OK)
          | Some key =>
              match attest_values sys key host head uri upload upload_length with
              | Err rv => (st, head, rv)
              | Ok (ts, nonce, token) =>
                  let head := SetHeader head X_TS ts in
                  let head := SetHeader head X_NONCE nonce in
                  let head := SetHeader head X_TOKEN token in
                  match windows sys with
                  | None => (st, head, NS_OK)
                  | Some w =>
                      match GetMachineCertificateBase64 w st with
                      | (st, Some cert) => (st, SetHeader head X_MACHINE_CERT cert, NS_OK)
                      | (st, None) => (st, head, NS_OK)
                      end
                  end
              end
          end
      end
  end.
End Browser.
