(* ===== verification/BrowserFacts.v ===== *)
(** What the patched browser promises the proxy: its table is matched by whole
    DNS labels, the attestation headers go only to hosts the table claims, the
    workstation certificate is the one the patch says, and a request it attests
    gets through the proxy whose key the table holds. *)

From S2P Require Import Prelude Net AuditTypes Attest AttestCache AttestToken Replay RateLimit RateLimitFacts MachineFacts Mtls Passthrough Machine AuditLog AuditTime AuditFacts Tls Proxy ProxyStages ProxyFacts ProxyHonest Browser.

(** ** What the browser relies on *)

(** The request head's documented behaviour: names are compared without case, an
    empty value would delete the header. *)
Class NeckoLaws `{Necko} := {
  get_set h n v : v ≠ [] → GetHeader (SetHeader h n v) n = Some v;
  get_set_ne h n m v : equals_ci n m = false → GetHeader (SetHeader h n v) m = GetHeader h m;
  get_clear h n : GetHeader (ClearHeader h n) n = None;
  get_clear_ne h n m : equals_ci n m = false → GetHeader (ClearHeader h n) m = GetHeader h m;
  method_set h n v : Method (SetHeader h n v) = Method h;
  method_clear h n : Method (ClearHeader h n) = Method h }.

(** NSS, where its calls succeed, computes what the proxy's libraries undo. *)
Class NssLaws `{CryptoLaws, !Nss} := {
  publicValue_eq p : publicValue p = to_sec1_bytes p;
  PubDeriveWithKDF_eq k p s :
    PubDeriveWithKDF k p = Some s → s = derive_key (diffie_hellman k p);
  Encrypt_eq k iv m c : Encrypt k iv m = Some c → c = aes128gcm_encrypt k iv m;
  Base64Encode_eq x y : Base64Encode x = Some y → y = base64_encode x;
  base64_encode_nonempty x : x ≠ [] → base64_encode x ≠ [];
  digest_of : HashState → str;                     (* what has been hashed *)
  HashInit_eq h : HashInit = Some h → digest_of h = [];
  HashUpdate_eq h b h' : HashUpdate h b = Some h' → digest_of h' = digest_of h ++ b;
  HashFinish_eq h d : HashFinish h = Some d → d = sha256 (digest_of h) }.

(** ** Hosts *)

(** The match is exact, or what is left of the pattern ends in a dot. *)
Lemma ProxyHostMatch_iff host pat :
  ProxyHostMatch host pat = true ↔ host = pat ∨ ∃ p, p ≠ [] ∧ host = p ++ "."%char :: pat.
Proof.
  unfold ProxyHostMatch. destruct (decide (host = pat)) as [->|Hne]; [tauto|].
  destruct (Nat.ltb_spec (length pat + 1) (length host)) as [Hl|Hl].
  - rewrite andb_true_iff, !bool_decide_eq_true. split.
    + intros [Hdot Htail]. right. exists (take (length host - length pat - 1) host). split.
      { intros E%(f_equal length). rewrite length_take in E. cbn in E. lia. }
      rewrite <-(take_drop_middle _ _ _ Hdot) at 1.
      replace (S (length host - length pat - 1)) with (length host - length pat)%nat by lia.
      by rewrite Htail.
    + intros [?|(p & Hp & E)]; [done|].
      assert (length host = (length p + S (length pat))%nat) as El
        by (rewrite E, length_app; done).
      replace (length host - length pat - 1)%nat with (length p) by lia.
      replace (length host - length pat)%nat with (S (length p)) by lia.
      subst host. split; [by apply list_lookup_middle|].
      replace (p ++ "."%char :: pat) with ((p ++ ["."%char]) ++ pat) by (by rewrite <-app_assoc).
      apply drop_app_length'. rewrite length_app. cbn. lia.
  - split; [done|]. intros [?|(p & Hp & ->)]; [done|]. rewrite length_app in Hl.
    destruct p; [done|]. cbn in Hl. lia.
Qed.

Lemma SiteHostMatches_eq : SiteHostMatches = ProxyHostMatch.
Proof. done. Qed.

(** A pattern inside a pattern: matching is transitive, which is why the order of
    a table with nested domains matters. *)
Lemma ProxyHostMatch_trans a b c :
  ProxyHostMatch a b = true → ProxyHostMatch b c = true → ProxyHostMatch a c = true.
Proof.
  rewrite !ProxyHostMatch_iff. intros [->|(p & Hp & ->)] [->|(q & Hq & ->)]; eauto.
  right. exists (p ++ "."%char :: q). split; [by destruct p|]. by rewrite <-app_assoc.
Qed.

(** ** The table *)

Lemma FindProxyForHost_some table host i :
  FindProxyForHost table host = Some i ↔
  (∃ e, table !! i = Some e ∧ claims_host host e = true) ∧
  ∀ j e, (j < i)%nat → table !! j = Some e → claims_host host e = false.
Proof.
  revert i. induction table as [|e table IH]; intros i; cbn.
  { split; [done|]. by intros [(e & He & _) _]. }
  destruct (claims_host host e) eqn:Ec, i as [|i].
  - split; [|done]. split; [by exists e|lia].
  - split; [done|]. intros [_ Hfirst]. specialize (Hfirst 0%nat e ltac:(lia) eq_refl). congruence.
  - split; [by destruct (FindProxyForHost table host)|].
    intros [(e' & He' & Hc) _]. cbn in He'. congruence.
  - transitivity (FindProxyForHost table host = Some i);
      [destruct (FindProxyForHost table host); cbn; split; congruence|].
    rewrite IH. cbn. split; intros [? Hlt]; (split; [done|]); intros j e' Hj He'.
    + destruct j as [|j]; [by injection He' as <-|]. apply (Hlt j); [lia|done].
    + apply (Hlt (S j)); [lia|done].
Qed.

Lemma FindProxyForHost_none table host :
  FindProxyForHost table host = None ↔ Forall (λ e, claims_host host e = false) table.
Proof.
  induction table as [|e table IH]; cbn; [split; [constructor|done]|].
  rewrite Forall_cons, <-IH. destruct (claims_host host e).
  - split; [done|]. by intros [].
  - destruct (FindProxyForHost table host); cbn; naive_solver.
Qed.

(** ** Static state *)

Section Browser.
Context `{NeckoLaws, NssLaws}.

Lemma import_keys_spec i table keys :
  length keys = (i + S (length table))%nat → drop i keys = repeat None (S (length table)) →
  import_keys i table keys = take i keys ++ (import_key <$> table) ++ [None].
Proof.
  revert i keys. induction table as [|e table IH]; intros i keys Hl Hd; cbn [import_keys].
  { rewrite <-(take_drop i keys) at 1. by rewrite Hd. }
  destruct (lookup_lt_is_Some_2 keys i ltac:(rewrite Hl; cbn; lia)) as [x Hx].
  pose proof (drop_S _ _ _ Hx) as Hs. rewrite Hd in Hs. cbn [length repeat] in Hs.
  injection Hs as <- Hs.
  assert (take (S i) keys = take i keys ++ [None]) as Ht by by apply take_S_r.
  destruct (import_key e) as [k|] eqn:Ek.
  - rewrite IH; [|rewrite length_insert, Hl; cbn; lia|by rewrite drop_insert_lt by lia].
    rewrite (take_S_r _ _ (Some k)) by (apply list_lookup_insert_eq; rewrite Hl; cbn; lia).
    rewrite take_insert_ge by done. rewrite <-app_assoc. cbn. by rewrite Ek.
  - rewrite IH; [|rewrite Hl; cbn; lia|done]. rewrite Ht, <-app_assoc. cbn. by rewrite Ek.
Qed.

(** The static state is what the table and one scan say, whatever requests were
    made before. *)
Record browser_ok (table : list DenProxyEntry) (st : BrowserState) : Prop := {
  bk_keys : sProxyPubKeys st =
    if sKeysLoaded st then (import_key <$> table) ++ [None] else repeat None (S (length table));
  bk_cert : if sMachineCertScanned st then ∃ w, sMachineCertBase64 st = scan_machine_cert w
            else sMachineCertBase64 st = None }.

Lemma browser_ok_new table : browser_ok table (BrowserState_new table).
Proof. by split. Qed.

Lemma EnsureProxyKeysLoaded_ok table st :
  browser_ok table st → browser_ok table (EnsureProxyKeysLoaded table st)
  ∧ sKeysLoaded (EnsureProxyKeysLoaded table st) = true.
Proof.
  intros [Hk Hc]. unfold EnsureProxyKeysLoaded. destruct (sKeysLoaded st) eqn:E.
  - split; [|done]. split; [by rewrite E|done].
  - split; [|done]. split; [|done]. cbn. rewrite Hk, import_keys_spec; [done| |done].
    by rewrite repeat_length.
Qed.

Lemma EnsureProxyKeysLoaded_idem table st :
  EnsureProxyKeysLoaded table (EnsureProxyKeysLoaded table st) = EnsureProxyKeysLoaded table st.
Proof. unfold EnsureProxyKeysLoaded. by destruct (sKeysLoaded st) eqn:E; cbn; rewrite ?E. Qed.

Lemma EnsureMachineCertificateLoaded_ok table w st :
  browser_ok table st → browser_ok table (EnsureMachineCertificateLoaded w st)
  ∧ sMachineCertScanned (EnsureMachineCertificateLoaded w st) = true.
Proof.
  intros [Hk Hc]. unfold EnsureMachineCertificateLoaded. destruct (sMachineCertScanned st) eqn:E.
  - split; [|done]. split; [done|by rewrite E].
  - split; [|done]. split; [done|by exists w].
Qed.

(** A claiming entry's key is its own, or none when it cannot be imported. *)
Lemma GetProxyPublicKey_ok table st i e :
  browser_ok table st → table !! i = Some e →
  GetProxyPublicKey table st i = (EnsureProxyKeysLoaded table st, import_key e).
Proof.
  intros Hst He. unfold GetProxyPublicKey. f_equal.
  destruct (EnsureProxyKeysLoaded_ok table st Hst) as [[Hk _] Hl].
  assert (i < length table)%nat as Hi by by eapply lookup_lt_Some.
  destruct (Nat.leb_spec (S (length table)) i); [lia|].
  rewrite Hk, Hl, lookup_app_l by (by rewrite length_fmap).
  by rewrite list_lookup_fmap, He.
Qed.

(** ** One request's values *)

(** The system does what its interfaces say: a time in 64 bits, buffers filled, a
    key pair that is one. *)
Record sys_ok (sys : Sys) : Prop := {
  so_now : is_i64 (PR_Now sys);
  so_nonce n : random_nonce sys = Some n → length n = NONCE_LEN;
  so_iv v : random_iv sys = Some v → length v = 12%nat;
  so_pair k p : GenerateKeyPair sys = Some (k, p) → p = public_key k }.

(** The bytes a stream delivers, and the body of an upload. *)
Fixpoint read_all (reads : list (option str)) : option str :=
  match reads with
  | [] | Some [] :: _ => Some []
  | None :: _ => None
  | Some b :: rest => app b <$> read_all rest
  end.

Definition upload_body (upload : option UploadStream) : option str :=
  match upload with
  | None => Some []
  | Some s => CloneReads s ≫= read_all
  end.

Lemma hash_reads_spec h reads h' :
  hash_reads h reads = Some h' →
  ∃ body, read_all reads = Some body ∧ digest_of h' = digest_of h ++ body.
Proof.
  revert h. induction reads as [|[[|a b]|] reads IH]; intros h; cbn.
  - intros [= <-]. exists []. by rewrite app_nil_r.
  - intros [= <-]. exists []. by rewrite app_nil_r.
  - destruct (HashUpdate h (a :: b)) as [h1|] eqn:E; [|done].
    intros (body & -> & Hd)%IH. eexists. split; [done|].
    by rewrite Hd, (HashUpdate_eq _ _ _ E), <-app_assoc.
  - done.
Qed.

Lemma hash_upload_spec upload hex :
  hash_upload upload = Some hex →
  ∃ body, upload_body upload = Some body ∧ hex = sha256_hex body.
Proof.
  unfold hash_upload. destruct HashInit as [h0|] eqn:E0; [|done].
  apply HashInit_eq in E0. unfold upload_body.
  destruct upload as [s|]; [destruct (CloneReads s) as [reads|]; [|done]|]; cbn.
  - destruct (hash_reads h0 reads) as [h|] eqn:E; [|done].
    apply hash_reads_spec in E as (body & -> & Hd).
    destruct (HashFinish h) as [raw|] eqn:Ef; [|done]. intros [= <-].
    exists body. split; [done|]. by rewrite (HashFinish_eq _ _ Ef), Hd, E0.
  - destruct (HashFinish h0) as [raw|] eqn:Ef; [|done]. intros [= <-].
    exists []. split; [done|]. by rewrite (HashFinish_eq _ _ Ef), E0.
Qed.

(** The values of an attested request: a token sealed for [key] over the request,
    whose body field [field] stands for [binding]. *)
Record sealed_values (sys : Sys) (key : PublicKey) (host : str) (head : RequestHead) (uri : Uri)
    (upload : option UploadStream) (upload_length : Z) (ts nonce_b64 token : str)
    (nonce : str) (ephem : SecretKey) (iv path field : str) (binding : BodyBinding) : Prop := {
  sv_ts : ts = show (Z.quot (PR_Now sys) 1000000);
  sv_nonce : random_nonce sys = Some nonce ∧ length nonce = NONCE_LEN
             ∧ nonce_b64 = base64_encode nonce;
  sv_path : GetPathQueryRef uri = Some path;
  sv_iv : length iv = 12%nat;
  sv_token : token = sealed_token ephem key iv
    (token_plaintext nonce_b64 ts host (Method head) (request_target path) field);
  sv_field : LF ∉ field ∧ parse_body_binding field = Ok binding;
  sv_binding : if ShouldSkipBodyHash upload upload_length then binding = UnboundBody
               else ∃ body, upload_body upload = Some body ∧ binding = HashBody (sha256 body) }.

Lemma attest_values_ok sys key host head uri upload len ts nonce_b64 token :
  sys_ok sys →
  attest_values sys key host head uri upload len = Ok (ts, nonce_b64, token) →
  ∃ nonce ephem iv path field binding,
    sealed_values sys key host head uri upload len ts nonce_b64 token nonce ephem iv path field
      binding.
Proof.
  intros [_ Hn Hi Hp]. unfold attest_values. cbv zeta.
  destruct (GetPathQueryRef uri) as [path|] eqn:Epath; [|done]. cbn [ok_or].
  destruct (random_nonce sys) as [nonce|] eqn:En; [|done]. cbn [ok_or].
  destruct (Base64Encode nonce) as [b|] eqn:Eb; [|done]. cbn [ok_or].
  assert (∃ r, (if ShouldSkipBodyHash upload len then Ok ("unbound" : str)
                else ok_or (hash_upload upload) NS_ERROR_FAILURE) = r) as [[field|] Hf] by eauto;
    rewrite Hf; [|done].
  destruct (negb (internal_slot sys)); [done|].
  destruct (GenerateKeyPair sys) as [[k p]|] eqn:Ek; [|done]. cbn [ok_or].
  destruct (PubDeriveWithKDF k key) as [aes|] eqn:Ea; [|done]. cbn [ok_or].
  destruct (random_iv sys) as [iv|] eqn:Ei; [|done]. cbn [ok_or].
  destruct (Encrypt aes iv _) as [ct|] eqn:Ec; [|done]. cbn [ok_or].
  destruct (Base64Encode (publicValue p ++ iv ++ ct)) as [tok|] eqn:Et; [|done]. cbn [ok_or].
  intros [= <- <- <-].
  apply Base64Encode_eq in Eb as ->. apply Base64Encode_eq in Et as ->.
  apply Encrypt_eq in Ec as ->. apply PubDeriveWithKDF_eq in Ea as ->.
  assert (∃ binding, (LF ∉ field ∧ parse_body_binding field = Ok binding) ∧
    if ShouldSkipBodyHash upload len then binding = UnboundBody
    else ∃ body, upload_body upload = Some body ∧ binding = HashBody (sha256 body))
    as (binding & Hfield & Hb).
  { destruct (ShouldSkipBodyHash upload len).
    - injection Hf as <-. eexists. by split; [apply binding_field_unbound|].
    - destruct (hash_upload upload) as [hex|] eqn:Eh; [|done]. injection Hf as <-.
      apply hash_upload_spec in Eh as (body & Hbody & ->).
      eexists. split; [apply binding_field_hashed|by eauto]. }
  exists nonce, k, iv, path, field, binding. split; try done; auto.
  by rewrite (Hp _ _ eq_refl), publicValue_eq.
Qed.

(** ** What leaves the browser *)

(** Where a request is attested to: its host and the key of the first entry that
    claims it, when that entry's key can be imported. *)
Definition destination (table : list DenProxyEntry) (uri : Uri) : option (str * PublicKey) :=
  match GetAsciiHost uri with
  | None | Some [] => None
  | Some host =>
      pair host <$> (FindProxyForHost table host ≫= λ i : nat, table !! i ≫= import_key)
  end.

Definition X_HEADERS : list str := [X_TS; X_NONCE; X_TOKEN; X_MACHINE_CERT].
Definition reserved (n : str) : bool := existsb (equals_ci n) X_HEADERS.

(** Nothing is attached: the page's own machine header is gone, all else stays. *)
Definition bare (head head' : RequestHead) : Prop :=
  Method head' = Method head ∧ GetHeader head' X_MACHINE_CERT = None ∧
  ∀ n, equals_ci X_MACHINE_CERT n = false → GetHeader head' n = GetHeader head n.

(** The four headers are the browser's, the others stay. *)
Record attached (head head' : RequestHead) (ts nonce token : str) (cert : option str) : Prop := {
  at_method : Method head' = Method head;
  at_ts : GetHeader head' X_TS = Some ts;
  at_nonce : GetHeader head' X_NONCE = Some nonce;
  at_token : GetHeader head' X_TOKEN = Some token;
  at_cert : GetHeader head' X_MACHINE_CERT = cert;
  at_other n : reserved n = false → GetHeader head' n = GetHeader head n }.

Lemma bare_clear head : bare head (ClearHeader head X_MACHINE_CERT).
Proof.
  split_and!; [apply method_clear|apply get_clear|]. intros n Hn. by apply get_clear_ne.
Qed.

Lemma equals_ci_sym a b : equals_ci a b = equals_ci b a.
Proof. unfold equals_ci. apply bool_decide_ext. naive_solver. Qed.

Lemma reserved_false n :
  reserved n = false →
  equals_ci X_TS n = false ∧ equals_ci X_NONCE n = false ∧ equals_ci X_TOKEN n = false
  ∧ equals_ci X_MACHINE_CERT n = false.
Proof.
  unfold reserved, X_HEADERS. cbn [existsb]. rewrite !orb_false_iff, !(equals_ci_sym n).
  naive_solver.
Qed.

(** Setting the headers one after the other. *)
Lemma set_attached head ts nonce token cert :
  ts ≠ [] → nonce ≠ [] → token ≠ [] → (∀ c, cert = Some c → c ≠ []) →
  let h := SetHeader (SetHeader (SetHeader (ClearHeader head X_MACHINE_CERT) X_TS ts)
             X_NONCE nonce) X_TOKEN token in
  attached head (match cert with Some c => SetHeader h X_MACHINE_CERT c | None => h end)
    ts nonce token cert.
Proof.
  intros Hts Hn Ht Hc h.
  assert (attached head h ts nonce token None) as Hh.
  { subst h. split.
    - by rewrite !method_set, method_clear.
    - by rewrite !(get_set_ne _ _ X_TS), get_set by done.
    - by rewrite (get_set_ne _ _ X_NONCE), get_set by done.
    - by rewrite get_set.
    - by rewrite !(get_set_ne _ _ X_MACHINE_CERT), get_clear by done.
    - intros n (?&?&?&?)%reserved_false. by rewrite !get_set_ne, get_clear_ne. }
  destruct cert as [c|]; [|done]. destruct Hh as [Hm ? ? ? ? Ho]. split.
  - by rewrite method_set.
  - by rewrite get_set_ne.
  - by rewrite get_set_ne.
  - by rewrite get_set_ne.
  - by apply get_set, Hc.
  - intros n Hr. rewrite get_set_ne; [by apply Ho|].
    by destruct (reserved_false n Hr) as (_&_&_&?).
Qed.

(** The machine header that goes with the token: none but on Windows, where it is
    what the one scan of the process found. *)
Definition machine_header (sys : Sys) (st' : BrowserState) (cert : option str) : Prop :=
  match windows sys with
  | None => cert = None
  | Some _ => sMachineCertScanned st' = true ∧ cert = sMachineCertBase64 st'
  end.

(** *** The certificate *)

(** [c] is the usable certificate of a store that ends last, the first of those. *)
Definition selected (names : list str) (certs : list CertContext) (c : CertContext) : Prop :=
  ∃ i, certs !! i = Some c ∧ usable_cert names c = true ∧
    ∀ j c', certs !! j = Some c' → usable_cert names c' = true →
      cc_not_after c' ≤ cc_not_after c ∧ ((j < i)%nat → cc_not_after c' < cc_not_after c).

Definition best_of (names : list str) (certs : list CertContext) (best : option CertContext)
    : Prop :=
  match best with
  | Some c => selected names certs c
  | None => Forall (λ c, usable_cert names c = false) certs
  end.

Lemma lookup_snoc {A} (l : list A) x j y :
  (l ++ [x]) !! j = Some y → l !! j = Some y ∨ (j = length l ∧ y = x).
Proof.
  intros [Hj|[Hj Hx]]%lookup_app_Some; [by left|]. right.
  destruct (j - length l)%nat as [|k] eqn:E; [|done]. injection Hx as <-. split; [lia|done].
Qed.

Lemma best_of_keep names certs best c :
  best_of names certs best → usable_cert names c = false → best_of names (certs ++ [c]) best.
Proof.
  intros Hb Hc. destruct best as [b|]; cbn in *.
  - destruct Hb as (i & Hi & Hu & Hmax). exists i. split; [by apply lookup_app_l_Some|].
    split; [done|]. intros j c' [?|[-> ->]]%lookup_snoc Hu'; [by apply Hmax|congruence].
  - apply Forall_app. by split; [|constructor].
Qed.

Lemma best_of_step names certs best c :
  best_of names certs best → usable_cert names c = true →
  best_of names (certs ++ [c])
    (match best with
     | Some b => if cc_not_after c <=? cc_not_after b then Some b else Some c
     | None => Some c
     end).
Proof.
  intros Hb Hc.
  assert ((∀ j c', certs !! j = Some c' → usable_cert names c' = true →
    cc_not_after c' < cc_not_after c) → selected names (certs ++ [c]) c) as Hnew.
  { intros Hlt. exists (length certs). split; [by rewrite lookup_app_r, Nat.sub_diag by lia|].
    split; [done|]. intros j c' [Hj|[-> ->]]%lookup_snoc Hu; [|lia].
    specialize (Hlt _ _ Hj Hu). lia. }
  destruct best as [b|]; cbn in Hb.
  - destruct Hb as (i & Hi & Hu & Hmax). destruct (Z.leb_spec (cc_not_after c) (cc_not_after b)).
    + exists i. split; [by apply lookup_app_l_Some|]. split; [done|].
      intros j c' [Hj|[-> ->]]%lookup_snoc Hu'; [by apply Hmax|].
      split; [lia|]. apply lookup_lt_Some in Hi. lia.
    + apply Hnew. intros j c' Hj Hu'. destruct (Hmax j c' Hj Hu'). lia.
  - apply Hnew. intros j c' Hj Hu'. rewrite Forall_lookup in Hb. specialize (Hb _ _ Hj). congruence.
Qed.

Lemma enum_certificates_best names certs rest best :
  best_of names certs best → best_of names (certs ++ rest) (enum_certificates names best rest).
Proof.
  revert certs best. induction rest as [|c rest IH]; intros certs best Hb; cbn.
  { by rewrite app_nil_r. }
  rewrite (app_assoc certs [c] rest : certs ++ c :: rest = _).
  destruct (usable_cert names c) eqn:Eu; cbn [negb].
  - pose proof (best_of_step names certs best c Hb Eu) as Hs.
    destruct best as [b|]; [destruct (cc_not_after c <=? cc_not_after b)|]; by apply IH.
  - apply IH. by apply best_of_keep.
Qed.

Lemma FindMachineCertificateInStore_spec names store :
  match FindMachineCertificateInStore names store with
  | Some c => ∃ certs, store = Some certs ∧ selected names certs c
  | None => ∀ certs, store = Some certs → Forall (λ c, usable_cert names c = false) certs
  end.
Proof.
  unfold FindMachineCertificateInStore. destruct store as [certs|]; cbn; [|done].
  pose proof (enum_certificates_best names [] certs None ltac:(constructor)) as Hb.
  cbn in Hb. destruct (enum_certificates names None certs); cbn in Hb; [by eexists|].
  by intros ? [= <-].
Qed.

(** The names the certificates are matched against. *)
Definition computer_names (w : WindowsCerts) : list str :=
  fold_left (λ ns q, AppendComputerName q ns) (wc_names w) [].

(** The first store with a usable certificate settles the choice. *)
Definition chosen_in (names : list str) (stores : list (option (list CertContext)))
    (c : CertContext) : Prop :=
  ∃ k certs, stores !! k = Some (Some certs) ∧ selected names certs c ∧
    ∀ j certs', (j < k)%nat → stores !! j = Some (Some certs') →
      Forall (λ c, usable_cert names c = false) certs'.

Definition chosen_cert (w : WindowsCerts) : CertContext → Prop :=
  chosen_in (computer_names w) (wc_stores w).

Lemma scan_stores_cases names stores :
  (∃ c, chosen_in names stores c ∧ scan_stores names stores = Base64Encode (cc_encoded c)) ∨
  ((∀ certs, Some certs ∈ stores → Forall (λ c, usable_cert names c = false) certs)
   ∧ scan_stores names stores = None).
Proof.
  induction stores as [|store stores IH]; cbn; [right; split; [|done]; by intros ? ?%not_elem_of_nil|].
  pose proof (FindMachineCertificateInStore_spec names store) as Hf.
  destruct (FindMachineCertificateInStore names store) as [c|].
  - destruct Hf as (certs & -> & Hs). left. exists c. split; [|done].
    exists 0%nat, certs. split_and!; try done. lia.
  - destruct IH as [(c & (k & certs & Hk & Hs & Hlt) & Hb)|[Hnone Hb]]; [left|right].
    + exists c. split; [|done]. exists (S k), certs. split_and!; try done.
      intros [|j] certs' Hj Hc; cbn in Hc; [injection Hc as ->; by apply Hf|].
      apply (Hlt j); [lia|done].
    + split; [|done]. intros certs [<-|Hin]%elem_of_cons; [by apply Hf|by apply Hnone].
Qed.

Lemma usable_nonempty names c : usable_cert names c = true → cc_encoded c ≠ [].
Proof. unfold usable_cert. rewrite !andb_true_iff. intros [[[[_ Hn] _] _] _] E. by rewrite E in Hn. Qed.

Lemma usable_cert_spec names c :
  usable_cert names c = true →
  1 ≤ Z.of_nat (length (cc_encoded c)) ≤ 16384 ∧ cc_x509 c = true ∧ cc_time_valid c = true ∧
  ∃ n, n ∈ names ∧
    equals_ci (take (Z.to_nat (cc_name_size c - 1)) (cc_name_text c).2) n = true.
Proof.
  intros Hu. pose proof (usable_nonempty _ _ Hu) as Hne.
  unfold usable_cert in Hu. rewrite !andb_true_iff in Hu.
  destruct Hu as [[[[Hx _] Hlen] Ht] Hn%bool_decide_eq_true].
  apply Z.leb_le in Hlen. unfold kMaxMachineCertDerBytes in Hlen.
  split; [destruct (cc_encoded c); [done|cbn in *; lia]|]. split; [done|]. split; [done|].
  unfold CertificateNamesComputer in Hn. destruct Hn as [x Hn].
  destruct (cc_name_size c <=? 1); [done|]. destruct (negb _); [done|].
  destruct (existsb _ names) eqn:Ex; [|done].
  apply existsb_exists in Ex as (n & Hin & Heq). exists n. split; [|done].
  by apply list_elem_of_In.
Qed.

Lemma scan_machine_cert_spec w b64 :
  scan_machine_cert w = Some b64 →
  ∃ c, chosen_cert w c ∧ b64 = base64_encode (cc_encoded c) ∧ b64 ≠ [].
Proof.
  unfold scan_machine_cert. change (fold_left _ _ _) with (computer_names w).
  destruct (is_empty (computer_names w)); [done|].
  destruct (scan_stores_cases (computer_names w) (wc_stores w)) as [(c & Hc & ->)|[_ ->]]; [|done].
  intros ->%Base64Encode_eq. exists c. split; [done|]. split; [done|].
  apply base64_encode_nonempty. destruct Hc as (? & ? & _ & (i & _ & Hu & _) & _).
  by eapply usable_nonempty.
Qed.

(** *** One call *)

Lemma attest_values_clear sys key host head uri upload len n :
  attest_values sys key host (ClearHeader head n) uri upload len
  = attest_values sys key host head uri upload len.
Proof. unfold attest_values. by rewrite method_clear. Qed.

Lemma attest_values_nonempty sys key host head uri upload len ts nonce token :
  sys_ok sys → attest_values sys key host head uri upload len = Ok (ts, nonce, token) →
  ts ≠ [] ∧ nonce ≠ [] ∧ token ≠ [].
Proof.
  intros Hs Hv. apply attest_values_ok in Hv
    as (n & ephem & iv & path & field & binding & [-> (_ & Hn & ->) _ _ -> _ _]); [|done].
  split_and!; [apply show_nonempty|apply base64_encode_nonempty; by intros ->|].
  apply base64_encode_nonempty. intros E%(f_equal length).
  rewrite length_app, to_sec1_length in E. done.
Qed.

(** A call leaves the static state a well-formed one, and a finished scan as it is. *)
Definition state_kept (table : list DenProxyEntry) (st st' : BrowserState) : Prop :=
  browser_ok table st' ∧
  (sMachineCertScanned st = true →
     sMachineCertScanned st' = true ∧ sMachineCertBase64 st' = sMachineCertBase64 st).

Lemma state_kept_keys table st : browser_ok table st → state_kept table st (EnsureProxyKeysLoaded table st).
Proof.
  intros Hst. split; [by apply EnsureProxyKeysLoaded_ok|].
  unfold EnsureProxyKeysLoaded. by destruct (sKeysLoaded st).
Qed.

Lemma state_kept_cert table w st st' :
  state_kept table st st' → state_kept table st (EnsureMachineCertificateLoaded w st').
Proof.
  intros [Hok Hsc]. split; [by apply EnsureMachineCertificateLoaded_ok|].
  intros [Hs' Hc']%Hsc. unfold EnsureMachineCertificateLoaded. by rewrite Hs'.
Qed.

(** What a call does, by where the request goes. *)
Definition call_spec (table : list DenProxyEntry) (sys : Sys) (head : RequestHead) (uri : Uri)
    (upload : option UploadStream) (len : Z) (st' : BrowserState) (head' : RequestHead)
    (rv : nsresult) : Prop :=
  match destination table uri with
  | None => bare head head' ∧ rv = NS_OK
  | Some (host, key) =>
      match attest_values sys key host head uri upload len with
      | Err e => bare head head' ∧ rv = e
      | Ok (ts, nonce, token) =>
          rv = NS_OK ∧
          ∃ cert, attached head head' ts nonce token cert ∧ machine_header sys st' cert
      end
  end.

Lemma AddAttestHeaders_spec table sys st head uri upload len st' head' rv :
  browser_ok table st → sys_ok sys →
  AddAttestHeaders table sys st head uri upload len = (st', head', rv) →
  state_kept table st st' ∧ call_spec table sys head uri upload len st' head' rv.
Proof.
  intros Hst Hsys. unfold AddAttestHeaders, call_spec, destination. cbv zeta.
  pose proof (state_kept_keys table st Hst) as Hk. pose proof (bare_clear head) as Hbare.
  destruct (GetAsciiHost uri) as [[|hc host]|] eqn:Ehost; [by intros [= <- <- <-]| |by intros [= <- <- <-]].
  destruct (FindProxyForHost table (hc :: host)) as [i|] eqn:Ef; [|by intros [= <- <- <-]].
  apply FindProxyForHost_some in Ef as [(e & He & _) _].
  cbn [mbind option_bind]. rewrite He.
  rewrite (GetProxyPublicKey_ok _ _ _ _ (proj1 Hk) He). cbn [mbind option_bind].
  rewrite EnsureProxyKeysLoaded_idem. destruct (import_key e) as [key|];
    [|by intros [= <- <- <-]]. cbn [fmap option_fmap option_map].
  rewrite attest_values_clear.
  destruct (attest_values sys key _ head uri upload len) as [[[ts nonce] token]|rv0] eqn:Ev;
    [|by intros [= <- <- <-]].
  destruct (attest_values_nonempty _ _ _ _ _ _ _ _ _ _ Hsys Ev) as (Hts & Hn & Ht).
  pose proof (λ c Hc, set_attached head ts nonce token c Hts Hn Ht Hc) as Hset. cbv zeta in Hset.
  destruct (windows sys) as [w|] eqn:Ew; unfold GetMachineCertificateBase64, machine_header;
    rewrite ?Ew.
  2: { intros [= <- <- <-]. split; [done|]. split; [done|]. exists None.
       split; [by apply (Hset None)|done]. }
  pose proof (state_kept_cert table w _ _ Hk) as Hk'.
  destruct (EnsureMachineCertificateLoaded_ok table w _ (proj1 Hk)) as [Hok' Hscan].
  pose proof (bk_cert _ _ Hok') as Hc. rewrite Hscan in Hc. destruct Hc as [w0 Hw0].
  set (st1 := EnsureMachineCertificateLoaded w _) in *.
  destruct (sMachineCertBase64 st1) as [c|] eqn:Ec; intros [= <- <- <-]; split; try done;
    (split; [done|]).
  - exists (Some c). rewrite Ec. split; [|done]. apply (Hset (Some c)).
    intros c' [= <-]. symmetry in Hw0. by apply scan_machine_cert_spec in Hw0 as (? & _ & _ & ?).
  - exists None. rewrite Ec. split; [|done]. by apply (Hset None).
Qed.

(** The states of a running browser. *)
Inductive browser_reachable (table : list DenProxyEntry) : BrowserState → Prop :=
  | browser_start : browser_reachable table (BrowserState_new table)
  | browser_call st sys head uri upload len :
      browser_reachable table st → sys_ok sys →
      browser_reachable table (AddAttestHeaders table sys st head uri upload len).1.1.

Lemma browser_reachable_ok table st : browser_reachable table st → browser_ok table st.
Proof.
  induction 1 as [|st sys head uri upload len _ IH Hsys]; [apply browser_ok_new|].
  destruct (AddAttestHeaders _ _ _ _ _ _ _) as [[st' head'] rv] eqn:E.
  by apply AddAttestHeaders_spec in E as [[? _] _].
Qed.

Lemma attest_values_failure sys key host head uri upload len rv :
  attest_values sys key host head uri upload len = Err rv →
  rv = NS_OK ∨ ShouldSkipBodyHash upload len = false ∧ hash_upload upload = None.
Proof.
  unfold attest_values. cbv zeta.
  destruct (GetPathQueryRef uri); [|intros [= <-]; by left]. cbn [ok_or].
  destruct (random_nonce sys) as [nonce|]; [|intros [= <-]; by left]. cbn [ok_or].
  destruct (Base64Encode nonce); [|intros [= <-]; by left]. cbn [ok_or].
  destruct (ShouldSkipBodyHash upload len), (hash_upload upload) as [hex|]; cbn [ok_or];
    try (intros [= <-]; by right); intros Hv; left.
  all: destruct (negb (internal_slot sys)); [congruence|].
  all: destruct (GenerateKeyPair sys) as [[k p]|]; cbn [ok_or] in Hv; [|congruence].
  all: destruct (PubDeriveWithKDF k key); cbn [ok_or] in Hv; [|congruence].
  all: destruct (random_iv sys); cbn [ok_or] in Hv; [|congruence].
  all: destruct (Encrypt _ _ _); cbn [ok_or] in Hv; [|congruence].
  all: destruct (Base64Encode _); cbn [ok_or] in Hv; congruence.
Qed.

(** The entry a host's requests are attested to, and its key. *)
Definition claimed_by (table : list DenProxyEntry) (host : str) (key : PublicKey) : Prop :=
  ∃ i e, table !! i = Some e ∧ claims_host host e = true ∧ import_key e = Some key ∧
    ∀ j e', (j < i)%nat → table !! j = Some e' → claims_host host e' = false.

Lemma destination_some table uri host key :
  destination table uri = Some (host, key) ↔
  GetAsciiHost uri = Some host ∧ host ≠ [] ∧ claimed_by table host key.
Proof.
  unfold destination, claimed_by.
  destruct (GetAsciiHost uri) as [[|a h]|]; [naive_solver| |naive_solver].
  destruct (FindProxyForHost table (a :: h)) as [i|] eqn:Ef; cbn.
  - apply FindProxyForHost_some in Ef as [(e & He & Hc) Hfirst]. rewrite He. cbn.
    split.
    + destruct (import_key e) as [k|] eqn:Ek; [|done]. intros [= <- <-].
      split; [done|]. split; [done|]. by exists i, e.
    + intros ([= <-] & _ & i' & e' & He' & Hc' & Hk & Hfirst').
      assert (i = i') as <-.
      { destruct (Nat.lt_trichotomy i i') as [Hl|[?|Hl]]; [|done|];
          [specialize (Hfirst' _ _ Hl He)|specialize (Hfirst _ _ Hl He')]; congruence. }
      rewrite He in He'. injection He' as <-. by rewrite Hk.
  - apply FindProxyForHost_none in Ef. rewrite Forall_lookup in Ef.
    split; [done|]. intros ([= <-] & _ & i' & e' & He' & Hc' & _).
    specialize (Ef _ _ He'). congruence.
Qed.

(** ** Properties *)

(** Claim C9. The browser attests to the proxies of its table and to nobody else,
    whatever it was asked before.  A call either attaches nothing (and takes the
    page's own machine header away; it fails only when the body it has to hash
    cannot be read), or the URI's host is claimed by a table entry, no earlier
    entry claims it, and the headers are the browser's: the time, 16 random bytes
    and a token sealed for that entry's key, which the matching private key opens
    to this request's nonce, time, host, method, path without fragment and body
    field; the machine header is only there on Windows and holds the certificate
    the scan chose.  No other header and not the method is touched. *)
Theorem attestation_stays_with_its_proxy table st sys head uri upload len st' head' rv :
  browser_reachable table st → sys_ok sys →
  AddAttestHeaders table sys st head uri upload len = (st', head', rv) →
  (bare head head' ∧
    (rv = NS_OK ∨ ShouldSkipBodyHash upload len = false ∧ hash_upload upload = None)) ∨
  (rv = NS_OK ∧ ∃ host key ts nonce_b64 token cert,
    GetAsciiHost uri = Some host ∧ claimed_by table host key ∧
    attached head head' ts nonce_b64 token cert ∧
    (∃ nonce ephem iv path field binding,
       sealed_values sys key host head uri upload len ts nonce_b64 token nonce ephem iv path
         field binding ∧
       ∀ sk, public_key sk = key → ∃ raw, base64_decode token = Some raw ∧
         decrypt_token sk raw =
           Ok (token_plaintext nonce_b64 ts host (Method head) (request_target path) field)) ∧
    ∀ c, cert = Some c → windows sys ≠ None ∧
      ∃ w m, chosen_cert w m ∧ c = base64_encode (cc_encoded m)).
Proof.
  intros Hst%browser_reachable_ok Hsys E.
  destruct (AddAttestHeaders_spec _ _ _ _ _ _ _ _ _ _ Hst Hsys E) as [[Hok _] Hspec].
  unfold call_spec in Hspec.
  destruct (destination table uri) as [[host key]|] eqn:Ed; [|left; naive_solver].
  apply destination_some in Ed as (Hhost & _ & Hclaim).
  destruct (attest_values _ _ _ _ _ _ _) as [[[ts nonce_b64] token]|e] eqn:Ev.
  2: { left. destruct Hspec as [Hb ->]. split; [done|]. by eapply attest_values_failure. }
  right. destruct Hspec as (-> & cert & Hat & Hm). split; [done|].
  exists host, key, ts, nonce_b64, token, cert. split_and!; try done.
  - destruct (attest_values_ok _ _ _ _ _ _ _ _ _ _ Hsys Ev)
      as (nonce & ephem & iv & path & field & binding & Hsv).
    exists nonce, ephem, iv, path, field, binding. split; [done|]. intros sk <-.
    rewrite (sv_token _ _ _ _ _ _ _ _ _ _ _ _ _ _ _ _ Hsv). eexists.
    split; [apply base64_decode_encode|]. apply decrypt_sealed; [by apply Hsv|done].
  - intros c ->. unfold machine_header in Hm. destruct (windows sys) as [answer|]; [|done].
    split; [done|]. destruct Hm as [Hs Hc]. pose proof (bk_cert _ _ Hok) as Hw.
    rewrite Hs in Hw. destruct Hw as [w Hw]. rewrite <-Hc in Hw. symmetry in Hw.
    apply scan_machine_cert_spec in Hw as (m & Hm & -> & _). by exists w, m.
Qed.

(** Claim C36. On Windows the certificate is chosen as the patch says: from the
    first store, in the order of the four, that opens and has a usable one (X.509
    of at most 16 KiB, valid now, its Common Name one of the computer's names
    but for case), the usable one there that ends last, the first of those; it is
    sent in base64.  There is none exactly when the computer has no name, no
    store has a usable certificate, or the chosen one cannot be encoded.  The
    choice is made once: no later request changes it. *)
Theorem machine_certificate_chosen table w st sys head uri upload len :
  match scan_machine_cert w with
  | Some b64 => ∃ c, chosen_cert w c ∧ Base64Encode (cc_encoded c) = Some b64
  | None =>
      computer_names w = [] ∨
      (∀ certs, Some certs ∈ wc_stores w →
         Forall (λ c, usable_cert (computer_names w) c = false) certs) ∨
      ∃ c, chosen_cert w c ∧ Base64Encode (cc_encoded c) = None
  end ∧
  (∀ c, usable_cert (computer_names w) c = true →
     1 ≤ Z.of_nat (length (cc_encoded c)) ≤ 16384 ∧ cc_x509 c = true ∧ cc_time_valid c = true ∧
     ∃ n, n ∈ computer_names w ∧
       equals_ci (take (Z.to_nat (cc_name_size c - 1)) (cc_name_text c).2) n = true) ∧
  (browser_reachable table st → sys_ok sys → sMachineCertScanned st = true →
   sMachineCertBase64 (AddAttestHeaders table sys st head uri upload len).1.1
     = sMachineCertBase64 st).
Proof.
  split_and!.
  - unfold scan_machine_cert. change (fold_left _ _ _) with (computer_names w).
    destruct (computer_names w) as [|n ns] eqn:En; cbn [is_empty]; [by left|].
    rewrite <-En.
    destruct (scan_stores_cases (computer_names w) (wc_stores w)) as [(c & Hc & ->)|[Hnone ->]].
    + destruct (Base64Encode (cc_encoded c)) eqn:Eb; [by exists c|]. right. right. by exists c.
    + right. by left.
  - apply usable_cert_spec.
  - intros Hst%browser_reachable_ok Hsys Hs.
    destruct (AddAttestHeaders _ _ _ _ _ _ _) as [[st' head'] rv] eqn:E.
    by destruct (AddAttestHeaders_spec _ _ _ _ _ _ _ _ _ _ Hst Hsys E) as [[_ Hk] _]; apply Hk.
Qed.
End Browser.

(** ** Sending a request *)

Section Sending.
Context `{NeckoLaws, NssLaws, GlobOps, RateOps, IpNetOps, MachineTls, Calendar, HttpOps}.
Variables (debug_str : str → str) (show_ip : IpAddr → str).

(** The request as the proxy reads it: the headers of the head, the method, the
    URI's host and path, and the upload as its body. *)
Record delivered (head : RequestHead) (uri : Uri) (host : str) (upload : option UploadStream)
    (len : Z) (s : Session) : Prop := {
  dl_ts : header_str (headers (ss_request s)) TS_HEADER = GetHeader head X_TS;
  dl_nonce : header_str (headers (ss_request s)) NONCE_HEADER = GetHeader head X_NONCE;
  dl_token : header_str (headers (ss_request s)) TOKEN_HEADER = GetHeader head X_TOKEN;
  dl_method : rq_method (ss_request s) = Method head;
  dl_host : request_host (ss_request s) = Some host;
  dl_path p : GetPathQueryRef uri = Some p → request_path (ss_request s) = request_target p;
  dl_lines : LF ∉ host ∧ LF ∉ Method head ∧ LF ∉ request_path (ss_request s);
  dl_body body : upload_body upload = Some body →
    body_all (ss_body s) = Some body ∧ (upload ≠ None → len = Z.of_nat (length body)) }.

Lemma body_bound upload len s binding :
  (∀ body, upload_body upload = Some body →
     body_all (ss_body s) = Some body ∧ (upload ≠ None → len = Z.of_nat (length body))) →
  (if ShouldSkipBodyHash upload len then binding = UnboundBody
   else ∃ body, upload_body upload = Some body ∧ binding = HashBody (sha256 body)) →
  bound_as (ss_body s) binding.
Proof.
  intros Hbody Hb. destruct (ShouldSkipBodyHash upload len) eqn:Es; [subst; constructor|].
  destruct Hb as (body & Hu & ->). destruct (Hbody _ Hu) as [Hall Hlen].
  constructor; [done|]. unfold ShouldSkipBodyHash, BOUND_BODY_MAX in *.
  destruct upload as [u|].
  - rewrite <-Hlen by done. destruct (Z.ltb_spec kMaxBoundBodyBytes len); [done|].
    by unfold kMaxBoundBodyBytes in *.
  - injection Hu as <-. cbn. lia.
Qed.

(** The proxy's inputs, as the browser made them. *)
Definition sent_inputs (ts nonce_b64 token host : str) (req : RequestHeader) : AttestInputs :=
  {| in_ts := ts; in_nonce_b64 := nonce_b64; in_token_b64 := token; in_host := host;
     in_method := rq_method req; in_path := request_path req |}.

Lemma sealed_browser_request sys head head' uri host upload len w ts nonce_b64 token cert nonce
    ephem iv path field binding :
  sys_ok sys → attached head head' ts nonce_b64 token cert →
  delivered head' uri host upload len (w_session w) →
  sealed_values sys (public_key (private_key (verifier (w_proxy w)))) host head uri upload len
    ts nonce_b64 token nonce ephem iv path field binding →
  browser_request w (sent_inputs ts nonce_b64 token host (ss_request (w_session w))) ephem nonce
    iv field binding (Z.quot (PR_Now sys) 1000000).
Proof.
  intros Hsys [Hmeth Hts Hnonce Htok _ _] [Dts Dnonce Dtok Dmeth Dhost Dpath Dlf Dbody]
    [Vts (_ & Vlen & Vnonce) Vpath Viv Vtok Vfield Vb].
  specialize (Dpath _ Vpath). rewrite Hmeth in *. split; try done.
  - split; try done; by etrans.
  - cbn. rewrite Vts. apply parse_i64_show. destruct Hsys as [[Hlo Hhi] _ _ _].
    unfold is_i64, i64_min, i64_max in *. lia.
  - cbn. by rewrite Dmeth.
  - cbn. by rewrite Dmeth, Dpath.
  - by eapply body_bound.
Qed.

(** Claim C8. From the page to the upstream: a request the patched browser puts a
    token on for a host whose table entry holds this proxy's public key, be it
    without a body, with one it hashes or with an upload it leaves unbound, gets
    through the proxy when it arrives as it was sent, in time, within its
    address's limits and, where machines are checked, from a known machine;
    whatever the browser did before and whatever the proxy does meanwhile, unless
    another request spends its nonce. *)
Theorem browser_request_goes_upstream table st sys head uri upload len st' head' rv token host
    env w :
  browser_reachable table st → sys_ok sys →
  AddAttestHeaders table sys st head uri upload len = (st', head', rv) →
  GetHeader head X_TOKEN = None → GetHeader head' X_TOKEN = Some token →
  GetAsciiHost uri = Some host →
  claimed_by table host (public_key (private_key (verifier (w_proxy w)))) →
  delivered head' uri host upload len (w_session w) →
  fresh w → env_ok env → within_limits env w →
  timely env (Z.quot (PR_Now sys) 1000000) → from_machine debug_str show_ip env w →
  (∀ nonce, random_nonce sys = Some nonce → nonce_unspent debug_str show_ip env w nonce) →
  ∃ w', request_filter debug_str show_ip env w = (w', false).
Proof.
  intros Hst%browser_reachable_ok Hsys E Hno Htok Hhost Hclaim Hd Hf He Hl Ht Hm Hn.
  destruct (AddAttestHeaders_spec _ _ _ _ _ _ _ _ _ _ Hst Hsys E) as [_ Hspec].
  assert (bare head head' → False) as Hnb.
  { intros (_ & _ & Hsame). rewrite Hsame, Hno in Htok by done. done. }
  unfold call_spec in Hspec.
  destruct (destination table uri) as [[host' key]|] eqn:Hdest; [|tauto].
  assert (host' = host ∧ key = public_key (private_key (verifier (w_proxy w)))) as [-> ->].
  { assert (host' = host) as -> by (apply destination_some in Hdest; naive_solver).
    assert (host ≠ []) as Hne by (apply destination_some in Hdest; naive_solver).
    assert (destination table uri = Some (host, public_key (private_key (verifier (w_proxy w)))))
      by (by apply destination_some). naive_solver. }
  destruct (attest_values _ _ _ _ _ _ _) as [[[ts nonce_b64] tok]|e] eqn:Ev; [|tauto].
  destruct Hspec as (_ & cert & Hat & _).
  destruct (attest_values_ok _ _ _ _ _ _ _ _ _ _ Hsys Ev)
    as (nonce & ephem & iv & path & field & binding & Hsv).
  eapply (honest_request_passes debug_str show_ip env w _ ephem nonce iv field binding); try done.
  - by eapply sealed_browser_request.
  - apply Hn, Hsv.
Qed.
End Sending.

(** ** A browser on workstation [ws1] *)

Module ToyBrowser.
Record Head := { th_method : str; th_fields : list (str * str) }.

Definition get (h : Head) (n : str) : option str :=
  snd <$> head (filter (λ f, equals_ci f.1 n = true) (th_fields h)).
Definition clear (h : Head) (n : str) : Head :=
  {| th_method := th_method h; th_fields := filter (λ f, equals_ci f.1 n = false) (th_fields h) |}.
Definition set (h : Head) (n v : str) : Head :=
  let h' := clear h n in
  if is_empty v then h' else {| th_method := th_method h'; th_fields := (n, v) :: th_fields h' |}.

#[export] Instance necko : Necko :=
  {| RequestHead := Head; Method := th_method; GetHeader := get; SetHeader := set;
     ClearHeader := clear |}.

Lemma get_clear_same h n : get (clear h n) n = None.
Proof.
  unfold get, clear. cbn [th_fields]. rewrite list_filter_filter.
  induction (th_fields h) as [|f fs IH]; [done|]. rewrite filter_cons.
  rewrite decide_False by (intros [? ?]; congruence). exact IH.
Qed.

Lemma equals_ci_trans a b c : equals_ci a b = true → equals_ci a c = true → equals_ci b c = true.
Proof. unfold equals_ci. rewrite !bool_decide_eq_true. congruence. Qed.

Lemma get_clear_other h n m : equals_ci n m = false → get (clear h n) m = get h m.
Proof.
  intros Hne. unfold get, clear. cbn [th_fields]. rewrite list_filter_filter. do 2 f_equal.
  apply list_filter_iff. intros f. split; [by intros []|]. intros Hf. split; [done|].
  destruct (equals_ci f.1 n) eqn:E; [|done]. by rewrite (equals_ci_trans _ _ _ E Hf) in Hne.
Qed.

Lemma equals_ci_refl n : equals_ci n n = true.
Proof. by apply bool_decide_eq_true. Qed.

#[export] Instance necko_laws : NeckoLaws.
Proof.
  split; cbn.
  - intros h n v Hv. unfold set. destruct v as [|a v]; [done|]. cbn. unfold get.
    cbn [th_fields]. rewrite filter_cons, decide_True by apply equals_ci_refl. done.
  - intros h n m v Hne. unfold set. destruct v as [|a v]; cbn; [by apply get_clear_other|].
    rewrite <-(get_clear_other h n m Hne). unfold get. cbn [th_fields].
    rewrite filter_cons, decide_False; [done|]. cbn. congruence.
  - apply get_clear_same.
  - apply get_clear_other.
  - intros h n v. unfold set. by destruct (is_empty v).
  - done.
Qed.

#[local] Existing Instances Toy.crypto Toy.laws.

(** A key's DER is ["0"] and its byte; a certificate is its own public key. *)
Definition decode_spki (der : str) : option ascii :=
  match der with [_; k] => Some k | _ => None end.

#[export] Instance nss : Nss :=
  {| SpkiInfo := ascii; DecodeDERSubjectPublicKeyInfo := decode_spki;
     ExtractPublicKey := λ k : ascii, Some (k : PublicKey);
     publicValue := to_sec1_bytes;
     PubDeriveWithKDF := λ k p, Some (derive_key (diffie_hellman k p));
     Encrypt := λ k iv m, Some (aes128gcm_encrypt k iv m);
     Base64Encode := λ x, Some (base64_encode x);
     HashState := str; HashInit := Some []; HashUpdate := λ h b, Some (h ++ b);
     HashFinish := λ h, Some (sha256 h);
     Certificate := str; NewTempCertificate := λ der, Some der;
     EncodeSubjectPublicKeyInfo := λ c, Some c; HashBuf := λ b, Some (sha256 b) |}.

#[export] Instance nss_laws : NssLaws.
Proof.
  refine {| digest_of := λ h : HashState, (h : str) |}; try (cbn; congruence).
  intros [|a x] Hx; [done|]. done.
Qed.
End ToyBrowser.

Section Examples.
#[local] Existing Instances Toy.crypto Toy.laws ToyRate.globs ToyRate.ops ToyNet.nets ToyMachine.x509
  ToyMachine.tls Gregorian.calendar Gregorian.calendar_laws ToyHttp.http
  ToyBrowser.necko ToyBrowser.necko_laws ToyBrowser.nss ToyBrowser.nss_laws.

Definition sample_table : list DenProxyEntry :=
  [{| mName := "partner-b"; mDomains := ["b.example" : str]; mAttestKey := "0b"; mSpkiPin := None |};
   {| mName := "partner-a"; mDomains := ["app.example" : str; "proxy.example" : str];
      mAttestKey := "0k"; mSpkiPin := Some (sha256 "a's certificate") |}].

Definition ws1_cert (der : str) (valid : bool) (until : Z) : CertContext :=
  {| cc_x509 := true; cc_encoded := der; cc_time_valid := valid; cc_not_after := until;
     cc_name_size := 4; cc_name_text := (4, "ws1" ++ ["000"%char]) |}.

(** The managed stores do not open; the machine's holds an expired certificate, the
    one in use and a renewed one that ends sooner. *)
Definition ws1_windows : WindowsCerts :=
  {| wc_names :=
       [{| cn_size := Some 9; cn_name := Some ("ws1.corp" : str) |};
        {| cn_size := Some 4; cn_name := Some ("ws1" : str) |};
        {| cn_size := Some 4; cn_name := Some ("WS1" : str) |}];
     wc_stores :=
       [None; None; Some [ws1_cert "OLD" false 90; ws1_cert "WS1" true 50; ws1_cert "NEW" true 40];
        Some [ws1_cert "USER" true 99]] |}.

Definition sample_sys : Sys :=
  {| PR_Now := 1010000000; random_nonce := Some Toy.nonce; internal_slot := true;
     GenerateKeyPair := Some ("e"%char : SecretKey, "e"%char : PublicKey);
     random_iv := Some (repeat "000"%char 12); windows := Some ws1_windows |}.

Definition sample_uri : Uri :=
  {| GetScheme := Some ("https" : str); GetAsciiHost := Some ("proxy.example" : str);
     GetPathQueryRef := Some ("/p#top" : str) |}.

(** A page that sends a machine certificate of its own. *)
Definition sample_head : RequestHead :=
  {| ToyBrowser.th_method := "POST";
     ToyBrowser.th_fields := [("x-denbrowser-machine-cert" : str, "forged" : str);
                              ("accept" : str, "*/*" : str)] |}.

Definition sample_upload : option UploadStream :=
  Some {| GetCloneable := true; CloneReads := Some [Some ("a bound " : str); Some ("body" : str)] |}.

Definition sample_call : BrowserState * RequestHead * nsresult :=
  AddAttestHeaders sample_table sample_sys (BrowserState_new sample_table) sample_head sample_uri
    sample_upload 12.

Definition sample_token : str := in_token_b64 (Toy.inputs "/p" (sha256_hex sample_body)).

Example sample_call_headers :
  GetHeader sample_call.1.2 X_MACHINE_CERT = Some ws1_header ∧
  GetHeader sample_call.1.2 X_TOKEN = Some sample_token ∧
  GetHeader sample_call.1.2 "Accept" = Some ("*/*" : str).
Proof. split_and!; vm_compute; reflexivity. Qed.

(** The same page, sent to a host no proxy fronts. *)
Example unclaimed_host_gets_nothing :
  let head' :=
    (AddAttestHeaders sample_table sample_sys (BrowserState_new sample_table) sample_head
       {| GetScheme := Some ("https" : str); GetAsciiHost := Some ("notproxy.example" : str);
          GetPathQueryRef := Some ("/p" : str) |} sample_upload 12).1.2 in
  map (GetHeader head') (X_HEADERS ++ ["Accept" : str]) = [None; None; None; None; Some ("*/*" : str)].
Proof. vm_compute. reflexivity. Qed.

Lemma sample_sys_ok : sys_ok sample_sys.
Proof.
  split; cbn.
  - unfold is_i64, i64_min, i64_max. lia.
  - intros n [= <-]. reflexivity.
  - intros v [= <-]. reflexivity.
  - intros k p [= <- <-]. reflexivity.
Qed.

Lemma sample_claimed : claimed_by sample_table "proxy.example" (public_key "k"%char).
Proof.
  eexists 1%nat, _. split; [reflexivity|]. split; [vm_compute; reflexivity|].
  split; [vm_compute; reflexivity|]. intros j e Hj He.
  destruct j as [|j]; [|lia]. injection He as <-. vm_compute. reflexivity.
Qed.

Theorem attestation_stays_with_its_proxy_witness :
  ∃ host key, GetAsciiHost sample_uri = Some host ∧ claimed_by sample_table host key.
Proof.
  destruct (attestation_stays_with_its_proxy sample_table (BrowserState_new sample_table)
    sample_sys sample_head sample_uri sample_upload 12 sample_call.1.1 sample_call.1.2
    sample_call.2 (browser_start _) sample_sys_ok) as [[(_ & Hcert & _) _]|(_ & host & key & H)].
  - rewrite <-!surjective_pairing. reflexivity.
  - destruct sample_call_headers as [Hc _]. rewrite Hc in Hcert. discriminate.
  - destruct H as (ts & n & tok & cert & Hh & Hk & _). exists host, key. split; assumption.
Defined.

Theorem machine_certificate_chosen_witness :
  sMachineCertBase64
    (AddAttestHeaders sample_table sample_sys sample_call.1.1 sample_head sample_uri None 0).1.1
  = sMachineCertBase64 sample_call.1.1.
Proof.
  refine (proj2 (proj2 (machine_certificate_chosen sample_table ws1_windows sample_call.1.1
    sample_sys sample_head sample_uri None 0)) _ _ _).
  - apply (browser_call _ _ sample_sys); [apply browser_start|exact sample_sys_ok].
  - exact sample_sys_ok.
  - vm_compute. reflexivity.
Defined.

Lemma sample_delivered :
  delivered sample_call.1.2 sample_uri "proxy.example" sample_upload 12
    (w_session (sample_world sample_ts sample_proxy)).
Proof.
  split; try (vm_compute; reflexivity).
  - intros p [= <-]. vm_compute. reflexivity.
  - split_and!; apply (bool_decide_unpack _); vm_compute; exact I.
  - intros body [= <-]. split; [vm_compute; reflexivity|done].
Qed.

Theorem browser_request_goes_upstream_witness :
  ∃ w', request_filter quote ip_text sample_env (sample_world sample_ts sample_proxy) = (w', false).
Proof.
  refine (browser_request_goes_upstream quote ip_text sample_table (BrowserState_new sample_table)
    sample_sys sample_head sample_uri sample_upload 12 sample_call.1.1 sample_call.1.2
    sample_call.2 sample_token "proxy.example" sample_env (sample_world sample_ts sample_proxy)
    (browser_start _) sample_sys_ok _ _ (proj1 (proj2 sample_call_headers)) _ sample_claimed
    sample_delivered (sample_fresh _ _) sample_env_ok _ _ sample_from_machine _).
  - rewrite <-!surjective_pairing. reflexivity.
  - vm_compute. reflexivity.
  - reflexivity.
  - intros limiter ip [= <-] [= <-]. vm_compute. reflexivity.
  - split; [split; split; vm_compute; discriminate|vm_compute; discriminate|].
    split; vm_compute; discriminate.
  - intros nonce [= <-]. exact sample_nonce_unspent.
Defined.
End Examples.
