(* ===== verification/ProxyHooks.v ===== *)
(** The hook that writes the upstream's request: what the upstream gets to see is
    the page's request as it was before the browser attested to it. *)

From S2P Require Import Prelude Net AuditTypes Attest AttestCache AttestToken Replay RateLimit RateLimitFacts MachineFacts Mtls Passthrough Machine AuditLog AuditTime AuditFacts Tls Proxy ProxyStages ProxyFacts Browser BrowserFacts.

(** ** The headers between the browser and the proxy *)

(** The names as documented (006-attest-requests and 024-windows-machine-certificate-header),
    in the lower case the proxy's header map has them in. *)
Definition CREDENTIALS : list str :=
  ["x-denbrowser-ts" : str; "x-denbrowser-nonce" : str; "x-denbrowser-token" : str;
   "x-denbrowser-machine-cert" : str].

(** They are the names the browser sets, *)
Lemma credentials_browser : CREDENTIALS = to_ascii_lowercase <$> X_HEADERS.
Proof. vm_compute. reflexivity. Qed.

Lemma reserved_credential n : reserved n = bool_decide (to_ascii_lowercase n ∈ CREDENTIALS).
Proof.
  rewrite credentials_browser. unfold reserved. symmetry.
  induction X_HEADERS as [|x xs IH]; [done|]. cbn [existsb fmap list_fmap]. rewrite <-IH. unfold equals_ci.
  repeat case_bool_decide; cbn; set_solver.
Qed.

(** and the names the hook removes. *)
Lemma strip_credentials hs :
  upstream_request_filter hs = filter (λ f, f.1 ∉ CREDENTIALS) hs.
Proof.
  unfold upstream_request_filter, remove_header, ATTESTATION_HEADERS. cbn [fold_left].
  rewrite !list_filter_filter. apply list_filter_iff. intros [n v].
  unfold CREDENTIALS. cbn [fst]. rewrite !elem_of_cons, elem_of_nil. tauto.
Qed.

Lemma header_get_filter (P : str → Prop) `{!∀ n, Decision (P n)} hs name :
  header_get (filter (λ f, P f.1) hs) name = if decide (P name) then header_get hs name else None.
Proof.
  unfold header_get. induction hs as [|[n v] hs IH]; [by case_decide|].
  rewrite (filter_cons (λ f : str * str, f.1 = name)), (filter_cons (λ f : str * str, P f.1)). cbn.
  destruct (decide (P n)) as [Hn|Hn]; destruct (decide (n = name)) as [->|Hne].
  - rewrite filter_cons, decide_True by done. by rewrite !decide_True.
  - by rewrite filter_cons, decide_False.
  - rewrite IH. by rewrite !decide_False.
  - done.
Qed.

(** ** From the page to the upstream *)

Section Upstream.
Context `{NeckoLaws, NssLaws, GlobOps, RateOps, IpNetOps, MachineTls, Calendar, HttpOps}.
Variables (debug_str : str → str) (show_ip : IpAddr → str).

(** The proxy reads the head the browser sent, each name in lower case. *)
Definition arrives (head : RequestHead) (s : Session) : Prop :=
  ∀ n, header_get (headers (ss_request s)) (to_ascii_lowercase n) = GetHeader head n.

(** Whether the browser attested or not, it left the page's other headers alone. *)
Lemma AddAttestHeaders_other table st sys head uri upload len st' head' rv n :
  browser_reachable table st → sys_ok sys →
  AddAttestHeaders table sys st head uri upload len = (st', head', rv) →
  reserved n = false → GetHeader head' n = GetHeader head n.
Proof.
  intros Hst%browser_reachable_ok Hsys E Hn.
  destruct (AddAttestHeaders_spec _ _ _ _ _ _ _ _ _ _ Hst Hsys E) as [_ Hspec].
  assert (bare head head' → GetHeader head' n = GetHeader head n) as Hbare.
  { intros (_ & _ & Ho). by apply Ho, reserved_false. }
  unfold call_spec in Hspec. destruct (destination table uri) as [[host key]|]; [|tauto].
  destruct (attest_values _ _ _ _ _ _ _) as [[[ts nonce] token]|e]; [|tauto].
  destruct Hspec as (_ & cert & Hat & _). by eapply at_other.
Qed.

(** Claim C25. Attestation is between the browser and the proxy.  Of a request the
    filter lets on, whoever sent it, the upstream gets every field but the four
    documented ones (timestamp, nonce, token, machine certificate), in order and
    with its value; and when it comes from the browser, the upstream reads under
    every name what the page had set there before the browser attested to the
    request, and nothing under the four names the browser reserves for itself. *)
Theorem upstream_gets_the_page_request env w w' :
  fresh w → request_filter debug_str show_ip env w = (w', false) →
  let sent := upstream_request_filter (headers (ss_request (w_session w'))) in
  sent = filter (λ f, f.1 ∉ CREDENTIALS) (headers (ss_request (w_session w))) ∧
  ∀ table st sys head uri upload len st' head' rv,
    browser_reachable table st → sys_ok sys →
    AddAttestHeaders table sys st head uri upload len = (st', head', rv) →
    arrives head' (w_session w) →
    ∀ n, header_get sent (to_ascii_lowercase n) = if reserved n then None else GetHeader head n.
Proof.
  intros Hf Hr. cbv zeta. destruct (filter_connection debug_str show_ip env w Hf) as [_ Hq].
  rewrite Hr in Hq. cbn [fst] in Hq. rewrite Hq, strip_credentials. split; [done|].
  intros table st sys head uri upload len st' head' rv Hst Hsys E Ha n.
  etrans; [exact (header_get_filter (λ n, n ∉ CREDENTIALS) _ _)|]. rewrite reserved_credential.
  destruct (decide (to_ascii_lowercase n ∈ CREDENTIALS)) as [Hin|Hin].
  - rewrite decide_False by tauto. by rewrite bool_decide_true.
  - rewrite decide_True, bool_decide_false by done. rewrite Ha.
    eapply AddAttestHeaders_other; try done. rewrite reserved_credential. by apply bool_decide_false.
Qed.
End Upstream.

(** ** A page's request, on its way *)

Section Examples.
#[local] Existing Instances Toy.crypto Toy.laws ToyRate.globs ToyRate.ops ToyNet.nets ToyMachine.x509
  ToyMachine.tls Gregorian.calendar Gregorian.calendar_laws ToyHttp.http
  ToyBrowser.necko ToyBrowser.necko_laws ToyBrowser.nss ToyBrowser.nss_laws.

Definition page_head : RequestHead :=
  {| ToyBrowser.th_method := "POST";
     ToyBrowser.th_fields := [("Host" : str, "proxy.example:8443" : str);
                              ("X-DenBrowser-Machine-Cert" : str, "forged" : str);
                              ("Accept" : str, "*/*" : str)] |}.

Definition page_call : BrowserState * RequestHead * nsresult :=
  AddAttestHeaders sample_table sample_sys (BrowserState_new sample_table) page_head sample_uri
    sample_upload 12.

Definition on_the_wire (head : ToyBrowser.Head) : HeaderMap :=
  (λ f, (to_ascii_lowercase f.1, f.2)) <$> ToyBrowser.th_fields head.

Definition page_world : World :=
  let w := sample_world sample_ts sample_proxy in
  let s := w_session w in
  with_session w
    {| ss_client := ss_client s; ss_server := ss_server s;
       ss_request :=
         {| rq_method := "POST"; headers := on_the_wire page_call.1.2; uri_authority := None;
            uri_path_and_query := Some ("/p" : str) |};
       ss_cert := ss_cert s; ss_body := ss_body s; ss_body_read := 0; ss_retry := None;
       ss_open := true; ss_response := None |}.

Lemma on_the_wire_get head n :
  header_get (on_the_wire head) (to_ascii_lowercase n) = ToyBrowser.get head n.
Proof.
  unfold header_get, on_the_wire, ToyBrowser.get.
  induction (ToyBrowser.th_fields head) as [|[m v] fs IH]; [done|].
  cbn [fmap list_fmap fst snd]. rewrite !filter_cons. cbn [fst snd].
  assert (equals_ci m n = true ↔ to_ascii_lowercase m = to_ascii_lowercase n) as Hi
    by apply bool_decide_eq_true.
  destruct (decide (to_ascii_lowercase m = to_ascii_lowercase n)) as [E|E].
  - by rewrite decide_True by by apply Hi.
  - rewrite decide_False by by rewrite Hi. exact IH.
Qed.

Definition page_run : World * bool := sample_filter sample_env page_world.

(** The upstream gets the page's [Accept], and not the certificate it forged. *)
Lemma upstream_gets_the_page_request_witness :
  page_run.2 = false ∧
  let sent := upstream_request_filter (headers (ss_request (w_session page_run.1))) in
  header_get sent "accept" = Some ("*/*" : str) ∧
  header_get sent "x-denbrowser-token" = None ∧
  header_get sent "x-denbrowser-machine-cert" = None.
Proof.
  assert (page_run = (page_run.1, false)) as Hr by (apply pair_snd; vm_compute; reflexivity).
  split; [by rewrite Hr|].
  destruct (upstream_gets_the_page_request quote ip_text sample_env page_world page_run.1
              (ex_intro _ 0 eq_refl) Hr) as [_ Hb].
  specialize (Hb sample_table (BrowserState_new sample_table) sample_sys page_head sample_uri
    sample_upload 12 page_call.1.1 page_call.1.2 page_call.2 (browser_start _) sample_sys_ok).
  rewrite <-!surjective_pairing in Hb. specialize (Hb eq_refl (on_the_wire_get page_call.1.2)).
  cbv zeta. split; [|split].
  - etrans; [exact (Hb "Accept")|]. vm_compute. reflexivity.
  - exact (Hb "x-denbrowser-token").
  - exact (Hb "x-denbrowser-machine-cert").
Defined.
End Examples.

(** ** What [request_host] keeps

    The host is cut at its first colon, which for an IPv6 literal is inside the
    brackets: such a host never equals the one a browser binds. *)
Section Hosts.
Variable authority : str.

Definition any_value : HttpOps := {| to_str v := Some v |}.
Definition sent_to (host : str) : RequestHeader :=
  {| rq_method := "GET"; headers := [("host" : str, host)]; uri_authority := Some authority;
     uri_path_and_query := None |}.

Example host_without_port : @request_host any_value (sent_to "docs.example:8443") = Some ("docs.example" : str).
Proof. reflexivity. Qed.
Example host_ipv6_literal : @request_host any_value (sent_to "[::1]:8443") = Some ("[" : str).
Proof. reflexivity. Qed.
End Hosts.
