(* ===== verification/ProxyTable.v ===== *)
(** Where the browser's table comes from: the generator in [src/build.sh] (Step
    2.5), which checks the ["proxies"] array of [config/site-config.json] and
    writes the table of [Browser]; and what a table built by it does: which entry
    each configured domain is attested to, and which key its TLS pin asks for.

    This is the table the step builds; [ProxySource] has the source it is printed as.
    Python's Unicode tables, base64, openssl and the file system are parameters. *)

From S2P Require Import Prelude Attest AttestToken Browser BrowserFacts.

(** ** The configuration *)

(** A JSON value as [json.load] gives it, with one value for a key; of a number
    only its truth matters here. *)
Inductive Json :=
  | JNull
  | JBool (b : bool)
  | JNum (nonzero : bool)
  | JStr (s : str)
  | JList (l : list Json)
  | JObj (fields : list (str * Json)).

(** [dict.get]; absent is [None], which [JNull] is too. *)
Fixpoint json_get (k : str) (fields : list (str * Json)) : Json :=
  match fields with
  | [] => JNull
  | (k', v) :: rest => if decide (k' = k) then v else json_get k rest
  end.

(** Python's truth. *)
Definition truthy (j : Json) : bool :=
  match j with
  | JNull => false
  | JBool b | JNum b => b
  | JStr s => negb (is_empty s)
  | JList l => negb (is_empty l)
  | JObj fs => negb (is_empty fs)
  end.

Class PyOps := {
  py_strip : str → str;                       (* str.strip() *)
  py_lower : str → str;                       (* str.lower() *)
  py_splitlines : str → list str;
  py_strip_seps : str → str;                  (* re.sub(r'[\s:]', '', s) *)
  b64decode : str → option str;
  b64decode_strict : str → option str;        (* validate=True *)
  isfile : str → bool;
  read_bytes : str → str;
  openssl_pubkey : str → option str }.        (* openssl x509 -pubkey *)

(** A call of [die], by its cause. *)
Inductive BuildError :=
  | ProxiesNotArray
  | SourceMissing
  | EntryNotObject
  | BadName
  | DuplicateName (name : str)
  | NoDomains (name : str)
  | DomainNotString (name : str)
  | WildcardDomain (name domain : str)
  | BadDomain (name domain : str)
  | NoAttestKey (name : str)
  | FileMissing (name path : str)
  | KeyNotSpki (name : str)
  | TwoPins (name : str)
  | CertUnreadable (name : str)
  | BadPin (name : str).

Inductive Warning :=
  | KeySize (name : str) (bytes : nat)
  | Unpinned (name : str)
  | Shadowed (winner winner_domain domain loser : str).

(** ** Names and hosts *)

Definition is_lower_alnum (a : ascii) : bool :=
  in_range 97 122 (code a) || in_range 48 57 (code a).
Definition is_alnum (a : ascii) : bool := is_lower_alnum a || in_range 65 90 (code a).
Definition is_name_char (a : ascii) : bool :=
  is_alnum a || bool_decide (a ∈ ["."; "_"; "-"]%char).

(** [re.match] of an expression ending in [$], which also matches before a final
    newline. *)
Definition dollar (p : str → bool) (s : str) : bool :=
  p s || match reverse s with
         | a :: r => bool_decide (a = LF) && p (reverse r)
         | [] => false
         end.

(** [NAME_RE] *)
Definition name_re (s : str) : bool :=
  match s with
  | a :: rest => is_alnum a && forallb is_name_char rest
  | [] => false
  end.

(** One label of [HOST_RE], and the whole. *)
Definition label_re (l : str) : bool :=
  match l with
  | a :: _ =>
      is_lower_alnum a && is_lower_alnum (default a (last l))
      && forallb (λ c, is_lower_alnum c || bool_decide (c = "-"%char)) l
  | [] => false
  end.
Definition host_re (s : str) : bool := forallb label_re (split_on "." s).

Definition rstrip_dots (s : str) : str :=
  reverse (drop_while (λ a, bool_decide (a = "."%char)) (reverse s)).

(** [claims]: the run-time rule, in Python. *)
Definition claims (domain host : str) : bool :=
  bool_decide (host = domain)
  || bool_decide (drop (length host - S (length domain)) host = "."%char :: domain).

Section Build.
Context `{Crypto, PyOps}.
Variable root_dir : str.

Definition resolve (value name : str) : result str BuildError :=
  let path :=
    match value with
    | "/"%char :: _ => value
    | _ => if bool_decide ("/"%char ∈ value) then root_dir ++ "/" ++ value
           else root_dir ++ "/build/" ++ value
    end in
  if isfile path then Ok path else Err (FileMissing name path).

Definition spki_sha256_from_cert (cert_path name : str) : result str BuildError :=
  let? pem := ok_or (openssl_pubkey cert_path) (CertUnreadable name) in
  let body := concat (filter (λ l, take 5 l ≠ ("-----" : str)) (py_splitlines pem)) in
  let? der := ok_or (b64decode body) (CertUnreadable name) in
  Ok (sha256 der).

Definition is_hex (a : ascii) : bool :=
  in_range 48 57 (code a) || in_range 97 102 (code a) || in_range 65 70 (code a).
Definition from_hex (s : str) : option str :=
  match try_map (λ p, ok_or (byte_of <$> parse_u8_hex p) tt) (chunks2 s) with
  | Ok bs => Some bs
  | Err _ => None
  end.

Definition spki_sha256_from_literal (value name : str) : result str BuildError :=
  let stripped := py_strip_seps value in
  if (length stripped =? 64)%nat && forallb is_hex stripped
  then ok_or (from_hex stripped) (BadPin name)
  else
    let raw := default [] (b64decode_strict stripped) in
    if (length raw =? 32)%nat then Ok raw else Err (BadPin name).

(** ** One entry *)

Definition normalize_domain (name : str) (j : Json) : result str BuildError :=
  match j with
  | JStr d =>
      let domain := rstrip_dots (py_lower (py_strip d)) in
      bail_if bool_decide ("*"%char ∈ domain) with WildcardDomain name domain in
      bail_if negb (dollar host_re domain) with BadDomain name domain in
      Ok domain
  | _ => Err (DomainNotString name)
  end.

Definition entry_name (seen_names : list str) (fields : list (str * Json))
    : result str BuildError :=
  match json_get "name" fields with
  | JStr name =>
      bail_if negb (dollar name_re name) with BadName in
      bail_if bool_decide (name ∈ seen_names) with DuplicateName name in
      Ok name
  | _ => Err BadName
  end.

(** A value that is truthy where a path or a pin is wanted, but no string, raises
    in [os.path.isabs] or [re.sub]. *)
Definition entry_pin (name : str) (fields : list (str * Json))
    : result (option str * list Warning) BuildError :=
  let cert := json_get "tls_cert" fields in
  let literal := json_get "tls_spki_sha256" fields in
  bail_if truthy cert && truthy literal with TwoPins name in
  if truthy cert then
    match cert with
    | JStr value =>
        let? path := resolve value name in
        let? pin := spki_sha256_from_cert path name in
        Ok (Some pin, [])
    | _ => Err (CertUnreadable name)
    end
  else if truthy literal then
    match literal with
    | JStr value => let? pin := spki_sha256_from_literal value name in Ok (Some pin, [])
    | _ => Err (BadPin name)
    end
  else Ok (None, [Unpinned name]).

Definition build_entry (seen_names : list str) (raw_entry : Json)
    : result (DenProxyEntry * list Warning) BuildError :=
  match raw_entry with
  | JObj fields =>
      let? name := entry_name seen_names fields in
      let? domains :=
        match json_get "domains" fields with
        | JList (d :: ds) => Ok (d :: ds)
        | _ => Err (NoDomains name)
        end in
      let? normalized := try_map (normalize_domain name) domains in
      let? attest_key :=
        match json_get "attest_key" fields with
        | JStr (a :: k) => Ok (a :: k)
        | _ => Err (NoAttestKey name)
        end in
      let? path := resolve attest_key name in
      let key_der := read_bytes path in
      bail_if negb (match key_der with b :: _ => code b =? 48 | [] => false end)
      with KeyNotSpki name in
      let size := if (length key_der =? 91)%nat then [] else [KeySize name (length key_der)] in
      let? (pin, unpinned) := entry_pin name fields in
      Ok ({| mName := name; mDomains := normalized; mAttestKey := key_der; mSpkiPin := pin |},
          size ++ unpinned)
  | _ => Err EntryNotObject
  end.

Fixpoint build_entries (entries : list DenProxyEntry) (warnings : list Warning)
    (proxies : list Json) : result (list DenProxyEntry * list Warning) BuildError :=
  match proxies with
  | [] => Ok (entries, warnings)
  | raw :: rest =>
      let? (e, ws) := build_entry (mName <$> entries) raw in
      build_entries (entries ++ [e]) (warnings ++ ws) rest
  end.

(** ** Shadowed domains *)

Definition shadow_warnings_of (other entry : DenProxyEntry) : list Warning :=
  omap (λ domain,
    match filter (λ d, claims d domain = true) (mDomains other) with
    | [] => None
    | d :: _ => Some (Shadowed (mName other) d domain (mName entry))
    end) (mDomains entry).

Definition shadow_warnings (entries : list DenProxyEntry) : list Warning :=
  concat (imap (λ i entry,
    concat (map (λ other, shadow_warnings_of other entry) (take i entries))) entries).

(** The step: the table, and what it warns of.  An absent or empty array leaves
    the empty table; [source_present] is whether patch 006 has been applied. *)
Definition build_table (source_present : bool) (config : list (str * Json))
    : result (list DenProxyEntry * list Warning) BuildError :=
  match (if existsb (λ f, bool_decide (f.1 = ("proxies" : str))) config
         then json_get "proxies" config else JList []) with
  | JList [] => Ok ([], [])
  | JList proxies =>
      bail_if negb source_present with SourceMissing in
      let? (entries, warnings) := build_entries [] [] proxies in
      Ok (entries, warnings ++ shadow_warnings entries)
  | _ => Err ProxiesNotArray
  end.
End Build.

(** ** Hosts and claims *)

(** A name that passes [HOST_RE] does not begin with a dot. *)
Definition dotless (s : str) : Prop := ∃ a r, s = a :: r ∧ a ≠ "."%char.

Lemma dotless_app s t : dotless s → dotless (s ++ t).
Proof. intros (a & r & -> & Ha). by exists a, (r ++ t). Qed.

Lemma label_re_dotless l : label_re l = true → dotless l.
Proof.
  unfold label_re. destruct l as [|a l]; [done|]. rewrite !andb_true_iff.
  intros [[Ha _] _]. exists a, l. split; [done|]. by intros ->.
Qed.

Lemma host_re_dotless s : host_re s = true → dotless s.
Proof.
  unfold host_re. intros Hs. pose proof (join_split_on "." s) as Hj.
  pose proof (split_on_nonempty "." s).
  destruct (split_on "." s) as [|l ls]; [done|]. cbn in Hs. apply andb_prop in Hs as [Hl _].
  rewrite <-Hj. apply label_re_dotless in Hl. destruct ls; [done|]. by apply dotless_app.
Qed.

Lemma dollar_dotless s : dollar host_re s = true → dotless s.
Proof.
  unfold dollar. intros [Hs|Hs]%orb_prop; [by apply host_re_dotless|].
  destruct (reverse s) as [|a r] eqn:E; [done|]. apply andb_prop in Hs as [_ Hs].
  assert (s = reverse r ++ [a]) as ->.
  { rewrite <-(reverse_involutive s), E. apply reverse_cons. }
  by apply dotless_app, host_re_dotless.
Qed.

(** On such hosts the generator's rule is the browser's. *)
Lemma claims_iff domain host :
  claims domain host = true ↔ host = domain ∨ ∃ p, host = p ++ "."%char :: domain.
Proof.
  unfold claims. rewrite orb_true_iff, !bool_decide_eq_true. split.
  - intros [?|Hd]; [by left|]. right. exists (take (length host - S (length domain)) host).
    by rewrite <-Hd, take_drop.
  - intros [?|[p ->]]; [by left|]. right. apply drop_app_length'.
    rewrite length_app. cbn. lia.
Qed.

Lemma claims_eq domain host : dotless host → claims domain host = ProxyHostMatch host domain.
Proof.
  intros (a & r & -> & Ha). apply eq_bool_prop_intro.
  rewrite !Is_true_true, claims_iff, ProxyHostMatch_iff. split; intros [?|[p Hp]]; auto.
  - right. exists p. split; [|done]. intros ->. injection Hp as -> _. done.
  - right. exists p. apply Hp.
Qed.

(** ** What the checks establish *)

Section Build.
Context `{CryptoLaws, PyOps}.
Variable root_dir : str.

(** An entry that has passed. *)
Record entry_ok (e : DenProxyEntry) : Prop := {
  eo_name : dollar name_re (mName e) = true;
  eo_domains : mDomains e ≠ [] ∧ Forall (λ d, dollar host_re d = true ∧ "*"%char ∉ d) (mDomains e);
  eo_key : ∃ k, mAttestKey e = "0"%char :: k;
  eo_pin p : mSpkiPin e = Some p → length p = 32%nat }.

Lemma from_hex_length s b : from_hex s = Some b → length b = length (chunks2 s).
Proof.
  unfold from_hex. destruct (try_map _ _) as [bs|] eqn:E; [|done]. intros [= <-].
  apply try_map_ok in E. by apply Forall2_length in E.
Qed.

Lemma literal_length value name p :
  spki_sha256_from_literal value name = Ok p → length p = 32%nat.
Proof.
  unfold spki_sha256_from_literal. cbv zeta. destruct (_ && _) eqn:E.
  - destruct (from_hex _) as [b|] eqn:Eb; [|done]. intros [= <-].
    apply from_hex_length in Eb as ->. apply andb_prop in E as [E%Nat.eqb_eq _].
    revert E. generalize (py_strip_seps value). intros t Ht.
    do 64 (destruct t as [|? t]; [done|]). by destruct t.
  - destruct (length _ =? 32)%nat eqn:El; [|done]. intros [= <-]. by apply Nat.eqb_eq.
Qed.

Lemma entry_pin_length name fields pin ws p :
  entry_pin root_dir name fields = Ok (pin, ws) → pin = Some p → length p = 32%nat.
Proof.
  unfold entry_pin. cbv zeta. intros E ->. inv_match E; [|by eapply literal_length].
  unfold spki_sha256_from_cert in *.
  match goal with Hc : _ = Ok p |- _ => inv_match Hc end. apply sha256_length.
Qed.

Lemma normalize_domain_ok name j d :
  normalize_domain name j = Ok d → dollar host_re d = true ∧ "*"%char ∉ d.
Proof.
  unfold normalize_domain. cbv zeta. destruct j as [| | |s| |]; try done.
  destruct (bool_decide ("*"%char ∈ _)) eqn:Es; [done|].
  destruct (dollar host_re _) eqn:Eh; [|done]. intros [= <-].
  split; [done|]. by apply bool_decide_eq_false in Es.
Qed.

Lemma entry_name_ok seen fields name :
  entry_name seen fields = Ok name → dollar name_re name = true ∧ name ∉ seen.
Proof.
  unfold entry_name. destruct (json_get _ _) as [| | |s| |]; try done.
  destruct (dollar name_re s) eqn:En; [|done]. cbn [negb].
  destruct (bool_decide (s ∈ seen)) eqn:Es; [done|]. intros [= <-].
  by apply bool_decide_eq_false in Es.
Qed.

Lemma build_entry_ok seen raw e ws :
  build_entry root_dir seen raw = Ok (e, ws) → entry_ok e ∧ mName e ∉ seen.
Proof.
  unfold build_entry. destruct raw as [| | | | |fields]; try done.
  destruct (entry_name seen fields) as [name|] eqn:En; [|done].
  apply entry_name_ok in En as [Hn Hs].
  destruct (json_get "domains" fields) as [| | | |[|d ds]|]; try done.
  destruct (try_map _ _) as [doms|] eqn:Ed; [|done]. apply try_map_ok in Ed.
  destruct (json_get "attest_key" fields) as [| | |[|a k]| |]; try done.
  destruct (resolve _ _ _) as [path|]; [|done]. cbv zeta.
  destruct (read_bytes path) as [|b der] eqn:Er; [done|].
  destruct (code b =? 48) eqn:Eb; [|done]. cbn [negb].
  destruct (entry_pin _ _ _) as [[pin unp]|] eqn:Ep; [|done]. intros [= <- _].
  split; [|done]. split; cbn; try done.
  - split; [by inversion Ed|]. clear -Ed.
    induction Ed as [|j d' js ds' Hj _ IH]; constructor; [|done]. by eapply normalize_domain_ok.
  - exists der. f_equal. apply code_inj. by apply Z.eqb_eq in Eb.
  - intros p ->. by eapply entry_pin_length.
Qed.

(** The entries of a table: well-formed, and no name twice. *)
Definition entries_ok (t : list DenProxyEntry) : Prop :=
  Forall entry_ok t ∧ NoDup (mName <$> t).

Lemma build_entries_ok entries warnings proxies table ws :
  entries_ok entries → build_entries root_dir entries warnings proxies = Ok (table, ws) →
  entries_ok table.
Proof.
  revert entries warnings. induction proxies as [|raw proxies IH]; intros entries warnings Hok; cbn.
  { by intros [= <- _]. }
  destruct (build_entry _ _ _) as [[e w]|] eqn:E; [|done]. apply IH.
  apply build_entry_ok in E as [He Hn]. destruct Hok as [Hf Hd]. split.
  - apply Forall_app. split; [done|by constructor].
  - rewrite fmap_app. apply NoDup_app. split; [done|]. split; [|by apply NoDup_singleton].
    cbn. intros x Hx Hx'. apply list_elem_of_singleton in Hx' as ->. done.
Qed.

(** The checks of single entries do not warn of shadowing. *)
Definition no_shadow (w : Warning) : Prop :=
  match w with Shadowed _ _ _ _ => False | _ => True end.

Lemma build_entry_warnings seen raw e ws :
  build_entry root_dir seen raw = Ok (e, ws) → Forall no_shadow ws.
Proof.
  unfold build_entry, entry_pin. cbv zeta. intros E. inv_match E;
    repeat (apply Forall_app; split); repeat case_match; simplify_eq; repeat constructor.
Qed.

Lemma build_entries_warnings entries warnings proxies table ws :
  Forall no_shadow warnings → build_entries root_dir entries warnings proxies = Ok (table, ws) →
  Forall no_shadow ws.
Proof.
  revert entries warnings. induction proxies as [|raw proxies IH]; intros entries warnings Hw; cbn.
  { by intros [= _ <-]. }
  destruct (build_entry _ _ _) as [[e w]|] eqn:E; [|done]. apply IH, Forall_app.
  split; [done|]. by eapply build_entry_warnings.
Qed.

Lemma build_table_ok present config table ws :
  build_table root_dir present config = Ok (table, ws) →
  entries_ok table ∧ ∃ ws', ws = ws' ++ shadow_warnings table ∧ Forall no_shadow ws'.
Proof.
  unfold build_table. destruct (if existsb _ config then _ else _) as [| | | |[|p ps]|]; try done.
  - intros [= <- <-]. split; [split; constructor|]. by exists [].
  - destruct present; [|done]. cbn [negb].
    destruct (build_entries _ _ _ _) as [[t w]|] eqn:E; [|done]. intros [= <- <-].
    split; [eapply build_entries_ok, E; split; constructor|]. exists w.
    split; [done|]. by eapply build_entries_warnings, E.
Qed.

(** ** Which entry a domain goes to *)

(** The generator says that an earlier entry takes the domain [d] of entry [e]. *)
Definition warned_of (ws : list Warning) (e : DenProxyEntry) (d : str) : Prop :=
  ∃ winner wd, Shadowed winner wd d (mName e) ∈ ws.

Lemma shadow_warnings_of_spec other e w :
  w ∈ shadow_warnings_of other e ↔
  ∃ d wd, d ∈ mDomains e ∧ w = Shadowed (mName other) wd d (mName e) ∧
    head (filter (λ x, claims x d = true) (mDomains other)) = Some wd.
Proof.
  unfold shadow_warnings_of. rewrite list_elem_of_omap. split.
  - intros (d & Hd & Hw). exists d.
    destruct (filter _ _) as [|wd l] eqn:Ef; [done|]. injection Hw as <-. by exists wd.
  - intros (d & wd & Hd & -> & Hh). exists d. split; [done|].
    destruct (filter _ _) as [|wd' l] eqn:Ef; [done|]. by injection Hh as ->.
Qed.

Lemma shadow_warnings_spec table w :
  w ∈ shadow_warnings table ↔
  ∃ j i other e, (j < i)%nat ∧ table !! j = Some other ∧ table !! i = Some e ∧
    w ∈ shadow_warnings_of other e.
Proof.
  unfold shadow_warnings. rewrite list_elem_of_In, in_concat. split.
  - intros (l & Hl%list_elem_of_In & Hw). apply elem_of_lookup_imap in Hl as (i & e & -> & He).
    apply in_concat in Hw as (l & Hl & Hw).
    apply in_map_iff in Hl as (other & <- & Hother%list_elem_of_In).
    apply list_elem_of_lookup in Hother as [j Hj]. apply lookup_take_Some in Hj as [Hj Hlt].
    exists j, i, other, e. split_and!; try done. by apply list_elem_of_In.
  - intros (j & i & other & e & Hlt & Hj & Hi & Hw). eexists. split.
    + apply list_elem_of_In, elem_of_lookup_imap. by exists i, e.
    + apply in_concat. eexists. split; [|by apply list_elem_of_In].
      apply (in_map (λ other, shadow_warnings_of other e)), list_elem_of_In, list_elem_of_lookup. exists j.
      by apply lookup_take_Some.
Qed.

Lemma claims_host_claims d e :
  dotless d →
  claims_host d e = true ↔ ∃ wd, head (filter (λ x, claims x d = true) (mDomains e)) = Some wd.
Proof.
  intros Hd. unfold claims_host. rewrite existsb_exists. split.
  - intros (x & Hx%list_elem_of_In & Hm). rewrite <-claims_eq in Hm by done.
    destruct (filter _ (mDomains e)) as [|wd l] eqn:E; [|by exists wd].
    assert (x ∈ filter (λ x, claims x d = true) (mDomains e)) as Hin
      by (by apply list_elem_of_filter).
    rewrite E in Hin. by apply not_elem_of_nil in Hin.
  - intros [wd Hh]. destruct (filter _ (mDomains e)) as [|wd' l] eqn:E; [done|].
    assert (wd' ∈ filter (λ x, claims x d = true) (mDomains e)) as Hin by (rewrite E; left).
    apply list_elem_of_filter in Hin as [Hc Hin]. exists wd'.
    split; [by apply list_elem_of_In|]. by rewrite <-claims_eq.
Qed.

(** A warning about an entry's domain is the existence of an earlier claim. *)
Lemma warned_iff table ws ws' i e d :
  entries_ok table → ws = ws' ++ shadow_warnings table → Forall no_shadow ws' →
  table !! i = Some e → d ∈ mDomains e →
  warned_of ws e d ↔ ∃ j e', (j < i)%nat ∧ table !! j = Some e' ∧ claims_host d e' = true.
Proof.
  intros [Hok Hnd] -> Hns He Hd.
  assert (dotless d) as Hdot.
  { rewrite Forall_lookup in Hok. apply dollar_dotless.
    pose proof (proj2 (eo_domains _ (Hok _ _ He))) as Hf. rewrite Forall_forall in Hf.
    by destruct (Hf d Hd). }
  unfold warned_of. split.
  - intros (win & wd & [Hin|Hin]%elem_of_app).
    { rewrite Forall_forall in Hns. by specialize (Hns _ Hin). }
    apply shadow_warnings_spec in Hin as (j & i' & other & e' & Hlt & Hj & Hi' & Hw).
    apply shadow_warnings_of_spec in Hw as (d' & wd' & _ & [= -> -> -> Hn] & Hh).
    assert (i' = i) as ->.
    { apply (NoDup_lookup _ _ _ (mName e) Hnd); rewrite list_lookup_fmap.
      - by rewrite Hi', Hn.
      - by rewrite He. }
    exists j, other. split_and!; try done. apply claims_host_claims; [done|]. by exists wd'.
  - intros (j & other & Hlt & Hj & (wd & Hh)%claims_host_claims); [|done].
    exists (mName other), wd. apply elem_of_app. right. apply shadow_warnings_spec.
    exists j, i, other, e. split_and!; try done. apply shadow_warnings_of_spec.
    by exists d, wd.
Qed.
End Build.

(** ** Properties *)

(** Claim C34. The generated table does what the configuration says, or the build
    says where it does not.  A table that is generated has distinct, well-formed
    names, at least one hostname per entry, none a wildcard, keys that begin like
    an SPKI and pins of 32 bytes; and at run time every configured domain is
    claimed, by its own entry exactly if no warning says that an earlier one
    shadows it, and by an earlier one otherwise. *)
Theorem built_table_dispatches `{CryptoLaws, PyOps} root_dir present config table ws :
  build_table root_dir present config = Ok (table, ws) →
  NoDup (mName <$> table) ∧
  ∀ i e, table !! i = Some e → entry_ok e ∧
    ∀ d, d ∈ mDomains e →
      ∃ j, FindProxyForHost table d = Some j ∧ (j ≤ i)%nat ∧ (j = i ↔ ¬ warned_of ws e d).
Proof.
  intros (Hok & ws' & Hws & Hns)%build_table_ok. split; [apply Hok|]. intros i e He.
  split; [destruct Hok as [Hf _]; rewrite Forall_lookup in Hf; by eapply Hf|]. intros d Hd.
  pose proof (warned_iff table ws ws' i e d Hok Hws Hns He Hd) as Hw.
  assert (claims_host d e = true) as Hown.
  { apply existsb_exists. exists d. split; [by apply list_elem_of_In|].
    apply ProxyHostMatch_iff. by left. }
  destruct (FindProxyForHost table d) as [j|] eqn:Ef.
  2: { apply FindProxyForHost_none in Ef. rewrite Forall_lookup in Ef.
       specialize (Ef _ _ He). congruence. }
  exists j. apply FindProxyForHost_some in Ef as [(e' & He' & Hc) Hfirst]. split; [done|].
  assert (j ≤ i)%nat as Hle.
  { destruct (Nat.le_gt_cases j i) as [?|Hgt]; [done|]. specialize (Hfirst _ _ Hgt He). congruence. }
  split; [done|]. rewrite Hw. split.
  - intros -> (k & e'' & Hk & He'' & Hc''). specialize (Hfirst _ _ Hk He''). congruence.
  - intros Hno. destruct (Nat.le_gt_cases i j) as [?|Hlt]; [lia|]. destruct Hno. by exists j, e'.
Qed.

(** ** A configuration of two partners *)

Module ToyBuild.
#[export] Instance py : PyOps :=
  {| py_strip := trim; py_lower := to_ascii_lowercase; py_splitlines := split_on LF;
     py_strip_seps := filter (λ a, a ≠ ":"%char ∧ a ≠ " "%char);
     b64decode := λ s, Some s; b64decode_strict := λ _, None;
     isfile := λ p, bool_decide (p = ("/repo/build/a.der" : str))
                    || bool_decide (p = ("/keys/b.der" : str));
     read_bytes := λ p, if decide (p = ("/keys/b.der" : str)) then "0b" else "0k";
     openssl_pubkey := λ _, None |}.

Definition partner (name : str) (domains : list Json) (key pin : str) : Json :=
  JObj [("name" : str, JStr name); ("domains" : str, JList domains);
        ("attest_key" : str, JStr key); ("tls_spki_sha256" : str, JStr pin)].

Definition pin : str := concat (repeat ("0a:" : str) 32).

(** [partner-a] claims a parent domain of one of [partner-b]'s. *)
Definition config : list (str * Json) :=
  [("proxies" : str,
    JList [partner "partner-a" [JStr " Example.COM. "] "a.der" pin;
           partner "partner-b" [JStr "b.example.com"; JStr "b.test"] "/keys/b.der" ""])].
End ToyBuild.

Section Examples.
#[local] Existing Instances Toy.crypto Toy.laws ToyBuild.py.

Definition sample_build : result (list DenProxyEntry * list Warning) BuildError :=
  build_table "/repo" true ToyBuild.config.

Definition built_table : list DenProxyEntry :=
  [{| mName := "partner-a"; mDomains := ["example.com" : str]; mAttestKey := "0k";
      mSpkiPin := Some (repeat (byte_of 10) 32) |};
   {| mName := "partner-b"; mDomains := ["b.example.com" : str; "b.test" : str];
      mAttestKey := "0b"; mSpkiPin := None |}].

Definition built_warnings : list Warning :=
  [KeySize "partner-a" 2; KeySize "partner-b" 2; Unpinned "partner-b";
   Shadowed "partner-a" "example.com" "b.example.com" "partner-b"].

Example sample_build_ok : sample_build = Ok (built_table, built_warnings).
Proof. vm_compute. reflexivity. Qed.

(** A name may end in a newline, as [$] lets it. *)
Example newline_in_name :
  (entry_name [] [("name" : str, JStr ("partner" ++ [LF]))] : result str BuildError)
  = Ok ("partner" ++ [LF]).
Proof. vm_compute. reflexivity. Qed.

Example wildcard_refused :
  build_table "/repo" true
    [("proxies" : str, JList [ToyBuild.partner "p" [JStr "*.example.com"] "a.der" ""])]
  = Err (WildcardDomain "p" "*.example.com").
Proof. vm_compute. reflexivity. Qed.

Theorem built_table_dispatches_witness :
  NoDup (mName <$> built_table) ∧
  ∀ i e, built_table !! i = Some e → entry_ok e ∧
    ∀ d, d ∈ mDomains e →
      ∃ j, FindProxyForHost built_table d = Some j ∧ (j ≤ i)%nat
           ∧ (j = i ↔ ¬ warned_of built_warnings e d).
Proof.
  apply (built_table_dispatches "/repo" true ToyBuild.config). vm_compute. reflexivity.
Defined.
End Examples.
