(* ===== verification/ProxySource.v ===== *)
(** The source the generator of [ProxyTable] writes (the rest of Step 2.5 of
    [src/build.sh]): the C text of a table, how it replaces the generated block of
    [DenBrowserAttest.cpp], and what a compiler reads in it.

    The reader is C's, for the declarations that are written: comments, words,
    string literals without escapes, arrays of strings and of bytes, and an array
    of structs whose pointers name earlier arrays. *)

From S2P Require Import Prelude Attest AttestToken Tls Browser BrowserFacts ProxyTable.

(** ** What is written *)

(** Lists of at most [n], as slices of step [n] take them; [fuel] is a length. *)
Fixpoint slices {A} (fuel n : nat) (l : list A) : list (list A) :=
  match fuel, l with
  | S fuel, _ :: _ => take n l :: slices fuel n (drop n l)
  | _, _ => []
  end.

Definition c_bytes (raw : str) : str :=
  join [LF] (map (λ part, "    " ++ join " " (map (λ b, "0x" ++ hex_byte b ++ ",") part))
               (slices (length raw) 12 raw)).

Definition quoted (s : str) : str := DQUOTE :: s ++ [DQUOTE].

Definition START : str := "// ── DEN: PROXY_TABLE ──".
Definition END_ : str := "// ── DEN END: PROXY_TABLE ──".

Definition domains_id (i : nat) : str := "kDenProxyDomains_" ++ show (Z.of_nat i).
Definition key_id (i : nat) : str := "kDenProxyKey_" ++ show (Z.of_nat i).
Definition pin_id (i : nat) : str := "kDenProxyPin_" ++ show (Z.of_nat i).

Definition entry_decls (i : nat) (e : DenProxyEntry) : list str :=
  ["static const char* const " ++ domains_id i ++ "[] = {"]
  ++ map (λ d, "    " ++ quoted d ++ ",") (mDomains e)
  ++ ["    nullptr" : str; "};" : str;
      "static const uint8_t " ++ key_id i ++ "[] = {"; c_bytes (mAttestKey e); "};" : str]
  ++ match mSpkiPin e with
     | Some pin => ["static const uint8_t " ++ pin_id i ++ "[32] = {"; c_bytes pin; "};" : str]
     | None => []
     end.

Definition entry_row (i : nat) (e : DenProxyEntry) : str :=
  "  {" ++ quoted (mName e) ++ ", " ++ domains_id i ++ ", " ++ key_id i
  ++ ", static_cast<uint32_t>(sizeof(" ++ key_id i ++ ")), "
  ++ match mSpkiPin e with Some _ => pin_id i | None => "nullptr" end ++ "},".

(** [out], line by line. *)
Definition emit_table (entries : list DenProxyEntry) : list str :=
  [START;
   "// GENERATED by build.sh (Step 2.5) from the " ++ quoted "proxies" ++ " array in";
   "// config/site-config.json.  Do not edit here — edit the JSON, rebuild." : str]
  ++ concat (imap entry_decls entries)
  ++ ["static const DenProxyEntry kDenProxies[] = {" : str]
  ++ imap entry_row entries
  ++ ["  {nullptr, nullptr, nullptr, 0, nullptr}," : str; "};" : str; END_].

Definition table_text (entries : list DenProxyEntry) : str := join [LF] (emit_table entries).

(** ** Where it is written *)

Fixpoint strip_text (p s : str) : option str :=
  match p, s with
  | [], _ => Some s
  | a :: p, b :: s => if decide (a = b) then strip_text p s else None
  | _, [] => None
  end.

(** The text before and after the first occurrence of [p]. *)
Fixpoint find_text (p s : str) : option (str * str) :=
  match strip_text p s with
  | Some rest => Some ([], rest)
  | None =>
      match s with
      | [] => None
      | c :: s => '(a, b) ← find_text p s; Some (c :: a, b)
      end
  end.

(** [re.subn] of [START.*?END]: every shortest block is replaced, from the left;
    [fuel] is a length. *)
Fixpoint replace_blocks (fuel : nat) (new s : str) : str * nat :=
  match fuel with
  | O => (s, 0%nat)
  | S fuel =>
      match find_text START s with
      | None => (s, 0%nat)
      | Some (before, inside) =>
          match find_text END_ inside with
          | None => (s, 0%nat)
          | Some (_, after) =>
              let '(rest, n) := replace_blocks fuel new after in
              (before ++ new ++ rest, S n)
          end
      end
  end.

(** A text file as Python reads it: every line end becomes a newline. *)
Fixpoint universal_newlines (s : str) : str :=
  match s with
  | [] => []
  | c :: s' =>
      if decide (c = CR) then
        LF :: match s' with
              | d :: s'' => if decide (d = LF) then universal_newlines s''
                            else universal_newlines s'
              | [] => []
              end
      else c :: universal_newlines s'
  end.

Inductive StepError :=
  | TableError (e : BuildError)
  | SentinelsNotFound (found : nat).

Section Step.
Context `{Crypto, PyOps}.
Variable root_dir : str.

(** The whole step on the text of [DenBrowserAttest.cpp], if there is one.  An empty
    array ends it before anything is written. *)
Definition proxy_table_step (source : option str) (config : list (str * Json))
    : result (option str * list Warning) StepError :=
  let? (entries, warnings) :=
    map_err TableError (build_table root_dir (bool_decide (is_Some source)) config) in
  match entries with
  | [] => Ok (source, warnings)
  | _ =>
      let content := universal_newlines (default [] source) in
      let '(new_content, n) := replace_blocks (length content) (table_text entries) content in
      bail_if negb (n =? 1)%nat with SentinelsNotFound n in
      Ok (Some new_content, warnings)
  end.
End Step.

(** ** What a compiler reads *)

Inductive Token :=
  | TWord (w : str)
  | TStr (s : str)
  | TPunct (a : ascii).

#[export] Instance Token_eq_dec : EqDecision Token.
Proof. solve_decision. Defined.

Inductive LexState := Between | Slash | Comment | Word (w : str) | Literal (s : str).

Definition is_word_char (a : ascii) : bool := is_alnum a || bool_decide (a = "_"%char).

(** A character outside words, literals and comments. *)
Definition lex_start (c : ascii) : option (list Token * LexState) :=
  if is_word_char c then Some ([], Word [c])
  else if decide (c = " "%char ∨ c = LF) then Some ([], Between)
  else if decide (c = DQUOTE) then Some ([], Literal [])
  else if decide (c = "/"%char) then Some ([], Slash)
  else if decide (c ∈ ["{"; "}"; "["; "]"; "("; ")"; "<"; ">"; "*"; "="; ","; ";"]%char)
  then Some ([TPunct c], Between)
  else None.

(** A newline does not belong in a literal, and no escape is ever written. *)
Definition lex_step (st : LexState) (c : ascii) : option (list Token * LexState) :=
  match st with
  | Between => lex_start c
  | Slash => if decide (c = "/"%char) then Some ([], Comment) else None
  | Comment => Some ([], if decide (c = LF) then Between else Comment)
  | Word w =>
      if is_word_char c then Some ([], Word (w ++ [c]))
      else '(ts, st) ← lex_start c; Some (TWord w :: ts, st)
  | Literal s =>
      if decide (c = DQUOTE) then Some ([TStr s], Between)
      else if decide (c = LF ∨ c = "\"%char) then None
      else Some ([], Literal (s ++ [c]))
  end.

Fixpoint lex_run (st : LexState) (s : str) : option (list Token * LexState) :=
  match s with
  | [] => Some ([], st)
  | c :: s =>
      '(t1, st) ← lex_step st c;
      '(t2, st) ← lex_run st s;
      Some (t1 ++ t2, st)
  end.

Definition lex (s : str) : option (list Token) :=
  '(ts, st) ← lex_run Between s;
  match st with
  | Between | Comment => Some ts
  | Word w => Some (ts ++ [TWord w])
  | _ => None
  end.

(** The tokens of a fixed text. *)
Definition toks (s : string) : list Token := default [] (lex s).

Fixpoint expect (p ts : list Token) : option (list Token) :=
  match p, ts with
  | [], _ => Some ts
  | a :: p, b :: ts => if decide (a = b) then expect p ts else None
  | _, [] => None
  end.

Definition next_word (ts : list Token) : option (str * list Token) :=
  match ts with TWord w :: ts => Some (w, ts) | _ => None end.
Definition next_string (ts : list Token) : option (str * list Token) :=
  match ts with TStr s :: ts => Some (s, ts) | _ => None end.

(** The elements of a null-terminated array of strings. *)
Fixpoint read_strings (ts : list Token) : option (list str * list Token) :=
  match ts with
  | TStr s :: TPunct a :: ts =>
      if decide (a = ","%char) then '(l, ts) ← read_strings ts; Some (s :: l, ts) else None
  | _ => ts ← expect (toks "nullptr };") ts; Some ([], ts)
  end.

Definition c_byte (w : str) : option ascii :=
  match w with
  | z :: x :: h =>
      if decide (z = "0"%char ∧ x = "x"%char) then
        match parse_hex_pair h with Ok b => Some b | Err _ => None end
      else None
  | _ => None
  end.

Fixpoint read_bytes (ts : list Token) : option (str * list Token) :=
  match ts with
  | TWord w :: TPunct a :: ts =>
      if decide (a = ","%char) then
        b ← c_byte w; '(l, ts) ← read_bytes ts; Some (b :: l, ts)
      else None
  | _ => ts ← expect (toks "};") ts; Some ([], ts)
  end.

(** The arrays declared so far. *)
Inductive CData := Strings (l : list str) | Bytes (b : str).

Definition declare (n : str) (v : CData) (env : gmap str CData) : option (gmap str CData) :=
  match env !! n with Some _ => None | None => Some (<[n := v]> env) end.
Definition strings_of (env : gmap str CData) (n : str) : option (list str) :=
  match env !! n with Some (Strings l) => Some l | _ => None end.
Definition bytes_of (env : gmap str CData) (n : str) : option str :=
  match env !! n with Some (Bytes b) => Some b | _ => None end.

(** An explicit size pads with zeros; more elements are an error. *)
Definition sized (size : option nat) (b : str) : option str :=
  match size with
  | None => Some b
  | Some n => if (length b <=? n)%nat then Some (b ++ repeat (byte_of 0) (n - length b)) else None
  end.

Definition array_size (ts : list Token) : option (option nat * list Token) :=
  match expect (toks "[32] = {") ts with
  | Some ts => Some (Some 32%nat, ts)
  | None => ts ← expect (toks "[] = {") ts; Some (None, ts)
  end.

(** An element of [kDenProxies]: the key is as many bytes of its array as the
    32-bit length says. *)
Definition read_row (env : gmap str CData) (ts : list Token) : option (DenProxyEntry * list Token) :=
  ts ← expect (toks "{") ts; '(name, ts) ← next_string ts;
  ts ← expect (toks ",") ts; '(d, ts) ← next_word ts;
  ts ← expect (toks ",") ts; '(k, ts) ← next_word ts;
  ts ← expect (toks ", static_cast<uint32_t>(sizeof(") ts; '(k', ts) ← next_word ts;
  ts ← expect (toks ")),") ts; '(p, ts) ← next_word ts;
  ts ← expect (toks "},") ts;
  domains ← strings_of env d; key ← bytes_of env k; sized_key ← bytes_of env k';
  pin ← (if decide (p = ("nullptr" : str)) then Some None else Some <$> bytes_of env p);
  let len := Z.to_nat (Z.of_nat (length sized_key) mod 2 ^ 32) in
  if (length key <? len)%nat then None
  else Some ({| mName := name; mDomains := domains; mAttestKey := take len key; mSpkiPin := pin |},
             ts).

(** The elements up to the null name that ends the table. *)
Fixpoint read_rows (fuel : nat) (env : gmap str CData) (ts : list Token)
    : option (list DenProxyEntry * list Token) :=
  match fuel with
  | O => None
  | S fuel =>
      match expect (toks "{nullptr, nullptr, nullptr, 0, nullptr}, };") ts with
      | Some ts => Some ([], ts)
      | None =>
          '(e, ts) ← read_row env ts; '(l, ts) ← read_rows fuel env ts; Some (e :: l, ts)
      end
  end.

(** Declarations, the table's last. *)
Fixpoint read_decls (fuel : nat) (env : gmap str CData) (ts : list Token)
    : option (list DenProxyEntry) :=
  match fuel with
  | O => None
  | S fuel' =>
      match expect (toks "static const char* const") ts with
      | Some ts =>
          '(n, ts) ← next_word ts; ts ← expect (toks "[] = {") ts;
          '(l, ts) ← read_strings ts; env ← declare n (Strings l) env;
          read_decls fuel' env ts
      | None =>
          match expect (toks "static const uint8_t") ts with
          | Some ts =>
              '(n, ts) ← next_word ts; '(size, ts) ← array_size ts;
              '(b, ts) ← read_bytes ts; b ← sized size b; env ← declare n (Bytes b) env;
              read_decls fuel' env ts
          | None =>
              ts ← expect (toks "static const DenProxyEntry kDenProxies[] = {") ts;
              '(t, ts) ← read_rows fuel env ts;
              if decide (ts = []) then Some t else None
          end
      end
  end.

(** The table a block of source declares; every declaration and row takes a token. *)
Definition c_table (text : str) : option (list DenProxyEntry) :=
  ts ← lex text; read_decls (length ts) ∅ ts.

(** ** Reading characters *)

Lemma lex_run_app st a b :
  lex_run st (a ++ b) =
    ('(t1, st1) ← lex_run st a; '(t2, st2) ← lex_run st1 b; Some (t1 ++ t2, st2)).
Proof.
  revert st. induction a as [|c a IH]; intros st; cbn.
  { by destruct (lex_run st b) as [[]|]. }
  destruct (lex_step st c) as [[t1 st1]|]; cbn; [|done]. rewrite IH.
  destruct (lex_run st1 a) as [[t2 st2]|]; cbn; [|done].
  destruct (lex_run st2 b) as [[t3 st3]|]; cbn; [|done]. by rewrite app_assoc.
Qed.

Lemma run_app st1 a ta st2 b tb st3 :
  lex_run st1 a = Some (ta, st2) → lex_run st2 b = Some (tb, st3) →
  lex_run st1 (a ++ b) = Some (ta ++ tb, st3).
Proof. intros Ha Hb. by rewrite lex_run_app, Ha; cbn; rewrite Hb. Qed.

Lemma run_fails_app st s r : lex_run st s = None → lex_run st (s ++ r) = None.
Proof. intros Hs. by rewrite lex_run_app, Hs. Qed.

(** Complete text: it can stand between any two tokens. *)
Definition lexes (s : str) (ts : list Token) : Prop := lex_run Between s = Some (ts, Between).
Definition fails (s : str) : Prop := lex_run Between s = None.

Lemma lexes_app a b ta tb : lexes a ta → lexes b tb → lexes (a ++ b) (ta ++ tb).
Proof. apply run_app. Qed.

Lemma lexes_after a b ts : lexes a [] → lexes b ts → lexes (a ++ b) ts.
Proof. apply run_app. Qed.

Lemma fails_after a ta b : lexes a ta → fails b → fails (a ++ b).
Proof. unfold lexes, fails. intros Ha Hb. by rewrite lex_run_app, Ha; cbn; rewrite Hb. Qed.

Lemma lexes_bind {A} (f : A → str) (g : A → list Token) l :
  Forall (λ x, lexes (f x) (g x)) l → lexes (l ≫= f) (l ≫= g).
Proof. induction 1; [done|]. by apply lexes_app. Qed.

Lemma lexes_join sep (ls : list str) (ts : list (list Token)) :
  lexes sep [] → Forall2 lexes ls ts → lexes (join sep ls) (concat ts).
Proof.
  intros Hsep. induction 1 as [|l t ls ts Hl Hls IH]; [done|].
  destruct ls as [|l' ls].
  - inversion Hls; subst. cbn. by rewrite app_nil_r.
  - change (join sep (l :: l' :: ls)) with (l ++ sep ++ join sep (l' :: ls)).
    cbn [concat]. apply lexes_app; [done|]. by apply lexes_after.
Qed.

Lemma run_word u w :
  Forall (λ a, is_word_char a = true) w → lex_run (Word u) w = Some ([], Word (u ++ w)).
Proof.
  intros Hw. revert u. induction Hw as [|a w Ha _ IH]; intros u; cbn; [by rewrite app_nil_r|].
  rewrite Ha. cbn. rewrite IH. cbn. by rewrite <-app_assoc.
Qed.

Definition is_word (w : str) : Prop := w ≠ [] ∧ Forall (λ a, is_word_char a = true) w.

Lemma lexes_word w tail ts :
  is_word w → lex_run (Word w) tail = Some (TWord w :: ts, Between) →
  lexes (w ++ tail) (TWord w :: ts).
Proof.
  intros [Hne Hw] Ht. destruct w as [|a w]; [done|]. apply Forall_cons in Hw as [Ha Hw].
  apply (run_app _ _ [] (Word (a :: w)) _ (TWord (a :: w) :: ts)); [|done].
  cbn. unfold lex_start. rewrite Ha. cbn. by rewrite (run_word [a] w Hw).
Qed.

Lemma name_char_plain a : is_name_char a = true → a ≠ DQUOTE ∧ a ≠ LF ∧ a ≠ "\"%char.
Proof. intros Ha. split_and!; intros ->; discriminate Ha. Qed.

Lemma run_literal u s :
  Forall (λ a, is_name_char a = true) s → lex_run (Literal u) s = Some ([], Literal (u ++ s)).
Proof.
  intros Hs. revert u. induction Hs as [|a s Ha _ IH]; intros u; cbn; [by rewrite app_nil_r|].
  destruct (name_char_plain a Ha) as (? & ? & ?).
  rewrite decide_False by done. rewrite decide_False by (by intros [|]). cbn.
  rewrite IH. cbn. by rewrite <-app_assoc.
Qed.

Lemma lexes_quoted s : Forall (λ a, is_name_char a = true) s → lexes (quoted s) [TStr s].
Proof.
  intros Hs. apply (run_app _ [DQUOTE] [] (Literal []) _ [TStr s]); [done|].
  by apply (run_app _ _ [] (Literal s) _ [TStr s]); [apply run_literal|].
Qed.

(** A newline inside a literal is not C. *)
Lemma run_literal_fails u s : DQUOTE ∉ s → LF ∈ s → lex_run (Literal u) s = None.
Proof.
  revert u. induction s as [|a s IH]; intros u Hq Hl; [by apply not_elem_of_nil in Hl|].
  apply not_elem_of_cons in Hq as [Ha Hq]. cbn. rewrite decide_False by done.
  destruct (decide _) as [|Hn]; [done|]. cbn. rewrite IH; [done|done|].
  apply elem_of_cons in Hl as [<-|?]; [|done]. destruct Hn. by left.
Qed.

Lemma quoted_fails s r : DQUOTE ∉ s → LF ∈ s → fails (quoted s ++ r).
Proof.
  intros Hq Hl. apply run_fails_app. change (quoted s) with ([DQUOTE] ++ (s ++ [DQUOTE])).
  rewrite lex_run_app. change (lex_run Between [DQUOTE]) with (Some ([] : list Token, Literal [])). cbn.
  by rewrite (run_fails_app _ _ _ (run_literal_fails [] s Hq Hl)).
Qed.

(** ** The parts of a declaration *)

Lemma digit_word a : is_Some (digit_value 10 a) → is_word_char a = true.
Proof. destruct a as [[] [] [] [] [] [] [] []]; vm_compute; try done; intros []; done. Qed.

Lemma digits_word acc t v :
  digits_value 10 acc t = Some v → Forall (λ a, is_word_char a = true) t.
Proof.
  revert acc. induction t as [|a t IH]; intros acc; cbn; [constructor|].
  destruct (digit_value 10 a) eqn:Ha; [|done]. intros Hv.
  constructor; [apply digit_word; by rewrite Ha|eauto].
Qed.

Lemma show_index i :
  show (Z.of_nat i) = show_nat (Z.of_nat i) ∧
  digits_value 10 0 (show_nat (Z.of_nat i)) = Some (Z.of_nat i).
Proof.
  unfold show. rewrite (proj2 (Z.ltb_ge _ _)) by lia.
  split; [done|]. by apply show_nat_spec; lia.
Qed.

Lemma index_word (pre : str) i :
  is_word pre → is_word (pre ++ show (Z.of_nat i)).
Proof.
  intros [Hne Hw]. destruct (show_index i) as [-> Hd]. split; [by destruct pre|].
  apply Forall_app. split; [done|]. by eapply digits_word.
Qed.

Lemma index_inj (pre : str) i j : pre ++ show (Z.of_nat i) = pre ++ show (Z.of_nat j) → i = j.
Proof.
  destruct (show_index i) as [-> Hi], (show_index j) as [-> Hj].
  intros E%app_inv_head. rewrite E in Hi. rewrite Hi in Hj. injection Hj. lia.
Qed.

Lemma domains_id_word i : is_word (domains_id i).
Proof. apply index_word. split; [done|]. by repeat constructor. Qed.
Lemma key_id_word i : is_word (key_id i).
Proof. apply index_word. split; [done|]. by repeat constructor. Qed.
Lemma pin_id_word i : is_word (pin_id i).
Proof. apply index_word. split; [done|]. by repeat constructor. Qed.
#[local] Hint Resolve domains_id_word key_id_word pin_id_word : proxy.

Definition byte_tokens (b : ascii) : list Token := [TWord ("0x" ++ hex_byte b); TPunct ","].

Lemma lexes_byte b : lexes ("0x" ++ hex_byte b ++ ",") (byte_tokens b).
Proof. destruct b as [[] [] [] [] [] [] [] []]; vm_compute; reflexivity. Qed.

Lemma concat_slices {A} fuel n (l : list A) :
  (0 < n)%nat → (length l ≤ fuel)%nat → concat (slices fuel n l) = l.
Proof.
  intros Hn. revert l. induction fuel as [|fuel IH]; intros [|a l] Hl; cbn in *; try done; [lia|].
  destruct n as [|n]; [lia|]. rewrite IH; [|rewrite length_drop; cbn; lia].
  exact (take_drop (S n) (a :: l)).
Qed.

Lemma lexes_bytes_line part :
  lexes ("    " ++ join " " (map (λ b, "0x" ++ hex_byte b ++ ",") part)) (part ≫= byte_tokens).
Proof.
  apply lexes_after; [done|].
  assert (part ≫= byte_tokens = concat (map byte_tokens part)) as ->;
    [by induction part as [|b part IH]; cbn; rewrite ?IH|].
  apply lexes_join; [done|]. apply Forall2_fmap, Forall_Forall2_diag, Forall_true, lexes_byte.
Qed.

Lemma lexes_c_bytes raw : lexes (c_bytes raw) (raw ≫= byte_tokens).
Proof.
  assert (raw ≫= byte_tokens =
    concat (map (λ part, part ≫= byte_tokens) (slices (length raw) 12 raw))) as ->.
  { rewrite <-(concat_slices (length raw) 12 raw) at 1 by lia.
    induction (slices _ _ _) as [|part parts IH]; [done|]. cbn. by rewrite bind_app, IH. }
  apply lexes_join; [done|].
  apply Forall2_fmap, Forall_Forall2_diag, Forall_true, lexes_bytes_line.
Qed.

(** ** Lines *)

Definition lines (ls : list str) : str := ls ≫= (λ l, l ++ [LF]).

Lemma join_lines ls l : join [LF] (ls ++ [l]) = lines ls ++ l.
Proof.
  induction ls as [|l' ls IH]; [done|]. unfold lines in *. cbn [mbind list_bind].
  rewrite <-!app_assoc, <-IH. by destruct ls.
Qed.

Lemma lexes_line l ts : lexes l ts → lexes (l ++ [LF]) ts.
Proof. intros Hl. rewrite <-(app_nil_r ts). by apply lexes_app. Qed.

(** Text made piece by piece reads as its pieces do, up to the first that does not. *)
Lemma lexes_or_fails {A} (f : A → str) (g : A → list Token) (bad : A → Prop)
    `{!∀ x, Decision (bad x)} l :
  (∀ x, x ∈ l → ¬ bad x → lexes (f x) (g x)) → (∀ x, x ∈ l → bad x → fails (f x)) →
  (Forall (λ x, ¬ bad x) l → lexes (l ≫= f) (l ≫= g)) ∧ (Exists bad l → fails (l ≫= f)).
Proof.
  intros Hg Hb. split.
  - intros Hf. apply lexes_bind. rewrite Forall_forall in *. auto.
  - induction l as [|x l IH]; intros He; [by apply Exists_nil in He|]. cbn.
    destruct (decide (bad x)) as [Hx|Hx].
    + apply run_fails_app, Hb; [left|done].
    + eapply fails_after; [apply Hg; [left|done]|]. apply IH.
      * intros y Hy. apply Hg. by right.
      * intros y Hy. apply Hb. by right.
      * by apply Exists_cons in He as [|].
Qed.

(** What the checks let through: the characters of names and hosts, and a newline. *)
Definition nameish (s : str) : Prop := Forall (λ a, is_name_char a = true ∨ a = LF) s.

Lemma nameish_clean s : nameish s → LF ∉ s → Forall (λ a, is_name_char a = true) s.
Proof.
  unfold nameish. rewrite !Forall_forall. intros Hs Hl a Ha.
  destruct (Hs a Ha) as [?| ->]; done.
Qed.

Lemma nameish_quote s : nameish s → DQUOTE ∉ s.
Proof. unfold nameish. rewrite Forall_forall. intros Hs Hq. by destruct (Hs _ Hq). Qed.

Lemma dollar_nameish re s :
  (∀ t, re t = true → Forall (λ a, is_name_char a = true) t) → dollar re s = true → nameish s.
Proof.
  intros Hre. unfold dollar, nameish. intros [Hs|Hs]%orb_prop.
  - eapply Forall_impl; [by apply Hre|]. by left.
  - destruct (reverse s) as [|a r] eqn:E; [done|]. apply andb_prop in Hs as [Ha Hs].
    apply bool_decide_eq_true in Ha as ->.
    rewrite <-(reverse_involutive s), E, reverse_cons. apply Forall_app. split.
    + eapply Forall_impl; [by apply Hre|]. by left.
    + apply Forall_singleton. by right.
Qed.

Lemma forallb_each {A} (f : A → bool) l : forallb f l = true → Forall (λ a, f a = true) l.
Proof. induction l; cbn; [done|]. intros [? ?]%andb_prop. constructor; auto. Qed.

Lemma name_re_chars s : name_re s = true → Forall (λ a, is_name_char a = true) s.
Proof.
  destruct s as [|a s]; [done|]. cbn. intros [Ha Hs]%andb_prop. constructor.
  - unfold is_name_char. by rewrite Ha.
  - by apply forallb_each.
Qed.

Lemma host_re_chars s : host_re s = true → Forall (λ a, is_name_char a = true) s.
Proof.
  unfold host_re. intros Hs. rewrite <-(join_split_on "." s). revert Hs.
  assert (∀ l, label_re l = true → Forall (λ a, is_name_char a = true) l) as Hl.
  { intros l Hl. unfold label_re in Hl. destruct l as [|a l]; [done|].
    apply andb_prop in Hl as [_ Hl]. apply forallb_each in Hl.
    eapply Forall_impl; [exact Hl|]. cbn. intros c Hc.
    unfold is_name_char, is_alnum. apply orb_prop in Hc as [->| ->%bool_decide_eq_true]; done. }
  induction (split_on "." s) as [|l ls IH]; [done|]. cbn. intros [? ?]%andb_prop.
  destruct ls; [by apply Hl|]. apply Forall_app. split; [by apply Hl|]. constructor; [done|by apply IH].
Qed.

(** ** Entries *)

Fixpoint numbered {A} (i : nat) (l : list A) : list (nat * A) :=
  match l with [] => [] | x :: l => (i, x) :: numbered (S i) l end.

Lemma imap_numbered {A B} (f : nat → A → B) k l :
  imap (λ i, f (k + i)%nat) l = map (λ p, f p.1 p.2) (numbered k l).
Proof.
  revert k. induction l as [|x l IH]; intros k; [done|]. cbn. rewrite Nat.add_0_r. f_equal.
  rewrite <-IH. apply imap_ext. intros i y _. cbn. f_equal. lia.
Qed.

Lemma numbered_in {A} k (l : list A) p : p ∈ numbered k l → p.2 ∈ l.
Proof.
  revert k. induction l as [|x l IH]; intros k; cbn; [by intros ?%not_elem_of_nil|].
  intros [->|Hp]%elem_of_cons; [left|right; by eapply IH].
Qed.

Lemma lines_app a b : lines (a ++ b) = lines a ++ lines b.
Proof. apply bind_app. Qed.

Lemma lines_concat {A} (f : A → list str) l : lines (concat (map f l)) = l ≫= (λ x, lines (f x)).
Proof. induction l as [|x l IH]; [done|]. cbn. by rewrite lines_app, IH. Qed.

Lemma lines_map {A} (f : A → str) l : lines (map f l) = l ≫= (λ x, f x ++ [LF]).
Proof. induction l as [|x l IH]; [done|]. cbn. by f_equal. Qed.

(** The text as its pieces. *)
Lemma table_text_pieces t :
  table_text t =
    lines (take 3 (emit_table t))
    ++ (numbered 0 t ≫= λ p, lines (entry_decls p.1 p.2))
    ++ (("static const DenProxyEntry kDenProxies[] = {" : str) ++ [LF])
    ++ (numbered 0 t ≫= λ p, entry_row p.1 p.2 ++ [LF])
    ++ lines ["  {nullptr, nullptr, nullptr, 0, nullptr}," : str; "};" : str]
    ++ END_.
Proof.
  unfold table_text, emit_table.
  rewrite (imap_numbered entry_decls 0 t : imap entry_decls t = _).
  rewrite (imap_numbered entry_row 0 t : imap entry_row t = _).
  set (head := [START; _; _]). change (take 3 (head ++ _)) with head.
  set (tail := ["  {nullptr, nullptr, nullptr, 0, nullptr}," : str; "};" : str]).
  change (["  {nullptr, nullptr, nullptr, 0, nullptr}," : str; "};" : str; END_]) with (tail ++ [END_]).
  rewrite !app_assoc, join_lines, !lines_app, lines_concat, lines_map, <-!app_assoc.
  do 2 f_equal.
Qed.

(** A hostname or a name that is one line, as C needs it. *)
Definition split_domains (e : DenProxyEntry) : Prop := Exists (λ d, LF ∈ d) (mDomains e).

Definition domain_tokens (d : str) : list Token := [TStr d; TPunct ","].
Definition pin_word (i : nat) (e : DenProxyEntry) : str :=
  match mSpkiPin e with Some _ => pin_id i | None => "nullptr" end.

Definition array_tokens (w : str) (size : list Token) (raw : str) : list Token :=
  toks "static const uint8_t" ++ [TWord w] ++ size ++ (raw ≫= byte_tokens) ++ toks "};".

Definition decl_tokens (p : nat * DenProxyEntry) : list Token :=
  (toks "static const char* const" ++ [TWord (domains_id p.1)] ++ toks "[] = {")
  ++ (mDomains p.2 ≫= domain_tokens) ++ toks "nullptr };"
  ++ array_tokens (key_id p.1) (toks "[] = {") (mAttestKey p.2)
  ++ match mSpkiPin p.2 with
     | Some pin => array_tokens (pin_id p.1) (toks "[32] = {") pin
     | None => []
     end.

Definition row_tokens (p : nat * DenProxyEntry) : list Token :=
  (toks "{" ++ [TStr (mName p.2)]) ++ toks ","
  ++ (TWord (domains_id p.1) :: toks ",") ++ (TWord (key_id p.1) :: toks ", static_cast<uint32_t>(sizeof(")
  ++ (TWord (key_id p.1) :: toks ")),") ++ (TWord (pin_word p.1 p.2) :: toks "},").

Lemma lexes_domain d :
  Forall (λ a, is_name_char a = true) d → lexes (("    " ++ quoted d ++ ",") ++ [LF]) (domain_tokens d).
Proof.
  intros Hd. apply lexes_line, lexes_after; [done|].
  by apply (lexes_app _ _ [TStr d]); [apply lexes_quoted|].
Qed.

Lemma domain_fails d : nameish d → LF ∈ d → fails (("    " ++ quoted d ++ ",") ++ [LF]).
Proof.
  intros Hd Hl. rewrite <-!app_assoc. eapply fails_after; [done|].
  apply quoted_fails; [by apply nameish_quote|done].
Qed.

(** The declaration of a byte array. *)
Lemma lexes_array (size : str) ts w raw :
  is_word w → (∀ v, lex_run (Word v) (size ++ [LF]) = Some (TWord v :: ts, Between)) →
  lexes (lines ["static const uint8_t " ++ w ++ size; c_bytes raw; "};" : str])
    (array_tokens w ts raw).
Proof.
  intros Hw Ht.
  assert (lines ["static const uint8_t " ++ w ++ size; c_bytes raw; "};" : str] =
    ("static const uint8_t " : str) ++ (w ++ (size ++ [LF])) ++ (c_bytes raw ++ [LF])
    ++ (("};" : str) ++ [LF])) as -> by (unfold lines; cbn; by rewrite <-!app_assoc).
  apply lexes_app; [done|]. apply (lexes_app _ _ (TWord w :: ts)); [by apply lexes_word|].
  apply lexes_app; [apply lexes_line, lexes_c_bytes|done].
Qed.

Lemma lexes_entry_decls i e :
  Forall nameish (mDomains e) →
  (¬ split_domains e → lexes (lines (entry_decls i e)) (decl_tokens (i, e))) ∧
  (split_domains e → fails (lines (entry_decls i e))).
Proof.
  intros Hn. destruct (lexes_or_fails (λ d, ("    " ++ quoted d ++ ",") ++ [LF]) domain_tokens
    (λ d, LF ∈ d) (mDomains e)) as [Hok Hbad].
  { rewrite Forall_forall in Hn. intros d Hd Hl. apply lexes_domain, nameish_clean; auto. }
  { rewrite Forall_forall in Hn. intros d Hd Hl. apply domain_fails; auto. }
  assert (lexes (lines ["static const char* const " ++ domains_id i ++ "[] = {"])
    (toks "static const char* const" ++ [TWord (domains_id i)] ++ toks "[] = {")) as Hhead.
  { unfold lines. cbn [mbind list_bind]. rewrite app_nil_r, <-app_assoc. apply lexes_app; [done|].
    rewrite <-app_assoc. apply lexes_word; [apply domains_id_word|done]. }
  unfold entry_decls.
  change (["    nullptr" : str; "};" : str; "static const uint8_t " ++ key_id i ++ "[] = {";
           c_bytes (mAttestKey e); "};" : str])
    with (["    nullptr" : str; "};" : str]
          ++ ["static const uint8_t " ++ key_id i ++ "[] = {"; c_bytes (mAttestKey e); "};" : str]).
  rewrite !lines_app, lines_map, <-!app_assoc. split.
  - intros Hs%Forall_Exists_neg. apply lexes_app; [exact Hhead|].
    apply lexes_app; [by apply Hok|]. apply lexes_app; [done|].
    apply lexes_app; [apply lexes_array; [apply key_id_word|done]|]. cbn [snd].
    destruct (mSpkiPin e); [|done]. apply lexes_array; [apply pin_id_word|done].
  - intros Hs. eapply fails_after; [exact Hhead|]. apply run_fails_app. by apply Hbad.
Qed.

Lemma pin_word_word i e : is_word (pin_word i e).
Proof.
  unfold pin_word. destruct (mSpkiPin e); [apply pin_id_word|]. split; [done|]. by repeat constructor.
Qed.

Lemma lexes_entry_row i e :
  nameish (mName e) →
  (LF ∉ mName e → lexes (entry_row i e ++ [LF]) (row_tokens (i, e))) ∧
  (LF ∈ mName e → fails (entry_row i e ++ [LF])).
Proof.
  intros Hn.
  assert (entry_row i e ++ [LF] = ("  {" : str) ++ quoted (mName e) ++ (", " : str)
    ++ (domains_id i ++ ", ") ++ (key_id i ++ ", static_cast<uint32_t>(sizeof(")
    ++ (key_id i ++ ")), ") ++ (pin_word i e ++ "}," ++ [LF])) as ->
    by (unfold entry_row; by rewrite <-!app_assoc).
  split; intros Hl.
  - unfold row_tokens. rewrite <-(app_assoc (toks "{")). cbn [fst snd]. apply lexes_app; [done|].
    apply lexes_app; [by apply lexes_quoted, nameish_clean|]. apply lexes_app; [done|].
    repeat (apply lexes_app; [apply lexes_word; [apply domains_id_word || apply key_id_word|done]|]).
    apply lexes_word; [apply pin_word_word|done].
  - eapply fails_after; [done|]. by apply quoted_fails; [apply nameish_quote|].
Qed.

(** A table that C's literals can hold: no name or hostname goes over a line. *)
Definition one_line (e : DenProxyEntry) : bool :=
  bool_decide (LF ∉ mName e) && bool_decide (Forall (λ d, LF ∉ d) (mDomains e)).

Definition table_tokens (t : list DenProxyEntry) : list Token :=
  (numbered 0 t ≫= decl_tokens) ++ toks "static const DenProxyEntry kDenProxies[] = {"
  ++ (numbered 0 t ≫= row_tokens) ++ toks "{nullptr, nullptr, nullptr, 0, nullptr}, };".

Lemma one_line_numbered k t :
  let entries := numbered k t in
  if forallb one_line t
  then Forall (λ p, ¬ split_domains p.2) entries ∧ Forall (λ p, ¬ LF ∈ mName p.2) entries
  else Exists (λ p, split_domains p.2) entries ∨ Exists (λ p, LF ∈ mName p.2) entries.
Proof.
  revert k. induction t as [|e t IH]; intros k; cbn; [by split|]. specialize (IH (S k)). cbn in IH.
  unfold one_line at 1. destruct (decide (LF ∈ mName e)) as [Hn|Hn].
  { rewrite bool_decide_eq_false_2 by tauto. right. by left. }
  rewrite bool_decide_eq_true_2 by done. destruct (decide (split_domains e)) as [Hd|Hd].
  { rewrite bool_decide_eq_false_2; [left; by left|]. intros Hf. by apply Forall_Exists_neg in Hf. }
  rewrite bool_decide_eq_true_2 by (by apply Forall_Exists_neg). cbn.
  destruct (forallb one_line t); [destruct IH; split; by constructor|].
  destruct IH; [left|right]; by right.
Qed.

Lemma lex_table t :
  Forall (λ e, nameish (mName e) ∧ Forall nameish (mDomains e)) t →
  lex (table_text t) = if forallb one_line t then Some (table_tokens t) else None.
Proof.
  intros Ht. rewrite table_text_pieces. rewrite Forall_forall in Ht.
  destruct (lexes_or_fails (λ p, lines (entry_decls p.1 p.2)) decl_tokens
    (λ p : nat * DenProxyEntry, split_domains p.2) (numbered 0 t)) as [Hdok Hdbad].
  { intros [i e] Hp%numbered_in Hs. by apply lexes_entry_decls; [apply (Ht e)|]. }
  { intros [i e] Hp%numbered_in Hs. by apply lexes_entry_decls; [apply (Ht e)|]. }
  destruct (lexes_or_fails (λ p, entry_row p.1 p.2 ++ [LF]) row_tokens
    (λ p : nat * DenProxyEntry, LF ∈ mName p.2) (numbered 0 t)) as [Hrok Hrbad].
  { intros [i e] Hp%numbered_in Hs. by apply lexes_entry_row; [apply (Ht e)|]. }
  { intros [i e] Hp%numbered_in Hs. by apply lexes_entry_row; [apply (Ht e)|]. }
  set (top := lines (take 3 _)). assert (lexes top []) as Htop by (vm_compute; reflexivity).
  set (bottom := lines ["  {nullptr, nullptr, nullptr, 0, nullptr}," : str; "};" : str]).
  pose proof (one_line_numbered 0 t) as Hall. cbv zeta in Hall.
  destruct (forallb one_line t).
  - destruct Hall as [Hd Hn].
    assert (lexes (top ++ (numbered 0 t ≫= λ p, lines (entry_decls p.1 p.2))
      ++ (("static const DenProxyEntry kDenProxies[] = {" : str) ++ [LF])
      ++ (numbered 0 t ≫= λ p, entry_row p.1 p.2 ++ [LF]) ++ bottom) (table_tokens t)) as Hlex.
    { apply lexes_after; [done|]. unfold table_tokens.
      apply lexes_app; [by apply Hdok|]. apply lexes_app; [done|]. by apply lexes_app; [apply Hrok|]. }
    unfold lex. rewrite !app_assoc, lex_run_app, <-!app_assoc, Hlex. cbn [mbind option_bind].
    change (lex_run Between END_) with (Some ([] : list Token, Comment)). cbn. by rewrite app_nil_r.
  - unfold lex. cut (fails (top ++ (numbered 0 t ≫= λ p, lines (entry_decls p.1 p.2))
      ++ (("static const DenProxyEntry kDenProxies[] = {" : str) ++ [LF])
      ++ (numbered 0 t ≫= λ p, entry_row p.1 p.2 ++ [LF]) ++ bottom ++ END_)); [by intros ->|].
    eapply fails_after; [exact Htop|].
    destruct (decide (Exists (λ p : nat * DenProxyEntry, split_domains p.2) (numbered 0 t))) as [Hd|Hd];
      [by apply run_fails_app, Hdbad|].
    destruct Hall as [?|Hn]; [done|]. eapply fails_after; [by apply Hdok, Forall_Exists_neg|].
    eapply fails_after; [done|]. by apply run_fails_app, Hrbad.
Qed.

(** ** Reading declarations *)

Lemma expect_app p ts : expect p (p ++ ts) = Some ts.
Proof. induction p as [|a p IH]; [by destruct ts|]. cbn. by rewrite decide_True. Qed.

(** The next token or fixed text is the one the reader asks for. *)
Ltac read_next := rewrite expect_app; cbn [mbind option_bind next_word next_string app].

Lemma read_strings_app ds ts :
  read_strings ((ds ≫= domain_tokens) ++ toks "nullptr };" ++ ts) = Some (ds, ts).
Proof.
  induction ds as [|d ds IH]; [done|]. rewrite bind_cons, <-app_assoc.
  cbn [domain_tokens app read_strings]. rewrite decide_True by done. by rewrite IH.
Qed.

Lemma c_byte_hex b : c_byte ("0x" ++ hex_byte b) = Some b.
Proof.
  change (c_byte ("0x" ++ hex_byte b))
    with (match parse_hex_pair (hex_byte b) with Ok b => Some b | Err _ => None end).
  by rewrite parse_hex_pair_hex_byte.
Qed.

Lemma read_bytes_app raw ts :
  read_bytes ((raw ≫= byte_tokens) ++ toks "};" ++ ts) = Some (raw, ts).
Proof.
  induction raw as [|b raw IH]; [done|]. rewrite bind_cons, <-app_assoc.
  cbn [byte_tokens app read_bytes]. rewrite decide_True by done.
  rewrite c_byte_hex. cbn [mbind option_bind]. by rewrite IH.
Qed.

(** The names of the arrays. *)
Inductive Kind := KDomains | KKey | KPin.
Definition ident (c : Kind) : nat → str :=
  match c with KDomains => domains_id | KKey => key_id | KPin => pin_id end.

Lemma ident_inj c i c' j : ident c i = ident c' j → c = c' ∧ i = j.
Proof.
  destruct c, c'; intros E; try discriminate E; (split; [done|]); revert E;
    [apply (index_inj "kDenProxyDomains_")|apply (index_inj "kDenProxyKey_")
    |apply (index_inj "kDenProxyPin_")].
Qed.

(** The arrays of entry [i]. *)
Definition add_entry (env : gmap str CData) (p : nat * DenProxyEntry) : gmap str CData :=
  let env := <[key_id p.1 := Bytes (mAttestKey p.2)]>
               (<[domains_id p.1 := Strings (mDomains p.2)]> env) in
  match mSpkiPin p.2 with Some pin => <[pin_id p.1 := Bytes pin]> env | None => env end.

Lemma add_entry_other env p c j : j ≠ p.1 → add_entry env p !! ident c j = env !! ident c j.
Proof.
  intros Hj. unfold add_entry.
  assert (∀ c', ident c' p.1 ≠ ident c j) as Hne by (intros c' [_ E]%ident_inj; by apply Hj).
  destruct (mSpkiPin p.2); rewrite ?(lookup_insert_ne _ (pin_id p.1)) by exact (Hne KPin);
    rewrite (lookup_insert_ne _ (key_id p.1)) by exact (Hne KKey);
    by rewrite (lookup_insert_ne _ (domains_id p.1)) by exact (Hne KDomains).
Qed.

(** What the rows of an entry need of the arrays. *)
Record arrays_of (env : gmap str CData) (i : nat) (e : DenProxyEntry) : Prop := {
  ao_domains : env !! domains_id i = Some (Strings (mDomains e));
  ao_key : env !! key_id i = Some (Bytes (mAttestKey e));
  ao_pin pin : mSpkiPin e = Some pin → env !! pin_id i = Some (Bytes pin) }.

Lemma add_entry_arrays env i e : arrays_of (add_entry env (i, e)) i e.
Proof.
  unfold add_entry. cbn [fst snd].
  assert (∀ c c', c ≠ c' → ident c i ≠ ident c' i) as Hne by (intros c c' Hc [? _]%ident_inj; done).
  split; destruct (mSpkiPin e) as [pin|]; try done.
  all: rewrite ?(lookup_insert_ne _ (pin_id i)) by (by apply (Hne KPin KDomains) || by apply (Hne KPin KKey)).
  all: rewrite ?(lookup_insert_ne _ (key_id i) (domains_id i)) by (by apply (Hne KKey KDomains)).
  all: by intros; simplify_eq; rewrite ?lookup_insert_eq.
Qed.

Lemma declare_fresh n v env : env !! n = None → declare n v env = Some (<[n := v]> env).
Proof. unfold declare. by intros ->. Qed.

Lemma read_array f env w size n raw ts :
  (∀ r, array_size (size ++ r) = Some (n, r)) → sized n raw = Some raw → env !! w = None →
  read_decls (S f) env (array_tokens w size raw ++ ts) = read_decls f (<[w := Bytes raw]> env) ts.
Proof.
  intros Hsize Hn Hw. unfold array_tokens. rewrite <-!app_assoc.
  cbn [read_decls]. rewrite expect_app.
  change (expect (toks "static const char* const") (toks "static const uint8_t" ++ _))
    with (@None (list Token)).
  cbn [mbind option_bind next_word app]. rewrite Hsize. cbn [mbind option_bind].
  rewrite read_bytes_app. cbn [mbind option_bind]. rewrite Hn. cbn [mbind option_bind].
  by rewrite declare_fresh.
Qed.

Lemma read_strings_array f env w l ts :
  env !! w = None →
  read_decls (S f) env
    (toks "static const char* const" ++ [TWord w] ++ toks "[] = {"
     ++ (l ≫= domain_tokens) ++ toks "nullptr };" ++ ts)
  = read_decls f (<[w := Strings l]> env) ts.
Proof.
  intros Hw. cbn [read_decls]. do 2 read_next. rewrite read_strings_app. cbn [mbind option_bind]. by rewrite declare_fresh.
Qed.

(** What the generator checks that the reading needs: pins of 32 bytes, and keys
    whose size is a [uint32_t]. *)
Definition sizes_ok (e : DenProxyEntry) : Prop :=
  (∀ pin, mSpkiPin e = Some pin → length pin = 32%nat) ∧ Z.of_nat (length (mAttestKey e)) < 2 ^ 32.

Lemma read_entry F f env i e ts :
  sizes_ok e → (∀ c, env !! ident c i = None) → (3 + f ≤ F)%nat →
  ∃ f', (f ≤ f')%nat ∧
    read_decls F env (decl_tokens (i, e) ++ ts) = read_decls f' (add_entry env (i, e)) ts.
Proof.
  intros [Hpin _] Hfresh HF. unfold decl_tokens, add_entry. cbn [fst snd].
  assert (∀ c c', c ≠ c' → ident c i ≠ ident c' i) as Hne by (intros c c' Hc [? _]%ident_inj; done).
  destruct F as [|[|[|F]]]; [lia..|].
  rewrite <-!app_assoc.
  rewrite read_strings_array by exact (Hfresh KDomains).
  rewrite (read_array _ _ _ _ None) by
    (done || (rewrite lookup_insert_ne by exact (Hne KDomains KKey ltac:(done)); exact (Hfresh KKey))).
  destruct (mSpkiPin e) as [pin|]; [|by exists (S F); split; [lia|]].
  exists F. split; [lia|]. rewrite (read_array _ _ _ _ (Some 32%nat)); [done|done|..].
  - unfold sized. rewrite (Hpin pin eq_refl). cbn. by rewrite app_nil_r.
  - rewrite lookup_insert_ne by exact (Hne KKey KPin ltac:(done)).
    rewrite lookup_insert_ne by exact (Hne KDomains KPin ltac:(done)). exact (Hfresh KPin).
Qed.

Lemma arrays_of_same env env' i e :
  (∀ c, env' !! ident c i = env !! ident c i) → arrays_of env i e → arrays_of env' i e.
Proof.
  intros Hs [Hd Hk Hp]. split;
    [etrans; [exact (Hs KDomains)|exact Hd]|etrans; [exact (Hs KKey)|exact Hk]|].
  intros pin Hpin. etrans; [exact (Hs KPin)|by apply Hp].
Qed.

Lemma read_entries F f k t env ts :
  Forall sizes_ok t → (∀ c j, (k ≤ j)%nat → env !! ident c j = None) →
  (3 * length t + f ≤ F)%nat →
  ∃ f' env', (f ≤ f')%nat ∧
    read_decls F env ((numbered k t ≫= decl_tokens) ++ ts) = read_decls f' env' ts ∧
    (∀ j e, t !! j = Some e → arrays_of env' (k + j) e) ∧
    (∀ c j, (j < k)%nat → env' !! ident c j = env !! ident c j).
Proof.
  intros Ht. revert F k env. induction Ht as [|e t He Ht IH]; intros F k env Hfresh HF.
  { exists F, env. by split_and!. }
  cbn [numbered length] in *. rewrite bind_cons, <-app_assoc.
  destruct (read_entry F (3 * length t + f) env k e ((numbered (S k) t ≫= decl_tokens) ++ ts) He)
    as (f1 & Hf1 & ->); [auto|lia|].
  destruct (IH f1 (S k) (add_entry env (k, e))) as (f2 & env' & Hf2 & -> & Harr & Hold);
    [intros c j Hj; rewrite add_entry_other by (cbn; lia); apply Hfresh; lia|done|].
  exists f2, env'. split; [done|]. split; [done|]. split.
  - intros [|j] e' Hj.
    + injection Hj as <-. rewrite Nat.add_0_r. eapply arrays_of_same, add_entry_arrays.
      intros c. apply Hold. lia.
    + rewrite <-Nat.add_succ_comm. by apply Harr.
  - intros c j Hj. rewrite Hold by lia. apply add_entry_other. cbn. lia.
Qed.

Lemma read_row_app env i e ts :
  arrays_of env i e → sizes_ok e → read_row env (row_tokens (i, e) ++ ts) = Some (e, ts).
Proof.
  intros [Hd Hk Hp] [_ Hlen]. unfold row_tokens, read_row. cbn [fst snd]. rewrite <-!app_assoc.
  read_next.
  do 5 read_next. unfold strings_of, bytes_of. rewrite Hd, Hk. cbn [mbind option_bind].
  unfold pin_word. rewrite Z.mod_small by lia. rewrite Nat2Z.id, Nat.ltb_irrefl, firstn_all.
  destruct e as [name ds key [pin|]]; cbn in *; [|done].
  rewrite decide_False by done. by rewrite (Hp pin eq_refl).
Qed.

Lemma read_rows_app F env k t ts :
  Forall sizes_ok t → (∀ j e, t !! j = Some e → arrays_of env (k + j) e) → (length t < F)%nat →
  read_rows F env ((numbered k t ≫= row_tokens)
                   ++ toks "{nullptr, nullptr, nullptr, 0, nullptr}, };" ++ ts) = Some (t, ts).
Proof.
  intros Ht. revert F k. induction Ht as [|e t He Ht IH]; intros F k Harr HF.
  - destruct F as [|F]; [cbn in HF; lia|]. cbn [numbered mbind list_bind app read_rows].
    by rewrite expect_app.
  - destruct F as [|F]; [cbn in HF; lia|]. cbn [numbered]. rewrite bind_cons, <-app_assoc.
    cbn [read_rows].
    rewrite read_row_app; [|rewrite <-(Nat.add_0_r k); by apply Harr|done].
    assert (∀ r, expect (toks "{nullptr, nullptr, nullptr, 0, nullptr}, };") (row_tokens (k, e) ++ r)
                 = None) as -> by done.
    cbn [mbind option_bind]. rewrite (IH F (S k)); [done| |cbn in HF; lia].
    intros j e' Hj. rewrite Nat.add_succ_comm. by apply Harr.
Qed.

Lemma numbered_tokens {A} (f : nat * A → list Token) k l n :
  (∀ p, n ≤ length (f p))%nat → (n * length l ≤ length (numbered k l ≫= f))%nat.
Proof.
  intros Hf. revert k. induction l as [|x l IH]; intros k; cbn [numbered length]; [cbn; lia|].
  rewrite bind_cons, length_app. specialize (Hf (k, x)). specialize (IH (S k)). lia.
Qed.

(** A block that lexes reads back as the table it was written from. *)
Lemma read_table t :
  Forall sizes_ok t → read_decls (length (table_tokens t)) ∅ (table_tokens t) = Some t.
Proof.
  intros Ht. unfold table_tokens at 2.
  destruct (read_entries (length (table_tokens t)) (S (length t)) 0 t ∅
              (toks "static const DenProxyEntry kDenProxies[] = {"
               ++ (numbered 0 t ≫= row_tokens)
               ++ toks "{nullptr, nullptr, nullptr, 0, nullptr}, };"))
    as (F & env & HF & -> & Harr & _); [done| | |].
  - intros c j _. apply lookup_empty.
  - unfold table_tokens. rewrite !length_app.
    assert (∀ p, 4 ≤ length (decl_tokens p))%nat as Hd.
    { intros p. unfold decl_tokens. rewrite !length_app.
      change (length (toks "static const char* const")) with 5%nat. lia. }
    pose proof (numbered_tokens decl_tokens 0 t 4 Hd).
    change (length (toks "static const DenProxyEntry kDenProxies[] = {")) with 8%nat. lia.
  - destruct F as [|F]; [lia|]. cbn [read_decls].
    assert (∀ p r, p ∈ [toks "static const char* const"; toks "static const uint8_t"] →
      expect p (toks "static const DenProxyEntry kDenProxies[] = {" ++ r) = None) as Hno
      by (intros p r [->|[->|[]%elem_of_nil]%elem_of_cons]%elem_of_cons; done).
    rewrite !Hno by (rewrite !elem_of_cons; auto). rewrite expect_app. cbn [mbind option_bind].
    rewrite <-(app_nil_r (toks "{nullptr, nullptr, nullptr, 0, nullptr}, };")).
    rewrite (read_rows_app (S F) env 0 t); [done|done|done|lia].
Qed.

(** ** The characters written *)

(** ASCII without carriage returns. *)
Definition tame_char (a : ascii) : bool := (code a <? 128) && negb (bool_decide (a = CR)).
Definition tame (s : str) : Prop := Forall (λ a, tame_char a = true) s.

Lemma tame_app s r : tame s → tame r → tame (s ++ r).
Proof. intros. by apply Forall_app. Qed.

Lemma tame_const s : forallb tame_char s = true → tame s.
Proof. apply forallb_each. Qed.

Lemma name_char_tame a : is_name_char a = true → tame_char a = true.
Proof. destruct a as [[] [] [] [] [] [] [] []]; vm_compute; done. Qed.
Lemma word_char_tame a : is_word_char a = true → tame_char a = true.
Proof. destruct a as [[] [] [] [] [] [] [] []]; vm_compute; done. Qed.

Lemma tame_word w : is_word w → tame w.
Proof. intros [_ Hw]. eapply Forall_impl; [exact Hw|]. apply word_char_tame. Qed.

Lemma tame_quoted s : nameish s → tame (quoted s).
Proof.
  intros Hs. apply (tame_app [DQUOTE]); [by apply tame_const|]. apply tame_app; [|by apply tame_const].
  eapply Forall_impl; [exact Hs|]. intros a [?| ->]; [by apply name_char_tame|done].
Qed.

Lemma tame_bind {A} (f : A → str) l : (∀ x, x ∈ l → tame (f x)) → tame (l ≫= f).
Proof.
  induction l as [|x l IH]; intros Hf; [constructor|]. rewrite bind_cons. apply tame_app.
  - apply Hf. left.
  - apply IH. intros y Hy. apply Hf. by right.
Qed.

Lemma tame_join sep ls : tame sep → Forall tame ls → tame (join sep ls).
Proof.
  intros Hsep. induction 1 as [|l ls Hl _ IH]; [constructor|].
  destruct ls; [done|]. by apply tame_app, tame_app.
Qed.

Lemma tame_c_bytes raw : tame (c_bytes raw).
Proof.
  apply tame_join; [by apply tame_const|]. apply Forall_fmap, Forall_true. intros part. cbn.
  apply (tame_app "    "); [by apply tame_const|]. apply tame_join; [by apply tame_const|].
  apply Forall_fmap, Forall_true. intros b. apply tame_const.
  destruct b as [[] [] [] [] [] [] [] []]; vm_compute; reflexivity.
Qed.

#[local] Hint Resolve tame_app tame_word tame_quoted tame_c_bytes pin_word_word : proxy.
#[local] Hint Extern 3 (tame _) => (apply tame_const; reflexivity) : proxy.

Lemma tame_lines ls : Forall tame ls → tame (lines ls).
Proof.
  rewrite Forall_forall. intros Hf. apply tame_bind. intros l Hl. auto with proxy.
Qed.

Lemma tame_entry i e :
  nameish (mName e) → Forall nameish (mDomains e) →
  tame (lines (entry_decls i e)) ∧ tame (entry_row i e ++ [LF]).
Proof.
  intros Hn Hd. split.
  - apply tame_lines. unfold entry_decls. repeat (apply Forall_app; split).
    + apply Forall_singleton. auto 10 with proxy.
    + apply Forall_fmap. eapply Forall_impl; [exact Hd|]. intros d Hd'. cbn beta.
      apply (tame_app "    "); auto with proxy.
    + rewrite !Forall_cons. split_and!; auto 10 with proxy.
    + destruct (mSpkiPin e); rewrite ?Forall_cons; split_and?; auto 10 with proxy.
  - apply tame_app; [|auto with proxy]. unfold entry_row. fold (pin_word i e).
    repeat (apply tame_app; [auto with proxy|]). auto with proxy.
Qed.

(** The comment after the opening sentinel, and what follows it. *)
Definition preamble : str :=
  [LF] ++ lines ["// GENERATED by build.sh (Step 2.5) from the " ++ quoted "proxies" ++ " array in";
                 "// config/site-config.json.  Do not edit here — edit the JSON, rebuild." : str].

Definition body (t : list DenProxyEntry) : str :=
  (numbered 0 t ≫= λ p, lines (entry_decls p.1 p.2))
  ++ lines ["static const DenProxyEntry kDenProxies[] = {" : str]
  ++ (numbered 0 t ≫= λ p, entry_row p.1 p.2 ++ [LF])
  ++ lines ["  {nullptr, nullptr, nullptr, 0, nullptr}," : str; "};" : str].

Lemma table_text_body t : table_text t = START ++ (preamble ++ body t) ++ END_.
Proof.
  rewrite table_text_pieces. unfold body. change (lines (take 3 (emit_table t))) with (START ++ preamble).
  change (lines ["static const DenProxyEntry kDenProxies[] = {" : str])
    with (("static const DenProxyEntry kDenProxies[] = {" : str) ++ [LF]).
  by rewrite <-!app_assoc.
Qed.

Lemma tame_body t :
  Forall (λ e, nameish (mName e) ∧ Forall nameish (mDomains e)) t → tame (body t).
Proof.
  rewrite Forall_forall. intros Ht. unfold body.
  apply tame_app; [|apply tame_app; [by apply tame_const|apply tame_app; [|by apply tame_const]]].
  all: apply tame_bind; intros [i e] Hp%numbered_in; by apply tame_entry; apply (Ht e).
Qed.

(** ** Finding the block *)

Lemma strip_text_some p s r : strip_text p s = Some r ↔ s = p ++ r.
Proof.
  revert s. induction p as [|a p IH]; intros s; cbn; [split; congruence|].
  destruct s as [|b s]; [by split|]. case_decide as Hab.
  - subst. rewrite IH. split; congruence.
  - split; [done|]. intros [= -> _]. done.
Qed.

Lemma find_text_some p s a b : find_text p s = Some (a, b) → s = a ++ p ++ b.
Proof.
  revert a. induction s as [|c s IH]; intros a; cbn.
  - destruct (strip_text p []) eqn:E; [|done]. intros [= <- <-]. by apply strip_text_some in E.
  - destruct (strip_text p (c :: s)) eqn:E; [intros [= <- <-]; by apply strip_text_some in E|].
    destruct (find_text p s) as [[a' b']|]; cbn; [|done]. intros [= <- <-]. by rewrite (IH a').
Qed.

Lemma find_text_here p r : find_text p (p ++ r) = Some ([], r).
Proof.
  assert (strip_text p (p ++ r) = Some r) as E by (by apply strip_text_some).
  destruct (p ++ r); unfold find_text; by rewrite E.
Qed.

(** Whether the text up to an occurrence holds an earlier one does not depend on
    what follows. *)
Lemma strip_text_local p u x y :
  (length p ≤ length u)%nat → strip_text p (u ++ x) = None → strip_text p (u ++ y) = None.
Proof.
  revert u. induction p as [|a p IH]; intros [|b u] Hl; cbn in *; try done; [lia|].
  case_decide; [|done]. apply IH. lia.
Qed.

Lemma find_text_other p a x y :
  find_text p (a ++ p ++ x) = Some (a, x) → find_text p (a ++ p ++ y) = Some (a, y).
Proof.
  induction a as [|c a IH]; intros Hx.
  - exact (find_text_here p y).
  - cbn [app find_text] in *.
    destruct (strip_text p (c :: a ++ p ++ x)) eqn:E; [by injection Hx|].
    assert (strip_text p (c :: a ++ p ++ y) = None) as ->.
    { change (c :: a ++ p ++ y) with ((c :: a) ++ p ++ y). rewrite app_assoc.
      apply (strip_text_local p _ x); [rewrite length_app; lia|]. by rewrite <-app_assoc. }
    destruct (find_text p (a ++ p ++ x)) as [[a' b']|] eqn:Ex; cbn in Hx; [|done].
    injection Hx as -> ->. by rewrite IH.
Qed.

(** The two texts differ within the shorter. *)
Fixpoint mismatch (p s : str) : bool :=
  match p, s with
  | a :: p, b :: s => if decide (a = b) then mismatch p s else true
  | _, _ => false
  end.

Lemma mismatch_strip p s r : mismatch p s = true → strip_text p (s ++ r) = None.
Proof.
  revert s. induction p as [|a p IH]; intros [|b s]; cbn; try done. case_decide; [apply IH|done].
Qed.

Fixpoint skips (p s : str) : bool :=
  match s with [] => true | c :: s' => mismatch p s && skips p s' end.

Lemma find_text_skip p s r a b :
  skips p s = true → find_text p r = Some (a, b) → find_text p (s ++ r) = Some (s ++ a, b).
Proof.
  intros Hs Hr. induction s as [|c s IH]; [done|]. cbn [skips] in Hs. apply andb_prop in Hs as [Hm Hs].
  cbn [app find_text]. change (c :: s ++ r) with ((c :: s) ++ r).
  rewrite (mismatch_strip _ _ r Hm). by rewrite (IH Hs).
Qed.

Lemma find_end_tame u y : tame u → find_text END_ (u ++ END_ ++ y) = Some (u, y).
Proof.
  induction 1 as [|c u Hc Hu IH]; [exact (find_text_here END_ y)|].
  cbn [app find_text]. rewrite IH.
  destruct (strip_text END_ (c :: u ++ END_ ++ y)) eqn:E; [|done]. exfalso.
  apply strip_text_some in E. unfold END_ in E. clear IH.
  destruct u as [|d [|e [|f u]]]; cbn in E; simplify_eq.
  rewrite !Forall_cons in Hu. destruct Hu as (_ & _ & Hf & _). discriminate Hf.
Qed.

Lemma find_end t y :
  Forall (λ e, nameish (mName e) ∧ Forall nameish (mDomains e)) t →
  find_text END_ ((preamble ++ body t) ++ END_ ++ y) = Some (preamble ++ body t, y).
Proof.
  intros Ht. rewrite <-app_assoc. apply find_text_skip; [vm_compute; reflexivity|].
  by apply find_end_tame, tame_body.
Qed.

(** Text without a complete block. *)
Definition blockless (s : str) : Prop :=
  ∀ a b, find_text START s = Some (a, b) → find_text END_ b = None.

Lemma replace_blockless fuel new s : blockless s → replace_blocks fuel new s = (s, 0%nat).
Proof.
  intros Hs. destruct fuel as [|fuel]; [done|]. cbn [replace_blocks].
  destruct (find_text START s) as [[a b]|] eqn:E; [|done]. by rewrite (Hs _ _ E).
Qed.

(** Exactly one block. *)
Record one_block (s before old after : str) : Prop := {
  ob_start : find_text START s = Some (before, old ++ END_ ++ after);
  ob_end : find_text END_ (old ++ END_ ++ after) = Some (old, after);
  ob_rest : blockless after }.

Lemma replace_one fuel new s before old after :
  one_block s before old after → (0 < fuel)%nat →
  replace_blocks fuel new s = (before ++ new ++ after, 1%nat).
Proof.
  intros [Hs He Hr] Hf. destruct fuel as [|fuel]; [lia|]. cbn [replace_blocks]. rewrite Hs, He.
  by rewrite replace_blockless.
Qed.

Lemma find_text_length p s a b : find_text p s = Some (a, b) → (length p ≤ length s)%nat.
Proof. intros ->%find_text_some. rewrite !length_app. lia. Qed.

Lemma replace_one_inv new s s' :
  replace_blocks (length s) new s = (s', 1%nat) →
  ∃ before old after, one_block s before old after ∧ s' = before ++ new ++ after.
Proof.
  remember (length s) as fuel eqn:Hf. destruct fuel as [|fuel]; [done|]. cbn [replace_blocks].
  destruct (find_text START s) as [[before inside]|] eqn:Hs; [|done].
  destruct (find_text END_ inside) as [[old after]|] eqn:He; [|done]. intros E.
  assert (blockless after) as Hb.
  { intros a b Ha. destruct (find_text END_ b) as [[o r]|] eqn:Hb; [|done].
    apply find_text_length in Hs. destruct fuel as [|fuel]; [cbn in Hs; lia|].
    cbn [replace_blocks] in E. rewrite Ha, Hb in E. by destruct (replace_blocks fuel new r). }
  rewrite (replace_blockless fuel new after Hb) in E. injection E as <-.
  exists before, old, after. split; [|done].
  pose proof (find_text_some _ _ _ _ He) as ->. by split.
Qed.

Lemma newlines_no_cr s : CR ∉ universal_newlines s.
Proof.
  assert (∀ n s, (length s ≤ n)%nat → CR ∉ universal_newlines s) as Hn; [|by eapply Hn].
  clear s. induction n as [|n IH]; intros [|c s] Hl; cbn in *; try (apply not_elem_of_nil); [lia|].
  case_decide as Hc.
  - apply not_elem_of_cons. split; [done|]. destruct s as [|d s]; [apply not_elem_of_nil|].
    cbn in Hl. case_decide; apply IH; cbn; lia.
  - apply not_elem_of_cons. split; [congruence|]. apply IH. lia.
Qed.

Lemma newlines_id s : CR ∉ s → universal_newlines s = s.
Proof.
  induction s as [|c s IH]; [done|]. intros [Hc Hs]%not_elem_of_cons. cbn.
  rewrite decide_False by done. by rewrite IH.
Qed.

Lemma tame_no_cr s : tame s → CR ∉ s.
Proof. unfold tame. rewrite Forall_forall. intros Hs Hc. by specialize (Hs _ Hc). Qed.

Lemma table_text_no_cr t :
  Forall (λ e, nameish (mName e) ∧ Forall nameish (mDomains e)) t → CR ∉ table_text t.
Proof.
  intros Ht. rewrite table_text_body, app_assoc, (app_assoc _ preamble), !not_elem_of_app.
  split; [split|].
  - apply (proj1 (bool_decide_eq_true _)). vm_compute. reflexivity.
  - by apply tame_no_cr, tame_body.
  - apply (proj1 (bool_decide_eq_true _)). vm_compute. reflexivity.
Qed.

Section Step.
Context `{CryptoLaws, PyOps}.
Variable root_dir : str.

Lemma entry_nameish e : entry_ok e → nameish (mName e) ∧ Forall nameish (mDomains e).
Proof.
  intros [Hn [_ Hd] _ _]. split; [by eapply dollar_nameish; [apply name_re_chars|]|].
  eapply Forall_impl; [exact Hd|]. cbn. intros d [Hh _].
  by eapply dollar_nameish; [apply host_re_chars|].
Qed.

Lemma built_nameish present config table ws :
  build_table root_dir present config = Ok (table, ws) →
  Forall (λ e, nameish (mName e) ∧ Forall nameish (mDomains e)) table.
Proof.
  intros ([Hok _] & _)%build_table_ok. eapply Forall_impl; [exact Hok|]. apply entry_nameish.
Qed.

(** The step on a file with one block. *)
Lemma step_one_block src config table ws before old after :
  build_table root_dir true config = Ok (table, ws) → table ≠ [] →
  one_block (universal_newlines src) before old after →
  proxy_table_step root_dir (Some src) config = Ok (Some (before ++ table_text table ++ after), ws).
Proof.
  intros Hb Hne Hone. unfold proxy_table_step. change (bool_decide (is_Some (Some src))) with true.
  rewrite Hb. cbn [map_err default]. destruct table as [|e table]; [done|].
  pose proof (find_text_some _ _ _ _ (ob_start _ _ _ _ Hone)) as Hs.
  rewrite (replace_one _ _ _ _ _ _ Hone); [done|].
  change (id src) with src. rewrite Hs, !length_app. cbn. lia.
Qed.

(** Its output has one block again, around the same text. *)
Lemma output_one_block s table before old after :
  Forall (λ e, nameish (mName e) ∧ Forall nameish (mDomains e)) table →
  CR ∉ s → one_block s before old after →
  one_block (universal_newlines (before ++ table_text table ++ after)) before
    (preamble ++ body table) after.
Proof.
  intros Ht Hcr [Hs He Hr]. pose proof (find_text_some _ _ _ _ Hs) as E.
  rewrite E, !not_elem_of_app in Hcr. destruct Hcr as (Hcb & _ & _ & _ & Hca).
  rewrite newlines_id by (rewrite !not_elem_of_app; auto using table_text_no_cr).
  rewrite table_text_body, <-!app_assoc. rewrite E in Hs. split; [|by apply find_end|done].
  rewrite app_assoc. rewrite <-!app_assoc. by eapply find_text_other.
Qed.

(** Claim C35. The source the step writes is the table it built, and nothing else of
    it outlives the next one. With an empty array the file stays as it is, block
    included. Otherwise the file had exactly one block, and only the block changes,
    line ends aside; a compiler reads in it exactly the table that was built, if no
    name and no hostname goes over a line, and rejects it otherwise; and a later
    step makes of the new file what it would have made of the old one, except that
    an empty array leaves this table in place. *)
Theorem generated_source_is_the_table src config src' ws :
  proxy_table_step root_dir (Some src) config = Ok (src', ws) →
  ∃ table, build_table root_dir true config = Ok (table, ws) ∧
    if is_empty table then src' = Some src
    else
      ∃ before old after,
        universal_newlines src = before ++ START ++ old ++ END_ ++ after ∧
        src' = Some (before ++ table_text table ++ after) ∧
        (Forall (λ e, Z.of_nat (length (mAttestKey e)) < 2 ^ 32) table →
         c_table (table_text table) = if forallb one_line table then Some table else None) ∧
        ∀ config' table' ws', build_table root_dir true config' = Ok (table', ws') →
          proxy_table_step root_dir src' config' =
            if is_empty table' then Ok (src', ws')
            else proxy_table_step root_dir (Some src) config'.
Proof.
  unfold proxy_table_step at 1. change (bool_decide (is_Some (Some src))) with true.
  destruct (build_table _ _ _) as [[table ws0]|] eqn:Hb; [|done]. cbn [map_err].
  destruct table as [|e0 table0]; [intros [= <- <-]; by exists []|].
  set (table := e0 :: table0) in *. change (default [] (Some src)) with src.
  set (content := universal_newlines src).
  destruct (replace_blocks _ _ content) as [new n] eqn:Er.
  destruct (n =? 1)%nat eqn:En; [|done]. apply Nat.eqb_eq in En as ->.
  intros [= <- <-]. exists table. split; [done|]. cbn [is_empty table].
  destruct (replace_one_inv _ _ _ Er) as (before & old & after & Hone & ->).
  pose proof (built_nameish _ _ _ _ Hb) as Hnames. fold table.
  exists before, old, after. split; [apply (find_text_some _ _ _ _ (ob_start _ _ _ _ Hone))|].
  split; [done|]. split.
  - intros Hk. unfold c_table. rewrite lex_table by done. destruct (forallb one_line table); [|done].
    cbn [mbind option_bind]. apply read_table. apply build_table_ok in Hb as ([Hok _] & _).
    rewrite Forall_forall in *. intros e He. split; [apply (eo_pin _ (Hok e He))|by apply Hk].
  - intros config' table' ws' Hb'. pose proof (built_nameish _ _ _ _ Hb').
    destruct table' as [|e' table']; cbn [is_empty].
    + unfold proxy_table_step. change (bool_decide (is_Some (Some _))) with true. by rewrite Hb'.
    + rewrite (step_one_block _ _ _ _ _ _ _ Hb' ltac:(done) Hone).
      eapply step_one_block; [done|done|]. eapply output_one_block; [done|apply newlines_no_cr|done].
Qed.
End Step.

(** ** Two partners, in a file with line ends of both kinds *)

Section Examples.
#[local] Existing Instances Toy.crypto Toy.laws ToyBuild.py.

Definition sample_source : str :=
  "// top" ++ [CR; LF] ++ START ++ [LF] ++ "static const DenProxyEntry kDenProxies[] = {" ++ [LF]
  ++ "  {nullptr, nullptr, nullptr, 0, nullptr}," ++ [LF] ++ "};" ++ [LF] ++ END_ ++ [LF] ++ "int x;".

Definition sample_step : result (option str * list Warning) StepError :=
  proxy_table_step "/repo" (Some sample_source) ToyBuild.config.

(** What the patch ships reads as the empty table. *)
Example shipped_table_empty : c_table (table_text []) = Some [].
Proof. vm_compute. reflexivity. Qed.

(** A name the check lets through and a compiler does not. *)
Example newline_does_not_compile :
  c_table (table_text
    [{| mName := "p" ++ [LF]; mDomains := ["a.test" : str]; mAttestKey := "0k"; mSpkiPin := None |}])
  = None.
Proof. vm_compute. reflexivity. Qed.

Example two_blocks_refused :
  proxy_table_step "/repo" (Some (sample_source ++ sample_source)) ToyBuild.config
  = Err (SentinelsNotFound 2).
Proof. vm_compute. reflexivity. Qed.

Theorem generated_source_is_the_table_witness :
  ∃ before after, sample_step = Ok (Some (before ++ table_text built_table ++ after), built_warnings) ∧
    c_table (table_text built_table) = Some built_table.
Proof.
  destruct sample_step as [[src' ws]|x] eqn:E; [|vm_compute in E; discriminate E].
  destruct (generated_source_is_the_table "/repo" sample_source ToyBuild.config src' ws E)
    as (table & Hb & Ht).
  pose proof sample_build_ok as Hs. unfold sample_build in Hs. rewrite Hs in Hb.
  injection Hb as <- <-. cbn [is_empty built_table] in Ht.
  destruct Ht as (before & old & after & _ & -> & Hread & _). exists before, after.
  split; [done|]. rewrite Hread; [reflexivity|]. repeat constructor.
Defined.
End Examples.
