(* ===== verification/BrowserPolicy.v ===== *)
(** The patched browser's other host policies, over the same matching rule: the
    site filter of patch 014 by DNS labels, and the TLS pin of patch 012 together
    with the token: a token only travels to a server that showed the pinned key
    of the very entry it is sealed for. *)

From S2P Require Import Prelude Attest AttestToken Browser BrowserFacts ProxyTable.

(** ** Labels *)

(** The name's labels, [example.com] being two. *)
Definition labels (name : str) : list str := split_on "." name.

Lemma labels_app p s : labels (p ++ "."%char :: s) = labels p ++ labels s.
Proof.
  unfold labels. revert s. induction p as [|a p IH]; intros s; cbn.
  { by rewrite decide_True. }
  destruct (decide (a = "."%char)); cbn.
  - by rewrite IH.
  - rewrite IH. pose proof (split_on_nonempty "." p).
    by destruct (split_on "." p) as [|q qs].
Qed.

Lemma labels_inj a b : labels a = labels b → a = b.
Proof. intros E%(f_equal (join ["."%char])). by rewrite !join_split_on in E. Qed.

(** The match is by whole labels: [pat]'s are the last ones of [host]. *)
Lemma ProxyHostMatch_labels host pat :
  dotless host →
  ProxyHostMatch host pat = true ↔ ∃ ls, labels host = ls ++ labels pat.
Proof.
  intros (a & r & -> & Ha). rewrite ProxyHostMatch_iff. split.
  - intros [->|(p & _ & ->)]; [by exists []|]. exists (labels p). apply labels_app.
  - intros [ls Hls]. destruct ls as [|l ls]; [left; by apply labels_inj|]. right.
    exists (join ["."%char] (l :: ls)).
    assert (Forall (λ l, "."%char ∉ l) (l :: ls)) as Hfree.
    { pose proof (split_on_free "." (a :: r)) as Hf. unfold labels in Hls. rewrite Hls in Hf.
      by apply Forall_app in Hf as [? _]. }
    assert (a :: r = join ["."%char] (l :: ls) ++ "."%char :: pat) as E.
    { apply labels_inj. rewrite labels_app, Hls. f_equal. unfold labels.
      by rewrite split_on_join. }
    split; [|done]. intros Hn. rewrite Hn in E. cbn in E. injection E as -> _. done.
Qed.

(** ** The site filter *)

(** The site filter blocks what it should and nothing else: a load is
    allowed when it is not over http or https; otherwise its host must be there,
    and when there is a whitelist some entry's labels must end the host's, when
    there is none no blacklist entry's may.  So [example.com] covers
    [foo.example.com] and not [notexample.com]. *)
Lemma site_filter_by_labels whitelist blacklist u host :
  GetAsciiHost u = Some host → dotless host →
  let under pats := ∃ pat ls, pat ∈ pats ∧ labels host = ls ++ labels pat in
  SiteAllowed whitelist blacklist (Some u) = true ↔
  ∃ scheme, GetScheme u = Some scheme ∧
    (scheme ≠ "http" ∧ scheme ≠ "https" ∨
     whitelist ≠ [] ∧ under whitelist ∨ whitelist = [] ∧ ¬ under blacklist).
Proof.
  intros Hh Hd under.
  assert (∀ pats, existsb (SiteHostMatches host) pats = true ↔ under pats) as Hunder.
  { intros pats. rewrite existsb_exists. split.
    - intros (pat & Hin%list_elem_of_In & Hm).
      apply ProxyHostMatch_labels in Hm as [ls Hls]; [|done]. by exists pat, ls.
    - intros (pat & ls & Hin%list_elem_of_In & Hls). exists pat. split; [done|].
      apply ProxyHostMatch_labels; [done|]. by exists ls. }
  unfold SiteAllowed. rewrite Hh. destruct (GetScheme u) as [scheme|].
  2: { split; [done|]. by intros (? & ? & _). }
  destruct Hd as (a & r & -> & _).
  destruct (bool_decide (scheme = "http")) eqn:E1, (bool_decide (scheme = "https")) eqn:E2;
    apply bool_decide_eq_true in E1 || apply bool_decide_eq_false in E1;
    apply bool_decide_eq_true in E2 || apply bool_decide_eq_false in E2; cbn [negb andb];
    try (split; [intros _; exists scheme; by auto|done]).
  all: destruct whitelist as [|p ps]; [rewrite negb_true_iff, <-not_true_iff_false|]; rewrite Hunder.
  all: split; [intros Hu; exists scheme; by auto|].
  all: intros (s & [= <-] & [[??]|[[??]|[??]]]); done.
Qed.

(** ** The pin and the token *)

Section Pins.
Context `{NeckoLaws, NssLaws}.

(** Claim C19. A token only goes to the server it is pinned to.  Over a connection
    for a host whose handshake passed the pin check, a request that gets a token
    gets it sealed for the key of the one entry that host belongs to, and that
    entry has no pin or the leaf certificate's public key hashes to it.  On a
    certificate that cannot be read or hashed a pin is not met. *)
Theorem token_goes_to_pinned_server table st sys head uri upload len st' head' rv token
    host leaf chain :
  browser_reachable table st → sys_ok sys →
  Forall (λ e, ∀ p, mSpkiPin e = Some p → length p = 32%nat) table →
  (∀ der hash, HashBuf der = Some hash → length hash = 32%nat) →
  GetAsciiHost uri = Some host →
  AuthCertificateHook_pin table host (leaf :: chain) = true →
  AddAttestHeaders table sys st head uri upload len = (st', head', rv) →
  GetHeader head X_TOKEN = None → GetHeader head' X_TOKEN = Some token →
  ∃ i e key, FindProxyForHost table host = Some i ∧ table !! i = Some e ∧
    import_key e = Some key ∧
    (∃ ephem iv plaintext, token = sealed_token ephem key iv plaintext) ∧
    (mSpkiPin e = None ∨ mSpkiPin e = Sha256OfLeafSpki leaf).
Proof.
  intros Hst%browser_reachable_ok Hsys Hpins Hhash Hhost Hpin E Hno Htok.
  destruct (AddAttestHeaders_spec _ _ _ _ _ _ _ _ _ _ Hst Hsys E) as [_ Hspec].
  assert (bare head head' → False) as Hnb.
  { intros (_ & _ & Hsame). rewrite Hsame, Hno in Htok by done. done. }
  unfold call_spec in Hspec.
  destruct (destination table uri) as [[host' key]|] eqn:Hdest; [|tauto].
  apply destination_some in Hdest as (Hh & _ & (i & e & He & Hc & Hk & Hfirst)).
  rewrite Hhost in Hh. injection Hh as <-.
  destruct (attest_values _ _ _ _ _ _ _) as [[[ts n] tok]|] eqn:Ev; [|tauto].
  destruct Hspec as (_ & cert & Hat & _). rewrite (at_token _ _ _ _ _ _ Hat) in Htok.
  injection Htok as ->.
  assert (FindProxyForHost table host = Some i) as Hi.
  { apply FindProxyForHost_some. split; [by exists e|done]. }
  exists i, e, key. split_and!; try done.
  - destruct (attest_values_ok _ _ _ _ _ _ _ _ _ _ Hsys Ev) as (?&?&?&?&?&?&Hsv).
    eexists _, _, _. apply Hsv.
  - cbn in Hpin. unfold VerifyProxyPin in Hpin. rewrite Hi in Hpin. cbn in Hpin.
    rewrite He in Hpin. destruct (mSpkiPin e) as [pin|] eqn:Ep; [right|by left].
    destruct (Sha256OfLeafSpki leaf) as [hash|] eqn:Es; [|done].
    apply bool_decide_eq_true in Hpin.
    rewrite Forall_lookup in Hpins. pose proof (Hpins _ _ He _ Ep) as Hlp.
    assert (length hash = 32%nat) as Hlh.
    { unfold Sha256OfLeafSpki in Es. repeat case_match; simplify_eq. by eapply Hhash. }
    rewrite !take_ge in Hpin by lia. by rewrite Hpin.
Qed.
End Pins.

(** ** Examples *)

Section Examples.
#[local] Existing Instances Toy.crypto Toy.laws ToyBrowser.necko ToyBrowser.necko_laws
  ToyBrowser.nss ToyBrowser.nss_laws.

Example subdomain_allowed :
  SiteAllowed ["example" : str] [] (Some sample_uri) = true.
Proof. vm_compute. reflexivity. Qed.

Example lookalike_blocked :
  SiteAllowed ["proxy.example" : str] []
    (Some {| GetScheme := Some ("https" : str); GetAsciiHost := Some ("notproxy.example" : str);
             GetPathQueryRef := Some ("/" : str) |}) = false.
Proof. vm_compute. reflexivity. Qed.

Example wrong_key_refused :
  AuthCertificateHook_pin sample_table "proxy.example" ["someone's certificate" : str] = false.
Proof. vm_compute. reflexivity. Qed.

Theorem token_goes_to_pinned_server_witness :
  ∃ i e, FindProxyForHost sample_table "proxy.example" = Some i ∧ sample_table !! i = Some e ∧
    (mSpkiPin e = None ∨ mSpkiPin e = Sha256OfLeafSpki "a's certificate").
Proof.
  destruct (token_goes_to_pinned_server sample_table (BrowserState_new sample_table) sample_sys
    sample_head sample_uri sample_upload 12 sample_call.1.1 sample_call.1.2 sample_call.2
    sample_token "proxy.example" "a's certificate" [] (browser_start _) sample_sys_ok)
    as (i & e & key & Hi & He & _ & _ & Hp).
  - repeat constructor; cbn; intros p; [discriminate|]. intros [= <-]. reflexivity.
  - intros der hash [= <-]. apply Toy.length_pad.
  - reflexivity.
  - vm_compute. reflexivity.
  - rewrite <-!surjective_pairing. reflexivity.
  - vm_compute. reflexivity.
  - exact (proj1 (proj2 sample_call_headers)).
  - by exists i, e.
Defined.
End Examples.
