(* ===== verification/TestKit.v ===== *)
(** What the repository's unit tests are written with, for the files that
    translate them ([EnvTests], [AttestTests], ...).  A test is a boolean: the
    conjunction of its assertions, an [unwrap] or [expect] on the way being one. *)

From S2P Require Import Prelude.

(** [assert_eq!]. *)
Definition eqb {A} `{EqDecision A} (x y : A) : bool := bool_decide (x = y).
Infix "==" := eqb (at level 70) : rust_scope.

(** A pair of texts. *)
Notation "k '~>' v" := (k : str, v : str) (at level 61) : rust_scope.

(** [assert_eq!(r.unwrap(), x)]. *)
Definition yields {E} (r : result str E) (x : str) : bool :=
  match r with Ok y => y == x | Err _ => false end.

(** The texts a test iterates over. *)
Definition texts (l : list string) : list str := map String.list_ascii_of_string l.

(** [unwrap_err]: the error, and an empty text (no test asks for that) when
    there is none. *)
Definition unwrap_err {T} (r : result T str) : str :=
  match r with Ok _ => [] | Err e => e end.
Definition is_err {T E} (r : result T E) : bool := negb (is_ok r).

(** [str::starts_with]. *)
Fixpoint starts_with (s p : str) : bool :=
  match p, s with
  | [], _ => true
  | a :: p', b :: s' => (a == b) && starts_with s' p'
  | _, [] => false
  end.

(** [str::contains]. *)
Fixpoint contains (s p : str) : bool :=
  starts_with s p || match s with [] => false | _ :: s' => contains s' p end.

(** [s.matches(p).count()]: occurrences that do not overlap. *)
Fixpoint count_matches (skip : nat) (s p : str) : nat :=
  match s with
  | [] => 0
  | _ :: s' =>
      match skip with
      | S k => count_matches k s' p
      | O => if starts_with s p then S (count_matches (length p - 1) s' p)
             else count_matches 0 s' p
      end
  end.

(** [assert!(matches!(r, p))]. *)
Notation "r 'matches' p" := (match r with p => true | _ => false end)
  (at level 70, p pattern at level 10, only parsing) : rust_scope.

(** [let x = e.unwrap();], the test failing where it panics. *)
Notation "'expect' x ':=' e 'in' k" := (match e with Ok x => k | Err _ => false end)
  (at level 10, x pattern, e at level 200, k at level 200) : rust_scope.

(** The same for an operation that also returns its object's new state. *)
Notation "'expect_on' v ':=' e 'in' k" :=
  (let '(v, r) := e in match r with Ok _ => k | Err _ => false end)
  (at level 10, v name, e at level 200, k at level 200) : rust_scope.

(** The tests that fail; a suite passes when there are none. *)
Definition failures (suite : list (string * bool)) : list string :=
  (filter (λ t, t.2 = false) suite).*1.
