(* ===== verification/ConfigTypes.v ===== *)
(** The typed reading of a config ([#[derive(Deserialize)]] and its [#[serde]]
    attributes in [src/proxy/src/config.rs]): a tree of TOML values read as a
    [Config].

    The derived code reads a struct from a table, by name: a key it does not know
    is refused ([deny_unknown_fields]), a missing one takes its default, and each
    value must have its field's type.  It also reads one from an array, by
    position: the fields in the order they are declared, those the array is too
    short for missing.  It can be run in two places, which [Config::parse] tells
    apart: on the text, and on the tree after expansion, where a datetime also
    passes for a string.  What becomes of an array longer than its struct is for
    the [toml] crate to say. *)

From S2P Require Import Prelude Config ConfigEnv.

Inductive Mode := FromText | FromTree.

(** Whether a deserializer of the [toml] crate lets elements go by that the struct
    read from an array has no field for. *)
Class TomlSeq := { leftover_ok : Mode → bool }.

(** ** Values *)

Definition de_str (mode : Mode) (v : Value) : option str :=
  match v, mode with
  | VString s, _ => Some s
  | VDatetime text, FromTree => Some text
  | _, _ => None
  end.

Definition de_bool (mode : Mode) (v : Value) : option bool :=
  match v with VBoolean b => Some b | _ => None end.

(** An integer in the range of its type. *)
Definition de_int (lo hi : Z) (mode : Mode) (v : Value) : option Z :=
  match v with VInteger n => if in_range lo hi n then Some n else None | _ => None end.
Definition de_u64 : Mode → Value → option Z := de_int 0 u64_max.
Definition de_usize : Mode → Value → option Z := de_int 0 u64_max.
Definition de_isize : Mode → Value → option Z := de_int i64_min i64_max.

Definition de_vec {A} (de : Mode → Value → option A) (mode : Mode) (v : Value)
    : option (list A) :=
  match v with VArray items => mapM (de mode) items | _ => None end.

(** [#[serde(transparent)]]. *)
Definition de_Secret (mode : Mode) (v : Value) : option Secret :=
  s ← de_str mode v; Some {| secret_value := s |}.

(** ** Structs *)

Fixpoint lookup_key (t : Table) (name : str) : option Value :=
  match t with
  | [] => None
  | (key, v) :: rest => if decide (key = name) then Some v else lookup_key rest name
  end.

(** A field: its value when the key is there, else its default, if it has one. *)
Definition field {A} (mode : Mode) (t : Table) (name : str)
    (de : Mode → Value → option A) (missing : option A) : option A :=
  match lookup_key t name with Some v => de mode v | None => missing end.

Section Structs.
Context `{TomlSeq}.

(** The derived visitor: [visit_map], with [deny_unknown_fields], and [visit_seq];
    [build] takes the struct's fields, in their order, from a table. *)
Definition de_struct {A} (mode : Mode) (names : list str) (build : Table → option A) (v : Value)
    : option A :=
  match v with
  | VTable t => if forallb (λ e : str * Value, bool_decide (e.1 ∈ names)) t then build t else None
  | VArray items =>
      if leftover_ok mode || (length items <=? length names)%nat
      then build (zip names items) else None
  | _ => None
  end.

Definition names (l : list string) : list str := map String.list_ascii_of_string l.

Definition de_ProxyConfig (mode : Mode) : Value → option ProxyConfig :=
  de_struct mode (names ["listen"; "upstream"; "upstream_ca"; "tls_cert"; "tls_key";
                    "tls_key_passphrase"; "tls_key_passphrase_file"]) (λ t,
    listen ← field mode t "listen" de_str (Some []);
    upstream ← field mode t "upstream" de_str (Some []);
    upstream_ca ← field mode t "upstream_ca" de_str (Some []);
    tls_cert ← field mode t "tls_cert" de_str (Some []);
    tls_key ← field mode t "tls_key" de_str (Some []);
    tls_key_passphrase ←
      field mode t "tls_key_passphrase" de_Secret (Some {| secret_value := [] |});
    tls_key_passphrase_file ← field mode t "tls_key_passphrase_file" de_str (Some []);
    Some {| Config.listen := listen; Config.upstream := upstream;
            Config.upstream_ca := upstream_ca; Config.tls_cert := tls_cert;
            Config.tls_key := tls_key; Config.tls_key_passphrase := tls_key_passphrase;
            Config.tls_key_passphrase_file := tls_key_passphrase_file |}).

Definition de_AttestationConfig (mode : Mode) : Value → option AttestationConfig :=
  de_struct mode (names ["private_key"]) (λ t,
    private_key ← field mode t "private_key" de_str (Some []);
    Some {| cfg_private_key := private_key |}).

(** Every field of a rule is required. *)
Definition de_RuleConfig (mode : Mode) : Value → option RuleConfig :=
  de_struct mode (names ["pattern"; "window_secs"; "max_requests"]) (λ t,
    pattern ← field mode t "pattern" de_str None;
    window_secs ← field mode t "window_secs" de_u64 None;
    max_requests ← field mode t "max_requests" de_isize None;
    Some {| rule_pattern := pattern; rule_window_secs := window_secs;
            rule_max_requests := max_requests |}).

Definition de_RateLimitConfig (mode : Mode) : Value → option RateLimitConfig :=
  de_struct mode (names ["enabled"; "window_secs"; "max_requests"; "rules"]) (λ t,
    enabled ← field mode t "enabled" de_bool (Some false);
    window_secs ← field mode t "window_secs" de_u64 (Some 0);
    max_requests ← field mode t "max_requests" de_isize (Some 0);
    rules ← field mode t "rules" (de_vec de_RuleConfig) (Some []);
    Some {| rl_enabled := enabled; rl_window_secs := window_secs;
            rl_max_requests := max_requests; rl_rules := rules |}).

Definition de_MtlsConfig (mode : Mode) : Value → option MtlsConfig :=
  de_struct mode (names ["enabled"; "client_ca"]) (λ t,
    enabled ← field mode t "enabled" de_bool (Some false);
    client_ca ← field mode t "client_ca" de_str (Some []);
    Some {| mtls_enabled := enabled; Config.client_ca := client_ca |}).

(** A container-level [#[serde(default)]]: a missing field takes the one of
    [Default for MachineIdentityConfig]. *)
Definition de_MachineIdentityConfig (mode : Mode) : Value → option MachineIdentityConfig :=
  let d := MachineIdentityConfig_default in
  de_struct mode (names ["enabled"; "machine_ca"; "required"; "allowed_hostnames"; "dns_ttl_secs";
                    "dns_negative_ttl_secs"; "dns_stale_grace_secs"; "partial_chain"]) (λ t,
    enabled ← field mode t "enabled" de_bool (Some (mi_enabled d));
    machine_ca ← field mode t "machine_ca" de_str (Some (machine_ca d));
    required ← field mode t "required" de_bool (Some (mi_required d));
    allowed_hostnames ←
      field mode t "allowed_hostnames" (de_vec de_str) (Some (allowed_hostnames d));
    dns_ttl_secs ← field mode t "dns_ttl_secs" de_u64 (Some (dns_ttl_secs d));
    dns_negative_ttl_secs ←
      field mode t "dns_negative_ttl_secs" de_u64 (Some (dns_negative_ttl_secs d));
    dns_stale_grace_secs ←
      field mode t "dns_stale_grace_secs" de_u64 (Some (dns_stale_grace_secs d));
    partial_chain ← field mode t "partial_chain" de_bool (Some (partial_chain d));
    Some {| mi_enabled := enabled; Config.machine_ca := machine_ca; mi_required := required;
            Config.allowed_hostnames := allowed_hostnames;
            Config.dns_ttl_secs := dns_ttl_secs;
            Config.dns_negative_ttl_secs := dns_negative_ttl_secs;
            Config.dns_stale_grace_secs := dns_stale_grace_secs;
            Config.partial_chain := partial_chain |}).

Definition de_ProxyBypassConfig (mode : Mode) : Value → option ProxyBypassConfig :=
  de_struct mode (names ["enabled"; "allowed_ip_ranges"; "allowed_subjects"]) (λ t,
    enabled ← field mode t "enabled" de_bool (Some false);
    allowed_ip_ranges ← field mode t "allowed_ip_ranges" (de_vec de_str) (Some []);
    allowed_subjects ← field mode t "allowed_subjects" (de_vec de_str) (Some []);
    Some {| pb_enabled := enabled; Config.allowed_ip_ranges := allowed_ip_ranges;
            Config.allowed_subjects := allowed_subjects |}).

(** Its missing fields are those of [Default for LoggingConfig]. *)
Definition de_LoggingConfig (mode : Mode) : Value → option LoggingConfig :=
  let d := LoggingConfig_default in
  de_struct mode (names ["dir"; "file_prefix"; "level"; "rotation"; "max_files"; "stderr"]) (λ t,
    dir ← field mode t "dir" de_str (Some (log_dir d));
    file_prefix ← field mode t "file_prefix" de_str (Some (file_prefix d));
    level ← field mode t "level" de_str (Some (log_level d));
    rotation ← field mode t "rotation" de_str (Some (rotation d));
    max_files ← field mode t "max_files" de_usize (Some (max_files d));
    stderr ← field mode t "stderr" de_bool (Some (log_stderr d));
    Some {| log_dir := dir; Config.file_prefix := file_prefix; log_level := level;
            Config.rotation := rotation; Config.max_files := max_files;
            log_stderr := stderr |}).

Definition de_Config_fields (mode : Mode) (t : Table) : option Config :=
  proxy ← field mode t "proxy" de_ProxyConfig (Some ProxyConfig_default);
  attestation ← field mode t "attestation" de_AttestationConfig (Some AttestationConfig_default);
  rate_limiting ← field mode t "rate_limiting" de_RateLimitConfig (Some RateLimitConfig_default);
  mtls ← field mode t "mtls" de_MtlsConfig (Some MtlsConfig_default);
  machine_identity ←
    field mode t "machine_identity" de_MachineIdentityConfig (Some MachineIdentityConfig_default);
  proxy_bypass ← field mode t "proxy_bypass" de_ProxyBypassConfig (Some ProxyBypassConfig_default);
  logging ← field mode t "logging" de_LoggingConfig (Some LoggingConfig_default);
  Some {| Config.proxy := proxy; Config.attestation := attestation;
          Config.rate_limiting := rate_limiting; Config.mtls := mtls;
          Config.machine_identity := machine_identity; Config.proxy_bypass := proxy_bypass;
          Config.logging := logging |}.

(** A document is a table. *)
Definition de_Config (mode : Mode) (t : Table) : option Config :=
  de_struct mode (names ["proxy"; "attestation"; "rate_limiting"; "mtls"; "machine_identity";
                         "proxy_bypass"; "logging"]) (de_Config_fields mode) (VTable t).

End Structs.

(** ** Parsing with the derived reading

    [toml::from_str::<Config>] runs it on what the parser makes of the text; the
    parser and the words of a type error are the library's. *)
Section Parse.
Context `{TomlSeq}.
Variable toml_table : str → result Table str.
Variable type_error : Table → str.

Definition toml_typed (text : str) : result Config str :=
  let? t := toml_table text in ok_or (de_Config FromText t) (type_error t).

Definition parse (text : str) (lookup : Lookup) : result Config str :=
  Config_parse toml_typed toml_table (de_Config FromTree) text lookup.
End Parse.

(** A reader of texts that does not count, and one of trees that does. *)
Module ToyToml.
#[export] Instance seq : TomlSeq :=
  {| leftover_ok mode := match mode with FromText => true | FromTree => false end |}.
End ToyToml.

Section Examples.
#[local] Existing Instances ToyToml.seq.

Example empty_config : de_Config FromText [] = Some Config_default.
Proof. reflexivity. Qed.

(** [mtls = [true, "ca.pem"]], [mtls = [true]] and [mtls = [true, "ca.pem", 0]]. *)
Definition mtls_array (items : list Value) : Value := VArray items.

Example mtls_by_position :
  de_MtlsConfig FromText (mtls_array [VBoolean true; VString "ca.pem"])
  = Some {| mtls_enabled := true; client_ca := "ca.pem" |}.
Proof. reflexivity. Qed.
Example mtls_short :
  de_MtlsConfig FromText (mtls_array [VBoolean true])
  = Some {| mtls_enabled := true; client_ca := [] |}.
Proof. reflexivity. Qed.
Example mtls_long :
  let v := mtls_array [VBoolean true; VString "ca.pem"; VInteger 0] in
  is_Some (de_MtlsConfig FromText v) ∧ de_MtlsConfig FromTree v = None.
Proof. split; [by eexists|reflexivity]. Qed.
End Examples.
