(* ===== verification/ConfigParse.v ===== *)
(** Parsing a config end to end: reading a tree as a [Config] commutes with
    expanding its strings, where the tree can be read at all. *)

From S2P Require Import Prelude Config ConfigEnv ConfigEnvFacts ConfigTypes.

(** ** Expanding a config that was read

    The specification: every string setting replaced by its expansion, wherever it
    stands; nothing else changes.  [None] when some setting does not expand. *)

Section Expanded.
Variable lookup : Lookup.

Definition expand_text (s : str) : option str :=
  match expand_str s lookup false with Ok s' => Some s' | Err _ => None end.

Definition expand_Secret (s : Secret) : option Secret :=
  x ← expand_text (secret_value s); Some {| secret_value := x |}.

Definition expand_ProxyConfig (c : ProxyConfig) : option ProxyConfig :=
  x1 ← expand_text (listen c); x2 ← expand_text (upstream c);
  x3 ← expand_text (upstream_ca c); x4 ← expand_text (tls_cert c);
  x5 ← expand_text (tls_key c); x6 ← expand_Secret (tls_key_passphrase c);
  x7 ← expand_text (tls_key_passphrase_file c);
  Some {| listen := x1; upstream := x2; upstream_ca := x3; tls_cert := x4; tls_key := x5;
          tls_key_passphrase := x6; tls_key_passphrase_file := x7 |}.

Definition expand_AttestationConfig (c : AttestationConfig) : option AttestationConfig :=
  x ← expand_text (cfg_private_key c); Some {| cfg_private_key := x |}.

Definition expand_RuleConfig (c : RuleConfig) : option RuleConfig :=
  x ← expand_text (rule_pattern c);
  Some {| rule_pattern := x; rule_window_secs := rule_window_secs c;
          rule_max_requests := rule_max_requests c |}.

Definition expand_RateLimitConfig (c : RateLimitConfig) : option RateLimitConfig :=
  x ← mapM expand_RuleConfig (rl_rules c);
  Some {| rl_enabled := rl_enabled c; rl_window_secs := rl_window_secs c;
          rl_max_requests := rl_max_requests c; rl_rules := x |}.

Definition expand_MtlsConfig (c : MtlsConfig) : option MtlsConfig :=
  x ← expand_text (client_ca c);
  Some {| mtls_enabled := mtls_enabled c; client_ca := x |}.

Definition expand_MachineIdentityConfig (c : MachineIdentityConfig)
    : option MachineIdentityConfig :=
  x1 ← expand_text (machine_ca c); x2 ← mapM expand_text (allowed_hostnames c);
  Some {| mi_enabled := mi_enabled c; machine_ca := x1; mi_required := mi_required c;
          allowed_hostnames := x2; dns_ttl_secs := dns_ttl_secs c;
          dns_negative_ttl_secs := dns_negative_ttl_secs c;
          dns_stale_grace_secs := dns_stale_grace_secs c; partial_chain := partial_chain c |}.

Definition expand_ProxyBypassConfig (c : ProxyBypassConfig) : option ProxyBypassConfig :=
  x1 ← mapM expand_text (allowed_ip_ranges c); x2 ← mapM expand_text (allowed_subjects c);
  Some {| pb_enabled := pb_enabled c; allowed_ip_ranges := x1; allowed_subjects := x2 |}.

Definition expand_LoggingConfig (c : LoggingConfig) : option LoggingConfig :=
  x1 ← expand_text (log_dir c); x2 ← expand_text (file_prefix c);
  x3 ← expand_text (log_level c); x4 ← expand_text (rotation c);
  Some {| log_dir := x1; file_prefix := x2; log_level := x3; rotation := x4;
          max_files := max_files c; log_stderr := log_stderr c |}.

Definition expand_Config (c : Config) : option Config :=
  x1 ← expand_ProxyConfig (proxy c); x2 ← expand_AttestationConfig (attestation c);
  x3 ← expand_RateLimitConfig (rate_limiting c); x4 ← expand_MtlsConfig (mtls c);
  x5 ← expand_MachineIdentityConfig (machine_identity c);
  x6 ← expand_ProxyBypassConfig (proxy_bypass c); x7 ← expand_LoggingConfig (logging c);
  Some {| proxy := x1; attestation := x2; rate_limiting := x3; mtls := x4;
          machine_identity := x5; proxy_bypass := x6; logging := x7 |}.
End Expanded.

(** ** Secrecy changes the words of an error only *)

Lemma expand_reference_secrecy lookup b b' name v :
  expand_reference lookup b name = Ok v → expand_reference lookup b' name = Ok v.
Proof. unfold expand_reference. intros H. by repeat case_match; simplify_eq. Qed.

Lemma expand_loop_secrecy lookup b b' f out rest v :
  expand_loop f lookup b out rest = Ok v → expand_loop f lookup b' out rest = Ok v.
Proof.
  revert out rest. induction f as [|f IH]; intros out rest; [done|].
  rewrite !expand_loop_scan. unfold scan, piece.
  destruct (split_once DOLLAR rest) as [[before tl]|]; [|done].
  destruct (dollar_run tl) as [n [|c body]]; [apply IH|].
  destruct (decide (c = LBRACE)); [|apply IH].
  destruct (Nat.even (S n)); [apply IH|].
  destruct (split_once RBRACE body) as [[name rest']|]; [|done].
  destruct (is_valid_name name); [|done].
  destruct (expand_reference lookup b name) as [x|] eqn:E; [|done].
  rewrite (expand_reference_secrecy _ _ b' _ _ E). apply IH.
Qed.

Lemma expand_str_secrecy lookup b b' s v :
  expand_str s lookup b = Ok v → expand_str s lookup b' = Ok v.
Proof. apply expand_loop_secrecy. Qed.

(** ** Trees with one value per key, as TOML's are *)

Fixpoint unique_keys (v : Value) : bool :=
  match v with
  | VArray items => forallb unique_keys items
  | VTable entries =>
      bool_decide (NoDup entries.*1) && forallb (λ e, unique_keys e.2) entries
  | _ => true
  end.

Section Reads.
Context {seq_access : TomlSeq}.
Variables (lookup : Lookup) (secrets : list str).
Notation good := (λ l, is_ok (expand_leaf lookup secrets l) = true).
Notation expanded := (map_strings (leaf_text lookup secrets)).

(** The entries of a table, with the path of each key. *)
Definition entry_leaves (mk : str → str) (t : Table) : list (str * str) :=
  t ≫= λ e, leaves (mk e.1) e.2.
Definition expand_entries (mk : str → str) (t : Table) : Table :=
  (λ e, (e.1, expanded (mk e.1) e.2)) <$> t.

(** The items of an array, numbered from [i]. *)
Fixpoint item_leaves (path : str) (i : Z) (items : list Value) : list (str * str) :=
  match items with
  | [] => []
  | item :: rest =>
      leaves (path ++ "[" ++ show i ++ "]") item ++ item_leaves path (i + 1) rest
  end.
Fixpoint expand_items (path : str) (i : Z) (items : list Value) : list Value :=
  match items with
  | [] => []
  | item :: rest =>
      expanded (path ++ "[" ++ show i ++ "]") item :: expand_items path (i + 1) rest
  end.

Lemma leaves_array path items : leaves path (VArray items) = item_leaves path 0 items.
Proof.
  cbn [leaves]. generalize 0. induction items as [|v items IH]; intros i; [done|].
  cbn [item_leaves]. by rewrite <-IH.
Qed.
Lemma expanded_array path items :
  expanded path (VArray items) = VArray (expand_items path 0 items).
Proof.
  cbn [map_strings]. f_equal. generalize 0. induction items as [|v items IH]; intros i; [done|].
  cbn [expand_items]. by rewrite <-IH.
Qed.

Lemma leaves_table path t :
  leaves path (VTable t) = entry_leaves (λ k, path ++ "." ++ k) t.
Proof. cbn [leaves]. induction t as [|[k v] t IH]; [done|]. cbn. by f_equal. Qed.

Lemma expanded_table path t :
  expanded path (VTable t) = VTable (expand_entries (λ k, path ++ "." ++ k) t).
Proof.
  cbn [map_strings]. f_equal. induction t as [|[k v] t IH]; [done|]. cbn. by f_equal.
Qed.

Lemma table_leaves_entries t : table_leaves t = entry_leaves (λ k, "[" ++ k ++ "]") t.
Proof. induction t as [|[k v] t IH]; [done|]. cbn. by f_equal. Qed.

Lemma table_expanded_entries t :
  table_map_strings (leaf_text lookup secrets) t = expand_entries (λ k, "[" ++ k ++ "]") t.
Proof. induction t as [|[k v] t IH]; [done|]. cbn. by f_equal. Qed.

Lemma lookup_key_expanded mk t k :
  lookup_key (expand_entries mk t) k = expanded (mk k) <$> lookup_key t k.
Proof.
  induction t as [|[k' v] t IH]; [done|]. cbn. by case_decide as E; [subst k'|].
Qed.

Lemma lookup_key_in t k v : lookup_key t k = Some v → (k, v) ∈ t.
Proof.
  induction t as [|[k' v'] t IH]; cbn; [done|]. case_decide as E; [|right; by apply IH].
  intros [= <-]. subst k'. left.
Qed.

Lemma in_lookup_key t k v : NoDup t.*1 → (k, v) ∈ t → lookup_key t k = Some v.
Proof.
  induction t as [|[k' v'] t IH]; cbn; [by intros _ ?%elem_of_nil|].
  intros [Hk Hd]%NoDup_cons [E|Hin]%elem_of_cons.
  - simplify_eq. by rewrite decide_True.
  - rewrite decide_False; [by apply IH|]. intros ->. apply Hk.
    by apply (list_elem_of_fmap_2 fst) in Hin.
Qed.

Lemma Forall_entry_leaves mk t :
  Forall good (entry_leaves mk t) ↔ ∀ k v, (k, v) ∈ t → Forall good (leaves (mk k) v).
Proof.
  unfold entry_leaves. rewrite Forall_bind, Forall_forall. split; [|intros H [k v] Hin; by apply H].
  intros H k v Hin. by apply (H (k, v)).
Qed.

(** *** Arrays, as the tables of what stands at each position *)

Fixpoint position (i : Z) (ns : list str) (k : str) : Z :=
  match ns with
  | [] => i
  | n :: ns => if decide (n = k) then i else position (i + 1) ns k
  end.
Definition item_path (path : str) (i : Z) (ns : list str) (k : str) : str :=
  path ++ "[" ++ show (position i ns k) ++ "]".

Lemma item_path_head path i n ns : item_path path i (n :: ns) n = path ++ "[" ++ show i ++ "]".
Proof. unfold item_path. cbn [position]. by rewrite decide_True. Qed.
Lemma item_path_tail path i n ns k :
  n ∉ ns → k ∈ ns → item_path path i (n :: ns) k = item_path path (i + 1) ns k.
Proof. intros Hn Hk. unfold item_path. cbn [position]. rewrite decide_False; [done|by intros ->]. Qed.

Lemma zip_keys {A} (ns : list str) (items : list A) k v : (k, v) ∈ zip ns items → k ∈ ns ∧ v ∈ items.
Proof. intros Hin. split; [by eapply elem_of_zip_l|by eapply elem_of_zip_r]. Qed.

Lemma entry_leaves_cons mk k v t : entry_leaves mk ((k, v) :: t) = leaves (mk k) v ++ entry_leaves mk t.
Proof. done. Qed.
Lemma expand_entries_cons mk k v t :
  expand_entries mk ((k, v) :: t) = (k, expanded (mk k) v) :: expand_entries mk t.
Proof. done. Qed.
Lemma zip_cons {A} n (ns : list str) (v : A) items : zip (n :: ns) (v :: items) = (n, v) :: zip ns items.
Proof. done. Qed.

Lemma entry_leaves_ext mk mk' t :
  (∀ k v, (k, v) ∈ t → mk k = mk' k) → entry_leaves mk t = entry_leaves mk' t.
Proof.
  induction t as [|[k v] t IH]; intros He; [done|]. rewrite !entry_leaves_cons, (He k v) by left.
  f_equal. apply IH. intros k' v' Hin. apply (He k' v'). by right.
Qed.
Lemma expand_entries_ext mk mk' t :
  (∀ k v, (k, v) ∈ t → mk k = mk' k) → expand_entries mk t = expand_entries mk' t.
Proof.
  induction t as [|[k v] t IH]; intros He; [done|]. rewrite !expand_entries_cons, (He k v) by left.
  f_equal. apply IH. intros k' v' Hin. apply (He k' v'). by right.
Qed.

(** The positions an item stands at are those of the names, as far as both go. *)
Lemma item_leaves_zip path i ns items :
  NoDup ns →
  entry_leaves (item_path path i ns) (zip ns items) = item_leaves path i (take (length ns) items).
Proof.
  revert i items. induction ns as [|n ns IH]; intros i [|v items] Hnd; try done.
  apply NoDup_cons in Hnd as [Hn Hnd]. cbn [length take item_leaves].
  rewrite zip_cons, entry_leaves_cons, item_path_head, <-(IH (i + 1)) by done. f_equal.
  apply entry_leaves_ext. intros k v' [Hk _]%zip_keys. by rewrite item_path_tail.
Qed.

Lemma item_leaves_app path i items items' :
  item_leaves path i (items ++ items')
  = item_leaves path i items ++ item_leaves path (i + Z.of_nat (length items)) items'.
Proof.
  revert i. induction items as [|v items IH]; intros i; cbn [app item_leaves length].
  - by rewrite Z.add_0_r.
  - rewrite IH, <-app_assoc. do 3 f_equal. lia.
Qed.

Lemma expand_items_zip path i ns items :
  NoDup ns →
  zip ns (expand_items path i items) = expand_entries (item_path path i ns) (zip ns items).
Proof.
  revert i items. induction ns as [|n ns IH]; intros i [|v items] Hnd; try done.
  apply NoDup_cons in Hnd as [Hn Hnd]. cbn [expand_items].
  rewrite !zip_cons, expand_entries_cons, item_path_head, IH by done. f_equal.
  apply expand_entries_ext. intros k v' [Hk _]%zip_keys. by rewrite item_path_tail.
Qed.

Lemma length_expand_items path i items : length (expand_items path i items) = length items.
Proof. revert i. induction items as [|v items IH]; intros i; cbn; [done|]. by rewrite IH. Qed.

Lemma zip_unique ns items :
  NoDup ns → unique_keys (VArray items) = true → unique_keys (VTable (zip ns items)) = true.
Proof.
  cbn [unique_keys]. intros Hnd Hu. apply andb_true_iff. split.
  - apply bool_decide_eq_true. clear Hu. revert items. induction ns as [|n ns IH]; intros [|v items];
      try apply NoDup_nil_2. apply NoDup_cons in Hnd as [Hn Hnd]. cbn. apply NoDup_cons.
    split; [|by apply IH]. intros ([k w] & -> & [? _]%zip_keys)%list_elem_of_fmap. done.
  - rewrite forallb_forall in Hu. apply forallb_forall. intros [k v] [_ Hv]%list_elem_of_In%zip_keys.
    apply Hu. by apply list_elem_of_In.
Qed.

Lemma zip_known (ns : list str) (items : list Value) :
  forallb (λ e : str * Value, bool_decide (e.1 ∈ ns)) (zip ns items) = true.
Proof.
  apply forallb_forall. intros [k v] [Hk _]%list_elem_of_In%zip_keys. by apply bool_decide_eq_true.
Qed.

(** *** Readings that commute with expansion

    What is read of a value before expansion, expanded, is what is read of it
    after, when all its strings expand; and they do when the settings read of it
    do, unless elements are let go by.  That is for the values the second reading
    accepts as written. *)

Definition reads {A} (de : Mode → Value → option A) (exp : A → option A) : Prop :=
  ∀ path v a, unique_keys v = true → de FromText v = Some a → is_Some (de FromTree v) →
    (Forall good (leaves path v) →
       ∃ a', exp a = Some a' ∧ de FromTree (expanded path v) = Some a')
    ∧ (leftover_ok FromTree = false → is_Some (exp a) → Forall good (leaves path v)).

(** Whether it accepts a value is decided by the shape, which expansion keeps. *)
Definition shape {A} (de : Mode → Value → option A) : Prop :=
  ∀ path v, is_Some (de FromTree (expanded path v)) ↔ is_Some (de FromTree v).

(** The fields of a struct, from a table. *)
Definition builds {A} (ns : list str) (build : Mode → Table → option A) (exp : A → option A) : Prop :=
  ∀ mk t a, unique_keys (VTable t) = true →
    forallb (λ e : str * Value, bool_decide (e.1 ∈ ns)) t = true →
    build FromText t = Some a → is_Some (build FromTree t) →
    (Forall good (entry_leaves mk t) →
       ∃ a', exp a = Some a' ∧ build FromTree (expand_entries mk t) = Some a')
    ∧ (leftover_ok FromTree = false → is_Some (exp a) → Forall good (entry_leaves mk t)).

Definition shapes {A} (build : Mode → Table → option A) : Prop :=
  ∀ mk t, is_Some (build FromTree (expand_entries mk t)) ↔ is_Some (build FromTree t).

Lemma expand_text_leaf path s :
  expand_text lookup s =
    match expand_leaf lookup secrets (path, s) with Ok x => Some x | Err _ => None end.
Proof.
  unfold expand_text, expand_leaf. cbn [fst snd]. set (b := bool_decide _).
  destruct (expand_str s lookup false) as [x|] eqn:E.
  - by rewrite (expand_str_secrecy _ _ b _ _ E).
  - destruct (expand_str s lookup b) as [x|] eqn:E'; [|done].
    apply (expand_str_secrecy _ _ false) in E'. congruence.
Qed.

Lemma reads_str : reads de_str (expand_text lookup).
Proof.
  intros path v a _ Hv _. destruct v; try done. cbn in Hv. simplify_eq.
  cbn [leaves map_strings]. rewrite (expand_text_leaf path). unfold leaf_text.
  destruct (expand_leaf lookup secrets (path, a)) as [x|] eqn:E; split.
  - intros _. by exists x.
  - intros _ _. constructor; [by rewrite E|constructor].
  - intros Hg%Forall_inv. by rewrite E in Hg.
  - by intros _ [].
Qed.

Lemma shape_str : shape de_str.
Proof. intros path []; cbn; rewrite ?is_Some_alt; try done; split; by eexists. Qed.

(** A reading of values without strings. *)
Lemma reads_scalar {A} (de : Mode → Value → option A) :
  (∀ v a, de FromText v = Some a →
     de FromTree v = Some a ∧ ∀ path, leaves path v = [] ∧ expanded path v = v) →
  reads de Some.
Proof.
  intros Hde path v a _ (Ht & Hv)%Hde _. destruct (Hv path) as [-> ->].
  split; [by exists a|constructor].
Qed.

Lemma reads_bool : reads de_bool Some.
Proof. apply reads_scalar. intros [] a; try done. Qed.

Lemma reads_int lo hi : reads (de_int lo hi) Some.
Proof. apply reads_scalar. intros [] a; try done. Qed.

Lemma reads_Secret : reads de_Secret (expand_Secret lookup).
Proof.
  intros path v a Hu Hv Ht. unfold de_Secret in *.
  destruct (de_str FromText v) as [s|] eqn:E; [|done]. cbn in Hv. simplify_eq.
  assert (is_Some (de_str FromTree v)) as Ht' by by destruct (de_str FromTree v), Ht.
  destruct (reads_str path v s Hu E Ht') as [Hf Hb]. unfold expand_Secret. cbn. split.
  - intros Hg. destruct (Hf Hg) as (x & -> & ->). by eexists.
  - intros Hx [? H]. apply (Hb Hx). by destruct (expand_text lookup s).
Qed.

Lemma reads_vec {A} (de : Mode → Value → option A) exp :
  reads de exp → reads (de_vec de) (mapM exp).
Proof.
  intros Hr path v l Hu Hv Ht. destruct v as [| | | | |items|]; try done.
  rewrite leaves_array, expanded_array. unfold de_vec in *. cbn [unique_keys] in Hu.
  revert l Hu Hv Ht. generalize 0%Z.
  induction items as [|v items IH]; intros i l Hu Hv Ht;
    cbn [item_leaves expand_items mapM forallb] in *.
  { injection Hv as <-. split; [by exists []|constructor]. }
  apply andb_true_iff in Hu as [Hu1 Hu2].
  set (p := path ++ "[" ++ show i ++ "]"). clearbody p.
  destruct (de FromText v) as [a|] eqn:E; [|done]. cbn [mbind option_bind] in Hv.
  destruct (mapM _ items) as [l'|] eqn:E'; [|done]. injection Hv as <-.
  destruct (de FromTree v) as [b|] eqn:Et; [|by destruct Ht]. cbn [mbind option_bind] in Ht.
  destruct (Hr p v a Hu1 E ltac:(by rewrite Et)) as [Hf Hb].
  destruct (IH (i + 1) l' Hu2 eq_refl) as [Hfs Hbs].
  { destruct (mapM (de FromTree) items); [by eexists|by destruct Ht]. }
  rewrite Forall_app. cbn [mapM]. split.
  - intros [Hg Hgs]. destruct (Hf Hg) as (a' & -> & ->), (Hfs Hgs) as (l2 & -> & ->).
    by exists (a' :: l2).
  - intros Hx [? H]. destruct (exp a) eqn:Ea; [|done]. cbn [mbind option_bind] in H.
    destruct (mapM exp l') eqn:El; [|done]. split; [by apply (Hb Hx)|by apply (Hbs Hx)].
Qed.

(** [mbind] of shapes. *)
Lemma bind_shape {A B A' B'} (x : option A) (y : option A') (f : A → option B) (g : A' → option B') :
  (is_Some x ↔ is_Some y) → (∀ a b, is_Some (f a) ↔ is_Some (g b)) →
  is_Some (x ≫= f) ↔ is_Some (y ≫= g).
Proof.
  intros [Hl Hr] Hfg. destruct x as [a|], y as [b|]; cbn; [apply Hfg|..|done].
  - by destruct (Hl ltac:(by eexists)).
  - by destruct (Hr ltac:(by eexists)).
Qed.

Lemma shape_vec {A} (de : Mode → Value → option A) : shape de → shape (de_vec de).
Proof.
  intros Hs path v. destruct v as [| | | | |items|]; try (by split; intros []).
  rewrite expanded_array. unfold de_vec. generalize 0%Z.
  induction items as [|v items IH]; intros i; cbn [expand_items mapM]; [by split; eexists|].
  apply bind_shape; [apply Hs|]. intros ? ?. apply bind_shape; [apply IH|]. by split; eexists.
Qed.

Lemma shape_scalar {A} (de : Mode → Value → option A) :
  (∀ v, is_Some (de FromTree v) → match v with VArray _ | VTable _ | VString _ => False | _ => True end) →
  shape de.
Proof.
  intros Hde path v. destruct v; try done; cbn [map_strings]; split; intros Hs; by apply Hde in Hs.
Qed.
Lemma shape_bool : shape de_bool.
Proof. apply shape_scalar. by intros [] []. Qed.
Lemma shape_int lo hi : shape (de_int lo hi).
Proof. apply shape_scalar. by intros [] []. Qed.
Lemma shape_Secret : shape de_Secret.
Proof.
  intros path v. unfold de_Secret. apply bind_shape; [apply shape_str|]. by split; eexists.
Qed.

Lemma field_shape {A} (de : Mode → Value → option A) mk t name missing :
  shape de →
  is_Some (field FromTree (expand_entries mk t) name de missing)
  ↔ is_Some (field FromTree t name de missing).
Proof.
  intros Hs. unfold field. rewrite lookup_key_expanded. destruct (lookup_key t name); [apply Hs|done].
Qed.

Lemma field_reads {A} (de : Mode → Value → option A) exp mk t name missing a :
  reads de exp → (∀ d, missing = Some d → exp d = Some d) →
  unique_keys (VTable t) = true → field FromText t name de missing = Some a →
  is_Some (field FromTree t name de missing) →
  (Forall good (entry_leaves mk t) →
     ∃ a', exp a = Some a' ∧ field FromTree (expand_entries mk t) name de missing = Some a')
  ∧ (leftover_ok FromTree = false → is_Some (exp a) →
       ∀ v, lookup_key t name = Some v → Forall good (leaves (mk name) v)).
Proof.
  intros Hr Hd [_ Hu]%andb_true_iff Hf Ht. unfold field in *. rewrite lookup_key_expanded.
  destruct (lookup_key t name) as [v|] eqn:E; cbn.
  - pose proof (lookup_key_in _ _ _ E) as Hin.
    assert (unique_keys v = true) as Huv.
    { rewrite forallb_forall in Hu. apply (Hu (name, v)). by apply list_elem_of_In. }
    destruct (Hr (mk name) v a Huv Hf Ht) as [H1 H2]. split.
    + intros Hg. apply H1. rewrite Forall_entry_leaves in Hg. by apply Hg.
    + intros Hx Hs v' [= <-]. by apply (H2 Hx).
  - split; [|done]. intros _. exists a. split; [by apply Hd|done].
Qed.

(** Every key of a table is one of the fields, and their strings expand. *)
Lemma fields_good mk t ns :
  unique_keys (VTable t) = true →
  forallb (λ e : str * Value, bool_decide (e.1 ∈ ns)) t = true →
  Forall (λ k, ∀ v, lookup_key t k = Some v → Forall good (leaves (mk k) v)) ns →
  Forall good (entry_leaves mk t).
Proof.
  intros [Hd%bool_decide_eq_true _]%andb_true_iff Hk Hall. apply Forall_entry_leaves.
  intros k v Hin. rewrite Forall_forall in Hall. apply Hall; [|by apply in_lookup_key].
  rewrite forallb_forall in Hk. apply list_elem_of_In in Hin.
  by specialize (Hk _ Hin) as ?%bool_decide_eq_true.
Qed.

Lemma known_expanded mk t (ns : list str) :
  forallb (λ e : str * Value, bool_decide (e.1 ∈ ns)) (expand_entries mk t)
  = forallb (λ e : str * Value, bool_decide (e.1 ∈ ns)) t.
Proof. induction t as [|[k v] t IH]; [done|]. cbn. by rewrite <-IH. Qed.

(** *** The structs *)

(** By name or by position, it is the table that is read. *)
Lemma reads_struct {A} ns (build : Mode → Table → option A) exp :
  NoDup ns → builds ns build exp → reads (λ mode, de_struct mode ns (build mode)) exp.
Proof.
  intros Hnd Hb path v a Hu Hv Ht. destruct v as [| | | | |items|t]; try done; cbn [de_struct] in *.
  - rewrite leaves_array, expanded_array. cbn [de_struct]. rewrite length_expand_items.
    rewrite expand_items_zip by done.
    assert (∃ i, item_leaves path 0 items = entry_leaves (item_path path 0 ns) (zip ns items)
                 ++ item_leaves path i (drop (length ns) items)) as [i ->].
    { eexists. rewrite item_leaves_zip by done. by rewrite <-item_leaves_app, take_drop. }
    rewrite Forall_app.
    destruct (_ || _) eqn:Eo in Hv; [|done]. clear Eo.
    destruct (_ || _) eqn:Eo in Ht; [|by destruct Ht]. rewrite Eo.
    destruct (Hb (item_path path 0 ns) (zip ns items) a) as [H1 H2];
      [by apply zip_unique|apply zip_known|done..|].
    split; [intros [Hg _]; by apply H1|]. intros Hx Hs. split; [by apply H2|].
    rewrite Hx in Eo. cbn [orb] in Eo. apply Nat.leb_le in Eo. by rewrite drop_ge.
  - rewrite leaves_table, expanded_table. cbn [de_struct]. rewrite known_expanded.
    destruct (forallb _ _) eqn:Hk; [|done]. by apply Hb.
Qed.

Lemma shape_struct {A} ns (build : Mode → Table → option A) :
  NoDup ns → shapes build → shape (λ mode, de_struct mode ns (build mode)).
Proof.
  intros Hnd Hb path v. destruct v as [| | | | |items|t]; try done; try (by split; intros []).
  - rewrite expanded_array. cbn [de_struct]. rewrite length_expand_items, expand_items_zip by done.
    destruct (_ || _); [apply Hb|done].
  - rewrite expanded_table. cbn [de_struct]. rewrite known_expanded.
    destruct (forallb _ _); [apply Hb|done].
Qed.

Create HintDb config_reads.
#[local] Hint Resolve reads_str reads_bool reads_int reads_Secret reads_vec : config_reads.
#[local] Hint Resolve shape_str shape_bool shape_int shape_Secret shape_vec : config_reads.

(** Name the fields read, in the order of the struct. *)
Ltac split_fields H :=
  repeat match type of H with
  | mbind _ ?x = Some _ =>
      let E := fresh "E" in
      destruct x eqn:E; [cbn [mbind option_bind] in H|done]
  end.

(** Each field's two directions, from its reading; a default expands to itself. *)
Ltac field_facts mk Hu :=
  repeat match goal with
  | E : field FromText ?t ?name ?de ?m = Some ?a, T : field FromTree ?t ?name ?de ?m = Some _ |- _ =>
      let R := fresh "R" in let F := fresh "F" in let G := fresh "G" in
      eassert (reads de _) as R by eauto with config_reads;
      destruct (field_reads de _ mk t name m a R ltac:(by intros ? [= <-]) Hu E ltac:(by rewrite T))
        as [F G];
      clear R E T
  end.

(** A value whose fields are named in the goal, and the same after expansion. *)
Ltac after_expansion :=
  repeat match goal with
  | Hg : Forall _ ?l, F : Forall _ ?l → ∃ _, _ |- _ => destruct (F Hg) as (? & ? & ?); clear F
  end;
  simplify_eq;
  repeat match goal with
  | E : field FromTree _ _ _ _ = Some _ |- _ => rewrite E; clear E; cbn [mbind option_bind]
  | E : _ = Some _ |- context [mbind _ _] => rewrite E; clear E; cbn [mbind option_bind]
  end;
  by eexists.

Ltac before_expansion Hu Hk :=
  let c := fresh in let Hc := fresh in let Hx := fresh in
  intros Hx [c Hc];
  repeat match type of Hc with
  | mbind _ ?x = Some _ => destruct x eqn:?; [cbn [mbind option_bind] in Hc|done]
  end;
  repeat match goal with
  | G : leftover_ok FromTree = false → _ |- _ => specialize (G Hx ltac:(by eexists))
  end;
  apply (fields_good _ _ _ Hu Hk);
  repeat (apply Forall_cons; split; [assumption|]); apply Forall_nil; exact I.

(** The fields of a struct just built. *)
Ltac config_fields :=
  cbn [listen upstream upstream_ca tls_cert tls_key tls_key_passphrase tls_key_passphrase_file
       cfg_private_key rule_pattern rule_window_secs rule_max_requests rl_enabled
       rl_window_secs rl_max_requests rl_rules mtls_enabled client_ca mi_enabled machine_ca
       mi_required allowed_hostnames dns_ttl_secs dns_negative_ttl_secs dns_stale_grace_secs
       partial_chain pb_enabled allowed_ip_ranges allowed_subjects log_dir file_prefix
       log_level rotation max_files log_stderr proxy attestation rate_limiting mtls
       machine_identity proxy_bypass logging].

(** One struct: [spec] expands it. *)
Ltac struct_builds spec :=
  let mk := fresh "mk" in let t := fresh "t" in let a := fresh "a" in
  let Hu := fresh "Hu" in let Hk := fresh "Hk" in let Hv := fresh "Hv" in
  let c := fresh "c" in let Ht := fresh "Ht" in
  intros mk t a Hu Hk Hv [c Ht]; cbn beta in *;
  split_fields Hv; injection Hv as <-; split_fields Ht; clear Ht; field_facts mk Hu;
  unfold spec; config_fields; split; [intros Hg; after_expansion|before_expansion Hu Hk].

Ltac struct_shapes :=
  intros mk t; cbn beta;
  repeat (apply bind_shape; [apply field_shape; eauto with config_reads|intros ? ?]);
  by split; eexists.

Ltac distinct_names := by apply (bool_decide_unpack _); vm_compute.

Lemma reads_ProxyConfig : reads de_ProxyConfig (expand_ProxyConfig lookup).
Proof. apply reads_struct; [distinct_names|struct_builds expand_ProxyConfig]. Qed.
Lemma shape_ProxyConfig : shape de_ProxyConfig.
Proof. apply shape_struct; [distinct_names|struct_shapes]. Qed.

Lemma reads_AttestationConfig : reads de_AttestationConfig (expand_AttestationConfig lookup).
Proof. apply reads_struct; [distinct_names|struct_builds expand_AttestationConfig]. Qed.
Lemma shape_AttestationConfig : shape de_AttestationConfig.
Proof. apply shape_struct; [distinct_names|struct_shapes]. Qed.

Lemma reads_RuleConfig : reads de_RuleConfig (expand_RuleConfig lookup).
Proof. apply reads_struct; [distinct_names|struct_builds expand_RuleConfig]. Qed.
Lemma shape_RuleConfig : shape de_RuleConfig.
Proof. apply shape_struct; [distinct_names|struct_shapes]. Qed.
#[local] Hint Resolve reads_RuleConfig shape_RuleConfig : config_reads.

Lemma reads_RateLimitConfig : reads de_RateLimitConfig (expand_RateLimitConfig lookup).
Proof. apply reads_struct; [distinct_names|struct_builds expand_RateLimitConfig]. Qed.
Lemma shape_RateLimitConfig : shape de_RateLimitConfig.
Proof. apply shape_struct; [distinct_names|struct_shapes]. Qed.

Lemma reads_MtlsConfig : reads de_MtlsConfig (expand_MtlsConfig lookup).
Proof. apply reads_struct; [distinct_names|struct_builds expand_MtlsConfig]. Qed.
Lemma shape_MtlsConfig : shape de_MtlsConfig.
Proof. apply shape_struct; [distinct_names|struct_shapes]. Qed.

Lemma reads_MachineIdentityConfig :
  reads de_MachineIdentityConfig (expand_MachineIdentityConfig lookup).
Proof. apply reads_struct; [distinct_names|struct_builds expand_MachineIdentityConfig]. Qed.
Lemma shape_MachineIdentityConfig : shape de_MachineIdentityConfig.
Proof. apply shape_struct; [distinct_names|struct_shapes]. Qed.

Lemma reads_ProxyBypassConfig : reads de_ProxyBypassConfig (expand_ProxyBypassConfig lookup).
Proof. apply reads_struct; [distinct_names|struct_builds expand_ProxyBypassConfig]. Qed.
Lemma shape_ProxyBypassConfig : shape de_ProxyBypassConfig.
Proof. apply shape_struct; [distinct_names|struct_shapes]. Qed.

Lemma reads_LoggingConfig : reads de_LoggingConfig (expand_LoggingConfig lookup).
Proof. apply reads_struct; [distinct_names|struct_builds expand_LoggingConfig]. Qed.
Lemma shape_LoggingConfig : shape de_LoggingConfig.
Proof. apply shape_struct; [distinct_names|struct_shapes]. Qed.
#[local] Hint Resolve reads_ProxyConfig reads_AttestationConfig reads_RateLimitConfig
  reads_MtlsConfig reads_MachineIdentityConfig reads_ProxyBypassConfig reads_LoggingConfig
  : config_reads.
#[local] Hint Resolve shape_ProxyConfig shape_AttestationConfig shape_RateLimitConfig
  shape_MtlsConfig shape_MachineIdentityConfig shape_ProxyBypassConfig shape_LoggingConfig
  : config_reads.

Lemma reads_Config t c :
  unique_keys (VTable t) = true → de_Config FromText t = Some c → is_Some (de_Config FromTree t) →
  (Forall good (table_leaves t) →
     ∃ c', expand_Config lookup c = Some c'
           ∧ de_Config FromTree (table_map_strings (leaf_text lookup secrets) t) = Some c')
  ∧ (leftover_ok FromTree = false → is_Some (expand_Config lookup c) →
       Forall good (table_leaves t)).
Proof.
  intros Hu Hv Ht. rewrite table_leaves_entries, table_expanded_entries.
  unfold de_Config, de_struct in *. rewrite known_expanded.
  destruct (forallb _ _) eqn:Hk; [|done]. revert t c Hu Hk Hv Ht.
  cut (builds (names ["proxy"; "attestation"; "rate_limiting"; "mtls"; "machine_identity";
                      "proxy_bypass"; "logging"])
         (λ mode t, de_Config_fields mode t) (expand_Config lookup)); [intros Hb t c; apply Hb|].
  unfold de_Config_fields. struct_builds expand_Config.
Qed.

Lemma shape_Config t :
  is_Some (de_Config FromTree (table_map_strings (leaf_text lookup secrets) t))
  ↔ is_Some (de_Config FromTree t).
Proof.
  rewrite table_expanded_entries. unfold de_Config, de_struct. rewrite known_expanded.
  destruct (forallb _ _); [|done]. set (mk := λ k, "[" ++ k ++ "]"). clearbody mk.
  revert mk t. unfold de_Config_fields. struct_shapes.
Qed.
End Reads.

(** ** Where the two readings agree

    They differ on arrays that are longer than the struct they stand for; a
    document that writes its sections and rules as tables has none. *)

Definition is_table (v : Value) : Prop := match v with VTable _ => True | _ => False end.

Definition sections_are_tables (t : Table) : Prop :=
  ∀ name v, lookup_key t name = Some v → ∃ section, v = VTable section ∧
    ∀ rules, lookup_key section "rules" = Some (VArray rules) → Forall is_table rules.

Section Agree.
Context {seq_access : TomlSeq}.

(** What is read from the text, of a value with [P], can be read from the tree. *)
Definition agrees {A} (P : Value → Prop) (de : Mode → Value → option A) : Prop :=
  ∀ v, P v → is_Some (de FromText v) → is_Some (de FromTree v).

Lemma bind_agree {A B A' B'} (x : option A) (y : option A') (f : A → option B) (g : A' → option B') :
  (is_Some x → is_Some y) → (∀ a b, is_Some (f a) → is_Some (g b)) →
  is_Some (x ≫= f) → is_Some (y ≫= g).
Proof.
  intros Hxy Hfg Hs. destruct x as [a|]; [|by destruct Hs].
  destruct y as [b|]; [by eapply Hfg|by destruct (Hxy ltac:(by eexists))].
Qed.

Lemma field_agree {A} P (de : Mode → Value → option A) t name missing :
  agrees P de → (∀ v, lookup_key t name = Some v → P v) →
  is_Some (field FromText t name de missing) → is_Some (field FromTree t name de missing).
Proof. intros Ha HP. unfold field. destruct (lookup_key t name); [apply Ha; auto|done]. Qed.

Lemma agree_str P : agrees P de_str.
Proof. intros [] _ Hs; done || by destruct Hs. Qed.
Lemma agree_bool P : agrees P de_bool.
Proof. by intros [] _. Qed.
Lemma agree_int P lo hi : agrees P (de_int lo hi).
Proof. by intros [] _. Qed.
Lemma agree_Secret P : agrees P de_Secret.
Proof. intros v Hv. apply bind_agree; [by apply (agree_str P)|]. by eexists. Qed.

Definition items_are (P : Value → Prop) (v : Value) : Prop := ∀ items, v = VArray items → Forall P items.

Lemma agree_vec {A} P (de : Mode → Value → option A) : agrees P de → agrees (items_are P) (de_vec de).
Proof.
  intros Ha v Hv. destruct v as [| | | | |items|]; try done. specialize (Hv items eq_refl).
  unfold de_vec. induction Hv as [|v items Hv _ IH]; [done|]. cbn [mapM].
  apply bind_agree; [by apply Ha|]. intros ? ?. apply bind_agree; [exact IH|]. by eexists.
Qed.

Lemma agree_strs P : agrees P (de_vec de_str).
Proof.
  intros v _. apply (agree_vec (λ _, True)); [apply agree_str|]. intros items _. by apply Forall_true.
Qed.

Create HintDb config_agree.
#[local] Hint Resolve agree_str agree_bool agree_int agree_Secret agree_vec agree_strs : config_agree.

(** One struct, from a table; [P] holds of its fields. *)
Ltac struct_agree P :=
  let v := fresh "v" in intros v ?; destruct v; try done; cbn [de_struct] in *;
  destruct (forallb _ _); [|done];
  repeat (apply bind_agree;
            [apply (field_agree P); [eauto with config_agree|by auto]|intros ? ?]);
  by eexists.
Definition any (v : Value) : Prop := True.

Lemma agree_ProxyConfig : agrees is_table de_ProxyConfig.
Proof. unfold de_ProxyConfig. struct_agree any. Qed.
Lemma agree_AttestationConfig : agrees is_table de_AttestationConfig.
Proof. unfold de_AttestationConfig. struct_agree any. Qed.
Lemma agree_RuleConfig : agrees is_table de_RuleConfig.
Proof. unfold de_RuleConfig. struct_agree any. Qed.
Lemma agree_MtlsConfig : agrees is_table de_MtlsConfig.
Proof. unfold de_MtlsConfig. struct_agree any. Qed.
Lemma agree_MachineIdentityConfig : agrees is_table de_MachineIdentityConfig.
Proof. unfold de_MachineIdentityConfig. struct_agree any. Qed.
Lemma agree_ProxyBypassConfig : agrees is_table de_ProxyBypassConfig.
Proof. unfold de_ProxyBypassConfig. struct_agree any. Qed.
Lemma agree_LoggingConfig : agrees is_table de_LoggingConfig.
Proof. unfold de_LoggingConfig. struct_agree any. Qed.

Definition rules_are_tables (v : Value) : Prop :=
  ∃ section, v = VTable section ∧
    ∀ rules, lookup_key section "rules" = Some (VArray rules) → Forall is_table rules.

Lemma agree_RateLimitConfig : agrees rules_are_tables de_RateLimitConfig.
Proof.
  intros v (t & -> & Hr). unfold de_RateLimitConfig. cbn [de_struct]. destruct (forallb _ _); [|done].
  do 3 (apply bind_agree; [apply (field_agree any); [eauto with config_agree|done]|intros ? ?]).
  apply bind_agree; [|by eexists].
  apply (field_agree (items_are is_table)); [apply agree_vec, agree_RuleConfig|].
  intros v Hv items ->. by apply Hr.
Qed.

Lemma is_table_section v : rules_are_tables v → is_table v.
Proof. by intros (? & -> & _). Qed.

(** No array stands for a struct: what becomes of the rest of one does not matter. *)
Section Same.
Context {other : TomlSeq}.

Lemma struct_same {A} mode ns (build : Table → option A) v :
  is_table v →
  de_struct (H := seq_access) mode ns build v = de_struct (H := other) mode ns build v.
Proof. by destruct v. Qed.

Lemma field_same {A} (P : Value → Prop) (de de' : Mode → Value → option A) mode t name missing :
  (∀ v, P v → de mode v = de' mode v) → (∀ v, lookup_key t name = Some v → P v) →
  field mode t name de missing = field mode t name de' missing.
Proof. intros He HP. unfold field. destruct (lookup_key t name); auto. Qed.

Lemma rate_limit_same mode v :
  rules_are_tables v →
  de_RateLimitConfig (H := seq_access) mode v = de_RateLimitConfig (H := other) mode v.
Proof.
  intros (t & -> & Hr). unfold de_RateLimitConfig. cbn [de_struct]. destruct (forallb _ _); [|done].
  repeat (apply option_bind_ext_fun; intros ?). f_equal. unfold field.
  destruct (lookup_key t "rules") as [v|]; [|done]. destruct v as [| | | | |items|]; try done.
  specialize (Hr items eq_refl). cbn [de_vec]. induction Hr as [|v items Hv _ IH]; [done|].
  cbn [mapM]. rewrite IH. unfold de_RuleConfig. by rewrite struct_same.
Qed.

Lemma config_same mode t :
  sections_are_tables t → de_Config (H := seq_access) mode t = de_Config (H := other) mode t.
Proof.
  intros Ht. unfold de_Config. cbn [de_struct]. destruct (forallb _ _); [|done]. unfold de_Config_fields.
  assert (∀ name v, lookup_key t name = Some v → is_table v) as Hs
    by (intros name v Hv; by eapply is_table_section, Ht).
  repeat (apply option_bind_ext;
    [intros ?|first
      [by apply (field_same rules_are_tables); [intros ? ?; by apply rate_limit_same|apply Ht]
      |by apply (field_same is_table); [intros ? ?; by apply struct_same|apply Hs]]]).
  done.
Qed.
End Same.

Lemma agrees_section {A} (de : Mode → Value → option A) :
  agrees is_table de → agrees rules_are_tables de.
Proof. intros Ha v Hv. by apply Ha, is_table_section. Qed.

Lemma agree_Config t :
  sections_are_tables t → is_Some (de_Config FromText t) → is_Some (de_Config FromTree t).
Proof.
  intros Ht. unfold de_Config. cbn [de_struct]. destruct (forallb _ _); [|done]. unfold de_Config_fields.
  repeat (apply bind_agree;
    [apply (field_agree rules_are_tables); [|by apply Ht]; (apply agree_RateLimitConfig ||
       (apply agrees_section;
        first [apply agree_ProxyConfig|apply agree_AttestationConfig|apply agree_MtlsConfig
              |apply agree_MachineIdentityConfig|apply agree_ProxyBypassConfig
              |apply agree_LoggingConfig]))|intros ? ?]).
  by eexists.
Qed.
End Agree.
(** ** Parsing *)

(** A reader that lets nothing go by. *)
Definition counting : TomlSeq := {| leftover_ok _ := false |}.

(** Of sections written as tables, the strings are those of the config. *)
Lemma tables_expand {seq_access : TomlSeq} t c lookup :
  unique_keys (VTable t) = true → sections_are_tables t → de_Config FromText t = Some c →
  is_Some (expand_Config lookup c) ↔ leaf_errors lookup SECRET_SETTINGS (table_leaves t) = [].
Proof.
  intros Hu Ht Hc. rewrite (config_same (other := counting)) in Hc by done.
  pose proof (agree_Config (seq_access := counting) t Ht ltac:(by rewrite Hc)) as Htree.
  destruct (reads_Config (seq_access := counting) lookup SECRET_SETTINGS t c Hu Hc Htree) as [Hf Hb].
  destruct (leaf_errors_nil lookup SECRET_SETTINGS (table_leaves t)) as [Hnil Hgood].
  split; [intros Hx; by apply Hgood, Hb|]. intros He. destruct (Hf (Hnil He)) as (c' & -> & _). by eexists.
Qed.

Section Parsing.
Context {seq_access : TomlSeq}.
Variable toml_table : str → result Table str.
Variable type_error : Table → str.
Hypothesis toml_keys : ∀ text t, toml_table text = Ok t → unique_keys (VTable t) = true.

(** The second reading, of the expanded tree, of a tree it accepts as written. *)
Lemma second_reading text t c lookup :
  toml_table text = Ok t → de_Config FromText t = Some c → is_Some (de_Config FromTree t) →
  leaf_errors lookup SECRET_SETTINGS (table_leaves t) = [] →
  ∃ c', expand_Config lookup c = Some c' ∧
    de_Config FromTree (table_map_strings (leaf_text lookup SECRET_SETTINGS) t) = Some c'.
Proof.
  intros Ht Hc Htree He.
  destruct (reads_Config lookup SECRET_SETTINGS t c (toml_keys _ _ Ht) Hc Htree) as [Hf _].
  apply Hf. by apply leaf_errors_nil.
Qed.

(** What is parsed of a text that is read as [c]. *)
Lemma parse_read text t c lookup :
  toml_table text = Ok t → de_Config FromText t = Some c →
  parse toml_table type_error text lookup =
    match leaf_errors lookup SECRET_SETTINGS (table_leaves t),
          de_Config FromTree t, expand_Config lookup c with
    | [], Some _, Some c' => Ok c'
    | [], _, _ => Err AFTER_EXPANSION
    | errors, _, _ => Err (join "; " errors)
    end.
Proof.
  intros Ht Hc. unfold parse, Config_parse, toml_typed. rewrite Ht, Hc. cbn [ok_or].
  unfold expand. rewrite expand_table_eq.
  pose proof (second_reading text t c lookup Ht Hc) as Hs.
  pose proof (shape_Config lookup SECRET_SETTINGS t) as Hshape.
  destruct (leaf_errors _ _ _) as [|e es]; [|done]. cbn [is_empty].
  destruct (de_Config FromTree t) as [ct|] eqn:Htree.
  - destruct Hs as (c' & -> & ->); [by eexists|done..].
  - set (t' := table_map_strings _ t) in *. destruct (de_Config FromTree t') as [c'|]; [|done].
    destruct (proj1 Hshape ltac:(by eexists)) as [? [=]].
Qed.

(** A config that was parsed is what the text says, expanded. *)
Lemma parsed_config text lookup cfg :
  parse toml_table type_error text lookup = Ok cfg →
  ∃ t c, toml_table text = Ok t ∧ de_Config FromText t = Some c ∧
         expand_Config lookup c = Some cfg.
Proof.
  intros Hp. destruct (toml_table text) as [t|e] eqn:Ht;
    [|by unfold parse, Config_parse, toml_typed in Hp; rewrite Ht in Hp].
  destruct (de_Config FromText t) as [c|] eqn:Hc;
    [|by unfold parse, Config_parse, toml_typed in Hp; rewrite Ht, Hc in Hp].
  rewrite (parse_read text t c lookup Ht Hc) in Hp. exists t, c. do 2 (split; [done|]).
  destruct (leaf_errors _ _ _); [|done]. destruct (de_Config FromTree t); [|done].
  destruct (expand_Config lookup c); congruence.
Qed.

(** Claim C30. What [Config::parse] returns, for every text and environment: the
    parser's error; else the type error of the text as written; else the failing
    settings, if any reference does not resolve; else exactly the config the text
    says with each of its strings expanded in place and every number, switch and
    list as written, or, when the second reading refuses the tree even as written,
    the error that blames the proxy.  When the sections and the rules are written
    as tables it never refuses what the first reading accepted, so that error
    cannot occur, and a setting fails exactly when some string of the config does
    not expand. *)
Theorem config_parse_expands text lookup :
  parse toml_table type_error text lookup =
    (let? t := toml_table text in
     match de_Config FromText t with
     | None => Err (type_error t)
     | Some c =>
         match leaf_errors lookup SECRET_SETTINGS (table_leaves t),
               de_Config FromTree t, expand_Config lookup c with
         | [], Some _, Some c' => Ok c'
         | [], _, _ => Err AFTER_EXPANSION
         | errors, _, _ => Err (join "; " errors)
         end
     end) ∧
  ∀ t c, toml_table text = Ok t → de_Config FromText t = Some c →
    let errors := leaf_errors lookup SECRET_SETTINGS (table_leaves t) in
    (is_Some (de_Config FromTree t) → errors = [] → is_Some (expand_Config lookup c)) ∧
    (sections_are_tables t →
       is_Some (de_Config FromTree t) ∧ (is_Some (expand_Config lookup c) ↔ errors = [])).
Proof.
  split.
  - destruct (toml_table text) as [t|e] eqn:Ht;
      [|by unfold parse, Config_parse, toml_typed; rewrite Ht].
    destruct (de_Config FromText t) as [c|] eqn:Hc;
      [|by unfold parse, Config_parse, toml_typed; rewrite Ht, Hc].
    exact (parse_read text t c lookup Ht Hc).
  - intros t c Ht Hc. cbv zeta. split.
    { intros Htree He. destruct (second_reading text t c lookup Ht Hc Htree He) as (c' & -> & _).
      by eexists. }
    intros Hs. split; [by apply agree_Config; [|rewrite Hc]|].
    by eapply tables_expand; [eapply toml_keys|..].
Qed.
End Parsing.

Section Examples.
#[local] Existing Instances ToyToml.seq.

(** A text that sets the listening address from the environment, and names a
    passphrase from it. *)
Definition sample_tree : Table :=
  [("proxy" : str, VTable
      [("listen" : str, VString "${HOST}:8443"); ("upstream" : str, VString "10.0.0.7:443");
       ("tls_key_passphrase" : str, VString "$$${PASS}")]);
   ("logging" : str, VTable [("max_files" : str, VInteger 3)])].

(** The same, its sections written as arrays, one of them too long. *)
Definition positional_tree (logging : list Value) : Table :=
  [("proxy" : str, VArray
      [VString "${HOST}:8443"; VString "10.0.0.7:443"; VString []; VString []; VString [];
       VString "$$${PASS}"]);
   ("mtls" : str, VArray logging)].

Definition sample_env : Lookup := λ name,
  if decide (name = ("HOST" : str)) then Ok ("0.0.0.0" : str)
  else if decide (name = ("PASS" : str)) then Ok ("s3cret${HOST}" : str) else Err NotPresent.

Definition sample_parse (t : Table) : result Config str :=
  parse (λ _, Ok t) (λ _, []) [] sample_env.

Definition summary (r : result Config str) : result (str * str * Z) str :=
  match r with
  | Ok c => Ok (listen (proxy c), secret_value (tls_key_passphrase (proxy c)), max_files (logging c))
  | Err e => Err e
  end.

Example positional_parse :
  summary (sample_parse (positional_tree [VBoolean false]))
  = Ok ("0.0.0.0:8443" : str, "$s3cret${HOST}" : str, max_files LoggingConfig_default).
Proof. vm_compute. reflexivity. Qed.

Example too_long_parse :
  sample_parse (positional_tree [VBoolean false; VString "ca.pem"; VInteger 0]) = Err AFTER_EXPANSION.
Proof. vm_compute. reflexivity. Qed.

(** In a section written as an array, the passphrase is not under the path that
    [SECRET_SETTINGS] lists. *)
Example positional_secret :
  sample_parse [("proxy" : str, VArray (repeat (VString []) 5 ++ [VString "${hunter2}"]))]
  = Err (("[proxy][5]: environment variable `hunter2` is not set" : str)) ∧
  sample_parse [("proxy" : str, VTable [("tls_key_passphrase" : str, VString "${hunter2}")])]
  = Err ("[proxy].tls_key_passphrase: a referenced environment variable is not set" : str).
Proof. split; vm_compute; reflexivity. Qed.

Lemma config_parse_expands_witness :
  summary (sample_parse sample_tree) = Ok ("0.0.0.0:8443" : str, "$s3cret${HOST}" : str, 3) ∧
  is_Some (de_Config FromTree sample_tree).
Proof.
  destruct (config_parse_expands (λ _, Ok sample_tree) (λ _, []) ltac:(by intros ? t [= <-]) []
              sample_env) as [Hp Ht].
  assert (∃ c, de_Config FromText sample_tree = Some c) as [c Hc]
    by (eexists; vm_compute; reflexivity).
  split.
  - unfold sample_parse. rewrite Hp. vm_compute. reflexivity.
  - apply (proj2 (Ht sample_tree c eq_refl Hc)).
    intros name v Hv. unfold sample_tree in Hv. cbn [lookup_key] in Hv.
    repeat case_decide; simplify_eq; by eexists.
Defined.
End Examples.
