(* ===== verification/Deployment.v ===== *)
(** From the configuration file to a request that goes upstream: what startup
    made of the text is what every request was checked by, however many the
    server ran. *)

From S2P Require Import Prelude Net Attest AttestCache AttestToken Config ConfigEnv ConfigTypes ConfigParse AuditTypes RateLimit RateLimitFacts Mtls MtlsFacts Passthrough Machine MachineFacts AuditLog AuditTime AuditFacts Tls TlsFacts Proxy ProxyStages ProxyFacts ProxyServer ServerReplay ServerRuns ServerDns ServerLimits Logging LoggingFacts Startup StartupFacts.

Section Deployment.
Context `{Crypto, GlobOps, RateLaws, IpNetOps, X509Ops, !MachineTls, Calendar, HttpOps, PKeyOps,
          LogOps, !CertCompare, !ListenerOps}.
Context {seq_access : TomlSeq}.
Variables (debug_str parse_u16_error : str → str) (show_ip : IpAddr → str).
Variable toml_table : str → result Table str.
Variable type_error : Table → str.
Hypothesis toml_keys : ∀ text t, toml_table text = Ok t → unique_keys (VTable t) = true.
Variables (read read_to_string : str → result str str) (env_var : Lookup).

(** [Config::load], with the typed reading. *)
Definition load_config : str → result Config str :=
  Config_load (toml_typed toml_table type_error) toml_table (de_Config FromTree) read_to_string
    env_var.

(** The file at [path] says [cfg]: its text, read as written, with the
    environment's values in its strings. *)
Definition file_says (path : str) (cfg : Config) : Prop :=
  ∃ text t c, read_to_string path = Ok text ∧ toml_table text = Ok t ∧
    de_Config FromText t = Some c ∧ expand_Config env_var c = Some cfg.

Lemma loaded_says path cfg : load_config path = Ok cfg → file_says path cfg.
Proof.
  unfold load_config, Config_load, map_err. intros Hl.
  destruct (read_to_string path) as [text|] eqn:Hr; [|done].
  destruct (Config_parse _ _ _ text env_var) as [c'|] eqn:Hp; [|done]. injection Hl as ->.
  destruct (parsed_config toml_table type_error toml_keys text env_var cfg Hp) as (t & c & ? & ? & ?).
  by exists text, t, c.
Qed.

(** The windows of a section that has been read are [u64]s. *)
Lemma field_ok {A} (P : A → Prop) mode t name de missing x :
  (∀ v y, de mode v = Some y → P y) → (∀ y, missing = Some y → P y) →
  @field A mode t name de missing = Some x → P x.
Proof. unfold field. case_match; eauto. Qed.

Lemma de_u64_nonneg mode v n : de_u64 mode v = Some n → 0 ≤ n.
Proof.
  unfold de_u64, de_int. intros Hn. repeat case_match; simplify_eq.
  unfold in_range in *. lia.
Qed.

Lemma mapM_each {A B} (f : A → option B) (P : B → Prop) l k :
  (∀ x y, f x = Some y → P y) → mapM f l = Some k → Forall P k.
Proof. intros Hf Hm%mapM_Some. induction Hm; constructor; eauto. Qed.

(** By name or by position, the fields come from some table. *)
Lemma struct_built {A} mode ns (build : Table → option A) v x :
  de_struct mode ns build v = Some x → ∃ t, build t = Some x.
Proof. unfold de_struct. intros Hx. repeat case_match; eauto; done. Qed.

Lemma rates_typed mode v c : de_RateLimitConfig mode v = Some c → rate_config_typed c.
Proof.
  intros Hc%struct_built. destruct Hc as [t Hc]. cbv beta in Hc. simplify_option_eq. split; cbn.
  - eapply (field_ok (Z.le 0)); [apply de_u64_nonneg| |done]. by intros ? [= <-].
  - eapply (field_ok (Forall _)); [| |done]; [|by intros ? [= <-]].
    unfold de_vec. intros v1 rs Hrs. case_match; try done. revert Hrs. apply mapM_each. clear.
    intros v1 r Hr%struct_built. destruct Hr as [t Hr]. cbv beta in Hr. simplify_option_eq.
    by eapply (field_ok (Z.le 0)); [apply de_u64_nonneg| |eassumption].
Qed.

Lemma says_typed path cfg : file_says path cfg → rate_config_typed (rate_limiting cfg).
Proof.
  intros (text & t & c & _ & _ & Hde & Hex).
  assert (rate_config_typed (rate_limiting c)) as [Hw Hrs].
  { unfold de_Config in Hde. apply struct_built in Hde as [t' Hde]. unfold de_Config_fields in Hde. simplify_option_eq.
    eapply field_ok; [apply rates_typed| |done]. intros ? [= <-]. split; [done|constructor]. }
  unfold expand_Config in Hex. simplify_option_eq. cbn.
  match goal with He : expand_RateLimitConfig _ _ = Some _ |- _ =>
    unfold expand_RateLimitConfig in He; simplify_option_eq end.
  split; [exact Hw|]. cbn.
  match goal with Hm : mapM _ _ = Some _ |- _ => apply mapM_Some in Hm; induction Hm as [|rc r ??? _ IH] end;
    [constructor|].
  apply Forall_cons in Hrs as [Hrc Hrs]. constructor; [|by apply IH].
  unfold expand_RuleConfig in *. by simplify_option_eq.
Qed.

(** ** What a request showed, in terms of the configuration *)

(** It came through the bypass: mutual TLS, a listed range, a listed name. *)
Definition by_bypass (cfg : Config) (a : Acceptor) (d : Done) : Prop :=
  pb_enabled (proxy_bypass cfg) = true ∧ ac_requires_client_cert a = true ∧
  ∃ ip cert name range net,
    client_ip (w_session (dn_start d)) = Some ip ∧ ss_cert (w_session (dn_start d)) = Some cert ∧
    (range ∈ allowed_ip_ranges (proxy_bypass cfg) ∧ parse_net range = Ok net ∧
     net_contains net ip = true) ∧
    name ∈ allowed_subjects (proxy_bypass cfg) ∧
    (common_name cert = Some name ∨ name ∈ san_dns cert).

(** Its token opens with the configured key to exactly this request, and the body
    is the one the token binds. *)
Definition by_token (cfg : Config) (d : Done) : Prop :=
  ∃ v0 v i p1,
    Verifier_from_config read_to_string (cfg_private_key (attestation cfg)) = Ok v0 ∧
    private_key v = private_key v0 ∧ inputs_of (ss_request (w_session (dn_start d))) i ∧
    verify_headers v (clk_arrival (dn_env d)) i = Ok p1 ∧
    body_accepted p1 (w_session (dn_start d)) (w_session (dn_end d)).

(** Its workstation holds a certificate that chains to the configured CA and
    names an allowed host, and it came from an address the resolver gave for that
    host, to this request or, within the configured times, to another. *)
Definition by_machine (cfg : Config) (s : Server) (d : Done) : Prop :=
  let mc := machine_identity cfg in
  ∃ cas st gs cert der x vm a addrs,
    machine_section read mc cas st gs ∧
    header_str (headers (ss_request (w_session (dn_start d)))) MACHINE_CERT_HEADER = Some cert ∧
    base64_decode (trim cert) = Some der ∧ from_der der = Some x ∧
    (∃ code why, verify_chain st x = Ok (true, code, why)) ∧
    (allowed_hostnames mc = [] ∨
     ∃ p g, p ∈ allowed_hostnames mc ∧ glob_new p = Ok g ∧ is_match g (hostname vm) = true) ∧
    (to_ascii_lowercase <$> common_name (from_cert x)) = Some (hostname vm) ∧
    client_ip (w_session (dn_start d)) = Some a ∧ a ∈ addrs ∧
    (resolver (dn_env d) (hostname vm) = Some addrs ∨
     ∃ e, e ∈ envs s ∧ resolver e (hostname vm) = Some addrs ∧
       (duration_since (dns_asked (dn_env d)) (dns_found e) < from_secs (dns_ttl_secs mc) ∨
        (resolver (dn_env d) (hostname vm) = None ∧
         duration_since (dns_found (dn_env d)) (dns_found e)
           < from_secs (dns_ttl_secs mc) + from_secs (dns_stale_grace_secs mc)))).

(** ** The parts *)

Lemma bypassed_by_config cfg l now args p d :
  configured debug_str read read_to_string env_var now args cfg l → same_config (ls_proxy l) p →
  p = w_proxy (dn_start d) → bypassed (dn_start d) (dn_end d) →
  by_bypass cfg (ls_acceptor l) d.
Proof.
  intros Hc Hs -> (_ & _ & _ & policy & ip & cert & name & Hpo & Hip & Hce & Hau).
  rewrite (sc_bypass _ _ Hs) in Hpo.
  destruct (cf_bypass _ _ _ _ _ _ _ _ Hc) as [Hfrom Hpol]. rewrite Hpo in Hfrom.
  destruct (Hpol policy Hpo) as (He & Hreq & _).
  destruct (authorizes_names _ _ _ _ _ _ _ Hfrom Hau) as ((r & net & Hr) & Hn & Hcn).
  do 2 (split; [done|]). by exists ip, cert, name, r, net.
Qed.

Lemma attested_by_config cfg l now args d i p1 :
  configured debug_str read read_to_string env_var now args cfg l →
  same_config (ls_proxy l) (w_proxy (dn_start d)) →
  attested (dn_env d) (dn_start d) (dn_end d) i p1 → by_token cfg d.
Proof.
  intros Hc Hs [_ Hi Hv _ _ Hb]. exists (verifier (ls_proxy l)), (verifier (w_proxy (dn_start d))), i, p1.
  split; [apply (cf_key _ _ _ _ _ _ _ _ Hc)|]. by rewrite (sc_key _ _ Hs).
Qed.

(** What two machine identities that differ in their caches share. *)
Lemma static_fields m m' :
  set_dns_cache m' ∅ = set_dns_cache m ∅ →
  store m' = store m ∧ allowed m' = allowed m ∧ required m' = required m ∧
  dns_ttl m' = dns_ttl m ∧ dns_stale_grace m' = dns_stale_grace m.
Proof. destruct m, m'. by intros [= -> -> -> -> -> -> ->]. Qed.

Lemma allowed_by_pattern cfg cas st gs h :
  machine_section read cfg cas st gs →
  (gs = [] ∨ ∃ g, g ∈ gs ∧ is_match g h = true) →
  allowed_hostnames cfg = [] ∨
  ∃ p g, p ∈ allowed_hostnames cfg ∧ glob_new p = Ok g ∧ is_match g h = true.
Proof.
  intros [_ _ _ Hgs] [->|(g & Hg & Hm)]; [left; by apply Forall2_nil_inv_r in Hgs|right].
  apply list_elem_of_lookup in Hg as [j Hj].
  destruct (Forall2_lookup_r _ _ _ _ _ Hgs Hj) as (p & Hp & _ & Hn).
  exists p, g. split; [by eapply list_elem_of_lookup_2|done].
Qed.

Lemma machine_by_config cfg l now args tol s d m :
  configured debug_str read read_to_string env_var now args cfg l →
  server_reachable debug_str show_ip tol (ls_proxy l) s → d ∈ sv_done s → forwarded_on_token d →
  same_config (ls_proxy l) (w_proxy (dn_start d)) →
  px_machine (ls_proxy l) = Some m → machine_present (dn_start d) = true → by_machine cfg s d.
Proof.
  intros Hc Hs Hd Hf Hsc Hm Hmp. destruct (cf_machine _ _ _ _ _ _ _ _ Hc) as (Hfrom & _ & Hmi).
  rewrite Hm in Hfrom. destruct (from_config_built _ _ _ _ Hfrom) as (Hsec & _ & _ & Ht & _ & Hg).
  destruct (static_machine_some _ _ _ Hsc Hm) as (m' & Hm' & Heq).
  destruct (static_fields _ _ Heq) as (Est & Eal & _ & Ettl & Egr).
  assert (∀ m, px_machine (ls_proxy l) = Some m → dns_cache m = ∅) as Hempty
    by (intros m0 Hm0; by destruct (Hmi m0 Hm0)).
  destruct (forwarded_answered _ _ _ _ _ _ Hs Hempty Hd Hf m' Hm' Hmp)
    as (cert & vm & a & addrs & Hh & Hv & Ha & Hin & Hu).
  apply (verify_cert_ok debug_str) in Hv as (x & cn & [(der & Hb & Hx) [Hcn _] _ Hhost Hal Hch _]).
  rewrite Est in Hch. rewrite Eal in Hal.
  exists (machine_ca_certs m), (store m), (allowed m), cert, der, x, vm, a, addrs.
  do 5 (split; [done|]). split; [by eapply allowed_by_pattern|].
  split; [by rewrite Hcn; cbn; rewrite Hhost|]. do 2 (split; [done|]).
  rewrite <-Ht, <-Hg, <-Ettl, <-Egr.
  destruct Hu as [|(t & (e & ? & ? & <-) & ?)]; [by left|right]. by exists e.
Qed.

(** Claim C3. A proxy enforces the file it was started from. When startup got as
    far as listening, the file's text, read as written and with the environment's
    values in its strings, is a configuration such that in every state of the
    server, whatever requests arrived and however they ran, the file's rate
    limits hold for the arrivals, and each request that went upstream came through
    the bypass the file enables, over required client certificates, from a listed
    range and with a listed name; or its token opens with the file's attestation
    key to exactly this request and its body, and, where the file enables machine
    identity, its machine certificate chains to the file's CA, names a host of the
    file's patterns, and came from an address the resolver gave for that host
    within the file's times, or the file does not require one and none was sent. *)
Theorem deployed_proxy_enforces_its_file now args l tol clk s :
  startup debug_str parse_u16_error read read_to_string load_config env_var now args = Ok l →
  clock_ok clk → now ≤ instant clk →
  rtc (server_step debug_str show_ip tol) (server_start (ls_proxy l) clk) s →
  ∃ cfg, file_says (config_path args) cfg ∧
    caps_enforced debug_str show_ip (rate_limiting cfg) (ls_proxy l) s ∧
    ∀ d, d ∈ sv_done s → dn_answered d = false →
      by_bypass cfg (ls_acceptor l) d ∨
      by_token cfg d ∧
      (mi_enabled (machine_identity cfg) = true →
       if machine_present (dn_start d) then by_machine cfg s d
       else mi_required (machine_identity cfg) = false).
Proof.
  intros Hl Hclk Hnow Hrun. destruct (startup_listens _ _ _ _ _ _ _ _ _ Hl) as (cfg & Hload & Hc).
  assert (server_reachable debug_str show_ip tol (ls_proxy l) s) as Hs
    by (exists clk; split; [done|]; split; [apply (cf_cache _ _ _ _ _ _ _ _ Hc)|done]).
  exists cfg. apply loaded_says in Hload. split; [done|]. split.
  { eapply configured_caps; [by eapply says_typed|apply (cf_rate _ _ _ _ _ _ _ _ Hc)|done..]. }
  intros d Hd Ha.
  destruct (done_outcome debug_str show_ip tol (ls_proxy l) s d Hs Hd) as [Hsc Ho].
  rewrite Ha in Ho. destruct Ho as [_ [Hb|(i & p1 & Hat)]]; [left; by eapply bypassed_by_config|right].
  split; [by eapply attested_by_config|]. intros He.
  destruct (cf_machine _ _ _ _ _ _ _ _ Hc) as (_ & Hen & Hmi). rewrite He in Hen.
  apply bool_decide_eq_true in Hen as [m Hm].
  destruct (machine_present (dn_start d)) eqn:Hmp.
  - eapply machine_by_config; try done. split; [done|apply (ad_action _ _ _ _ _ Hat)].
  - destruct (static_machine_some _ _ _ Hsc Hm) as (m' & Hm' & Heq).
    pose proof (ad_machine _ _ _ _ _ Hat m' Hm') as Hreq. rewrite Hmp in Hreq.
    destruct (static_fields _ _ Heq) as (_ & _ & E & _). destruct (Hmi m Hm) as (_ & Er & _).
    congruence.
Qed.
End Deployment.

(** ** From a file to a forwarded request *)

Section Examples.
#[local] Existing Instances Toy.crypto Toy.laws ToyRate.globs ToyRate.ops ToyRate.laws ToyNet.nets
  ToyMachine.x509 ToyMachine.tls Gregorian.calendar Gregorian.calendar_laws ToyHttp.http
  ToyKeys.keys ToyLog.ops ToyListener.compare_certs ToyListener.listener ToyToml.seq.

(** [full_config], its upstream taken from the environment. *)
Definition full_tree : Table :=
  [("proxy" : str, VTable
      [("listen" : str, VString ":8443"); ("upstream" : str, VString "${UPSTREAM}:443");
       ("tls_cert" : str, VString "cert.pem"); ("tls_key" : str, VString "key.pem")]);
   ("attestation" : str, VTable [("private_key" : str, VString "attest.pem")]);
   ("mtls" : str, VTable
      [("enabled" : str, VBoolean true); ("client_ca" : str, VString "users.pem")]);
   ("machine_identity" : str, VTable
      [("machine_ca" : str, VString "ca.pem");
       ("allowed_hostnames" : str, VArray [VString "ws*"]); ("dns_ttl_secs" : str, VInteger 100);
       ("dns_negative_ttl_secs" : str, VInteger 10);
       ("dns_stale_grace_secs" : str, VInteger 50)]);
   ("proxy_bypass" : str, VTable
      [("enabled" : str, VBoolean true);
       ("allowed_ip_ranges" : str, VArray [VString "10.0.0.0/8"]);
       ("allowed_subjects" : str, VArray [VString "healthcheck"])])].

Definition sample_table (text : str) : result Table str :=
  if decide (text = ("the text" : str)) then Ok full_tree else Ok [].
Definition sample_disk (path : str) : result str str :=
  if decide (path = ("proxy.toml" : str)) then Ok ("the text" : str)
  else sample_files "users" path.
Definition upstream_env : Lookup := λ name,
  if decide (name = ("UPSTREAM" : str)) then Ok ("backend" : str) else Err NotPresent.

Definition sample_deployed : result Listening Exit :=
  startup quote quote sample_disk sample_disk
    (load_config sample_table (λ _, []) sample_disk upstream_env) upstream_env 0 sample_args.

Notation sample_says := (file_says sample_table sample_disk upstream_env).

Lemma sample_keys text t : sample_table text = Ok t → unique_keys (VTable t) = true.
Proof. unfold sample_table. case_decide; intros [= <-]; reflexivity. Qed.

Lemma sample_file cfg : sample_says "proxy.toml" cfg → cfg = full_config.
Proof.
  intros (text & t & c & Ht & Htab & Hde & Hex).
  change (Ok (E := str) ("the text" : str) = Ok text) in Ht. injection Ht as <-.
  change (Ok (E := str) full_tree = Ok t) in Htab. injection Htab as <-.
  assert (de_Config FromText full_tree ≫= expand_Config upstream_env = Some full_config) as E
    by (vm_compute; reflexivity).
  rewrite Hde in E. cbn in E. congruence.
Qed.

(** The request of [ws1] to the deployed proxy. *)
Definition sample_request (l : Listening) : World := sample_world sample_ts (ls_proxy l).

Lemma deployed_proxy_enforces_its_file_witness :
  ∃ l s d, sample_deployed = Ok l ∧
    rtc (server_step quote ip_text 0) (server_start (ls_proxy l) Toy.clk) s ∧
    d ∈ sv_done s ∧ dn_answered d = false ∧
    caps_enforced quote ip_text (rate_limiting full_config) (ls_proxy l) s ∧
    by_token sample_disk full_config d ∧ by_machine sample_disk full_config s d.
Proof.
  assert (match sample_deployed with
          | Ok l => negb (sample_served (sample_request l)).2 | Err _ => false
          end = true) as Hup by (vm_compute; reflexivity).
  destruct sample_deployed as [l|x] eqn:Hl; [|discriminate Hup].
  destruct (serve_alone quote ip_text 0 (server_start (ls_proxy l) Toy.clk) (sample_request l) dns
              (sample_fresh _ _) eq_refl) as (env & p1 & _ & Hr).
  set (s := finish_request _ _ _ _ _ _) in Hr.
  set (d := alone env (sample_request l) (sample_served (sample_request l)) p1).
  assert (d ∈ sv_done s) as Hd by (subst s; cbn; by apply list_elem_of_singleton).
  assert (dn_answered d = false) as Ha by (by apply negb_true_iff in Hup).
  exists l, s, d. do 4 (split; [done|]).
  destruct (deployed_proxy_enforces_its_file quote quote ip_text sample_table (λ _, []) sample_keys
              sample_disk sample_disk upstream_env 0 sample_args l 0 Toy.clk s Hl
              ltac:(split; vm_compute; discriminate) ltac:(discriminate) Hr)
    as (cfg & Hcfg & Hcaps & Hall).
  apply sample_file in Hcfg as ->. split; [exact Hcaps|].
  destruct (Hall d Hd Ha) as [(_ & _ & ip & cert & ? & ? & ? & _ & [=] & _)|[Ht Hm]].
  split; [exact Ht|]. specialize (Hm eq_refl).
  assert (machine_present (dn_start d) = true) as E by reflexivity. by rewrite E in Hm.
Defined.
End Examples.
