(* ===== verification/EnvTests.v ===== *)
(** The unit tests of [src/proxy/src/config/env.rs], run on the model.

    A TOML text of a test is written as the tree it denotes: the parser is
    library code.  A character outside ASCII is written by its scalar value. *)

From S2P Require Import Prelude Config ConfigEnv TestKit.

(** [vars]: a lookup over a fixed set of variables. *)
Definition vars (pairs : list (str * str)) : Lookup :=
  λ name,
    match list_find (λ p, p.1 = name) pairs with
    | Some (_, (_, value)) => Ok value
    | None => Err NotPresent
    end.

Definition expand_with (s : str) (pairs : list (str * str)) : result str str :=
  expand_str s (vars pairs) false.

Definition replaces_references_anywhere_in_the_string : bool :=
  let env := ["HOST" ~> "backend.internal"; "PORT" ~> "443"] in
  yields (expand_with "${HOST}" env) "backend.internal"
  && yields (expand_with "${HOST}:${PORT}" env) "backend.internal:443"
  && yields (expand_with "/etc/${HOST}/tls.crt" env) "/etc/backend.internal/tls.crt"
  && yields (expand_with "${HOST}${PORT}" env) "backend.internal443".

Definition names_may_use_underscores_digits_and_either_case : bool :=
  let env := ["_a1" ~> "x"; "Proxy_TLS_2" ~> "y"] in
  yields (expand_with "${_a1}-${Proxy_TLS_2}" env) "x-y".

Definition strings_without_a_reference_are_unchanged : bool :=
  forallb (λ s : str, yields (expand_with s []) s)
    ([] :: texts ["plain"; "pa$$word"; "$HOME/certs"; "5$"; "$"; "$$"; "a}b"; "{x}"]).

Definition doubled_dollars_before_a_brace_are_literal : bool :=
  let env := ["X" ~> "val"] in
  yields (expand_with "$${X}" env) "${X}"
  && yields (expand_with "$$${X}" env) "$val"
  && yields (expand_with "$$$${X}" env) "$${X}"
  && yields (expand_with "$${MISSING}" []) "${MISSING}".

Definition values_are_inserted_verbatim_and_not_expanded_again : bool :=
  let env :=
    ["OUTER" ~> "${INNER}"; "INNER" ~> "never";
     "WIN" ~> "C:\certs\a.pem";
     "INSIDE" ~> "C:/Program Files/a b.pem"] in
  yields (expand_with "${OUTER}" env) "${INNER}"
  && yields (expand_with "${WIN}" env) "C:\certs\a.pem"
  && yields (expand_with "${INSIDE}" env) "C:/Program Files/a b.pem".

Definition values_with_surrounding_padding_are_errors : bool :=
  let feff := utf8 [65279] in let zwsp := utf8 [8203] in let wj := utf8 [8288] in
  forallb (λ padded : str,
      starts_with (unwrap_err (expand_with "${PADDED}" ["PADDED" ~> padded]))
        ("environment variable `PADDED` begins or ends with whitespace or an "
         ++ "invisible character"))
    ["info" ++ utf8 [10]; "info" ++ utf8 [13; 10]; " info" : str; "info " : str;
     utf8 [9] ++ "info"; feff ++ "example.com/*"; "example.com/*" ++ zwsp; wj ++ "info"]
  && (expand_with "${X}" ["X" ~> "a" ++ zwsp ++ "b"] == Ok ("a" ++ zwsp ++ "b"))
  && yields (expand_with " ${X} " ["X" ~> "info"]) " info ".

Definition unset_blank_and_non_unicode_variables_are_errors : bool :=
  (expand_with "${MISSING}" []
     == Err ("environment variable `MISSING` is not set" : str))
  && forallb (λ blank : str,
         expand_with "${BLANK}" ["BLANK" ~> blank]
           == Err ("environment variable `BLANK` is empty or only whitespace or "
                   ++ "invisible characters"))
       [[]; " " : str; utf8 [10]; utf8 [32; 9; 13; 10]; utf8 [8203]; utf8 [65279; 10]]
  && (expand_str "${BYTES}" (λ _, Err NotUnicode) false
        == Err ("environment variable `BYTES` is not valid Unicode" : str)).

Definition malformed_references_are_errors : bool :=
  let env := ["X" ~> "val"] in
  forallb (λ s : str, is_err (expand_with s env))
    (texts ["${"; "${X"; "a${X"; "${}"])
  && forallb (λ s : str,
         contains (unwrap_err (expand_with s env)) "invalid `${...}` reference")
       (texts ["${1X}"; "${X:-d}"; "${X-d}"; "${X Y}"; "${ X}"; "${X.Y}"]
        ++ ["${" ++ utf8 [233] ++ "}"]).

Definition errors_never_contain_a_value : bool :=
  let error := expand_with "pre-${SECRET}-${MISSING}" ["SECRET" ~> "hunter2"] in
  let error' := expand_with "hunter2${hunter3:-x}" [] in
  is_err error && negb (contains (unwrap_err error) "hunter2")
  && negb (contains (unwrap_err error) "pre-")
  && is_err error' && negb (contains (unwrap_err error') "hunter").

Definition secret_settings_withhold_the_variable_name : bool :=
  let table : Table :=
    [("proxy" : str, VTable [("tls_key_passphrase" : str, VString "Tr0ub${xY9zQ}or")])] in
  let error := expand_str "${xY9zQ}" (vars ["xY9zQ" ~> " "]) true in
  (unwrap_err (expand table (vars []) ["[proxy].tls_key_passphrase" : str])
     == "[proxy].tls_key_passphrase: a referenced environment variable is not set")
  && is_err error && negb (contains (unwrap_err error) "xY9zQ").

Definition all_errors (table : Table) : str := unwrap_err (expand table (vars []) []).

Definition errors_name_the_setting_by_its_path : bool :=
  (all_errors [("proxy" : str, VTable [("tls_cert" : str, VString "${MISSING}")])]
     == "[proxy].tls_cert: environment variable `MISSING` is not set")
  && starts_with
       (all_errors
          [("machine_identity" : str,
            VTable [("allowed_hostnames" : str,
                     VArray [VString "ws-*.example.com"; VString "${MISSING}"])])])
       "[machine_identity].allowed_hostnames[1]: "
  && starts_with
       (all_errors
          [("rate_limiting" : str,
            VTable [("rules" : str,
                     VArray [VTable [("pattern" : str, VString "example.com/*")];
                             VTable [("pattern" : str, VString "${MISSING}")]])])])
       "[rate_limiting].rules[1].pattern: ".

Definition every_failing_setting_is_reported : bool :=
  let error := all_errors
    [("proxy" : str, VTable [("tls_cert" : str, VString "${CERT}");
                             ("tls_key" : str, VString "${KEY}")]);
     ("logging" : str, VTable [("dir" : str, VString "${LOG_DIR}")])] in
  forallb (contains error)
    (texts ["[proxy].tls_cert: environment variable `CERT` is not set";
            "[proxy].tls_key: environment variable `KEY` is not set";
            "[logging].dir: environment variable `LOG_DIR` is not set"])
  && (count_matches 0 error "; " == 2%nat).

(** Every test of [env.rs] passes on the model. *)
Example env_tests_pass :
  failures
    [("replaces_references_anywhere_in_the_string",
      replaces_references_anywhere_in_the_string);
     ("names_may_use_underscores_digits_and_either_case",
      names_may_use_underscores_digits_and_either_case);
     ("strings_without_a_reference_are_unchanged",
      strings_without_a_reference_are_unchanged);
     ("doubled_dollars_before_a_brace_are_literal",
      doubled_dollars_before_a_brace_are_literal);
     ("values_are_inserted_verbatim_and_not_expanded_again",
      values_are_inserted_verbatim_and_not_expanded_again);
     ("values_with_surrounding_padding_are_errors",
      values_with_surrounding_padding_are_errors);
     ("unset_blank_and_non_unicode_variables_are_errors",
      unset_blank_and_non_unicode_variables_are_errors);
     ("malformed_references_are_errors", malformed_references_are_errors);
     ("errors_never_contain_a_value", errors_never_contain_a_value);
     ("secret_settings_withhold_the_variable_name",
      secret_settings_withhold_the_variable_name);
     ("errors_name_the_setting_by_its_path", errors_name_the_setting_by_its_path);
     ("every_failing_setting_is_reported", every_failing_setting_is_reported)]
  = [].
Proof. vm_compute. reflexivity. Qed.
