(* ===== verification/ToyPki.v ===== *)
(** A concrete instance of the certificate, glob and resolver parameters, for the
    tests of [machine.rs].

    Not cryptography: a certificate is its Common Name, key, issuer, signing key
    and validity, and chains when the issuer is in the store and signed it with
    its key.  Its "DER" is its fields in hex. *)

From S2P Require Import Prelude Net Attest AttestToken Config RateLimit Mtls Machine.

Record Cert := {
  c_name : option str; c_key : Z; c_issuer : option str; c_signer : Z;
  not_before : Z; not_after : Z }.

(** ** Encoding *)

Definition COMMA : ascii := ",".

(** An absent name is a field that is not hex. *)
Definition hex_name (n : option str) : str :=
  match n with Some n => n ≫= hex_byte | None => "-" end.
Definition unhex_name (f : str) : option (option str) :=
  if decide (f = ("-" : str)) then Some None else Some <$> Toy.unhex f.

Definition to_der (c : Cert) : str :=
  join [COMMA] [hex_name (c_name c); show (c_key c); hex_name (c_issuer c);
                show (c_signer c); show (not_before c); show (not_after c)].

Definition of_der (der : str) : option Cert :=
  match split_on COMMA der with
  | [n; k; i; s; b; a] =>
      n ← unhex_name n; k ← parse_i64 k; i ← unhex_name i; s ← parse_i64 s;
      b ← parse_i64 b; a ← parse_i64 a;
      Some {| c_name := n; c_key := k; c_issuer := i; c_signer := s;
              not_before := b; not_after := a |}
  | _ => None
  end.

Definition BEGIN : str := "-----BEGIN CERTIFICATE-----".

Definition to_pem (c : Cert) : str := BEGIN ++ [LF] ++ to_der c ++ [LF].

(** Every header line is followed by a certificate; other lines are comments. *)
Fixpoint certs_of_lines (lines : list str) : result (list Cert) str :=
  match lines with
  | [] => Ok []
  | l :: rest =>
      if decide (l = BEGIN) then
        match rest with
        | der :: rest' =>
            let? c := ok_or (of_der der) ("bad base64 decode" : str) in
            let? cs := certs_of_lines rest' in Ok (c :: cs)
        | [] => Err ("no end line" : str)
        end
      else certs_of_lines rest
  end.

(** ** The parameters *)

Definition entry (cn : str) : NameEntry :=
  {| nid := NID_COMMONNAME; nid_short_name := Some ("CN" : str);
     object_text := "commonName"; as_utf8 := Some cn; as_slice := cn |}.

#[export] Instance x509 : X509Ops := {
  X509 := Cert;
  subject_entries c := match c_name c with Some n => [entry n] | None => [] end;
  alt_dns_names _ := None;
  stack_from_pem pem := certs_of_lines (split_on LF pem) }.

(** OpenSSL's order: the chain is built before its validity is looked at. *)
Definition verify_at (now : Z) (store : list Cert) (c : Cert) : bool * Z * str :=
  match filter (λ ca, c_name ca = c_issuer c ∧ c_key ca = c_signer c) store with
  | [] => (false, 20, "unable to get local issuer certificate" : str)
  | ca :: _ =>
      if (now <? not_before c) || (now <? not_before ca) then
        (false, X509_V_ERR_CERT_NOT_YET_VALID, "certificate is not yet valid" : str)
      else if (not_after c <? now) || (not_after ca <? now) then
        (false, X509_V_ERR_CERT_HAS_EXPIRED, "certificate has expired" : str)
      else (true, 0, "ok" : str)
  end.

(** OpenSSL reads the wall clock itself: [now] is the Unix time it sees. *)
Definition tls (now : Z) : MachineTls := {|
  from_der := of_der : str → option X509;
  X509Store := list Cert;
  store_new := Ok [];
  store_add s ca := Ok (s ++ [ca : Cert]);
  store_partial_chain s := Ok s;
  verify_chain s c := Ok (verify_at now s c) |}.

(** [*] matches any run of characters; a character class is not understood. *)
Fixpoint star_match (p t : str) : bool :=
  match p with
  | [] => is_empty t
  | c :: p' =>
      if decide (c = "*"%char) then
        (fix any (t : str) : bool :=
           star_match p' t || match t with [] => false | _ :: t' => any t' end) t
      else
        match t with
        | [] => false
        | d :: t' => bool_decide (c = d) && star_match p' t'
        end
  end.

#[export] Instance globs : GlobOps := {
  GlobMatcher := str;
  glob_new p :=
    if decide ("["%char ∈ p) then Err ("unclosed character class" : str) else Ok p;
  is_match := star_match }.

Example der_round_trip :
  let c := {| c_name := Some ("ws-1,x" : str); c_key := 4; c_issuer := None; c_signer := -2;
              not_before := -5; not_after := 1753900000 |} in
  of_der (to_der c) = Some c ∧ certs_of_lines (split_on LF (to_pem c ++ "# end")) = Ok [c].
Proof. vm_compute. done. Qed.
