(* ===== verification/MachineTests.v ===== *)
(** The unit tests of [src/proxy/src/machine.rs], run on the model with the
    certificates, globs and resolver of [ToyPki].

    The tests' clock is a variable: the Unix time OpenSSL sees, and the instant
    of the first request, each later one coming a millisecond after. *)

From S2P Require Import Prelude Net AuditTypes Attest AttestToken Config RateLimit Mtls Machine ToyPki TestKit.

Section Tests.
#[local] Existing Instances Toy.crypto Toy.laws ToyPki.x509 ToyPki.globs.
Variable unix : Z.    (* SystemTime::now, in Unix seconds *)
Variable t0 : Z.      (* Instant::now *)
#[local] Instance tls_now : MachineTls := ToyPki.tls unix.

Definition debug (s : str) : str := DQUOTE :: s ++ [DQUOTE].

Definition cfg (ca : str) : MachineIdentityConfig :=
  {| mi_enabled := true; machine_ca := ca;
     mi_required := mi_required MachineIdentityConfig_default;
     allowed_hostnames := allowed_hostnames MachineIdentityConfig_default;
     dns_ttl_secs := dns_ttl_secs MachineIdentityConfig_default;
     dns_negative_ttl_secs := dns_negative_ttl_secs MachineIdentityConfig_default;
     dns_stale_grace_secs := dns_stale_grace_secs MachineIdentityConfig_default;
     partial_chain := partial_chain MachineIdentityConfig_default |}.

Definition with_allowed (c : MachineIdentityConfig) (allowed : list str)
    : MachineIdentityConfig :=
  {| mi_enabled := mi_enabled c; machine_ca := machine_ca c; mi_required := mi_required c;
     allowed_hostnames := allowed; dns_ttl_secs := dns_ttl_secs c;
     dns_negative_ttl_secs := dns_negative_ttl_secs c;
     dns_stale_grace_secs := dns_stale_grace_secs c; partial_chain := partial_chain c |}.

Definition with_ttls (c : MachineIdentityConfig) (ttl negative_ttl grace : Z)
    : MachineIdentityConfig :=
  {| mi_enabled := mi_enabled c; machine_ca := machine_ca c; mi_required := mi_required c;
     allowed_hostnames := allowed_hostnames c; dns_ttl_secs := ttl;
     dns_negative_ttl_secs := negative_ttl; dns_stale_grace_secs := grace;
     partial_chain := partial_chain c |}.

(** A self-signed CA; [key] stands for the key generated for it. *)
Definition make_ca (cn : str) (key : Z) : Cert :=
  {| c_name := Some cn; c_key := key; c_issuer := Some cn; c_signer := key;
     not_before := unix; not_after := unix + 3650 * 86400 |}.

Definition make_leaf_between (cn : str) (ca : Cert) (not_before not_after : Z) : Cert :=
  {| c_name := Some cn; c_key := 0; c_issuer := c_name ca; c_signer := c_key ca;
     not_before := not_before; not_after := not_after |}.

Definition now : Z := unix.

Definition make_leaf (cn : str) (ca : Cert) : Cert :=
  make_leaf_between cn ca (now - 3600) (now + 86400).

Definition b64 (cert : Cert) : str := base64_encode (to_der cert).

(** [MachineIdentity::from_config] of a file that holds [pem]. *)
Definition from_config (pem : result str str) (c : MachineIdentityConfig)
    : result (option MachineIdentity) str :=
  MachineIdentity_from_config debug (λ _, pem) c.

Definition CA_PATH : str := "machine-ca.pem".

Definition verifier (ca : Cert) (allowed : list str) : result MachineIdentity str :=
  let? v := from_config (Ok (to_pem ca)) (with_allowed (cfg CA_PATH) allowed) in
  ok_or v [].

(** ** Certificates *)

Definition our_ca : Cert := make_ca "Test Machine CA" 1.
Definition other_ca : Cert := make_ca "Someone Else CA" 2.
Definition WS_4417 : str := "ws-4417.corp.example.com".

Definition accepts_a_cert_issued_by_the_machine_ca : bool :=
  let ca := our_ca in
  expect v := verifier ca [] in
  let leaf := make_leaf WS_4417 ca in
  (verify_cert v (b64 leaf)
     == Ok {| hostname := "ws-4417.corp.example.com";
              vm_subject_dn := "CN=ws-4417.corp.example.com" |}).

Definition rejects_a_cert_from_another_ca : bool :=
  let ours := our_ca in
  let theirs := other_ca in
  expect v := verifier ours [] in
  let leaf := make_leaf WS_4417 theirs in
  (verify_cert v (b64 leaf) matches Err (UntrustedChain _)).

Definition rejects_an_expired_cert : bool :=
  let ca := our_ca in
  expect v := verifier ca [] in
  let leaf := make_leaf_between WS_4417 ca (now - 172800) (now - 86400) in
  match verify_cert v (b64 leaf) with
  | Ok _ => false
  | Err err =>
      (err == CertExpired)
      && bool_decide (machine_error_reason err = MachineCertExpired)
      && negb (chain_verified err)
  end.

Definition rejects_a_not_yet_valid_cert : bool :=
  let ca := our_ca in
  expect v := verifier ca [] in
  let leaf := make_leaf_between WS_4417 ca (now + 86400) (now + 172800) in
  (verify_cert v (b64 leaf) matches Err CertNotYetValid).

Definition rejects_malformed_input : bool :=
  let ca := our_ca in
  expect v := verifier ca [] in
  let not_a_cert := base64_encode "hello" in
  ((verify_cert v "not base64!!" matches Err NotBase64)
   && (verify_cert v not_a_cert matches Err NotDer)).

Definition rejects_a_cert_with_no_common_name : bool :=
  let ca := our_ca in
  expect v := verifier ca [] in
  let leaf := {| c_name := None; c_key := 0; c_issuer := c_name ca; c_signer := c_key ca;
                 not_before := now; not_after := now + 86400 |} in
  (verify_cert v (b64 leaf) matches Err NoCommonName).

Definition rejects_a_common_name_that_would_corrupt_the_audit_log : bool :=
  let ca := our_ca in
  expect v := verifier ca [] in
  forallb (λ bad : str,
      verify_cert v (b64 (make_leaf bad ca)) matches Err UnsafeCommonName)
    ["ws-1" ++ [LF] ++ "accepted — GET evil.example.com/"; "ws 1" : str;
     "ws-" ++ utf8 [233] ++ "1"].

(** The host name of an accepted certificate. *)
Definition hostname_is (r : result VerifiedMachine MachineError) (h : str) : bool :=
  match r with Ok machine => hostname machine == h | Err _ => false end.

Definition allowlist_globs_gate_the_hostname : bool :=
  let ca := our_ca in
  expect v := verifier ca (texts ["ws-*.corp.example.com"; "kiosk-*.corp.example.com"]) in
  (hostname_is (verify_cert v (b64 (make_leaf "ws-4417.corp.example.com" ca)))
     "ws-4417.corp.example.com"
   && hostname_is (verify_cert v (b64 (make_leaf "kiosk-9.corp.example.com" ca)))
        "kiosk-9.corp.example.com"
   && (verify_cert v (b64 (make_leaf "laptop-1.corp.example.com" ca))
         == Err (HostnameNotAllowed "laptop-1.corp.example.com"))).

Definition rejects_a_disallowed_hostname_before_chain_verification : bool :=
  let ours := our_ca in
  let theirs := other_ca in
  expect v := verifier ours (texts ["ws-*.corp.example.com"]) in
  (verify_cert v (b64 (make_leaf "laptop-1.corp.example.com" theirs))
     == Err (HostnameNotAllowed "laptop-1.corp.example.com")).

Definition hostname_matching_is_case_insensitive : bool :=
  let ca := our_ca in
  expect v := verifier ca (texts ["ws-*.corp.example.com"]) in
  hostname_is (verify_cert v (b64 (make_leaf "WS-4417.CORP.EXAMPLE.COM" ca)))
    "ws-4417.corp.example.com".

Definition empty_allowlist_accepts_any_name_the_ca_signed : bool :=
  let ca := our_ca in
  expect v := verifier ca [] in
  hostname_is (verify_cert v (b64 (make_leaf "anything.internal" ca))) "anything.internal".

(** ** Forward DNS and its cache *)

(** The scripted resolver: its answer, whether it fails, and how often it was
    called. *)
Record FakeResolver := { fake_addrs : list IpAddr; failing : bool; calls : nat }.

Definition FakeResolver_new (addrs : list IpAddr) : FakeResolver :=
  {| fake_addrs := addrs; failing := false; calls := 0 |}.
Definition set_failing (r : FakeResolver) (v : bool) : FakeResolver :=
  {| fake_addrs := fake_addrs r; failing := v; calls := calls r |}.
Definition set_addrs (r : FakeResolver) (addrs : list IpAddr) : FakeResolver :=
  {| fake_addrs := addrs; failing := failing r; calls := calls r |}.

(** [resolve]: the answer, the call counted. *)
Definition resolve (r : FakeResolver) : FakeResolver * option (list IpAddr) :=
  ({| fake_addrs := fake_addrs r; failing := failing r; calls := S (calls r) |},
   if failing r then None else Some (fake_addrs r)).

(** A verifier, the resolver it holds, and the time. *)
Record Harness := { h_v : MachineIdentity; h_r : FakeResolver; h_now : Z }.

Definition on_resolver (f : FakeResolver → FakeResolver) (h : Harness) : Harness :=
  {| h_v := h_v h; h_r := f (h_r h); h_now := h_now h |}.

(** Whether a request's lookup goes to the resolver. *)
Definition asks (h : Harness) (cert : str) (client_ip : option IpAddr) : bool :=
  match client_ip, verify_cert (h_v h) cert with
  | Some _, Ok machine =>
      match resolve_start (h_v h) (h_now h) (hostname machine) with
      | Some _ => false
      | None => true
      end
  | _, _ => false
  end.

(** [v.verify(cert, client_ip).await]. *)
Definition request (h : Harness) (cert : str) (client_ip : option IpAddr)
    : Harness * result VerifiedMachine MachineError :=
  let '(r, answer) := resolve (h_r h) in
  let '(v, res) := verify (h_v h) id (h_now h) (h_now h) (λ _, answer) cert client_ip in
  ({| h_v := v; h_r := if asks h cert client_ip then r else h_r h;
      h_now := h_now h + 1000000 |}, res).

Definition verifier_with (ca : Cert) (resolver : FakeResolver) (ttl negative_ttl grace : Z)
    : result Harness str :=
  let? v := from_config (Ok (to_pem ca)) (with_ttls (cfg CA_PATH) ttl negative_ttl grace) in
  let? v := ok_or v [] in
  Ok {| h_v := v; h_r := resolver; h_now := t0 |}.

Definition ip4 (a b c d : Z) : IpAddr := V4 (((a * 256 + b) * 256 + c) * 256 + d).

Definition accepts_when_the_name_resolves_to_the_client_address : bool :=
  let ca := our_ca in
  let r := FakeResolver_new [ip4 10 4 2 17] in
  expect v := verifier_with ca r 300 30 3600 in
  let leaf := make_leaf WS_4417 ca in
  hostname_is (request v (b64 leaf) (Some (ip4 10 4 2 17))).2 "ws-4417.corp.example.com".

Definition rejects_a_valid_cert_presented_from_another_address : bool :=
  let ca := our_ca in
  let r := FakeResolver_new [ip4 10 4 2 17] in
  expect v := verifier_with ca r 300 30 3600 in
  let leaf := make_leaf WS_4417 ca in
  ((request v (b64 leaf) (Some (ip4 192 0 2 99))).2
     == Err (HostnameAddressMismatch "ws-4417.corp.example.com" (ip4 192 0 2 99))).

Definition rejects_when_there_is_no_client_address : bool :=
  let ca := our_ca in
  let r := FakeResolver_new [ip4 10 4 2 17] in
  expect v := verifier_with ca r 300 30 3600 in
  let leaf := make_leaf WS_4417 ca in
  let '(v, res) := request v (b64 leaf) None in
  ((res matches Err NoClientAddress) && (calls (h_r v) == 0%nat)).

(** The same request [n] times, each meeting [ok]. *)
Fixpoint repeatedly (n : nat) (v : Harness) (cert : str) (client_ip : option IpAddr)
    (ok : result VerifiedMachine MachineError → bool) : Harness * bool :=
  match n with
  | O => (v, true)
  | S n =>
      let '(v, res) := request v cert client_ip in
      let '(v, rest) := repeatedly n v cert client_ip ok in
      (v, ok res && rest)
  end.

Definition repeated_requests_hit_the_cache_not_the_resolver : bool :=
  let ca := our_ca in
  let r := FakeResolver_new [ip4 10 4 2 17] in
  expect v := verifier_with ca r 300 30 3600 in
  let cert := b64 (make_leaf WS_4417 ca) in
  let '(v, all_ok) := repeatedly 25 v cert (Some (ip4 10 4 2 17)) is_ok in
  (all_ok && (calls (h_r v) == 1%nat)).

Definition an_expired_entry_is_refetched : bool :=
  let ca := our_ca in
  let r := FakeResolver_new [ip4 10 4 2 17] in
  expect v := verifier_with ca r 0 0 3600 in
  let cert := b64 (make_leaf WS_4417 ca) in
  expect_on v := request v cert (Some (ip4 10 4 2 17)) in
  let v := on_resolver (λ r, set_addrs r [ip4 10 4 2 18]) v in
  let '(v, res) := request v cert (Some (ip4 10 4 2 17)) in
  ((res matches Err (HostnameAddressMismatch _ _)) && (calls (h_r v) == 2%nat)).

Definition a_resolver_outage_is_covered_by_a_stale_entry : bool :=
  let ca := our_ca in
  let r := FakeResolver_new [ip4 10 4 2 17] in
  expect v := verifier_with ca r 0 0 3600 in
  let cert := b64 (make_leaf WS_4417 ca) in
  expect_on v := request v cert (Some (ip4 10 4 2 17)) in
  let v := on_resolver (λ r, set_failing r true) v in
  is_ok (request v cert (Some (ip4 10 4 2 17))).2.

Definition a_resolver_outage_with_a_cold_cache_still_rejects : bool :=
  let ca := our_ca in
  let r := FakeResolver_new [ip4 10 4 2 17] in
  expect v := verifier_with ca r 300 30 3600 in
  let v := on_resolver (λ r, set_failing r true) v in
  let cert := b64 (make_leaf WS_4417 ca) in
  ((request v cert (Some (ip4 10 4 2 17))).2 matches Err (HostnameUnresolvable _)).

Definition a_stale_entry_past_the_grace_window_stops_covering : bool :=
  let ca := our_ca in
  let r := FakeResolver_new [ip4 10 4 2 17] in
  expect v := verifier_with ca r 0 0 0 in
  let cert := b64 (make_leaf WS_4417 ca) in
  expect_on v := request v cert (Some (ip4 10 4 2 17)) in
  let v := on_resolver (λ r, set_failing r true) v in
  ((request v cert (Some (ip4 10 4 2 17))).2 matches Err (HostnameUnresolvable _)).

Definition a_name_resolving_to_nothing_is_rejected_and_negatively_cached : bool :=
  let ca := our_ca in
  let r := FakeResolver_new [] in
  expect v := verifier_with ca r 300 30 3600 in
  let cert := b64 (make_leaf WS_4417 ca) in
  let '(v, all_refused) := repeatedly 5 v cert (Some (ip4 10 4 2 17))
                             (λ res, res matches Err (HostnameUnresolvable _)) in
  (all_refused && (calls (h_r v) == 1%nat)).

Definition an_allowlist_miss_never_reaches_the_resolver : bool :=
  let ca := our_ca in
  let r := FakeResolver_new [ip4 10 4 2 17] in
  expect m := verifier ca (texts ["ws-*.corp.example.com"]) in
  let v := {| h_v := m; h_r := r; h_now := t0 |} in
  let cert := b64 (make_leaf "laptop-1.corp.example.com" ca) in
  let '(v, res) := request v cert (Some (ip4 10 4 2 17)) in
  ((res matches Err (HostnameNotAllowed _)) && (calls (h_r v) == 0%nat)).

Definition an_untrusted_cert_never_reaches_the_resolver : bool :=
  let ours := our_ca in
  let theirs := other_ca in
  let r := FakeResolver_new [ip4 10 4 2 17] in
  expect v := verifier_with ours r 300 30 3600 in
  let cert := b64 (make_leaf WS_4417 theirs) in
  let '(v, res) := request v cert (Some (ip4 10 4 2 17)) in
  ((res matches Err (UntrustedChain _)) && (calls (h_r v) == 0%nat)).

Definition the_cache_is_swept_rather_than_growing_without_bound : bool :=
  let ca := our_ca in
  let r := FakeResolver_new [ip4 10 4 2 17] in
  expect v := verifier_with ca r 0 0 0 in
  let v :=
    fold_left (λ v i,
        (request v (b64 (make_leaf ("ws-" ++ show (Z.of_nat i) ++ ".corp.example.com") ca))
           (Some (ip4 10 4 2 17))).1)
      (seq 0 50) v in
  (size (dns_cache (h_v v)) <=? 1)%nat.

(** ** Loading *)

Definition from_config_rejects_an_invalid_glob : bool :=
  match from_config (Ok (to_pem our_ca)) (with_allowed (cfg CA_PATH) (texts ["ws-["])) with
  | Ok _ => false
  | Err err => contains err "allowed_hostnames pattern"
  end.

Definition from_config_rejects_an_uppercase_glob : bool :=
  match from_config (Ok (to_pem our_ca))
          (with_allowed (cfg CA_PATH) (texts ["WS-*.corp.example.com"])) with
  | Ok _ => false
  | Err err => contains err "must be lowercase"
  end.

Definition from_config_disabled_is_none : bool :=
  from_config (Err [])
    {| mi_enabled := false; machine_ca := machine_ca MachineIdentityConfig_default;
       mi_required := mi_required MachineIdentityConfig_default;
       allowed_hostnames := allowed_hostnames MachineIdentityConfig_default;
       dns_ttl_secs := dns_ttl_secs MachineIdentityConfig_default;
       dns_negative_ttl_secs := dns_negative_ttl_secs MachineIdentityConfig_default;
       dns_stale_grace_secs := dns_stale_grace_secs MachineIdentityConfig_default;
       partial_chain := partial_chain MachineIdentityConfig_default |}
    matches Ok None.

Definition from_config_enabled_requires_ca : bool :=
  match from_config (Err []) (cfg []) with
  | Ok _ => false
  | Err err => contains err "machine_ca is not set"
  end.

Definition from_config_rejects_missing_ca_file : bool :=
  match from_config (Err ("No such file or directory (os error 2)" : str))
          (cfg "/nonexistent/machine-ca.pem") with
  | Ok _ => false
  | Err err => contains err "cannot read machine_identity machine_ca"
  end.

Definition from_config_rejects_unparseable_ca_file : bool :=
  match from_config (Ok ("-----BEGIN CERTIFICATE-----" ++ [LF] ++ "nope" ++ [LF]))
          (cfg "not-a-ca.pem") with
  | Ok _ => false
  | Err err => contains err "cannot parse machine_identity machine_ca"
  end.

Definition from_config_rejects_empty_ca_bundle : bool :=
  match from_config (Ok ("# no certificates here" ++ [LF])) (cfg "empty.pem") with
  | Ok _ => false
  | Err err => contains err "contains no certificates"
  end.

Definition machine_suite : list (string * bool) :=
  [("accepts_a_cert_issued_by_the_machine_ca", accepts_a_cert_issued_by_the_machine_ca);
   ("rejects_a_cert_from_another_ca", rejects_a_cert_from_another_ca);
   ("rejects_an_expired_cert", rejects_an_expired_cert);
   ("rejects_a_not_yet_valid_cert", rejects_a_not_yet_valid_cert);
   ("rejects_malformed_input", rejects_malformed_input);
   ("rejects_a_cert_with_no_common_name", rejects_a_cert_with_no_common_name);
   ("rejects_a_common_name_that_would_corrupt_the_audit_log",
    rejects_a_common_name_that_would_corrupt_the_audit_log);
   ("allowlist_globs_gate_the_hostname", allowlist_globs_gate_the_hostname);
   ("rejects_a_disallowed_hostname_before_chain_verification",
    rejects_a_disallowed_hostname_before_chain_verification);
   ("hostname_matching_is_case_insensitive", hostname_matching_is_case_insensitive);
   ("empty_allowlist_accepts_any_name_the_ca_signed",
    empty_allowlist_accepts_any_name_the_ca_signed);
   ("from_config_rejects_an_invalid_glob", from_config_rejects_an_invalid_glob);
   ("accepts_when_the_name_resolves_to_the_client_address",
    accepts_when_the_name_resolves_to_the_client_address);
   ("rejects_a_valid_cert_presented_from_another_address",
    rejects_a_valid_cert_presented_from_another_address);
   ("rejects_when_there_is_no_client_address", rejects_when_there_is_no_client_address);
   ("repeated_requests_hit_the_cache_not_the_resolver",
    repeated_requests_hit_the_cache_not_the_resolver);
   ("an_expired_entry_is_refetched", an_expired_entry_is_refetched);
   ("a_resolver_outage_is_covered_by_a_stale_entry",
    a_resolver_outage_is_covered_by_a_stale_entry);
   ("a_resolver_outage_with_a_cold_cache_still_rejects",
    a_resolver_outage_with_a_cold_cache_still_rejects);
   ("a_stale_entry_past_the_grace_window_stops_covering",
    a_stale_entry_past_the_grace_window_stops_covering);
   ("a_name_resolving_to_nothing_is_rejected_and_negatively_cached",
    a_name_resolving_to_nothing_is_rejected_and_negatively_cached);
   ("an_allowlist_miss_never_reaches_the_resolver",
    an_allowlist_miss_never_reaches_the_resolver);
   ("an_untrusted_cert_never_reaches_the_resolver",
    an_untrusted_cert_never_reaches_the_resolver);
   ("the_cache_is_swept_rather_than_growing_without_bound",
    the_cache_is_swept_rather_than_growing_without_bound);
   ("from_config_rejects_an_uppercase_glob", from_config_rejects_an_uppercase_glob);
   ("from_config_disabled_is_none", from_config_disabled_is_none);
   ("from_config_enabled_requires_ca", from_config_enabled_requires_ca);
   ("from_config_rejects_missing_ca_file", from_config_rejects_missing_ca_file);
   ("from_config_rejects_unparseable_ca_file", from_config_rejects_unparseable_ca_file);
   ("from_config_rejects_empty_ca_bundle", from_config_rejects_empty_ca_bundle)].
End Tests.

(** Every test of [machine.rs] passes on the model. *)
Example machine_tests_pass : failures (machine_suite 1753900000 (from_secs 10)) = [].
Proof. vm_compute. reflexivity. Qed.
