(* ===== verification/MtlsTests.v ===== *)
(** The unit tests of [src/proxy/src/mtls.rs], run on the model.  A name is built
    here as OpenSSL builds it, from fields and values. *)

From S2P Require Import Prelude Net Config Mtls Passthrough ToyPki TestKit.

(** ** [mtls.rs] *)

Section MtlsTests.
#[local] Existing Instance ToyPki.x509.

Definition cert (cn : option str) (sans : list str) : ClientCert :=
  {| subject_dn := match cn with Some c => "CN=" ++ c | None => [] end;
     common_name := cn; san_dns := sans |}.

Definition matched_prefers_cn : bool :=
  let c := cert (Some ("health-checker" : str)) (texts ["ops.internal"]) in
  matched c (texts ["health-checker"]) == Some ("health-checker" : str).

Definition matched_falls_back_to_san : bool :=
  let c := cert (Some ("unlisted-cn" : str)) (texts ["www.example.com"; "ops.internal"]) in
  matched c (texts ["ops.internal"]) == Some ("ops.internal" : str).

Definition matched_returns_none_when_nothing_listed : bool :=
  let c := cert (Some ("cn" : str)) (texts ["a"; "b"]) in
  (matched c (texts ["trusted"]) == None)
  && (matched (cert None []) (texts ["x"]) == None).

(** [append_entry_by_text]: OpenSSL knows some fields by their short name, and
    an object it has no name for by its identifier. *)
Definition known_nid (field : str) : option Z :=
  snd <$> head (filter (λ p : str * Z, p.1 = field)
    [("C" : str, 14); ("O" : str, 17); ("OU" : str, 18); ("CN" : str, NID_COMMONNAME)]).

Definition name (entries : list (str * str)) : list NameEntry :=
  (λ '(field, value),
     match known_nid field with
     | Some n =>
         {| nid := n; nid_short_name := Some field; object_text := field;
            as_utf8 := Some value; as_slice := value |}
     | None =>
         {| nid := NID_UNDEF; nid_short_name := Some ("UNDEF" : str); object_text := field;
            as_utf8 := Some value; as_slice := value |}
     end) <$> entries.

Definition dn_is_rfc4514_most_specific_first : bool :=
  let n := name ["C" ~> "US"; "O" ~> "Example Corp"; "OU" ~> "Staff"; "CN" ~> "alice"] in
  distinguished_name n == "CN=alice,OU=Staff,O=Example Corp,C=US".

Definition dn_escapes_rfc4514_specials : bool :=
  let n := name ["O" ~> "Smith, Jones + Co; " ++ [DQUOTE] ++ "Ltd" ++ [DQUOTE] ++ " <x>";
                 "CN" ~> "#1 user "] in
  distinguished_name n
  == "CN=\#1 user\ ,O=Smith\, Jones \+ Co\; \" ++ [DQUOTE] ++ "Ltd\" ++ [DQUOTE]
     ++ " \<x\>".

Definition dn_hex_escapes_control_characters : bool :=
  let n := name ["CN" ~> "ws-1" ++ utf8 [10] ++ "accepted"] in
  distinguished_name n == "CN=ws-1\0Aaccepted".

Definition dn_keeps_non_ascii_text : bool :=
  let n := name ["CN" ~> "Zoë Ångström"] in
  distinguished_name n == "CN=Zoë Ångström".

Definition dn_names_unknown_attributes_by_oid : bool :=
  let n := name ["1.3.6.1.4.1.55555.1" ~> "x"; "CN" ~> "a"] in
  distinguished_name n == "CN=a,1.3.6.1.4.1.55555.1=x".

Definition dn_of_an_empty_name_is_empty : bool :=
  distinguished_name (name []) == [].

Definition from_config_disabled_is_none : bool :=
  Mtls_from_config (λ _, Err []) MtlsConfig_default matches Ok None.

Definition from_config_enabled_requires_ca : bool :=
  is_err (Mtls_from_config (λ _, Err []) {| mtls_enabled := true; client_ca := [] |}).

Definition from_config_rejects_missing_ca_file : bool :=
  is_err (Mtls_from_config (λ _, Err ("No such file or directory (os error 2)" : str))
            {| mtls_enabled := true; client_ca := "/nonexistent/ca.pem" |}).
End MtlsTests.

(** Every test of [mtls.rs] passes on the model. *)
Example mtls_tests_pass :
  failures
    [("matched_prefers_cn", matched_prefers_cn);
     ("matched_falls_back_to_san", matched_falls_back_to_san);
     ("matched_returns_none_when_nothing_listed", matched_returns_none_when_nothing_listed);
     ("dn_is_rfc4514_most_specific_first", dn_is_rfc4514_most_specific_first);
     ("dn_escapes_rfc4514_specials", dn_escapes_rfc4514_specials);
     ("dn_hex_escapes_control_characters", dn_hex_escapes_control_characters);
     ("dn_keeps_non_ascii_text", dn_keeps_non_ascii_text);
     ("dn_names_unknown_attributes_by_oid", dn_names_unknown_attributes_by_oid);
     ("dn_of_an_empty_name_is_empty", dn_of_an_empty_name_is_empty);
     ("from_config_disabled_is_none", from_config_disabled_is_none);
     ("from_config_enabled_requires_ca", from_config_enabled_requires_ca);
     ("from_config_rejects_missing_ca_file", from_config_rejects_missing_ca_file)]
  = [].
Proof. vm_compute. reflexivity. Qed.
