(* ===== verification/PolicyTests.v ===== *)
(** The unit tests of [src/proxy/src/passthrough.rs] and of
    [src/proxy/src/ratelimit.rs], run on the model.

    The networks the bypass tests name are given as what they denote; the rate
    estimator is the exact one of [ToyRate] and the globs those of [ToyPki]. *)

From S2P Require Import Prelude Net Attest Config RateLimit RateLimitFacts Mtls MtlsFacts Passthrough ToyPki TestKit.

(** ** [passthrough.rs] *)

(** A network: its address, and how many low bits are free. *)
Definition nets : IpNetOps :=
  {| IpNet := IpAddr * Z;
     parse_net s :=
       if decide (s = "10.0.0.0/8") then Ok (V4 (10 * 2 ^ 24), 24)
       else if decide (s = "2001:db8::/32") then Ok (V6 (536939960 * 2 ^ 96), 96)
       else Err ("invalid IP address syntax" : str);
     net_contains net ip :=
       match net, ip with
       | (V4 a, free), V4 b | (V6 a, free), V6 b => a / 2 ^ free =? b / 2 ^ free
       | _, _ => false
       end |}.

Section PassthroughTests.
#[local] Existing Instance nets.

Definition debug (s : str) : str := DQUOTE :: s ++ [DQUOTE].

(** The policy of some ranges and subjects, the ranges' [unwrap] included. *)
Definition policy (ranges subjects : list str) : result BypassPolicy str :=
  let? nets := try_map parse_net ranges in
  Ok {| ranges := nets; policy_subjects := subjects |}.

Definition cert (cn : str) : ClientCert :=
  {| subject_dn := "CN=" ++ cn; common_name := Some cn; san_dns := [] |}.

Definition ip4 (a b c d : Z) : IpAddr := V4 (((a * 256 + b) * 256 + c) * 256 + d).
(** [2001:db8::5] and [2001:dead::5]. *)
Definition ip6 (high_32 low : Z) : IpAddr := V6 (high_32 * 2 ^ 96 + low).

Definition authorizes_only_when_ip_and_subject_match : bool :=
  expect p := policy (texts ["10.0.0.0/8"]) (texts ["health-checker"]) in
  let good := cert "health-checker" in
  let wrong_subject := cert "intruder" in
  ((authorizes p (ip4 10 1 2 3) good == Some ("health-checker" : str))
   && (authorizes p (ip4 10 1 2 3) wrong_subject == None)
   && (authorizes p (ip4 8 8 8 8) good == None)).

Definition supports_ipv6_ranges : bool :=
  expect p := policy (texts ["2001:db8::/32"]) (texts ["svc"]) in
  let c := cert "svc" in
  ((authorizes p (ip6 536939960 5) c == Some ("svc" : str))
   && (authorizes p (ip6 536993453 5) c == None)).

Definition bypass_cfg (ranges subjects : list str) : ProxyBypassConfig :=
  {| pb_enabled := true; allowed_ip_ranges := ranges; allowed_subjects := subjects |}.

Definition from_config_disabled_returns_none : bool :=
  passthrough_from_config debug ProxyBypassConfig_default true matches Ok None.

Definition from_config_requires_mtls : bool :=
  let cfg := bypass_cfg (texts ["10.0.0.0/8"]) (texts ["s"]) in
  is_err (passthrough_from_config debug cfg false)
  && is_ok (passthrough_from_config debug cfg true).

Definition from_config_requires_ip_ranges : bool :=
  is_err (passthrough_from_config debug (bypass_cfg [] (texts ["s"])) true).

Definition from_config_rejects_bad_cidr : bool :=
  is_err (passthrough_from_config debug (bypass_cfg (texts ["not-a-cidr"]) (texts ["s"])) true).

Definition from_config_requires_subjects : bool :=
  is_err (passthrough_from_config debug (bypass_cfg (texts ["10.0.0.0/8"]) []) true).
End PassthroughTests.

(** Every test of [passthrough.rs] passes on the model. *)
Example passthrough_tests_pass :
  failures
    [("authorizes_only_when_ip_and_subject_match", authorizes_only_when_ip_and_subject_match);
     ("supports_ipv6_ranges", supports_ipv6_ranges);
     ("from_config_disabled_returns_none", from_config_disabled_returns_none);
     ("from_config_requires_mtls", from_config_requires_mtls);
     ("from_config_requires_ip_ranges", from_config_requires_ip_ranges);
     ("from_config_rejects_bad_cidr", from_config_rejects_bad_cidr);
     ("from_config_requires_subjects", from_config_requires_subjects)]
  = [].
Proof. vm_compute. reflexivity. Qed.

(** ** [ratelimit.rs] *)

Section RateLimitTests.
#[local] Existing Instances ToyPki.globs ToyRate.ops.
Variable t0 : Z.    (* Instant::now; each request is a millisecond later *)

Definition ip : IpAddr := ip4 203 0 113 7.
Definition other_ip : IpAddr := ip4 203 0 113 8.

(** [assert_eq!(rl.admit(ip, target), answer)] for each request in turn. *)
Fixpoint admits (rl : RateLimiter) (now : Z) (requests : list (IpAddr * str * bool)) : bool :=
  match requests with
  | [] => true
  | (ip, target, answer) :: rest =>
      let now := now + 1000000 in
      let '(rl, ok) := RateLimiter_admit rl now ip target in
      (ok == answer) && admits rl now rest
  end.

Definition disabled_config_builds_no_limiter : bool :=
  RateLimiter_from_config debug t0 RateLimitConfig_default matches Ok None.

Definition enabled_but_empty_is_an_error : bool :=
  is_err (RateLimiter_from_config debug t0
    {| rl_enabled := true; rl_window_secs := rl_window_secs RateLimitConfig_default;
       rl_max_requests := rl_max_requests RateLimitConfig_default;
       rl_rules := rl_rules RateLimitConfig_default |}).

Definition bad_rule_is_rejected : bool :=
  is_err (RateLimiter_from_config debug t0
    {| rl_enabled := true; rl_window_secs := rl_window_secs RateLimitConfig_default;
       rl_max_requests := rl_max_requests RateLimitConfig_default;
       rl_rules := [{| rule_pattern := "x/*"; rule_window_secs := 0; rule_max_requests := 5 |}] |}).

(** The limiter of a configuration, and what it answers. *)
Definition limiter_admits (cfg : RateLimitConfig) (requests : list (IpAddr * str * bool))
    : bool :=
  match RateLimiter_from_config debug t0 cfg with
  | Ok (Some rl) => admits rl t0 requests
  | _ => false
  end.

Definition universal_cap_admits_exactly_max_then_rejects : bool :=
  limiter_admits
    {| rl_enabled := true; rl_window_secs := 3600; rl_max_requests := 3; rl_rules := [] |}
    [(ip, "example.com/" : str, true); (ip, "example.com/" : str, true);
     (ip, "example.com/" : str, true); (ip, "example.com/" : str, false)].

Definition different_ips_have_independent_budgets : bool :=
  limiter_admits
    {| rl_enabled := true; rl_window_secs := 3600; rl_max_requests := 1; rl_rules := [] |}
    [(ip, "example.com/" : str, true); (ip, "example.com/" : str, false);
     (other_ip, "example.com/" : str, true)].

Definition pattern_rule_is_tracked_independently_of_other_patterns : bool :=
  limiter_admits
    {| rl_enabled := true; rl_window_secs := 0; rl_max_requests := 0;
       rl_rules :=
         [{| rule_pattern := "example.com/secrets/*"; rule_window_secs := 3600;
             rule_max_requests := 1 |};
          {| rule_pattern := "example.com/news/*"; rule_window_secs := 3600;
             rule_max_requests := 5 |}] |}
    [(ip, "example.com/secrets/a" : str, true); (ip, "example.com/secrets/b" : str, false);
     (ip, "example.com/news/a" : str, true); (ip, "example.com/news/b" : str, true);
     (ip, "example.com/other" : str, true); (ip, "example.com/other" : str, true)].

Definition universal_and_pattern_caps_compose : bool :=
  limiter_admits
    {| rl_enabled := true; rl_window_secs := 3600; rl_max_requests := 10;
       rl_rules :=
         [{| rule_pattern := "example.com/secrets/*"; rule_window_secs := 3600;
             rule_max_requests := 2 |}] |}
    [(ip, "example.com/secrets/a" : str, true); (ip, "example.com/secrets/b" : str, true);
     (ip, "example.com/secrets/c" : str, false)].
End RateLimitTests.

(** Every test of [ratelimit.rs] passes on the model. *)
Example ratelimit_tests_pass :
  let t0 := from_secs 10 in
  failures
    [("disabled_config_builds_no_limiter", disabled_config_builds_no_limiter t0);
     ("enabled_but_empty_is_an_error", enabled_but_empty_is_an_error t0);
     ("bad_rule_is_rejected", bad_rule_is_rejected t0);
     ("universal_cap_admits_exactly_max_then_rejects",
      universal_cap_admits_exactly_max_then_rejects t0);
     ("different_ips_have_independent_budgets", different_ips_have_independent_budgets t0);
     ("pattern_rule_is_tracked_independently_of_other_patterns",
      pattern_rule_is_tracked_independently_of_other_patterns t0);
     ("universal_and_pattern_caps_compose", universal_and_pattern_caps_compose t0)]
  = [].
Proof. vm_compute. reflexivity. Qed.
