(* ===== verification/ConfigTests.v ===== *)
(** The unit tests of [src/proxy/src/config.rs], run on the model, and the two
    config files the repository ships.

    A TOML text is written as the tree it denotes.  Not here: the tests of what
    the parser itself reports ([parse_keeps_line_numbers_for_structural_errors])
    or of the text of [config.rs] ([every_secret_field_is_listed_...]), and the
    assertions on the derived [Debug] form of a whole [Config]. *)

From S2P Require Import Prelude Config ConfigEnv ConfigTypes TestKit.

#[local] Existing Instance ToyToml.seq.

(** ** Trees *)

Definition S (s : string) : Value := VString s.
Definition I (n : Z) : Value := VInteger n.
Definition B (b : bool) : Value := VBoolean b.
Definition A (items : list Value) : Value := VArray items.
Definition toml (entries : list (string * Value)) : Table :=
  map (λ e : string * Value, (String.list_ascii_of_string e.1, e.2)) entries.
Definition T (entries : list (string * Value)) : Value := VTable (toml entries).

(** [toml::from_str::<Config>]. *)
Definition from_str (t : Table) : option Config := de_Config FromText t.

Definition debug (s : str) : str := DQUOTE :: s ++ [DQUOTE].
Definition type_error (t : Table) : str := "invalid type".

(** [Config::parse]. *)
Definition parse_tree (t : Table) (env : Lookup) : result Config str :=
  parse (λ _, Ok t) type_error [] env.

Definition no_env : Lookup := λ _, Err NotPresent.

Notation "'parsed' c ':=' e 'in' k" := (match e with Some c => k | None => false end)
  (at level 10, c name, e at level 200, k at level 200) : rust_scope.

(** ** The shipped files *)

Definition proxy_toml : Table := toml
  [("proxy", T [("listen", S "0.0.0.0:8081"); ("upstream", S "localhost:8443");
                ("tls_cert", S "../build/proxy-tls.crt");
                ("tls_key", S "../build/proxy-tls.key")]);
   ("attestation", T [("private_key", S "../build/proxy-private.pem")]);
   ("rate_limiting", T [("enabled", B true); ("window_secs", I 1); ("max_requests", I 100)]);
   ("mtls", T [("enabled", B true); ("client_ca", S "/etc/denbrowser/user-ca.pem")]);
   ("machine_identity",
    T [("enabled", B true); ("machine_ca", S "/etc/denbrowser/machine-ca.pem");
       ("required", B true); ("allowed_hostnames", A []); ("dns_ttl_secs", I 14400);
       ("dns_negative_ttl_secs", I 30); ("dns_stale_grace_secs", I 3600);
       ("partial_chain", B false)]);
   ("proxy_bypass",
    T [("enabled", B false); ("allowed_ip_ranges", A [S "10.0.0.0/8"; S "192.168.1.0/24"]);
       ("allowed_subjects",
        A [S "health-checker"; S "ops.internal"; S "denbrowser-user"])]);
   ("logging",
    T [("dir", S "../build/logs"); ("file_prefix", S "denbrowser-proxy.log");
       ("level", S "info"); ("rotation", S "daily"); ("max_files", I 14);
       ("stderr", B true)])].

Definition proxy_example_toml : Table := toml
  [("proxy", T [("listen", S "0.0.0.0:8081"); ("upstream", S "localhost:8443");
                ("tls_cert", S "../build/proxy-tls.crt");
                ("tls_key", S "../build/proxy-tls.key")]);
   ("attestation", T [("private_key", S "../build/proxy-private.pem")]);
   ("rate_limiting",
    T [("enabled", B true); ("window_secs", I 1); ("max_requests", I 100);
       ("rules",
        A [T [("pattern", S "example.com/secrets/*"); ("window_secs", I 60);
              ("max_requests", I 5)];
           T [("pattern", S "example.com/news/*"); ("window_secs", I 1);
              ("max_requests", I 50)]])]);
   ("mtls", T [("enabled", B false); ("client_ca", S "/etc/denbrowser/user-ca.pem")]);
   ("machine_identity",
    T [("enabled", B true); ("machine_ca", S "/etc/denbrowser/machine-ca.pem")]);
   ("proxy_bypass",
    T [("enabled", B false); ("allowed_ip_ranges", A [S "10.0.0.0/8"; S "192.168.1.0/24"]);
       ("allowed_subjects", A [S "health-checker"; S "ops.internal"])]);
   ("logging",
    T [("dir", S "../build/logs"); ("file_prefix", S "denbrowser-proxy.log");
       ("level", S "info"); ("rotation", S "daily"); ("max_files", I 14);
       ("stderr", B true)])].

(** ** [[proxy]] *)

Definition default_leaves_required_proxy_fields_empty : bool :=
  let c := Config_default in
  is_empty (listen (proxy c)) && is_empty (upstream (proxy c))
  && is_empty (upstream_ca (proxy c)) && is_empty (tls_cert (proxy c))
  && is_empty (tls_key (proxy c)) && secret_is_empty (tls_key_passphrase (proxy c))
  && is_empty (tls_key_passphrase_file (proxy c))
  && negb (rl_enabled (rate_limiting c))
  && (rl_max_requests (rate_limiting c) =? 0) && is_empty (rl_rules (rate_limiting c))
  && mi_enabled (machine_identity c).

Definition parses_proxy_config : bool :=
  let t := toml [("proxy", T [("listen", S "127.0.0.1:9443");
                              ("upstream", S "backend.internal:443");
                              ("tls_cert", S "/etc/denbrowser/proxy.crt");
                              ("tls_key", S "/etc/denbrowser/proxy.key")])] in
  parsed c := from_str t in
  (is_ok (ProxyConfig_validate (proxy c))
   && (listen (proxy c) == "127.0.0.1:9443") && (upstream (proxy c) == "backend.internal:443")
   && is_empty (upstream_ca (proxy c))
   && (tls_cert (proxy c) == "/etc/denbrowser/proxy.crt")
   && (tls_key (proxy c) == "/etc/denbrowser/proxy.key")).

Definition parses_optional_upstream_ca : bool :=
  parsed c := from_str (toml [("proxy", T [("upstream_ca",
                                            S "/run/secrets/upstream_ca.pem")])]) in
  parsed d := from_str (toml [("proxy", T [("upstream_ca", S EmptyString)])]) in
  ((upstream_ca (proxy c) == "/run/secrets/upstream_ca.pem")
   && is_empty (upstream_ca (proxy d))).

Definition proxy_config_requires_every_field_at_startup : bool :=
  let t := toml [("proxy", T [("listen", S "0.0.0.0:8081");
                              ("upstream", S "backend.internal:443");
                              ("tls_cert", S "/etc/denbrowser/proxy.crt")])] in
  parsed c := from_str t in
  match ProxyConfig_validate (proxy c) with
  | Ok _ => false
  | Err error => contains error "[proxy].tls_key is required"
  end.

(** The four required settings, and more. *)
Definition complete_proxy (more : list (string * Value)) : Table :=
  toml [("proxy", T ([("listen", S "0.0.0.0:8081"); ("upstream", S "backend.internal:443");
                      ("tls_cert", S "/etc/denbrowser/proxy.crt");
                      ("tls_key", S "/etc/denbrowser/proxy.key")] ++ more))].

Definition parses_either_tls_key_passphrase_source : bool :=
  parsed inline := from_str (complete_proxy [("tls_key_passphrase", S "correct horse")]) in
  parsed file := from_str (complete_proxy
    [("tls_key_passphrase_file", S "/run/secrets/proxy_tls_key_passphrase")]) in
  (is_ok (ProxyConfig_validate (proxy inline))
   && (secret_expose (tls_key_passphrase (proxy inline)) == "correct horse")
   && is_empty (tls_key_passphrase_file (proxy inline))
   && is_ok (ProxyConfig_validate (proxy file))
   && secret_is_empty (tls_key_passphrase (proxy file))
   && (tls_key_passphrase_file (proxy file) == "/run/secrets/proxy_tls_key_passphrase")).

Definition proxy_config_rejects_both_passphrase_sources : bool :=
  parsed c := from_str (complete_proxy
    [("tls_key_passphrase", S "correct horse");
     ("tls_key_passphrase_file", S "/run/secrets/proxy_tls_key_passphrase")]) in
  match ProxyConfig_validate (proxy c) with
  | Ok _ => false
  | Err error => contains error "mutually exclusive"
  end.

(** The form the passphrase takes inside the [Debug] of the config. *)
Definition tls_key_passphrase_is_redacted_from_debug_output : bool :=
  parsed c := from_str (toml [("proxy", T [("tls_key_passphrase", S "correct horse")])]) in
  ((secret_debug (tls_key_passphrase (proxy c)) == "<redacted>")
   && (secret_debug {| secret_value := [] |} == [DQUOTE; DQUOTE])).

Definition is_rejected (t : Table) : bool :=
  match from_str t with Some _ => false | None => true end.

Definition proxy_config_unknown_key_is_rejected : bool :=
  is_rejected (complete_proxy [("listen_port", I 8081)]).

(** ** The other sections *)

Definition parses_full_config : bool :=
  let t := toml
    [("rate_limiting",
      T [("enabled", B true); ("window_secs", I 1); ("max_requests", I 100);
         ("rules",
          A [T [("pattern", S "example.com/secrets/*"); ("window_secs", I 60);
                ("max_requests", I 5)];
             T [("pattern", S "example.com/news/*"); ("window_secs", I 1);
                ("max_requests", I 50)]])])] in
  parsed c := from_str t in
  (rl_enabled (rate_limiting c) && (rl_window_secs (rate_limiting c) =? 1)
   && (rl_max_requests (rate_limiting c) =? 100)
   && (length (rl_rules (rate_limiting c)) =? 2)%nat
   && match rl_rules (rate_limiting c) with
      | rule :: _ => (rule_pattern rule == "example.com/secrets/*")
                     && (rule_max_requests rule =? 5)
      | [] => false
      end).

Definition empty_config_uses_feature_defaults : bool :=
  parsed c := from_str [] in
  (negb (rl_enabled (rate_limiting c)) && mi_enabled (machine_identity c)).

Definition unknown_key_is_rejected : bool :=
  is_rejected (toml [("rate_limiting", T [("enabled", B true); ("typo_field", I 3)])]).

Definition attestation_defaults_empty : bool :=
  is_empty (cfg_private_key (attestation Config_default)).

Definition parses_attestation : bool :=
  parsed c := from_str (toml [("attestation",
    T [("private_key", S "/etc/denbrowser/partner-a-private.pem")])]) in
  (cfg_private_key (attestation c) == "/etc/denbrowser/partner-a-private.pem").

Definition attestation_unknown_key_is_rejected : bool :=
  is_rejected (toml [("attestation", T [("privateKey", S "/etc/denbrowser/key.pem")])]).

Definition mtls_defaults_off : bool :=
  let c := Config_default in
  negb (mtls_enabled (mtls c)) && is_empty (client_ca (mtls c)).

Definition parses_mtls : bool :=
  parsed c := from_str (toml [("mtls", T [("enabled", B true);
    ("client_ca", S "/etc/denbrowser/user-ca.pem")])]) in
  (mtls_enabled (mtls c) && (client_ca (mtls c) == "/etc/denbrowser/user-ca.pem")).

Definition machine_identity_defaults_on : bool :=
  let c := machine_identity Config_default in
  mi_enabled c && is_empty (machine_ca c) && is_empty (allowed_hostnames c)
  && mi_required c && (dns_ttl_secs c =? 14400) && negb (partial_chain c).

Definition checked_in_proxy_configs_parse_and_share_machine_defaults : bool :=
  expect operational := parse_tree proxy_toml no_env in
  expect example := parse_tree proxy_example_toml no_env in
  ((dns_ttl_secs (machine_identity operational) =? 14400)
   && (dns_ttl_secs (machine_identity example) =? 14400)
   && mi_enabled (machine_identity operational) && mi_enabled (machine_identity example)
   && mi_required (machine_identity operational)
   && (file_prefix (logging operational) == "denbrowser-proxy.log")
   && (log_level (logging operational) == "info") && (rotation (logging operational) == "daily")
   && (max_files (logging operational) =? 14) && log_stderr (logging operational)).

Definition machine_identity_serde_defaults_match_the_default_impl : bool :=
  parsed c := from_str (toml [("machine_identity", T [])]) in
  let m := machine_identity c in let default := MachineIdentityConfig_default in
  (eqb (mi_enabled m) (mi_enabled default) && eqb (mi_required m) (mi_required default)
   && (dns_ttl_secs m =? dns_ttl_secs default)
   && (dns_negative_ttl_secs m =? dns_negative_ttl_secs default)
   && (dns_stale_grace_secs m =? dns_stale_grace_secs default)
   && eqb (partial_chain m) (partial_chain default)).

Definition parses_machine_identity : bool :=
  parsed c := from_str (toml [("machine_identity",
    T [("enabled", B true); ("machine_ca", S "/etc/denbrowser/machine-ca.pem");
       ("allowed_hostnames",
        A [S "ws-*.corp.example.com"; S "kiosk-*.corp.example.com"]);
       ("dns_ttl_secs", I 600); ("partial_chain", B true)])]) in
  let m := machine_identity c in
  (mi_enabled m && (machine_ca m == "/etc/denbrowser/machine-ca.pem")
   && (length (allowed_hostnames m) =? 2)%nat && (dns_ttl_secs m =? 600) && partial_chain m
   && mi_required m && (dns_negative_ttl_secs m =? 30)).

Definition machine_identity_unknown_key_is_rejected : bool :=
  is_rejected (toml [("machine_identity", T [("enabled", B true);
    ("hostname_check", S "reverse")])]).

Definition config_without_machine_identity_uses_enabled_default : bool :=
  parsed c := from_str (toml [("mtls", T [("enabled", B true);
    ("client_ca", S "/etc/denbrowser/user-ca.pem")])]) in
  (mi_enabled (machine_identity c) && is_empty (machine_ca (machine_identity c))).

Definition proxy_bypass_defaults_off : bool :=
  let c := proxy_bypass Config_default in
  negb (pb_enabled c) && is_empty (allowed_ip_ranges c) && is_empty (allowed_subjects c).

Definition parses_proxy_bypass : bool :=
  parsed c := from_str (toml [("proxy_bypass",
    T [("enabled", B true); ("allowed_ip_ranges", A [S "10.0.0.0/8"; S "192.168.1.0/24"]);
       ("allowed_subjects", A [S "health-checker"; S "ops.internal"])])]) in
  (pb_enabled (proxy_bypass c) && (length (allowed_ip_ranges (proxy_bypass c)) =? 2)%nat
   && (allowed_subjects (proxy_bypass c) == texts ["health-checker"; "ops.internal"])).

Definition proxy_bypass_unknown_key_is_rejected : bool :=
  is_rejected (toml [("proxy_bypass", T [("enabled", B true); ("allow_all", B true)])]).

(** ** [[logging]] *)

Definition logging_defaults_to_stderr_only : bool :=
  parsed c := from_str (toml [("proxy", T [("listen", S "0.0.0.0:8081")])]) in
  let l := logging c in
  (negb (file_enabled l) && is_empty (log_dir l) && log_stderr l && (log_level l == "info")
   && (rotation l == "daily") && (max_files l =? 14)
   && (file_prefix l == "denbrowser-proxy.log") && is_ok (LoggingConfig_validate debug l)).

Definition logging_serde_defaults_match_the_default_impl : bool :=
  parsed c := from_str (toml [("logging", T [])]) in
  let l := logging c in let default := LoggingConfig_default in
  ((log_dir l == log_dir default) && (file_prefix l == file_prefix default)
   && (log_level l == log_level default) && (rotation l == rotation default)
   && (max_files l =? max_files default) && eqb (log_stderr l) (log_stderr default)).

Definition parses_logging_config : bool :=
  parsed c := from_str (toml [("logging",
    T [("dir", S "/var/log/denbrowser"); ("file_prefix", S "proxy.log");
       ("level", S "info,denbrowser_proxy=debug"); ("rotation", S "hourly");
       ("max_files", I 48); ("stderr", B false)])]) in
  let l := logging c in
  (is_ok (LoggingConfig_validate debug l) && file_enabled l
   && (log_dir l == "/var/log/denbrowser") && (file_prefix l == "proxy.log")
   && (log_level l == "info,denbrowser_proxy=debug") && (rotation l == "hourly")
   && (max_files l =? 48) && negb (log_stderr l)).

Definition logging_partial_section_keeps_other_defaults : bool :=
  parsed c := from_str (toml [("logging", T [("dir", S "../build/logs")])]) in
  let l := logging c in
  (file_enabled l && (rotation l == "daily") && (max_files l =? 14) && log_stderr l).

Definition logging_rejects_unknown_rotation : bool :=
  parsed c := from_str (toml [("logging", T [("rotation", S "weekly")])]) in
  match LoggingConfig_validate debug (logging c) with
  | Ok _ => false
  | Err error => contains error "[logging].rotation" && contains error "weekly"
  end.

(** [LoggingConfig { ..LoggingConfig::default() }], with what the tests change. *)
Definition logging_with (dir file_prefix level rotation : str) : LoggingConfig :=
  let d := LoggingConfig_default in
  {| log_dir := dir; Config.file_prefix := file_prefix; log_level := level;
     Config.rotation := rotation; max_files := max_files d; log_stderr := log_stderr d |}.
Definition with_rotation (r : str) : LoggingConfig :=
  let d := LoggingConfig_default in logging_with (log_dir d) (file_prefix d) (log_level d) r.
Definition with_level (l : str) : LoggingConfig :=
  let d := LoggingConfig_default in logging_with (log_dir d) (file_prefix d) l (rotation d).

Definition validate (c : LoggingConfig) : result unit str := LoggingConfig_validate debug c.
Definition refused_with (c : LoggingConfig) (part : str) : bool :=
  match validate c with Ok _ => false | Err error => contains error part end.

Definition logging_every_advertised_rotation_validates : bool :=
  forallb (λ r, is_ok (validate (with_rotation r))) LOG_ROTATIONS.

Definition logging_requires_file_prefix_only_when_writing_files : bool :=
  let d := LoggingConfig_default in
  let without_dir := logging_with (log_dir d) [] (log_level d) (rotation d) in
  let with_dir := logging_with "/var/log/denbrowser" "  " (log_level d) (rotation d) in
  is_ok (validate without_dir) && refused_with with_dir "[logging].file_prefix is required".

Definition logging_rejects_bare_level_typos : bool :=
  forallb (λ typo, refused_with (with_level typo) "[logging].level")
    (texts ["inf"; "warning"; "verbose"; "INFOO"]).

Definition logging_rejects_a_level_with_no_directive : bool :=
  forallb (λ level, refused_with (with_level level) "[logging].level is empty")
    ([] :: texts [" "; ","; " , "; ",,"] ++ [utf8 [10]; utf8 [32; 9; 13; 10]])
  && is_ok (validate (with_level "off")).

Definition logging_accepts_valid_levels_and_directives : bool :=
  forallb (λ level, is_ok (validate (with_level level))) LOG_LEVELS
  && forallb (λ level, is_ok (validate (with_level level)))
       (texts ["INFO"; "Warn"; "info,denbrowser_proxy=debug"; "pingora_core=off"]).

Definition logging_unknown_key_is_rejected : bool :=
  is_rejected (toml [("logging", T [("dir", S "/var/log/denbrowser");
    ("path", S "/var/log/denbrowser/proxy.log")])]).

(** ** Environment references *)

Definition env_of (pairs : list (str * str)) : Lookup :=
  λ name,
    match head (filter (λ p : str * str, p.1 = name) pairs) with
    | Some p => Ok p.2
    | None => Err NotPresent
    end.

Definition parse_expands_environment_references_in_every_section : bool :=
  let env := env_of
    ["LISTEN" ~> "0.0.0.0:8081"; "CERTS" ~> "/run/secrets"; "PASS" ~> "correct horse";
     "WS" ~> "ws-*.corp.example.com"; "APP" ~> "example.com"; "HEALTH" ~> "health-checker";
     "LEVEL" ~> "warn"] in
  expect c := parse_tree (toml
    [("proxy", T [("listen", S "${LISTEN}"); ("upstream", S "backend.internal:443");
                  ("tls_cert", S "${CERTS}/proxy.crt"); ("tls_key", S "${CERTS}/proxy.key");
                  ("tls_key_passphrase", S "${PASS}")]);
     ("attestation", T [("private_key", S "${CERTS}/attest.pem")]);
     ("mtls", T [("client_ca", S "${CERTS}/user-ca.pem")]);
     ("proxy_bypass", T [("allowed_subjects", A [S "${HEALTH}"])]);
     ("machine_identity",
      T [("machine_ca", S "${CERTS}/machine-ca.pem");
         ("allowed_hostnames", A [S "${WS}"; S "kiosk-1.corp.example.com"])]);
     ("rate_limiting",
      T [("rules", A [T [("pattern", S "${APP}/secrets/*"); ("window_secs", I 60);
                         ("max_requests", I 5)]])]);
     ("logging", T [("dir", S "$${CERTS}"); ("level", S "${LEVEL}")])]) env in
  (is_ok (ProxyConfig_validate (proxy c)) && is_ok (validate (logging c))
   && (listen (proxy c) == "0.0.0.0:8081") && (tls_cert (proxy c) == "/run/secrets/proxy.crt")
   && (tls_key (proxy c) == "/run/secrets/proxy.key")
   && (secret_expose (tls_key_passphrase (proxy c)) == "correct horse")
   && (cfg_private_key (attestation c) == "/run/secrets/attest.pem")
   && (client_ca (mtls c) == "/run/secrets/user-ca.pem")
   && (allowed_subjects (proxy_bypass c) == texts ["health-checker"])
   && (log_level (logging c) == "warn")
   && (machine_ca (machine_identity c) == "/run/secrets/machine-ca.pem")
   && (allowed_hostnames (machine_identity c)
         == texts ["ws-*.corp.example.com"; "kiosk-1.corp.example.com"])
   && match rl_rules (rate_limiting c) with
      | rule :: _ => (rule_pattern rule == "example.com/secrets/*")
                     && (rule_window_secs rule =? 60)
      | [] => false
      end
   && (log_dir (logging c) == "${CERTS}")).

Definition parse_keeps_environment_values_out_of_the_toml_syntax : bool :=
  let t := toml [("proxy", T [("tls_cert", S "${CERT}")])] in
  let hostile : str :=
    "x" ++ [DQUOTE] ++ utf8 [10] ++ "[mtls]" ++ utf8 [10] ++ "enabled = true" ++ utf8 [10]
    ++ "client_ca = " ++ [DQUOTE] ++ "y" in
  expect c := parse_tree t (λ _, Ok hostile) in
  expect d := parse_tree t (λ _, Ok ("C:\Users\proxy\tls.crt" : str)) in
  ((tls_cert (proxy c) == hostile) && negb (mtls_enabled (mtls c))
   && (tls_cert (proxy d) == "C:\Users\proxy\tls.crt")).

Definition parse_ignores_references_in_comments : bool :=
  expect c := parse_tree (toml [("proxy", T [("listen", S "0.0.0.0:8081")])]) no_env in
  (listen (proxy c) == "0.0.0.0:8081").

Definition parse_rejects_an_unset_reference_naming_setting_and_variable : bool :=
  match parse_tree (toml [("mtls", T [("client_ca", S "${USER_CA}")])]) no_env with
  | Ok _ => false
  | Err error => error == "[mtls].client_ca: environment variable `USER_CA` is not set"
  end.

Definition parse_withholds_variable_names_in_secret_settings : bool :=
  match parse_tree (toml [("proxy", T [("tls_key_passphrase", S "Tr0ub${xY9zQ}or")])])
          no_env with
  | Ok _ => false
  | Err error => negb (contains error "xY9zQ")
                 && starts_with error "[proxy].tls_key_passphrase: "
  end.

(** [path.strip_prefix('[')] and [split_once("].")], for a path whose first [.]
    follows the [\]]. *)
Definition section_and_key (path : str) : option (str * str) :=
  match path with
  | c :: rest =>
      if decide (c = "["%char) then
        match split_once "]" rest with
        | Some (section, d :: key) => if decide (d = "."%char) then Some (section, key) else None
        | _ => None
        end
      else None
  | [] => None
  end.

Definition every_secret_setting_path_names_a_real_setting : bool :=
  forallb (λ path : str,
      match section_and_key path with
      | None => false
      | Some (section, key) =>
          match parse_tree [(section, VTable [(key, VString "${probeXYZ}")])] no_env with
          | Ok _ => false
          | Err error => starts_with error (path ++ ": ") && negb (contains error "probeXYZ")
          end
      end)
    SECRET_SETTINGS.

Definition parse_rejects_a_datetime_in_a_string_setting : bool :=
  is_err (parse_tree (toml [("proxy", T [("listen", VDatetime "1979-05-27")])]) no_env).

(** [expected] is the environment's [PATH], neither blank nor padded. *)
Definition load_expands_from_the_process_environment (expected : str) : bool :=
  let t := toml [("logging", T [("file_prefix", S "${PATH}")])] in
  expect c :=
    Config_load (toml_typed (λ _, Ok t) type_error) (λ _, Ok t) (de_Config FromTree)
      (λ _, Ok []) (env_of [("PATH" : str, expected)]) "denbrowser-config-env.toml" in
  (file_prefix (logging c) == expected).

Definition config_suite : list (string * bool) :=
  [("default_leaves_required_proxy_fields_empty", default_leaves_required_proxy_fields_empty);
   ("parses_proxy_config", parses_proxy_config);
   ("parses_optional_upstream_ca", parses_optional_upstream_ca);
   ("proxy_config_requires_every_field_at_startup",
    proxy_config_requires_every_field_at_startup);
   ("parses_either_tls_key_passphrase_source", parses_either_tls_key_passphrase_source);
   ("proxy_config_rejects_both_passphrase_sources",
    proxy_config_rejects_both_passphrase_sources);
   ("tls_key_passphrase_is_redacted_from_debug_output",
    tls_key_passphrase_is_redacted_from_debug_output);
   ("proxy_config_unknown_key_is_rejected", proxy_config_unknown_key_is_rejected);
   ("parses_full_config", parses_full_config);
   ("empty_config_uses_feature_defaults", empty_config_uses_feature_defaults);
   ("unknown_key_is_rejected", unknown_key_is_rejected);
   ("attestation_defaults_empty", attestation_defaults_empty);
   ("parses_attestation", parses_attestation);
   ("attestation_unknown_key_is_rejected", attestation_unknown_key_is_rejected);
   ("mtls_defaults_off", mtls_defaults_off); ("parses_mtls", parses_mtls);
   ("machine_identity_defaults_on", machine_identity_defaults_on);
   ("checked_in_proxy_configs_parse_and_share_machine_defaults",
    checked_in_proxy_configs_parse_and_share_machine_defaults);
   ("machine_identity_serde_defaults_match_the_default_impl",
    machine_identity_serde_defaults_match_the_default_impl);
   ("parses_machine_identity", parses_machine_identity);
   ("machine_identity_unknown_key_is_rejected", machine_identity_unknown_key_is_rejected);
   ("config_without_machine_identity_uses_enabled_default",
    config_without_machine_identity_uses_enabled_default);
   ("proxy_bypass_defaults_off", proxy_bypass_defaults_off);
   ("parses_proxy_bypass", parses_proxy_bypass);
   ("proxy_bypass_unknown_key_is_rejected", proxy_bypass_unknown_key_is_rejected);
   ("logging_defaults_to_stderr_only", logging_defaults_to_stderr_only);
   ("logging_serde_defaults_match_the_default_impl",
    logging_serde_defaults_match_the_default_impl);
   ("parses_logging_config", parses_logging_config);
   ("logging_partial_section_keeps_other_defaults",
    logging_partial_section_keeps_other_defaults);
   ("logging_rejects_unknown_rotation", logging_rejects_unknown_rotation);
   ("logging_every_advertised_rotation_validates",
    logging_every_advertised_rotation_validates);
   ("logging_requires_file_prefix_only_when_writing_files",
    logging_requires_file_prefix_only_when_writing_files);
   ("logging_rejects_bare_level_typos", logging_rejects_bare_level_typos);
   ("logging_rejects_a_level_with_no_directive", logging_rejects_a_level_with_no_directive);
   ("logging_accepts_valid_levels_and_directives", logging_accepts_valid_levels_and_directives);
   ("logging_unknown_key_is_rejected", logging_unknown_key_is_rejected);
   ("parse_expands_environment_references_in_every_section",
    parse_expands_environment_references_in_every_section);
   ("parse_keeps_environment_values_out_of_the_toml_syntax",
    parse_keeps_environment_values_out_of_the_toml_syntax);
   ("parse_ignores_references_in_comments", parse_ignores_references_in_comments);
   ("parse_rejects_an_unset_reference_naming_setting_and_variable",
    parse_rejects_an_unset_reference_naming_setting_and_variable);
   ("parse_withholds_variable_names_in_secret_settings",
    parse_withholds_variable_names_in_secret_settings);
   ("every_secret_setting_path_names_a_real_setting",
    every_secret_setting_path_names_a_real_setting);
   ("parse_rejects_a_datetime_in_a_string_setting",
    parse_rejects_a_datetime_in_a_string_setting);
   ("load_expands_from_the_process_environment",
    load_expands_from_the_process_environment "/usr/local/bin:/usr/bin")].

(** Every test of [config.rs] named above passes on the model. *)
Example config_tests_pass : failures config_suite = [].
Proof. vm_compute. reflexivity. Qed.
