(* ===== verification/Json.v ===== *)
(** Compact JSON, as [serde_json] writes it, for the documents of [AuditJson]: a
    concrete instance of the serialisation that [Logging] takes as a parameter,
    and a reader of it for the tests.  Nothing here models the repository. *)

From S2P Require Import Prelude Net AuditTypes Attest RateLimit Mtls Machine AuditLog AuditJson Config ConfigEnv Logging LoggingFacts.

(** ** Writing *)

Definition BACKSLASH : ascii := "\".

(** The control characters with an escape of their own. *)
Definition short_escapes : list (Z * ascii) :=
  [(8, "b"%char); (9, "t"%char); (10, "n"%char); (12, "f"%char); (13, "r"%char)].

Definition escape_byte (a : ascii) : str :=
  if decide (a = DQUOTE ∨ a = BACKSLASH) then [BACKSLASH; a]
  else if 32 <=? code a then [a]
  else
    match filter (λ e, e.1 = code a) short_escapes with
    | (_, e) :: _ => [BACKSLASH; e]
    | [] => BACKSLASH :: "u00" ++ hex_byte a
    end.

Definition string_text (s : str) : str := DQUOTE :: (s ≫= escape_byte) ++ [DQUOTE].

(** [serde_json::to_string]. *)
Fixpoint to_string (d : Doc) : str :=
  match d with
  | DNull => "null"
  | DBool b => if b then "true" else "false"
  | DInt n => show n
  | DStr s => string_text s
  | DObj fs =>
      "{" ++ join "," (map (λ f, string_text f.1 ++ ":" ++ to_string f.2) fs) ++ "}"
  end.

(** ** Reading *)

(** What follows a given text. *)
Fixpoint after (p s : str) : option str :=
  match p, s with
  | [], _ => Some s
  | a :: p', b :: s' => if decide (a = b) then after p' s' else None
  | _, [] => None
  end.

Definition long_escape (a b c d : ascii) : option str :=
  match parse_hex_pair [a; b], parse_hex_pair [c; d] with
  | Ok hi, Ok lo =>
      let v := code hi * 256 + code lo in
      if is_scalar v then Some (encode_utf8 v) else None
  | _, _ => None
  end.

(** The rest of a string, and what follows its closing quote. *)
Fixpoint read_string (s : str) : option (str * str) :=
  match s with
  | [] => None
  | c :: s1 =>
      if decide (c = DQUOTE) then Some ([], s1)
      else if decide (c = BACKSLASH) then
        match s1 with
        | [] => None
        | e :: s2 =>
            if decide (e = DQUOTE ∨ e = BACKSLASH ∨ e = "/"%char) then
              '(t, rest) ← read_string s2; Some (e :: t, rest)
            else if decide (e = "u"%char) then
              match s2 with
              | h1 :: h2 :: h3 :: h4 :: s3 =>
                  x ← long_escape h1 h2 h3 h4;
                  '(t, rest) ← read_string s3; Some (x ++ t, rest)
              | _ => None
              end
            else
              match filter (λ p, p.2 = e) short_escapes with
              | (v, _) :: _ => '(t, rest) ← read_string s2; Some (byte_of v :: t, rest)
              | [] => None
              end
        end
      else if code c <? 32 then None
      else '(t, rest) ← read_string s1; Some (c :: t, rest)
  end.

Fixpoint read_digits (s : str) : str * str :=
  match s with
  | c :: s' =>
      if in_range 48 57 (code c) then let '(t, rest) := read_digits s' in (c :: t, rest)
      else ([], s)
  | [] => ([], [])
  end.

Definition digits_value (t : str) : Z := fold_left (λ n c, 10 * n + (code c - 48)) t 0.

(** A value and what follows it; a nested value takes one of [fuel]. *)
Fixpoint read_value (fuel : nat) (s : str) : option (Doc * str) :=
  match fuel with
  | O => None
  | S fuel =>
      let members := fix members (n : nat) (s : str) : option (list (str * Doc) * str) :=
        match n with
        | O => None
        | S n =>
            s ← after [DQUOTE] s; '(k, s) ← read_string s; s ← after ":" s;
            '(v, s) ← read_value fuel s;
            match after "," s with
            | Some s => '(fs, s) ← members n s; Some ((k, v) :: fs, s)
            | None => s ← after "}" s; Some ([(k, v)], s)
            end
        end in
      match s with
      | [] => None
      | c :: s' =>
          if decide (c = DQUOTE) then '(t, rest) ← read_string s'; Some (DStr t, rest)
          else if decide (c = "{"%char) then
            match after "}" s' with
            | Some rest => Some (DObj [], rest)
            | None => '(fs, rest) ← members (length s') s'; Some (DObj fs, rest)
            end
          else if decide (c = "-"%char) then
            let '(t, rest) := read_digits s' in
            if is_empty t then None else Some (DInt (- digits_value t), rest)
          else if in_range 48 57 (code c) then
            let '(t, rest) := read_digits s in Some (DInt (digits_value t), rest)
          else
            match after "null" s, after "true" s, after "false" s with
            | Some rest, _, _ => Some (DNull, rest)
            | _, Some rest, _ => Some (DBool true, rest)
            | _, _, Some rest => Some (DBool false, rest)
            | _, _, _ => None
            end
      end
  end.

(** [serde_json::from_str] of compact JSON: one value and nothing else. *)
Definition from_str (s : str) : option Doc :=
  match read_value (length s) s with Some (d, []) => Some d | _ => None end.

(** ** Looking at a document *)

(** [r["a"]["b"]]: a key that is not there reads as null. *)
Definition get (d : Doc) (path : list string) : Doc :=
  fold_left (λ d k, match d with
                    | DObj fs => default DNull (lookup_key (String.list_ascii_of_string k) fs)
                    | _ => DNull
                    end) path d.
Definition same (d e : Doc) : bool := bool_decide (to_string d = to_string e).
Definition says (r : Doc) (path : list string) (value : string) : bool :=
  same (get r path) (DStr value).
Definition is_null (r : Doc) (path : list string) : bool := same (get r path) DNull.

(** ** One line *)

Lemma escape_byte_line a : LF ∉ escape_byte a.
Proof.
  apply (bool_decide_eq_true_1 _).
  by destruct a as [[] [] [] [] [] [] [] []]; vm_compute.
Qed.

Lemma string_line s : LF ∉ string_text s.
Proof.
  unfold string_text. rewrite elem_of_cons, elem_of_app, list_elem_of_singleton.
  intros [H|[H|H]]; try discriminate H.
  apply list_elem_of_bind in H as (a & Ha & _). by apply escape_byte_line in Ha.
Qed.

Lemma show_digits_line f n acc : LF ∉ acc → LF ∉ show_digits f n acc.
Proof.
  revert n acc. induction f as [|f IH]; intros n acc Hacc; cbn; [done|].
  assert (LF ∉ ascii_digit (n mod 10) :: acc) as Hcons.
  { rewrite elem_of_cons. intros [E|]; [|done]. unfold ascii_digit in E.
    assert (n mod 10 ∈ seqZ 0 10) as Hd by (apply elem_of_seqZ; lia).
    revert E. generalize dependent (n mod 10). clear. intros d Hd E.
    repeat (apply elem_of_cons in Hd as [->|Hd]; [by vm_compute in E|]). by apply not_elem_of_nil in Hd. }
  case_match; [done|by apply IH].
Qed.

Lemma show_line n : LF ∉ show n.
Proof.
  unfold show, show_nat. case_match; [rewrite elem_of_cons; intros [E|E]; [done|]; revert E|];
    by apply show_digits_line; apply not_elem_of_nil.
Qed.

Lemma join_line sep ps : LF ∉ sep → Forall (λ p, LF ∉ p) ps → LF ∉ join sep ps.
Proof.
  intros Hs. induction 1 as [|p ps Hp _ IH]; [by apply not_elem_of_nil|]. cbn.
  destruct ps; [done|]. rewrite !elem_of_app. tauto.
Qed.

(** A document is a single line. *)
Lemma to_string_line d : LF ∉ to_string d.
Proof.
  assert (∀ a s, LF ∉ a :: s ↔ LF ≠ a ∧ LF ∉ s) as Hcons by set_solver.
  revert d. fix IH 1. intros [|b|n|s|fs]; cbn [to_string].
  - by apply (bool_decide_eq_true_1 _).
  - destruct b; by apply (bool_decide_eq_true_1 _).
  - apply show_line.
  - apply string_line.
  - cbn. apply Hcons. split; [done|]. rewrite elem_of_app.
    intros [E|E]; [|by apply list_elem_of_singleton in E]. revert E.
    apply join_line; [by apply (bool_decide_eq_true_1 _)|].
    induction fs as [|[k v] fs IHf]; cbn [map]; constructor; [|exact IHf].
    change (LF ∉ string_text k ++ ":"%char :: to_string v).
    rewrite elem_of_app, elem_of_cons. intros [E|[E|E]]; [|done|].
    + by apply string_line in E.
    + by apply IH in E.
Qed.

(** ** The serialisation of records *)

(** [Display] of an IPv4 address; an IPv6 one is given by its number. *)
Definition show_ip (ip : IpAddr) : str :=
  match ip with
  | V4 a => join "." [show (a / 2 ^ 24); show (a / 2 ^ 16 mod 256); show (a / 2 ^ 8 mod 256);
                      show (a mod 256)]
  | V6 a => "v6-" ++ show a
  end.

(** Floating-point fields are whole numbers here. *)
#[export] Instance numbers : NumberOps :=
  {| F64 := Z; JsonNumber := Z; number_of_int n := n; number_from_f64 x := Some x |}.

Definition value_doc (v : JsonValue) : Doc :=
  match v with
  | JNull => DNull | JBool b => DBool b | JNumber n => DInt n | JString s => DStr s
  end.

#[export] Instance json : JsonOps :=
  {| value_text v := to_string (value_doc v);
     system_json r := Ok (to_string (system_doc value_doc r));
     audit_json r := Ok (to_string (record_doc show_ip r)) |}.

#[export] Instance json_laws : JsonLaws.
Proof.
  constructor; intros r line [= E]; subst line.
  - exact (to_string_line (system_doc value_doc r)).
  - exact (to_string_line (record_doc show_ip r)).
Qed.

Example json_reads_back :
  let d := DObj [("a" : str, DStr ([DQUOTE; LF; BACKSLASH; "001"%char] ++ utf8 [229; 8230]));
                 ("b" : str, DObj []); ("c" : str, DObj [("d" : str, DInt (-120))]);
                 ("e" : str, DBool false); ("f" : str, DNull)] in
  from_str (to_string d) = Some d.
Proof. vm_compute. reflexivity. Qed.
