(* ===== verification/AuditTests.v ===== *)
(** The unit tests of [src/proxy/src/audit.rs], run on the model, and the examples
    the repository publishes ([src/proxy/audit/audit-log.examples.jsonl]).

    A certificate is its subject; the calendar is [Gregorian] and the JSON that of
    [Json], so the model's records are compared with the file byte by byte. *)

From S2P Require Import Prelude Net AuditTypes Attest AttestToken RateLimit Mtls Machine AuditLog AuditTime AuditFacts AuditJson Logging LoggingFacts Json ToyPki TestKit.

(** ** Certificates with a subject *)

Module Subjects.
Definition Cert : Type := list (str * str).      (* short name and value *)

Definition nid_of (short : str) : Z :=
  if decide (short = ("CN" : str)) then NID_COMMONNAME
  else if decide (short = ("C" : str)) then 14
  else if decide (short = ("O" : str)) then 17 else 18.

Definition entry_of (e : str * str) : NameEntry :=
  {| nid := nid_of e.1; nid_short_name := Some e.1; object_text := e.1;
     as_utf8 := Some e.2; as_slice := e.2 |}.

Definition to_der (c : Cert) : str :=
  join [COMMA] (map (λ e, (e.1 ≫= hex_byte) ++ "=" ++ (e.2 ≫= hex_byte)) c).

Definition entry_of_der (field : str) : option (str * str) :=
  '(k, v) ← split_once "="%char field; k ← Toy.unhex k; v ← Toy.unhex v; Some (k, v).

#[export] Instance x509 : X509Ops := {
  X509 := Cert;
  subject_entries c := map entry_of c;
  alt_dns_names _ := None;
  stack_from_pem _ := Ok [] }.

(** No chain is verified here. *)
#[export] Instance tls : MachineTls := {|
  from_der der := mapM entry_of_der (split_on COMMA der) : option X509;
  X509Store := unit;
  store_new := Ok ();
  store_add s _ := Ok s;
  store_partial_chain s := Ok s;
  verify_chain _ _ := Ok (false, 20, [] : str) |}.
End Subjects.

Section Tests.
#[local] Existing Instances Toy.crypto Toy.laws Subjects.x509 Subjects.tls ToyPki.globs
  Gregorian.calendar Json.numbers Json.json.

Definition debug (s : str) : str := DQUOTE :: s ++ [DQUOTE].

Definition at_ms (unix_ms : Z) : str := timestamp (unix_ms * 1000000).

(** ** Timestamps and bounds *)

Definition timestamps_are_fixed_width_utc_with_milliseconds : bool :=
  (at_ms 0 == "1970-01-01T00:00:00.000Z")
  && (at_ms 1709251199999 == "2024-02-29T23:59:59.999Z")
  && (at_ms 1791983045007 == "2026-10-14T13:04:05.007Z").

Definition client_timestamps_beyond_four_digit_years_are_dropped : bool :=
  (unix_timestamp 0 == Some ("1970-01-01T00:00:00.000Z" : str))
  && (unix_timestamp MAX_ISO_UNIX_SECS == Some ("9999-12-31T23:59:59.000Z" : str))
  && (unix_timestamp (MAX_ISO_UNIX_SECS + 1) == None)
  && (unix_timestamp (-1) == None)
  && (unix_timestamp i64_max == None).

Definition bounded_cuts_on_a_character_boundary : bool :=
  (bounded "short" 10 == "short") && (bounded "exactly" 7 == "exactly")
  && (bounded "ååååå" 3 == "ååå…").

(** ** How decisions become records *)

Definition USER_DN : str := "CN=alice.nguyen,OU=Staff,O=Example Corp,C=US".
Definition HOST : str := "intranet.example.com".
Definition MACHINE_HOST : str := "ws-4417.corp.example.com".
Definition NONCE : str := "kX2b0f9Qm1T4yH8uJc3LwA==".

Definition ip (a b c d : Z) : IpAddr := V4 (a * 2 ^ 24 + b * 2 ^ 16 + c * 2 ^ 8 + d).
Definition socket (a : IpAddr) (port : Z) : option SocketAddr :=
  Some {| sa_ip := a; sa_port := port |}.

Definition conn (status : option Z) (up down : Z) : Connection :=
  {| cn_proxy := socket (ip 10 20 0 5) 8443; cn_client := socket (ip 10 4 2 17) 52144;
     cn_tls_client_subject := Some USER_DN; cn_status_code := status;
     cn_request_body_bytes := up; cn_response_body_bytes := down |}.

Definition json_of (ctx : RequestAudit) (c : Connection) (error : option (Reason * str)) : Doc :=
  record_doc show_ip (audit_record show_ip ctx c error (at_ms 0) 0).2.

(** [RequestAudit::new]; no test here measures a duration. *)
Definition new (machine_identity_enabled : bool) : RequestAudit :=
  RequestAudit_new 0 machine_identity_enabled.

(** Errors of [pingora_core]. *)
Definition pingora_error (source : ErrorSource) (etype : string) : ProxyError :=
  {| esource := source; invalid_http_header := String.eqb etype "InvalidHTTPHeader";
     etype_str := etype |}.
Definition new_up : string → ProxyError := pingora_error SrcUpstream.
Definition new_down : string → ProxyError := pingora_error SrcDownstream.
Definition new_in : string → ProxyError := pingora_error SrcInternal.

Definition a_forwarded_request_is_info_with_no_reason : bool :=
  let ctx := forward (token_verified (audit_request (new true) "GET" (Some HOST)) Bound) in
  let r := json_of ctx (conn (Some 200) 0 10) None in
  says r ["level"] "INFO" && says r ["event"; "action"] "forward"
  && says r ["event"; "outcome"] "success" && says r ["event"; "risk"] "info"
  && is_null r ["event"; "stage"] && is_null r ["event"; "reason"]
  && says r ["attestation"; "status"] "verified"
  && says r ["attestation"; "body_binding"] "bound"
  && same (get r ["transfer"; "response_body_bytes"]) (DInt 10).

Definition attestation_failures_carry_their_reason_and_risk : bool :=
  forallb (λ e,
    let ctx := reject (new true) (attest_error_reason e) (attest_error_message e) in
    let r := json_of ctx (conn (Some 403) 0 0) None in
    says r ["level"] "WARN" && says r ["event"; "action"] "reject"
    && says r ["event"; "outcome"] "failure"
    && same (get r ["event"; "reason"]) (DStr (reason_code (attest_error_reason e)))
    && same (get r ["event"; "risk"]) (DStr (risk_name (reason_risk (attest_error_reason e))))
    && says r ["attestation"; "status"] "failed"
    && same (get r ["message"]) (DStr (attest_error_message e)))
    [BadTimestamp; TimestampDrift 95; CommitTooLate 95; InvalidNonce "wrong length";
     NonceReplay; InvalidToken "token too short"; DecryptFailed; PlaintextMismatch;
     BodyHashMismatch].

(** Every other refusal is more than low, bar the client going away. *)
Definition missing_headers_are_low_but_partial_headers_are_high : bool :=
  (reason_risk NoAttestationHeaders == RiskLow)
  && (reason_risk IncompleteAttestationHeaders == RiskHigh)
  && forallb (λ r,
       (bool_decide (r ∈ [NoAttestationHeaders; BodyReadFailed; DownstreamError])
        || negb (reason_risk r == RiskLow))
       && negb (reason_risk r == RiskInfo)) ALL_REASONS.

Definition a_machine_failure_after_the_token_reads_as_incomplete : bool :=
  let ctx := machine_rejected debug show_ip (token_verified (new true) Bound)
               (HostnameAddressMismatch MACHINE_HOST (ip 192 0 2 99)) in
  let r := json_of ctx (conn (Some 403) 0 0) None in
  says r ["event"; "stage"] "machine_identity" && says r ["attestation"; "status"] "incomplete"
  && says r ["machine"; "status"] "failed"
  && same (get r ["machine"; "chain_verified"]) (DBool true).

Definition a_refusal_before_attestation_reads_as_not_evaluated : bool :=
  let ctx := reject (new true) RateLimited "request rate limit exceeded" in
  let r := json_of ctx (conn (Some 429) 0 0) None in
  says r ["event"; "action"] "rate_limit" && says r ["attestation"; "status"] "not_evaluated"
  && says r ["machine"; "status"] "not_evaluated".

Definition a_disabled_machine_layer_says_so : bool :=
  let ctx := forward (token_verified (new false) Bound) in
  says (json_of ctx (conn (Some 200) 0 0) None) ["machine"; "status"] "disabled".

Definition an_upstream_error_after_forwarding_is_a_failed_forward : bool :=
  let ctx := forward (token_verified (new true) Bound) in
  let err := classify_proxy_error (new_up "ConnectRefused") in
  let r := json_of ctx (conn (Some 502) 0 0) (Some err) in
  says r ["level"] "WARN" && says r ["event"; "action"] "forward"
  && says r ["event"; "outcome"] "failure" && says r ["event"; "reason"] "upstream_error"
  && says r ["event"; "stage"] "upstream" && says r ["message"] "upstream error: ConnectRefused"
  && says r ["attestation"; "status"] "verified".

Definition a_malformed_request_refused_after_forwarding_is_high_risk : bool :=
  let ctx := forward (token_verified (new true) Bound) in
  let err := classify_proxy_error (new_down "InvalidHTTPHeader") in
  let r := json_of ctx (conn (Some 400) 0 0) (Some err) in
  says r ["level"] "WARN" && says r ["event"; "action"] "forward"
  && says r ["event"; "outcome"] "failure" && says r ["event"; "reason"] "request_malformed"
  && says r ["event"; "risk"] "high" && says r ["attestation"; "status"] "verified"
  && same (get r ["http"; "response"; "status_code"]) (DInt 400).

Definition a_transport_error_after_a_refusal_keeps_the_refusal : bool :=
  let ctx := reject (new true) ReasonNonceReplay "nonce already seen — replay rejected" in
  let err := classify_proxy_error (new_down "ConnectionClosed") in
  let r := json_of ctx (conn (Some 403) 0 0) (Some err) in
  says r ["event"; "reason"] "nonce_replay"
  && says r ["message"] "nonce already seen — replay rejected".

Definition a_request_without_a_decision_is_still_recorded : bool :=
  let r := json_of (new true) (conn None 0 0) None in
  says r ["event"; "action"] "error" && says r ["event"; "reason"] "internal_error"
  && says r ["level"] "WARN".

Definition proxy_errors_are_classified_by_side : bool :=
  (classify_proxy_error (new_up "ConnectTimedout")
   == (UpstreamError, "upstream error: ConnectTimedout" : str))
  && (classify_proxy_error (new_down "ConnectionClosed")
      == (DownstreamError, "client connection error: ConnectionClosed" : str))
  && (classify_proxy_error (new_down "InvalidHTTPHeader")
      == (RequestMalformed, "malformed request error: InvalidHTTPHeader" : str))
  && (classify_proxy_error (new_in "InternalError")
      == (InternalError, "internal error: InternalError" : str)).

Definition client_address_always_equals_client_ip : bool :=
  forallb (λ addr,
    let v := client_doc show_ip (client_of show_ip addr) in
    same (get v ["address"]) (get v ["ip"]))
    [socket (ip 10 4 2 17) 52144; socket (V6 (8193 * 2 ^ 112 + 3512 * 2 ^ 96 + 7)) 443]
  && same (client_doc show_ip (client_of show_ip None))
       (DObj [("address" : str, DNull); ("ip" : str, DNull); ("port" : str, DNull)]).

(** A certificate with the given subject, as base64 DER. *)
Definition cert_b64 (subject : list (string * str)) : str :=
  base64_encode (Subjects.to_der
    (map (λ e : string * str, (String.list_ascii_of_string e.1, e.2)) subject)).

Definition workstation (cn : str) : str :=
  cert_b64 [("C", "US" : str); ("O", "Example Corp" : str); ("OU", "Workstations" : str);
            ("CN", cn)].

Definition workstation_dn (cn : str) : str :=
  "CN=" ++ cn ++ ",OU=Workstations,O=Example Corp,C=US".

Definition a_presented_machine_cert_is_recorded_unverified : bool :=
  let ctx := machine_cert_presented (new true) (workstation MACHINE_HOST) in
  let ctx := reject ctx NoAttestationHeaders "none" in
  let r := json_of ctx (conn (Some 403) 0 0) None in
  says r ["machine"; "status"] "not_evaluated"
  && same (get r ["machine"; "subject_dn"]) (DStr (workstation_dn MACHINE_HOST))
  && same (get r ["machine"; "chain_verified"]) (DBool false)
  && is_null r ["machine"; "hostname"].

Definition an_unparseable_machine_cert_records_no_dn : bool :=
  let ctx := machine_cert_presented (new true) "not base64!!" in
  let ctx := machine_rejected debug show_ip ctx NotBase64 in
  let r := json_of ctx (conn (Some 403) 0 0) None in
  is_null r ["machine"; "subject_dn"] && says r ["event"; "reason"] "machine_cert_malformed".

(** [s.as_str().unwrap().chars().count()]. *)
Definition char_count (d : Doc) : option nat :=
  match d with DStr s => Some (length (chars s)) | _ => None end.

Definition client_controlled_values_are_bounded : bool :=
  let ctx := audit_request (new true) (repeat "M"%char 500) (Some (repeat "h"%char 5000)) in
  let ctx := attestation_headers ctx (Some ("1791983045" : str))
               (Some (repeat "n"%char 5000)) in
  let ctx := reject ctx NonceInvalid "invalid X-DenBrowser-Nonce: not base64" in
  let r := json_of ctx (conn (Some 403) 0 0) None in
  (char_count (get r ["server"; "address"]) == Some (MAX_HOST_CHARS + 1)%nat)
  && (char_count (get r ["http"; "request"; "method"]) == Some (MAX_METHOD_CHARS + 1)%nat)
  && (char_count (get r ["attestation"; "nonce"]) == Some (MAX_NONCE_CHARS + 1)%nat)
  && says r ["attestation"; "client_timestamp"] "2026-10-14T13:04:05.000Z".

(** ** The examples file

    The records of the examples, from the calls [request_filter] makes. *)

Definition EXAMPLE_EPOCH_MS : Z := 1791983045250.

(** [Example] and [Entry]; an audit entry is built from the record's own time, in
    Unix seconds. *)
Record ExampleRecord := {
  ctx : RequestAudit; ex_conn : Connection; ex_error : option (Reason * str);
  duration_ms : Z }.
Inductive Entry :=
  | Audit (build : Z → ExampleRecord)
  | System (level : Level) (logger message : str).

Definition Example_new (c : RequestAudit) (cn : Connection) (ms : Z) : ExampleRecord :=
  {| ctx := c; ex_conn := cn; ex_error := None; duration_ms := ms |}.
Definition with_error (e : ExampleRecord) (error : ProxyError) : ExampleRecord :=
  {| ctx := ctx e; ex_conn := ex_conn e; ex_error := Some (classify_proxy_error error);
     duration_ms := duration_ms e |}.

(** The headers of a request whose clock runs one second behind the proxy's. *)
Definition timely (c : RequestAudit) (now : Z) : RequestAudit :=
  attestation_headers c (Some (show (now - 1))) (Some NONCE).
Definition get_request : RequestAudit := audit_request (new true) "GET" (Some HOST).

Definition attested (method : str) (now : Z) : RequestAudit :=
  machine_cert_presented (timely (audit_request (new true) method (Some HOST)) now)
    (workstation MACHINE_HOST).

Definition verified_machine : VerifiedMachine :=
  {| hostname := MACHINE_HOST; vm_subject_dn := workstation_dn MACHINE_HOST |}.

(** An attested request whose token and machine were verified. *)
Definition admitted (method : str) (b : Binding) (now : Z) : RequestAudit :=
  machine_verified (token_verified (attested method now) b) verified_machine.

Definition machine_refusal (now : Z) (cert : str) (e : MachineError) (ms : Z)
    : ExampleRecord :=
  let c := machine_cert_presented (attested "GET" now) cert in
  Example_new (machine_rejected debug show_ip (token_verified c Bound) e)
    (conn (Some 403) 0 0) ms.

Definition token_refusal (c : RequestAudit) (e : AttestError) : ExampleRecord :=
  Example_new (reject c (attest_error_reason e) (attest_error_message e))
    (conn (Some 403) 0 0) 1.

Definition allowed_entries : list Entry :=
  [System LevelInfo "denbrowser_proxy"
     "listening TLS on 0.0.0.0:8443 → backend.internal:443";
   Audit (λ now,
     Example_new (forward (admitted "POST" Bound now)) (conn (Some 200) 512 18734) 42);
   Audit (λ now,
     Example_new (forward (admitted "PUT" Unbound now)) (conn (Some 201) 52428800 96) 3510);
   Audit (λ now,
     let c := token_verified (machine_absent (timely get_request now)) Bound in
     Example_new (forward c) (conn (Some 200) 0 4096) 18);
   Audit (λ _,
     let c := bypass (attestation_headers get_request None None) "health-checker" in
     Example_new c
       {| cn_proxy := cn_proxy (conn (Some 200) 0 2);
          cn_client := socket (ip 10 9 0 12) 40112;
          cn_tls_client_subject :=
            Some ("CN=health-checker,OU=Operations,O=Example Corp,C=US" : str);
          cn_status_code := Some 200; cn_request_body_bytes := 0;
          cn_response_body_bytes := 2 |} 6)].

Definition header_entries : list Entry :=
  [Audit (λ now,
     Example_new (reject (attested "GET" now) RateLimited "request rate limit exceeded")
       (conn (Some 429) 0 0) 0);
   Audit (λ _,
     Example_new
       (reject (attestation_headers get_request None None) NoAttestationHeaders
          ("no DenBrowser attestation headers — not DenBrowser, or a "
           ++ "DenBrowser not configured for this proxy"))
       (conn (Some 403) 0 0) 0);
   Audit (λ now,
     let c := machine_cert_presented (timely get_request now) (workstation MACHINE_HOST) in
     Example_new
       (reject c IncompleteAttestationHeaders
          "incomplete attestation headers (missing or unreadable: x-denbrowser-token)")
       (conn (Some 403) 0 0) 0)].

Definition machine_entries : list Entry :=
  let ws := workstation MACHINE_HOST in
  [Audit (λ now,
     Example_new (machine_rejected debug show_ip (timely get_request now) Missing)
       (conn (Some 403) 0 0) 0);
   Audit (λ now, machine_refusal now "bm90IGEgY2VydGlmaWNhdGU=" NotDer 1);
   Audit (λ now,
     let cert := cert_b64 [("C", "US" : str); ("O", "Example Corp" : str)] in
     machine_refusal now cert NoCommonName 1);
   Audit (λ now,
     machine_refusal now (workstation ("ws-4417" ++ [LF] ++ "accepted")) UnsafeCommonName 1);
   Audit (λ now,
     let cn : str := "laptop-1.corp.example.com" in
     machine_refusal now (workstation cn) (HostnameNotAllowed cn) 1);
   Audit (λ now, machine_refusal now ws CertExpired 1);
   Audit (λ now, machine_refusal now ws CertNotYetValid 1);
   Audit (λ now,
     machine_refusal now ws (UntrustedChain "unable to get local issuer certificate") 1);
   Audit (λ now, machine_refusal now ws (HostnameUnresolvable MACHINE_HOST) 12);
   Audit (λ now,
     machine_refusal now ws (HostnameAddressMismatch MACHINE_HOST (ip 10 4 2 17)) 9);
   Audit (λ now,
     let ex := machine_refusal now ws NoClientAddress 0 in
     let c := ex_conn ex in
     Example_new (ctx ex)
       {| cn_proxy := cn_proxy c; cn_client := None;
          cn_tls_client_subject := cn_tls_client_subject c;
          cn_status_code := cn_status_code c;
          cn_request_body_bytes := cn_request_body_bytes c;
          cn_response_body_bytes := cn_response_body_bytes c |} (duration_ms ex))].

Definition token_entries : list Entry :=
  [Audit (λ _,
     let c := attestation_headers get_request (Some ("yesterday" : str)) (Some NONCE) in
     token_refusal (machine_cert_presented c (workstation MACHINE_HOST)) BadTimestamp);
   Audit (λ now,
     token_refusal
       (attestation_headers (attested "GET" now) (Some (show (now - 95))) (Some NONCE))
       (TimestampDrift 95));
   Audit (λ now,
     token_refusal
       (attestation_headers (attested "GET" now) (Some (show (now - 1)))
          (Some ("c2hvcnQ=" : str)))
       (InvalidNonce "wrong length"));
   Audit (λ now, token_refusal (attested "GET" now) NonceReplay);
   Audit (λ now, token_refusal (attested "GET" now) (InvalidToken "token too short"));
   Audit (λ now, token_refusal (attested "GET" now) DecryptFailed);
   Audit (λ now, token_refusal (attested "POST" now) PlaintextMismatch)].

Definition body_entries : list Entry :=
  [Audit (λ now,
     Example_new
       (reject (admitted "POST" Bound now) BodyTooLarge
          "bound body exceeds 65536 bytes (must be sent as an unbound upload)")
       (conn (Some 413) 69632 0) 4);
   Audit (λ now,
     let e := BodyHashMismatch in
     Example_new
       (reject (admitted "POST" Bound now) (attest_error_reason e) (attest_error_message e))
       (conn (Some 403) 2048 0) 3);
   Audit (λ now,
     Example_new
       (reject (admitted "POST" Bound now) BodyReadFailed
          "could not read request body: ReadError")
       (conn (Some 400) 1024 0) 30001)].

Definition failed_entries : list Entry :=
  [System LevelError "pingora_proxy"
     ("Fail to proxy: Upstream ConnectRefused context: Fail to connect to addr: "
      ++ "10.30.0.8:443, scheme: HTTPS, sni: backend.internal cause:  context: Fail to "
      ++ "connect to 10.30.0.8:443 cause: Connection refused (os error 111), status: 502, "
      ++ "tries: 1, retry: false, POST intranet.example.com");
   Audit (λ now,
     with_error (Example_new (forward (admitted "POST" Bound now)) (conn (Some 502) 512 0) 7)
       (new_up "ConnectRefused"));
   Audit (λ now,
     with_error
       (Example_new (forward (admitted "GET" Bound now)) (conn (Some 200) 0 1048576) 2204)
       (new_down "ConnectionClosed"));
   System LevelError "pingora_proxy"
     ("Fail to proxy: Downstream InvalidHTTPHeader context: Peer: addr: "
      ++ "10.30.0.8:443, scheme: HTTPS, sni: backend.internal cause:  context: "
      ++ "protected header cannot be nominated by the Connection header, status: 400, "
      ++ "tries: 1, retry: false, GET intranet.example.com");
   Audit (λ now,
     with_error (Example_new (forward (admitted "GET" Bound now)) (conn (Some 400) 0 0) 3)
       (new_down "InvalidHTTPHeader"));
   Audit (λ now,
     let c := machine_cert_presented (timely get_request now) (workstation MACHINE_HOST) in
     with_error (Example_new c (conn (Some 500) 0 0) 0) (new_in "InternalError"))].

Definition entries : list Entry :=
  allowed_entries ++ header_entries ++ machine_entries ++ token_entries ++ body_entries
  ++ failed_entries.

Definition example_doc (i : nat) (entry : Entry) : Doc :=
  let ms := EXAMPLE_EPOCH_MS + Z.of_nat i * 1000 in
  match entry with
  | Audit build =>
      let ex := build (ms / 1000) in
      record_doc show_ip
        (audit_record show_ip (ctx ex) (ex_conn ex) (ex_error ex) (at_ms ms) (duration_ms ex)).2
  | System level logger message =>
      system_doc value_doc (SystemRecord_new (at_ms ms) level logger message ∅)
  end.

Definition examples : list Doc := imap example_doc entries.
Definition example_lines : list str := map to_string examples.

(** The file, an apostrophe standing for a double quote. *)
Definition line (parts : list string) : str :=
  map (λ a, if decide (a = "'"%char) then DQUOTE else a)
    (concat (map String.list_ascii_of_string parts)).

Definition audit_log_examples_jsonl : list str :=
  [
   line ["{'timestamp':'2026-10-14T13:04:05.250Z','schema_version':'1.0','level':";
         "'INFO','logger':'denbrowser_proxy','event':{'kind':'system'},'message':";
         "'listening TLS on 0.0.0.0:8443 → backend.internal:443'}"];
   line ["{'timestamp':'2026-10-14T13:04:06.250Z','schema_version':'1.0','level':";
         "'INFO','logger':'denbrowser_proxy::audit','event':{'kind':'audit',";
         "'action':'forward','outcome':'success','stage':null,'reason':null,";
         "'risk':'info','duration_ms':42},'message':'attested request forwarded',";
         "'proxy':{'ip':'10.20.0.5','port':8443},'client':{'address':'10.4.2.17',";
         "'ip':'10.4.2.17','port':52144},'server':{'address':'intranet.example.com'},";
         "'tls':{'client':{'subject':'CN=alice.nguyen,OU=Staff,O=Example Corp,";
         "C=US'}},'machine':{'status':'verified','subject_dn':'CN=ws-4417.corp.example.com,";
         "OU=Workstations,O=Example Corp,C=US','hostname':'ws-4417.corp.example.com',";
         "'chain_verified':true},'attestation':{'status':'verified','nonce':";
         "'kX2b0f9Qm1T4yH8uJc3LwA==','client_timestamp':'2026-10-14T13:04:";
         "05.000Z','body_binding':'bound'},'http':{'request':{'method':'POST'},";
         "'response':{'status_code':200}},'transfer':{'request_body_bytes':";
         "512,'response_body_bytes':18734}}"];
   line ["{'timestamp':'2026-10-14T13:04:07.250Z','schema_version':'1.0','level':";
         "'INFO','logger':'denbrowser_proxy::audit','event':{'kind':'audit',";
         "'action':'forward','outcome':'success','stage':null,'reason':null,";
         "'risk':'info','duration_ms':3510},'message':'attested upload forwarded; ";
         "body streamed unbound (not hash-verified)','proxy':{'ip':'10.20.0.5',";
         "'port':8443},'client':{'address':'10.4.2.17','ip':'10.4.2.17','port':";
         "52144},'server':{'address':'intranet.example.com'},'tls':{'client':";
         "{'subject':'CN=alice.nguyen,OU=Staff,O=Example Corp,C=US'}},'machine':";
         "{'status':'verified','subject_dn':'CN=ws-4417.corp.example.com,OU=Workstations,";
         "O=Example Corp,C=US','hostname':'ws-4417.corp.example.com','chain_verified':";
         "true},'attestation':{'status':'verified','nonce':'kX2b0f9Qm1T4yH8uJc3LwA==',";
         "'client_timestamp':'2026-10-14T13:04:06.000Z','body_binding':'unbound'},";
         "'http':{'request':{'method':'PUT'},'response':{'status_code':201}},";
         "'transfer':{'request_body_bytes':52428800,'response_body_bytes':";
         "96}}"];
   line ["{'timestamp':'2026-10-14T13:04:08.250Z','schema_version':'1.0','level':";
         "'INFO','logger':'denbrowser_proxy::audit','event':{'kind':'audit',";
         "'action':'forward','outcome':'success','stage':null,'reason':null,";
         "'risk':'info','duration_ms':18},'message':'attested request forwarded',";
         "'proxy':{'ip':'10.20.0.5','port':8443},'client':{'address':'10.4.2.17',";
         "'ip':'10.4.2.17','port':52144},'server':{'address':'intranet.example.com'},";
         "'tls':{'client':{'subject':'CN=alice.nguyen,OU=Staff,O=Example Corp,";
         "C=US'}},'machine':{'status':'absent','subject_dn':null,'hostname':";
         "null,'chain_verified':false},'attestation':{'status':'verified',";
         "'nonce':'kX2b0f9Qm1T4yH8uJc3LwA==','client_timestamp':'2026-10-14T13:";
         "04:07.000Z','body_binding':'bound'},'http':{'request':{'method':";
         "'GET'},'response':{'status_code':200}},'transfer':{'request_body_bytes':";
         "0,'response_body_bytes':4096}}"];
   line ["{'timestamp':'2026-10-14T13:04:09.250Z','schema_version':'1.0','level':";
         "'INFO','logger':'denbrowser_proxy::audit','event':{'kind':'audit',";
         "'action':'bypass','outcome':'success','stage':null,'reason':null,";
         "'risk':'info','duration_ms':6},'message':'attestation bypassed for ";
         "allowlisted client certificate subject health-checker','proxy':{'ip':";
         "'10.20.0.5','port':8443},'client':{'address':'10.9.0.12','ip':'10.9.0.12',";
         "'port':40112},'server':{'address':'intranet.example.com'},'tls':";
         "{'client':{'subject':'CN=health-checker,OU=Operations,O=Example ";
         "Corp,C=US'}},'machine':{'status':'not_evaluated','subject_dn':null,";
         "'hostname':null,'chain_verified':false},'attestation':{'status':";
         "'bypassed','nonce':null,'client_timestamp':null,'body_binding':null},";
         "'http':{'request':{'method':'GET'},'response':{'status_code':200}},";
         "'transfer':{'request_body_bytes':0,'response_body_bytes':2}}"];
   line ["{'timestamp':'2026-10-14T13:04:10.250Z','schema_version':'1.0','level':";
         "'WARN','logger':'denbrowser_proxy::audit','event':{'kind':'audit',";
         "'action':'rate_limit','outcome':'failure','stage':'rate_limit','reason':";
         "'rate_limited','risk':'medium','duration_ms':0},'message':'request ";
         "rate limit exceeded','proxy':{'ip':'10.20.0.5','port':8443},'client':";
         "{'address':'10.4.2.17','ip':'10.4.2.17','port':52144},'server':{'address':";
         "'intranet.example.com'},'tls':{'client':{'subject':'CN=alice.nguyen,";
         "OU=Staff,O=Example Corp,C=US'}},'machine':{'status':'not_evaluated',";
         "'subject_dn':'CN=ws-4417.corp.example.com,OU=Workstations,O=Example ";
         "Corp,C=US','hostname':null,'chain_verified':false},'attestation':";
         "{'status':'not_evaluated','nonce':'kX2b0f9Qm1T4yH8uJc3LwA==','client_timestamp':";
         "'2026-10-14T13:04:09.000Z','body_binding':null},'http':{'request':";
         "{'method':'GET'},'response':{'status_code':429}},'transfer':{'request_body_bytes':";
         "0,'response_body_bytes':0}}"];
   line ["{'timestamp':'2026-10-14T13:04:11.250Z','schema_version':'1.0','level':";
         "'WARN','logger':'denbrowser_proxy::audit','event':{'kind':'audit',";
         "'action':'reject','outcome':'failure','stage':'attestation_headers',";
         "'reason':'no_attestation_headers','risk':'low','duration_ms':0},";
         "'message':'no DenBrowser attestation headers — not DenBrowser, or ";
         "a DenBrowser not configured for this proxy','proxy':{'ip':'10.20.0.5',";
         "'port':8443},'client':{'address':'10.4.2.17','ip':'10.4.2.17','port':";
         "52144},'server':{'address':'intranet.example.com'},'tls':{'client':";
         "{'subject':'CN=alice.nguyen,OU=Staff,O=Example Corp,C=US'}},'machine':";
         "{'status':'not_evaluated','subject_dn':null,'hostname':null,'chain_verified':";
         "false},'attestation':{'status':'failed','nonce':null,'client_timestamp':";
         "null,'body_binding':null},'http':{'request':{'method':'GET'},'response':";
         "{'status_code':403}},'transfer':{'request_body_bytes':0,'response_body_bytes':";
         "0}}"];
   line ["{'timestamp':'2026-10-14T13:04:12.250Z','schema_version':'1.0','level':";
         "'WARN','logger':'denbrowser_proxy::audit','event':{'kind':'audit',";
         "'action':'reject','outcome':'failure','stage':'attestation_headers',";
         "'reason':'incomplete_attestation_headers','risk':'high','duration_ms':";
         "0},'message':'incomplete attestation headers (missing or unreadable:";
         " x-denbrowser-token)','proxy':{'ip':'10.20.0.5','port':8443},'client':";
         "{'address':'10.4.2.17','ip':'10.4.2.17','port':52144},'server':{'address':";
         "'intranet.example.com'},'tls':{'client':{'subject':'CN=alice.nguyen,";
         "OU=Staff,O=Example Corp,C=US'}},'machine':{'status':'not_evaluated',";
         "'subject_dn':'CN=ws-4417.corp.example.com,OU=Workstations,O=Example ";
         "Corp,C=US','hostname':null,'chain_verified':false},'attestation':";
         "{'status':'failed','nonce':'kX2b0f9Qm1T4yH8uJc3LwA==','client_timestamp':";
         "'2026-10-14T13:04:11.000Z','body_binding':null},'http':{'request':";
         "{'method':'GET'},'response':{'status_code':403}},'transfer':{'request_body_bytes':";
         "0,'response_body_bytes':0}}"];
   line ["{'timestamp':'2026-10-14T13:04:13.250Z','schema_version':'1.0','level':";
         "'WARN','logger':'denbrowser_proxy::audit','event':{'kind':'audit',";
         "'action':'reject','outcome':'failure','stage':'machine_identity',";
         "'reason':'machine_cert_missing','risk':'medium','duration_ms':0},";
         "'message':'X-DenBrowser-Machine-Cert is missing','proxy':{'ip':'10.20.0.5',";
         "'port':8443},'client':{'address':'10.4.2.17','ip':'10.4.2.17','port':";
         "52144},'server':{'address':'intranet.example.com'},'tls':{'client':";
         "{'subject':'CN=alice.nguyen,OU=Staff,O=Example Corp,C=US'}},'machine':";
         "{'status':'failed','subject_dn':null,'hostname':null,'chain_verified':";
         "false},'attestation':{'status':'not_evaluated','nonce':'kX2b0f9Qm1T4yH8uJc3LwA==',";
         "'client_timestamp':'2026-10-14T13:04:12.000Z','body_binding':null},";
         "'http':{'request':{'method':'GET'},'response':{'status_code':403}},";
         "'transfer':{'request_body_bytes':0,'response_body_bytes':0}}"];
   line ["{'timestamp':'2026-10-14T13:04:14.250Z','schema_version':'1.0','level':";
         "'WARN','logger':'denbrowser_proxy::audit','event':{'kind':'audit',";
         "'action':'reject','outcome':'failure','stage':'machine_identity',";
         "'reason':'machine_cert_malformed','risk':'high','duration_ms':1},";
         "'message':'machine certificate is not parseable DER','proxy':{'ip':";
         "'10.20.0.5','port':8443},'client':{'address':'10.4.2.17','ip':'10.4.2.17',";
         "'port':52144},'server':{'address':'intranet.example.com'},'tls':";
         "{'client':{'subject':'CN=alice.nguyen,OU=Staff,O=Example Corp,C=US'}},";
         "'machine':{'status':'failed','subject_dn':null,'hostname':null,'chain_verified':";
         "false},'attestation':{'status':'incomplete','nonce':'kX2b0f9Qm1T4yH8uJc3LwA==',";
         "'client_timestamp':'2026-10-14T13:04:13.000Z','body_binding':'bound'},";
         "'http':{'request':{'method':'GET'},'response':{'status_code':403}},";
         "'transfer':{'request_body_bytes':0,'response_body_bytes':0}}"];
   line ["{'timestamp':'2026-10-14T13:04:15.250Z','schema_version':'1.0','level':";
         "'WARN','logger':'denbrowser_proxy::audit','event':{'kind':'audit',";
         "'action':'reject','outcome':'failure','stage':'machine_identity',";
         "'reason':'machine_cert_no_common_name','risk':'high','duration_ms':";
         "1},'message':'machine certificate has no Common Name','proxy':{'ip':";
         "'10.20.0.5','port':8443},'client':{'address':'10.4.2.17','ip':'10.4.2.17',";
         "'port':52144},'server':{'address':'intranet.example.com'},'tls':";
         "{'client':{'subject':'CN=alice.nguyen,OU=Staff,O=Example Corp,C=US'}},";
         "'machine':{'status':'failed','subject_dn':'O=Example Corp,C=US',";
         "'hostname':null,'chain_verified':false},'attestation':{'status':";
         "'incomplete','nonce':'kX2b0f9Qm1T4yH8uJc3LwA==','client_timestamp':";
         "'2026-10-14T13:04:14.000Z','body_binding':'bound'},'http':{'request':";
         "{'method':'GET'},'response':{'status_code':403}},'transfer':{'request_body_bytes':";
         "0,'response_body_bytes':0}}"];
   line ["{'timestamp':'2026-10-14T13:04:16.250Z','schema_version':'1.0','level':";
         "'WARN','logger':'denbrowser_proxy::audit','event':{'kind':'audit',";
         "'action':'reject','outcome':'failure','stage':'machine_identity',";
         "'reason':'machine_cert_unsafe_common_name','risk':'high','duration_ms':";
         "1},'message':'machine certificate Common Name contains illegal characters',";
         "'proxy':{'ip':'10.20.0.5','port':8443},'client':{'address':'10.4.2.17',";
         "'ip':'10.4.2.17','port':52144},'server':{'address':'intranet.example.com'},";
         "'tls':{'client':{'subject':'CN=alice.nguyen,OU=Staff,O=Example Corp,";
         "C=US'}},'machine':{'status':'failed','subject_dn':'CN=ws-4417\\0Aaccepted,";
         "OU=Workstations,O=Example Corp,C=US','hostname':null,'chain_verified':";
         "false},'attestation':{'status':'incomplete','nonce':'kX2b0f9Qm1T4yH8uJc3LwA==',";
         "'client_timestamp':'2026-10-14T13:04:15.000Z','body_binding':'bound'},";
         "'http':{'request':{'method':'GET'},'response':{'status_code':403}},";
         "'transfer':{'request_body_bytes':0,'response_body_bytes':0}}"];
   line ["{'timestamp':'2026-10-14T13:04:17.250Z','schema_version':'1.0','level':";
         "'WARN','logger':'denbrowser_proxy::audit','event':{'kind':'audit',";
         "'action':'reject','outcome':'failure','stage':'machine_identity',";
         "'reason':'machine_hostname_not_allowed','risk':'high','duration_ms':";
         "1},'message':'machine hostname \'laptop-1.corp.example.com\' matches ";
         "no allowed_hostnames pattern','proxy':{'ip':'10.20.0.5','port':8443},";
         "'client':{'address':'10.4.2.17','ip':'10.4.2.17','port':52144},'server':";
         "{'address':'intranet.example.com'},'tls':{'client':{'subject':'CN=alice.nguyen,";
         "OU=Staff,O=Example Corp,C=US'}},'machine':{'status':'failed','subject_dn':";
         "'CN=laptop-1.corp.example.com,OU=Workstations,O=Example Corp,C=US',";
         "'hostname':null,'chain_verified':false},'attestation':{'status':";
         "'incomplete','nonce':'kX2b0f9Qm1T4yH8uJc3LwA==','client_timestamp':";
         "'2026-10-14T13:04:16.000Z','body_binding':'bound'},'http':{'request':";
         "{'method':'GET'},'response':{'status_code':403}},'transfer':{'request_body_bytes':";
         "0,'response_body_bytes':0}}"];
   line ["{'timestamp':'2026-10-14T13:04:18.250Z','schema_version':'1.0','level':";
         "'WARN','logger':'denbrowser_proxy::audit','event':{'kind':'audit',";
         "'action':'reject','outcome':'failure','stage':'machine_identity',";
         "'reason':'machine_cert_expired','risk':'medium','duration_ms':1},";
         "'message':'machine certificate (or its issuing CA) has expired',";
         "'proxy':{'ip':'10.20.0.5','port':8443},'client':{'address':'10.4.2.17',";
         "'ip':'10.4.2.17','port':52144},'server':{'address':'intranet.example.com'},";
         "'tls':{'client':{'subject':'CN=alice.nguyen,OU=Staff,O=Example Corp,";
         "C=US'}},'machine':{'status':'failed','subject_dn':'CN=ws-4417.corp.example.com,";
         "OU=Workstations,O=Example Corp,C=US','hostname':null,'chain_verified':";
         "false},'attestation':{'status':'incomplete','nonce':'kX2b0f9Qm1T4yH8uJc3LwA==',";
         "'client_timestamp':'2026-10-14T13:04:17.000Z','body_binding':'bound'},";
         "'http':{'request':{'method':'GET'},'response':{'status_code':403}},";
         "'transfer':{'request_body_bytes':0,'response_body_bytes':0}}"];
   line ["{'timestamp':'2026-10-14T13:04:19.250Z','schema_version':'1.0','level':";
         "'WARN','logger':'denbrowser_proxy::audit','event':{'kind':'audit',";
         "'action':'reject','outcome':'failure','stage':'machine_identity',";
         "'reason':'machine_cert_not_yet_valid','risk':'medium','duration_ms':";
         "1},'message':'machine certificate (or its issuing CA) is not yet ";
         "valid','proxy':{'ip':'10.20.0.5','port':8443},'client':{'address':";
         "'10.4.2.17','ip':'10.4.2.17','port':52144},'server':{'address':'intranet.example.com'},";
         "'tls':{'client':{'subject':'CN=alice.nguyen,OU=Staff,O=Example Corp,";
         "C=US'}},'machine':{'status':'failed','subject_dn':'CN=ws-4417.corp.example.com,";
         "OU=Workstations,O=Example Corp,C=US','hostname':null,'chain_verified':";
         "false},'attestation':{'status':'incomplete','nonce':'kX2b0f9Qm1T4yH8uJc3LwA==',";
         "'client_timestamp':'2026-10-14T13:04:18.000Z','body_binding':'bound'},";
         "'http':{'request':{'method':'GET'},'response':{'status_code':403}},";
         "'transfer':{'request_body_bytes':0,'response_body_bytes':0}}"];
   line ["{'timestamp':'2026-10-14T13:04:20.250Z','schema_version':'1.0','level':";
         "'WARN','logger':'denbrowser_proxy::audit','event':{'kind':'audit',";
         "'action':'reject','outcome':'failure','stage':'machine_identity',";
         "'reason':'machine_cert_untrusted','risk':'high','duration_ms':1},";
         "'message':'machine certificate does not chain to machine_ca: unable ";
         "to get local issuer certificate','proxy':{'ip':'10.20.0.5','port':";
         "8443},'client':{'address':'10.4.2.17','ip':'10.4.2.17','port':52144},";
         "'server':{'address':'intranet.example.com'},'tls':{'client':{'subject':";
         "'CN=alice.nguyen,OU=Staff,O=Example Corp,C=US'}},'machine':{'status':";
         "'failed','subject_dn':'CN=ws-4417.corp.example.com,OU=Workstations,";
         "O=Example Corp,C=US','hostname':null,'chain_verified':false},'attestation':";
         "{'status':'incomplete','nonce':'kX2b0f9Qm1T4yH8uJc3LwA==','client_timestamp':";
         "'2026-10-14T13:04:19.000Z','body_binding':'bound'},'http':{'request':";
         "{'method':'GET'},'response':{'status_code':403}},'transfer':{'request_body_bytes':";
         "0,'response_body_bytes':0}}"];
   line ["{'timestamp':'2026-10-14T13:04:21.250Z','schema_version':'1.0','level':";
         "'WARN','logger':'denbrowser_proxy::audit','event':{'kind':'audit',";
         "'action':'reject','outcome':'failure','stage':'machine_identity',";
         "'reason':'machine_hostname_unresolvable','risk':'medium','duration_ms':";
         "12},'message':'machine hostname \'ws-4417.corp.example.com\' could ";
         "not be resolved','proxy':{'ip':'10.20.0.5','port':8443},'client':";
         "{'address':'10.4.2.17','ip':'10.4.2.17','port':52144},'server':{'address':";
         "'intranet.example.com'},'tls':{'client':{'subject':'CN=alice.nguyen,";
         "OU=Staff,O=Example Corp,C=US'}},'machine':{'status':'failed','subject_dn':";
         "'CN=ws-4417.corp.example.com,OU=Workstations,O=Example Corp,C=US',";
         "'hostname':null,'chain_verified':true},'attestation':{'status':'incomplete',";
         "'nonce':'kX2b0f9Qm1T4yH8uJc3LwA==','client_timestamp':'2026-10-14T13:";
         "04:20.000Z','body_binding':'bound'},'http':{'request':{'method':";
         "'GET'},'response':{'status_code':403}},'transfer':{'request_body_bytes':";
         "0,'response_body_bytes':0}}"];
   line ["{'timestamp':'2026-10-14T13:04:22.250Z','schema_version':'1.0','level':";
         "'WARN','logger':'denbrowser_proxy::audit','event':{'kind':'audit',";
         "'action':'reject','outcome':'failure','stage':'machine_identity',";
         "'reason':'machine_address_mismatch','risk':'high','duration_ms':";
         "9},'message':'machine hostname \'ws-4417.corp.example.com\' does ";
         "not resolve to the connecting address 10.4.2.17','proxy':{'ip':'10.20.0.5',";
         "'port':8443},'client':{'address':'10.4.2.17','ip':'10.4.2.17','port':";
         "52144},'server':{'address':'intranet.example.com'},'tls':{'client':";
         "{'subject':'CN=alice.nguyen,OU=Staff,O=Example Corp,C=US'}},'machine':";
         "{'status':'failed','subject_dn':'CN=ws-4417.corp.example.com,OU=Workstations,";
         "O=Example Corp,C=US','hostname':null,'chain_verified':true},'attestation':";
         "{'status':'incomplete','nonce':'kX2b0f9Qm1T4yH8uJc3LwA==','client_timestamp':";
         "'2026-10-14T13:04:21.000Z','body_binding':'bound'},'http':{'request':";
         "{'method':'GET'},'response':{'status_code':403}},'transfer':{'request_body_bytes':";
         "0,'response_body_bytes':0}}"];
   line ["{'timestamp':'2026-10-14T13:04:23.250Z','schema_version':'1.0','level':";
         "'WARN','logger':'denbrowser_proxy::audit','event':{'kind':'audit',";
         "'action':'reject','outcome':'failure','stage':'machine_identity',";
         "'reason':'machine_no_client_address','risk':'medium','duration_ms':";
         "0},'message':'connection has no peer address to verify the machine ";
         "hostname against','proxy':{'ip':'10.20.0.5','port':8443},'client':";
         "{'address':null,'ip':null,'port':null},'server':{'address':'intranet.example.com'},";
         "'tls':{'client':{'subject':'CN=alice.nguyen,OU=Staff,O=Example Corp,";
         "C=US'}},'machine':{'status':'failed','subject_dn':'CN=ws-4417.corp.example.com,";
         "OU=Workstations,O=Example Corp,C=US','hostname':null,'chain_verified':";
         "false},'attestation':{'status':'incomplete','nonce':'kX2b0f9Qm1T4yH8uJc3LwA==',";
         "'client_timestamp':'2026-10-14T13:04:22.000Z','body_binding':'bound'},";
         "'http':{'request':{'method':'GET'},'response':{'status_code':403}},";
         "'transfer':{'request_body_bytes':0,'response_body_bytes':0}}"];
   line ["{'timestamp':'2026-10-14T13:04:24.250Z','schema_version':'1.0','level':";
         "'WARN','logger':'denbrowser_proxy::audit','event':{'kind':'audit',";
         "'action':'reject','outcome':'failure','stage':'attestation_token',";
         "'reason':'timestamp_invalid','risk':'high','duration_ms':1},'message':";
         "'X-DenBrowser-Ts is not a valid integer','proxy':{'ip':'10.20.0.5',";
         "'port':8443},'client':{'address':'10.4.2.17','ip':'10.4.2.17','port':";
         "52144},'server':{'address':'intranet.example.com'},'tls':{'client':";
         "{'subject':'CN=alice.nguyen,OU=Staff,O=Example Corp,C=US'}},'machine':";
         "{'status':'not_evaluated','subject_dn':'CN=ws-4417.corp.example.com,";
         "OU=Workstations,O=Example Corp,C=US','hostname':null,'chain_verified':";
         "false},'attestation':{'status':'failed','nonce':'kX2b0f9Qm1T4yH8uJc3LwA==',";
         "'client_timestamp':null,'body_binding':null},'http':{'request':{'method':";
         "'GET'},'response':{'status_code':403}},'transfer':{'request_body_bytes':";
         "0,'response_body_bytes':0}}"];
   line ["{'timestamp':'2026-10-14T13:04:25.250Z','schema_version':'1.0','level':";
         "'WARN','logger':'denbrowser_proxy::audit','event':{'kind':'audit',";
         "'action':'reject','outcome':'failure','stage':'attestation_token',";
         "'reason':'timestamp_out_of_window','risk':'medium','duration_ms':";
         "1},'message':'timestamp drift 95s exceeds 30s window','proxy':{'ip':";
         "'10.20.0.5','port':8443},'client':{'address':'10.4.2.17','ip':'10.4.2.17',";
         "'port':52144},'server':{'address':'intranet.example.com'},'tls':";
         "{'client':{'subject':'CN=alice.nguyen,OU=Staff,O=Example Corp,C=US'}},";
         "'machine':{'status':'not_evaluated','subject_dn':'CN=ws-4417.corp.example.com,";
         "OU=Workstations,O=Example Corp,C=US','hostname':null,'chain_verified':";
         "false},'attestation':{'status':'failed','nonce':'kX2b0f9Qm1T4yH8uJc3LwA==',";
         "'client_timestamp':'2026-10-14T13:02:50.000Z','body_binding':null},";
         "'http':{'request':{'method':'GET'},'response':{'status_code':403}},";
         "'transfer':{'request_body_bytes':0,'response_body_bytes':0}}"];
   line ["{'timestamp':'2026-10-14T13:04:26.250Z','schema_version':'1.0','level':";
         "'WARN','logger':'denbrowser_proxy::audit','event':{'kind':'audit',";
         "'action':'reject','outcome':'failure','stage':'attestation_token',";
         "'reason':'nonce_invalid','risk':'high','duration_ms':1},'message':";
         "'invalid X-DenBrowser-Nonce: wrong length','proxy':{'ip':'10.20.0.5',";
         "'port':8443},'client':{'address':'10.4.2.17','ip':'10.4.2.17','port':";
         "52144},'server':{'address':'intranet.example.com'},'tls':{'client':";
         "{'subject':'CN=alice.nguyen,OU=Staff,O=Example Corp,C=US'}},'machine':";
         "{'status':'not_evaluated','subject_dn':'CN=ws-4417.corp.example.com,";
         "OU=Workstations,O=Example Corp,C=US','hostname':null,'chain_verified':";
         "false},'attestation':{'status':'failed','nonce':'c2hvcnQ=','client_timestamp':";
         "'2026-10-14T13:04:25.000Z','body_binding':null},'http':{'request':";
         "{'method':'GET'},'response':{'status_code':403}},'transfer':{'request_body_bytes':";
         "0,'response_body_bytes':0}}"];
   line ["{'timestamp':'2026-10-14T13:04:27.250Z','schema_version':'1.0','level':";
         "'WARN','logger':'denbrowser_proxy::audit','event':{'kind':'audit',";
         "'action':'reject','outcome':'failure','stage':'attestation_token',";
         "'reason':'nonce_replay','risk':'high','duration_ms':1},'message':";
         "'nonce already seen — replay rejected','proxy':{'ip':'10.20.0.5',";
         "'port':8443},'client':{'address':'10.4.2.17','ip':'10.4.2.17','port':";
         "52144},'server':{'address':'intranet.example.com'},'tls':{'client':";
         "{'subject':'CN=alice.nguyen,OU=Staff,O=Example Corp,C=US'}},'machine':";
         "{'status':'not_evaluated','subject_dn':'CN=ws-4417.corp.example.com,";
         "OU=Workstations,O=Example Corp,C=US','hostname':null,'chain_verified':";
         "false},'attestation':{'status':'failed','nonce':'kX2b0f9Qm1T4yH8uJc3LwA==',";
         "'client_timestamp':'2026-10-14T13:04:26.000Z','body_binding':null},";
         "'http':{'request':{'method':'GET'},'response':{'status_code':403}},";
         "'transfer':{'request_body_bytes':0,'response_body_bytes':0}}"];
   line ["{'timestamp':'2026-10-14T13:04:28.250Z','schema_version':'1.0','level':";
         "'WARN','logger':'denbrowser_proxy::audit','event':{'kind':'audit',";
         "'action':'reject','outcome':'failure','stage':'attestation_token',";
         "'reason':'token_malformed','risk':'high','duration_ms':1},'message':";
         "'invalid token: token too short','proxy':{'ip':'10.20.0.5','port':";
         "8443},'client':{'address':'10.4.2.17','ip':'10.4.2.17','port':52144},";
         "'server':{'address':'intranet.example.com'},'tls':{'client':{'subject':";
         "'CN=alice.nguyen,OU=Staff,O=Example Corp,C=US'}},'machine':{'status':";
         "'not_evaluated','subject_dn':'CN=ws-4417.corp.example.com,OU=Workstations,";
         "O=Example Corp,C=US','hostname':null,'chain_verified':false},'attestation':";
         "{'status':'failed','nonce':'kX2b0f9Qm1T4yH8uJc3LwA==','client_timestamp':";
         "'2026-10-14T13:04:27.000Z','body_binding':null},'http':{'request':";
         "{'method':'GET'},'response':{'status_code':403}},'transfer':{'request_body_bytes':";
         "0,'response_body_bytes':0}}"];
   line ["{'timestamp':'2026-10-14T13:04:29.250Z','schema_version':'1.0','level':";
         "'WARN','logger':'denbrowser_proxy::audit','event':{'kind':'audit',";
         "'action':'reject','outcome':'failure','stage':'attestation_token',";
         "'reason':'token_decrypt_failed','risk':'high','duration_ms':1},'message':";
         "'AES-128-GCM authentication failed','proxy':{'ip':'10.20.0.5','port':";
         "8443},'client':{'address':'10.4.2.17','ip':'10.4.2.17','port':52144},";
         "'server':{'address':'intranet.example.com'},'tls':{'client':{'subject':";
         "'CN=alice.nguyen,OU=Staff,O=Example Corp,C=US'}},'machine':{'status':";
         "'not_evaluated','subject_dn':'CN=ws-4417.corp.example.com,OU=Workstations,";
         "O=Example Corp,C=US','hostname':null,'chain_verified':false},'attestation':";
         "{'status':'failed','nonce':'kX2b0f9Qm1T4yH8uJc3LwA==','client_timestamp':";
         "'2026-10-14T13:04:28.000Z','body_binding':null},'http':{'request':";
         "{'method':'GET'},'response':{'status_code':403}},'transfer':{'request_body_bytes':";
         "0,'response_body_bytes':0}}"];
   line ["{'timestamp':'2026-10-14T13:04:30.250Z','schema_version':'1.0','level':";
         "'WARN','logger':'denbrowser_proxy::audit','event':{'kind':'audit',";
         "'action':'reject','outcome':'failure','stage':'attestation_token',";
         "'reason':'token_request_mismatch','risk':'critical','duration_ms':";
         "1},'message':'plaintext mismatch','proxy':{'ip':'10.20.0.5','port':";
         "8443},'client':{'address':'10.4.2.17','ip':'10.4.2.17','port':52144},";
         "'server':{'address':'intranet.example.com'},'tls':{'client':{'subject':";
         "'CN=alice.nguyen,OU=Staff,O=Example Corp,C=US'}},'machine':{'status':";
         "'not_evaluated','subject_dn':'CN=ws-4417.corp.example.com,OU=Workstations,";
         "O=Example Corp,C=US','hostname':null,'chain_verified':false},'attestation':";
         "{'status':'failed','nonce':'kX2b0f9Qm1T4yH8uJc3LwA==','client_timestamp':";
         "'2026-10-14T13:04:29.000Z','body_binding':null},'http':{'request':";
         "{'method':'POST'},'response':{'status_code':403}},'transfer':{'request_body_bytes':";
         "0,'response_body_bytes':0}}"];
   line ["{'timestamp':'2026-10-14T13:04:31.250Z','schema_version':'1.0','level':";
         "'WARN','logger':'denbrowser_proxy::audit','event':{'kind':'audit',";
         "'action':'reject','outcome':'failure','stage':'attestation_body',";
         "'reason':'body_too_large','risk':'medium','duration_ms':4},'message':";
         "'bound body exceeds 65536 bytes (must be sent as an unbound upload)',";
         "'proxy':{'ip':'10.20.0.5','port':8443},'client':{'address':'10.4.2.17',";
         "'ip':'10.4.2.17','port':52144},'server':{'address':'intranet.example.com'},";
         "'tls':{'client':{'subject':'CN=alice.nguyen,OU=Staff,O=Example Corp,";
         "C=US'}},'machine':{'status':'verified','subject_dn':'CN=ws-4417.corp.example.com,";
         "OU=Workstations,O=Example Corp,C=US','hostname':'ws-4417.corp.example.com',";
         "'chain_verified':true},'attestation':{'status':'failed','nonce':";
         "'kX2b0f9Qm1T4yH8uJc3LwA==','client_timestamp':'2026-10-14T13:04:";
         "30.000Z','body_binding':'bound'},'http':{'request':{'method':'POST'},";
         "'response':{'status_code':413}},'transfer':{'request_body_bytes':";
         "69632,'response_body_bytes':0}}"];
   line ["{'timestamp':'2026-10-14T13:04:32.250Z','schema_version':'1.0','level':";
         "'WARN','logger':'denbrowser_proxy::audit','event':{'kind':'audit',";
         "'action':'reject','outcome':'failure','stage':'attestation_body',";
         "'reason':'body_hash_mismatch','risk':'critical','duration_ms':3},";
         "'message':'body hash mismatch','proxy':{'ip':'10.20.0.5','port':";
         "8443},'client':{'address':'10.4.2.17','ip':'10.4.2.17','port':52144},";
         "'server':{'address':'intranet.example.com'},'tls':{'client':{'subject':";
         "'CN=alice.nguyen,OU=Staff,O=Example Corp,C=US'}},'machine':{'status':";
         "'verified','subject_dn':'CN=ws-4417.corp.example.com,OU=Workstations,";
         "O=Example Corp,C=US','hostname':'ws-4417.corp.example.com','chain_verified':";
         "true},'attestation':{'status':'failed','nonce':'kX2b0f9Qm1T4yH8uJc3LwA==',";
         "'client_timestamp':'2026-10-14T13:04:31.000Z','body_binding':'bound'},";
         "'http':{'request':{'method':'POST'},'response':{'status_code':403}},";
         "'transfer':{'request_body_bytes':2048,'response_body_bytes':0}}"];
   line ["{'timestamp':'2026-10-14T13:04:33.250Z','schema_version':'1.0','level':";
         "'WARN','logger':'denbrowser_proxy::audit','event':{'kind':'audit',";
         "'action':'reject','outcome':'failure','stage':'downstream','reason':";
         "'body_read_failed','risk':'low','duration_ms':30001},'message':'could ";
         "not read request body: ReadError','proxy':{'ip':'10.20.0.5','port':";
         "8443},'client':{'address':'10.4.2.17','ip':'10.4.2.17','port':52144},";
         "'server':{'address':'intranet.example.com'},'tls':{'client':{'subject':";
         "'CN=alice.nguyen,OU=Staff,O=Example Corp,C=US'}},'machine':{'status':";
         "'verified','subject_dn':'CN=ws-4417.corp.example.com,OU=Workstations,";
         "O=Example Corp,C=US','hostname':'ws-4417.corp.example.com','chain_verified':";
         "true},'attestation':{'status':'incomplete','nonce':'kX2b0f9Qm1T4yH8uJc3LwA==',";
         "'client_timestamp':'2026-10-14T13:04:32.000Z','body_binding':'bound'},";
         "'http':{'request':{'method':'POST'},'response':{'status_code':400}},";
         "'transfer':{'request_body_bytes':1024,'response_body_bytes':0}}"];
   line ["{'timestamp':'2026-10-14T13:04:34.250Z','schema_version':'1.0','level':";
         "'ERROR','logger':'pingora_proxy','event':{'kind':'system'},'message':";
         "'Fail to proxy: Upstream ConnectRefused context: Fail to connect ";
         "to addr: 10.30.0.8:443, scheme: HTTPS, sni: backend.internal cause:";
         "  context: Fail to connect to 10.30.0.8:443 cause: Connection refused ";
         "(os error 111), status: 502, tries: 1, retry: false, POST intranet.example.com'}"];
   line ["{'timestamp':'2026-10-14T13:04:35.250Z','schema_version':'1.0','level':";
         "'WARN','logger':'denbrowser_proxy::audit','event':{'kind':'audit',";
         "'action':'forward','outcome':'failure','stage':'upstream','reason':";
         "'upstream_error','risk':'medium','duration_ms':7},'message':'upstream ";
         "error: ConnectRefused','proxy':{'ip':'10.20.0.5','port':8443},'client':";
         "{'address':'10.4.2.17','ip':'10.4.2.17','port':52144},'server':{'address':";
         "'intranet.example.com'},'tls':{'client':{'subject':'CN=alice.nguyen,";
         "OU=Staff,O=Example Corp,C=US'}},'machine':{'status':'verified','subject_dn':";
         "'CN=ws-4417.corp.example.com,OU=Workstations,O=Example Corp,C=US',";
         "'hostname':'ws-4417.corp.example.com','chain_verified':true},'attestation':";
         "{'status':'verified','nonce':'kX2b0f9Qm1T4yH8uJc3LwA==','client_timestamp':";
         "'2026-10-14T13:04:34.000Z','body_binding':'bound'},'http':{'request':";
         "{'method':'POST'},'response':{'status_code':502}},'transfer':{'request_body_bytes':";
         "512,'response_body_bytes':0}}"];
   line ["{'timestamp':'2026-10-14T13:04:36.250Z','schema_version':'1.0','level':";
         "'WARN','logger':'denbrowser_proxy::audit','event':{'kind':'audit',";
         "'action':'forward','outcome':'failure','stage':'downstream','reason':";
         "'downstream_error','risk':'low','duration_ms':2204},'message':'client ";
         "connection error: ConnectionClosed','proxy':{'ip':'10.20.0.5','port':";
         "8443},'client':{'address':'10.4.2.17','ip':'10.4.2.17','port':52144},";
         "'server':{'address':'intranet.example.com'},'tls':{'client':{'subject':";
         "'CN=alice.nguyen,OU=Staff,O=Example Corp,C=US'}},'machine':{'status':";
         "'verified','subject_dn':'CN=ws-4417.corp.example.com,OU=Workstations,";
         "O=Example Corp,C=US','hostname':'ws-4417.corp.example.com','chain_verified':";
         "true},'attestation':{'status':'verified','nonce':'kX2b0f9Qm1T4yH8uJc3LwA==',";
         "'client_timestamp':'2026-10-14T13:04:35.000Z','body_binding':'bound'},";
         "'http':{'request':{'method':'GET'},'response':{'status_code':200}},";
         "'transfer':{'request_body_bytes':0,'response_body_bytes':1048576}}"];
   line ["{'timestamp':'2026-10-14T13:04:37.250Z','schema_version':'1.0','level':";
         "'ERROR','logger':'pingora_proxy','event':{'kind':'system'},'message':";
         "'Fail to proxy: Downstream InvalidHTTPHeader context: Peer: addr:";
         " 10.30.0.8:443, scheme: HTTPS, sni: backend.internal cause:  context:";
         " protected header cannot be nominated by the Connection header, ";
         "status: 400, tries: 1, retry: false, GET intranet.example.com'}"];
   line ["{'timestamp':'2026-10-14T13:04:38.250Z','schema_version':'1.0','level':";
         "'WARN','logger':'denbrowser_proxy::audit','event':{'kind':'audit',";
         "'action':'forward','outcome':'failure','stage':'downstream','reason':";
         "'request_malformed','risk':'high','duration_ms':3},'message':'malformed ";
         "request error: InvalidHTTPHeader','proxy':{'ip':'10.20.0.5','port':";
         "8443},'client':{'address':'10.4.2.17','ip':'10.4.2.17','port':52144},";
         "'server':{'address':'intranet.example.com'},'tls':{'client':{'subject':";
         "'CN=alice.nguyen,OU=Staff,O=Example Corp,C=US'}},'machine':{'status':";
         "'verified','subject_dn':'CN=ws-4417.corp.example.com,OU=Workstations,";
         "O=Example Corp,C=US','hostname':'ws-4417.corp.example.com','chain_verified':";
         "true},'attestation':{'status':'verified','nonce':'kX2b0f9Qm1T4yH8uJc3LwA==',";
         "'client_timestamp':'2026-10-14T13:04:37.000Z','body_binding':'bound'},";
         "'http':{'request':{'method':'GET'},'response':{'status_code':400}},";
         "'transfer':{'request_body_bytes':0,'response_body_bytes':0}}"];
   line ["{'timestamp':'2026-10-14T13:04:39.250Z','schema_version':'1.0','level':";
         "'WARN','logger':'denbrowser_proxy::audit','event':{'kind':'audit',";
         "'action':'error','outcome':'failure','stage':'internal','reason':";
         "'internal_error','risk':'medium','duration_ms':0},'message':'internal ";
         "error: InternalError','proxy':{'ip':'10.20.0.5','port':8443},'client':";
         "{'address':'10.4.2.17','ip':'10.4.2.17','port':52144},'server':{'address':";
         "'intranet.example.com'},'tls':{'client':{'subject':'CN=alice.nguyen,";
         "OU=Staff,O=Example Corp,C=US'}},'machine':{'status':'not_evaluated',";
         "'subject_dn':'CN=ws-4417.corp.example.com,OU=Workstations,O=Example ";
         "Corp,C=US','hostname':null,'chain_verified':false},'attestation':";
         "{'status':'not_evaluated','nonce':'kX2b0f9Qm1T4yH8uJc3LwA==','client_timestamp':";
         "'2026-10-14T13:04:38.000Z','body_binding':null},'http':{'request':";
         "{'method':'GET'},'response':{'status_code':500}},'transfer':{'request_body_bytes':";
         "0,'response_body_bytes':0}}"]].

Definition examples_file_is_current : bool := example_lines == audit_log_examples_jsonl.

Definition every_reason_and_action_has_an_example : bool :=
  forallb (λ r, existsb (λ e, same (get e ["event"; "reason"]) (reason_doc r)) examples)
    ALL_REASONS
  && forallb (λ a, existsb (λ e, same (get e ["event"; "action"]) (DStr (action_name a))) examples)
       [ActForward; ActBypass; ActReject; ActRateLimit; ActError]
  && existsb (λ e, says e ["event"; "kind"] "system") examples.

(** ** The schema *)

(** The schema of a key: in [properties], under [allOf] or [anyOf] if need be. *)
Fixpoint properties (s : Schema) : option (list (str * Schema)) :=
  let first := fix first (l : list Schema) : option (list (str * Schema)) :=
    match l with
    | [] => None
    | s :: l => match properties s with Some ps => Some ps | None => first l end
    end in
  match s with
  | SProperties ps => Some ps
  | SAllOf l | SAnyOf l => first l
  | _ => None
  end.

Definition property (k : string) (s : Schema) : Schema :=
  match properties s with
  | Some ps =>
      match filter (λ p, p.1 = String.list_ascii_of_string k) ps with
      | (_, s) :: _ => s
      | [] => SAllOf []
      end
  | None => SAllOf []
  end.

Definition enum_of (s : Schema) : list str :=
  match s with SEnum l | SAnyOf [SEnum l; _] => l | _ => [] end.

Definition schema_reason_table_matches_the_code : bool :=
  schema_reasons
  == map (λ r, (reason_code r, stage_name (reason_stage r), risk_name (reason_risk r)))
       ALL_REASONS.

Definition schema_enums_match_the_code : bool :=
  (enum_of risk_schema
   == map risk_name [RiskInfo; RiskLow; RiskMedium; RiskHigh; RiskCritical])
  && (enum_of stage_schema
      == map stage_name [StageRateLimit; StageAttestationHeaders; StageMachineIdentity;
                         StageAttestationToken; StageAttestationBody; StageUpstream;
                         StageDownstream; StageInternal])
  && (enum_of (property "action" event_schema)
      == map action_name [ActForward; ActBypass; ActReject; ActRateLimit; ActError])
  && (enum_of (property "outcome" event_schema) == map outcome_name [Success; Failure])
  && (enum_of (property "status" attestation_schema)
      == map attestation_status_name
           [AttVerified; AttFailed; AttBypassed; AttIncomplete; AttNotEvaluated])
  && (enum_of (property "status" machine_schema)
      == map machine_status_name
           [MachVerified; MachFailed; MachAbsent; MachNotEvaluated; MachDisabled])
  && (enum_of (property "body_binding" attestation_schema) == map binding_name [Bound; Unbound])
  && match property "schema_version" audit_schema with
     | SConst v => v == SCHEMA_VERSION
     | _ => false
     end.

(** The paths of the leaves, in the schema and in a document. *)
Fixpoint documented (fuel : nat) (prefix : list str) (s : Schema) : list (list str) :=
  match fuel with
  | O => []
  | S fuel =>
      match properties s with
      | Some ps => concat (map (λ p, documented fuel (prefix ++ [p.1]) p.2) ps)
      | None => [prefix]
      end
  end.

Fixpoint written (prefix : list str) (d : Doc) : list (list str) :=
  match d with
  | DObj fs => concat (map (λ f, written (prefix ++ [f.1]) f.2) fs)
  | _ => [prefix]
  end.

Definition schema_lists_every_record_field_the_code_writes : bool :=
  let in_schema := documented 10 [] audit_schema in
  let in_examples :=
    concat (map (written []) (filter (λ e, says e ["event"; "kind"] "audit" = true) examples)) in
  forallb (λ p, bool_decide (p ∈ in_examples)) in_schema
  && forallb (λ p, bool_decide (p ∈ in_schema)) in_examples.

(** Not a test of the file: each line it holds is one document of the schema. *)
Definition published_examples_validate : bool :=
  forallb (λ l, match from_str l with Some d => valid log_schema d | None => false end)
    audit_log_examples_jsonl.

(** Every test of [audit.rs] passes on the model. *)
Example audit_tests_pass :
  failures
    [("timestamps_are_fixed_width_utc_with_milliseconds",
      timestamps_are_fixed_width_utc_with_milliseconds);
     ("client_timestamps_beyond_four_digit_years_are_dropped",
      client_timestamps_beyond_four_digit_years_are_dropped);
     ("bounded_cuts_on_a_character_boundary", bounded_cuts_on_a_character_boundary);
     ("a_forwarded_request_is_info_with_no_reason",
      a_forwarded_request_is_info_with_no_reason);
     ("attestation_failures_carry_their_reason_and_risk",
      attestation_failures_carry_their_reason_and_risk);
     ("missing_headers_are_low_but_partial_headers_are_high",
      missing_headers_are_low_but_partial_headers_are_high);
     ("a_machine_failure_after_the_token_reads_as_incomplete",
      a_machine_failure_after_the_token_reads_as_incomplete);
     ("a_refusal_before_attestation_reads_as_not_evaluated",
      a_refusal_before_attestation_reads_as_not_evaluated);
     ("a_disabled_machine_layer_says_so", a_disabled_machine_layer_says_so);
     ("an_upstream_error_after_forwarding_is_a_failed_forward",
      an_upstream_error_after_forwarding_is_a_failed_forward);
     ("a_malformed_request_refused_after_forwarding_is_high_risk",
      a_malformed_request_refused_after_forwarding_is_high_risk);
     ("a_transport_error_after_a_refusal_keeps_the_refusal",
      a_transport_error_after_a_refusal_keeps_the_refusal);
     ("a_request_without_a_decision_is_still_recorded",
      a_request_without_a_decision_is_still_recorded);
     ("proxy_errors_are_classified_by_side", proxy_errors_are_classified_by_side);
     ("client_address_always_equals_client_ip", client_address_always_equals_client_ip);
     ("a_presented_machine_cert_is_recorded_unverified",
      a_presented_machine_cert_is_recorded_unverified);
     ("an_unparseable_machine_cert_records_no_dn", an_unparseable_machine_cert_records_no_dn);
     ("client_controlled_values_are_bounded", client_controlled_values_are_bounded);
     ("examples_file_is_current", examples_file_is_current);
     ("every_reason_and_action_has_an_example", every_reason_and_action_has_an_example);
     ("schema_reason_table_matches_the_code", schema_reason_table_matches_the_code);
     ("schema_enums_match_the_code", schema_enums_match_the_code);
     ("schema_lists_every_record_field_the_code_writes",
      schema_lists_every_record_field_the_code_writes);
     ("published_examples_validate", published_examples_validate)]
  = [].
Proof. vm_compute. reflexivity. Qed.
End Tests.
