(* ===== verification/LoggingTests.v ===== *)
(** The unit tests of [src/proxy/src/logging.rs], run on the model.

    A stand-in for [tracing]'s filter grammar and file appender is at the top; the
    JSON is [Json]'s, and a line is read back before it is looked at.  Not here:
    what the tests find on the file system afterwards. *)

From S2P Require Import Prelude Net AuditTypes Attest AttestToken Config ConfigEnv RateLimit Mtls Machine AuditLog AuditTime AuditJson Logging LoggingFacts Json ToyPki AuditTests TestKit.

(** ** The logging libraries *)

(** [LevelFilter::from_str], without its numbers; [off] is [Some None]. *)
Definition parse_level (s : str) : option (option Level) :=
  if decide (s = ("off" : str)) then Some None
  else if decide (s = ("error" : str)) then Some (Some LevelError)
  else if decide (s = ("warn" : str)) then Some (Some LevelWarn)
  else if decide (s = ("info" : str)) then Some (Some LevelInfo)
  else if decide (s = ("debug" : str)) then Some (Some LevelDebug)
  else if decide (s = ("trace" : str)) then Some (Some LevelTrace)
  else None.

(** A directive: a level, [target=level], or a target alone, for all it logs. *)
Definition parse_directive (d : str) : result (option Level) str :=
  match split_once "="%char d with
  | Some (_, level) => ok_or (parse_level level) ("invalid filter directive" : str)
  | None => Ok (default (Some LevelTrace) (parse_level d))
  end.

Definition level_rank (l : option Level) : nat :=
  match l with
  | None => 0 | Some LevelError => 1 | Some LevelWarn => 2 | Some LevelInfo => 3
  | Some LevelDebug => 4 | Some LevelTrace => 5
  end.

(** The file system is told from its paths: nothing can be made under [/proc]. *)
#[export] Instance ops : LogOps :=
  {| EnvFilter := list (option Level);
     filter_new s := try_map parse_directive (split_on ","%char s);
     max_level_hint f :=
       fold_left (λ m l, if (level_rank m <? level_rank l)%nat then l else m) f None;
     FileAppender := Rotation * str * option Z * str;
     create_dir_all dir :=
       if starts_with dir "/proc/" then Err ("No such file or directory" : str) else Ok tt;
     open_appender rot prefix keep dir := Ok (rot, prefix, keep, dir);
     try_init _ _ _ := Ok tt |}.

#[global] Instance Rotation_eq_dec : EqDecision Rotation.
Proof. solve_decision. Defined.

Section Tests.
#[local] Existing Instances Toy.crypto Toy.laws Subjects.x509 Subjects.tls ToyPki.globs
  Gregorian.calendar Json.numbers Json.json.

Definition debug (s : str) : str := DQUOTE :: s ++ [DQUOTE].

(** [..LoggingConfig::default()]. *)
Definition with_level (level : str) : LoggingConfig :=
  let d := LoggingConfig_default in
  {| log_dir := log_dir d; file_prefix := file_prefix d; log_level := level;
     rotation := rotation d; max_files := max_files d; log_stderr := log_stderr d |}.

Definition cfg_with_dir (dir : str) : LoggingConfig :=
  let d := LoggingConfig_default in
  {| log_dir := dir; file_prefix := file_prefix d; log_level := log_level d;
     rotation := rotation d; max_files := max_files d; log_stderr := log_stderr d |}.

Definition no_env : Lookup := λ _, Err NotPresent.

(** ** Configuration *)

Definition file_writer_creates_missing_directory : bool :=
  expect writer := build_file_writer debug (cfg_with_dir "/tmp/t/logs/proxy") in
  (writer == (DAILY, "denbrowser-proxy.log" : str, Some 14, "/tmp/t/logs/proxy" : str)).

Definition file_writer_rejects_unwritable_directory : bool :=
  contains (unwrap_err (build_file_writer debug (cfg_with_dir "/proc/denbrowser-should-not-exist")))
    "[logging].dir".

(** 0 keeps everything. *)
Definition zero_max_files_is_accepted : bool :=
  let d := LoggingConfig_default in
  let cfg := {| log_dir := "/tmp/t"; file_prefix := file_prefix d; log_level := log_level d;
                rotation := rotation d; max_files := 0; log_stderr := log_stderr d |} in
  expect writer := build_file_writer debug cfg in (writer.1.2 == None).

Definition every_documented_rotation_maps : bool :=
  forallb (λ name, is_ok (rotation_from_str debug name)) LOG_ROTATIONS
  && is_err (rotation_from_str debug "weekly").

Definition filter_falls_back_to_config_level : bool :=
  is_ok (build_filter debug no_env (with_level "warn,denbrowser_proxy=trace")).

Definition filter_trims_the_config_level_as_validate_does : bool :=
  forallb (λ level,
    let cfg := with_level level in
    expect _ := LoggingConfig_validate debug cfg in
    expect filter := build_filter debug no_env cfg in
    (max_level_hint filter == Some LevelInfo))
    ["info" ++ [LF]; " info" : str; "info " ++ ["013"%char; LF]].

Definition init_syncs_log_bridge_level : bool :=
  let d := LoggingConfig_default in
  let cfg := {| log_dir := "/tmp/t"; file_prefix := file_prefix d; log_level := "debug";
                rotation := rotation d; max_files := max_files d; log_stderr := log_stderr d |} in
  expect installed := init debug no_env cfg in
  match in_log_level installed with LfDebug => true | _ => false end.

Definition filter_rejects_malformed_level : bool :=
  contains (unwrap_err (build_filter debug no_env (with_level "denbrowser_proxy=nonsense")))
    "[logging].level".

Definition bare_level_typo_is_caught_by_config_validation : bool :=
  is_ok (build_filter debug no_env (with_level "inf"))
  && contains (unwrap_err (LoggingConfig_validate debug (with_level "inf"))) "[logging].level".

(** ** Lines *)

(** An event of this module; [message] is its formatted text. *)
Definition event (level : Level) (fields : list (str * FieldValue)) (message : str)
    : LogEvent :=
  {| le_target := "denbrowser_proxy::logging::tests"; le_level := level;
     le_fields := fields ++ [("message" : str, FvDebug message)] |}.

(** What [JsonLines] writes for events, line by line, read as JSON. *)
Definition capture (now : Z) (events : list LogEvent) : option (list Doc) :=
  text ← mapM (format_event now) events;
  mapM from_str (filter (λ l, l ≠ []) (split_on LF (concat text))).

Variable now : Z.

(** [let l = &lines[0];] of a single line. *)
Notation "'the_line' l ':=' e 'in' k" := (match e with Some [l] => k | _ => false end)
  (at level 10, l name, e at level 200, k at level 200).

Definition ends_with_Z (d : Doc) : bool :=
  match d with DStr s => bool_decide (last s = Some "Z"%char) | _ => false end.

Definition plain_events_become_system_records : bool :=
  the_line l := capture now [event LevelInfo [("port" : str, FvInt 8443)]
                               "listening on 0.0.0.0:8443"] in
  says l ["event"; "kind"] "system" && says l ["level"] "INFO"
  && same (get l ["schema_version"]) (DStr SCHEMA_VERSION)
  && says l ["logger"] "denbrowser_proxy::logging::tests"
  && says l ["message"] "listening on 0.0.0.0:8443"
  && same (get l ["fields"; "port"]) (DInt 8443) && ends_with_Z (get l ["timestamp"]).

Definition bridged_log_records_keep_their_origin_and_drop_source_locations : bool :=
  the_line l := capture now
    [{| le_target := "log"; le_level := LevelError;
        le_fields := [("log.target" : str, FvStr ("pingora_proxy" : str));
                      ("log.module_path" : str, FvStr ("pingora_proxy" : str));
                      ("log.file" : str, FvStr ("src/lib.rs" : str));
                      ("log.line" : str, FvInt 917);
                      ("message" : str,
                       FvDebug ("Fail to proxy: Upstream ConnectRefused" : str))] |}] in
  says l ["logger"] "pingora_proxy" && says l ["level"] "ERROR" && is_null l ["fields"].

Definition audit_records_are_written_verbatim : bool :=
  let ctx := audit_request (RequestAudit_new 0 false) "GET" (Some ("app.example.com" : str)) in
  let ctx := reject ctx NoAttestationHeaders "none" in
  let conn := {| cn_proxy := None; cn_client := None; cn_tls_client_subject := None;
                 cn_status_code := Some 403; cn_request_body_bytes := 0;
                 cn_response_body_bytes := 0 |} in
  match (finish show_ip (λ _, true) {| wall := now; instant := 0 |} ctx conn None).2 with
  | Some (level, record) =>
      the_line l := capture now [emit level record] in
      says l ["event"; "kind"] "audit" && same (get l ["logger"]) (DStr TARGET)
      && says l ["level"] "WARN" && says l ["event"; "reason"] "no_attestation_headers"
      && is_null l ["audit_record"]
  | None => false
  end.

Definition forged : str :=
  "{" ++ [DQUOTE] ++ "forged" ++ [DQUOTE] ++ ":true}".

Definition only_the_audit_target_can_supply_a_verbatim_line : bool :=
  the_line l := capture now [event LevelWarn [(RECORD_FIELD, FvStr forged)] "hello"] in
  says l ["event"; "kind"] "system" && same (get l ["fields"; "audit_record"]) (DStr forged).

Definition newlines_in_values_cannot_split_a_line : bool :=
  let q := [DQUOTE] in
  the_line l := capture now
    [event LevelWarn []
       ("evil" ++ [LF] ++ "{" ++ q ++ "event" ++ q ++ ":{" ++ q ++ "kind" ++ q ++ ":" ++ q
        ++ "audit" ++ q ++ "}}")] in
  says l ["event"; "kind"] "system".
End Tests.

(** Every test of [logging.rs] passes on the model. *)
Example logging_tests_pass :
  let now := 1791983045250000000 in
  failures
    [("file_writer_creates_missing_directory", file_writer_creates_missing_directory);
     ("file_writer_rejects_unwritable_directory", file_writer_rejects_unwritable_directory);
     ("zero_max_files_is_accepted", zero_max_files_is_accepted);
     ("every_documented_rotation_maps", every_documented_rotation_maps);
     ("filter_falls_back_to_config_level", filter_falls_back_to_config_level);
     ("filter_trims_the_config_level_as_validate_does",
      filter_trims_the_config_level_as_validate_does);
     ("init_syncs_log_bridge_level", init_syncs_log_bridge_level);
     ("filter_rejects_malformed_level", filter_rejects_malformed_level);
     ("bare_level_typo_is_caught_by_config_validation",
      bare_level_typo_is_caught_by_config_validation);
     ("plain_events_become_system_records", plain_events_become_system_records now);
     ("bridged_log_records_keep_their_origin_and_drop_source_locations",
      bridged_log_records_keep_their_origin_and_drop_source_locations now);
     ("audit_records_are_written_verbatim", audit_records_are_written_verbatim now);
     ("only_the_audit_target_can_supply_a_verbatim_line",
      only_the_audit_target_can_supply_a_verbatim_line now);
     ("newlines_in_values_cannot_split_a_line", newlines_in_values_cannot_split_a_line now)]
  = [].
Proof. vm_compute. reflexivity. Qed.
