(* ===== verification/MainTests.v ===== *)
(** The unit tests of [src/proxy/src/main.rs], run on the model.

    Not here: the tests of pingora itself and of the [http] crate
    ([pingora_retries_idempotent_methods_only],
    [request_target_forms_bind_path_and_query_only]), and the bytes pingora makes
    of an error response. *)

From S2P Require Import Prelude Net AuditTypes Attest AttestToken AttestCache Config RateLimit RateLimitFacts Mtls Passthrough Machine AuditLog AuditTime Tls Proxy ProxyFacts ToyPki TestKit.

Section Tests.
#[local] Existing Instances Toy.crypto Toy.laws ToyPki.x509 ToyPki.globs ToyRate.ops ToyNet.nets
  Gregorian.calendar ToyHttp.http.
#[local] Instance tls : MachineTls := ToyPki.tls 0.

Definition debug (s : str) : str := DQUOTE :: s ++ [DQUOTE].

(** [HeaderMap::insert]; names are kept in lower case. *)
Definition insert (hs : HeaderMap) (name value : str) : HeaderMap :=
  let name := to_ascii_lowercase name in remove_header hs name ++ [(name, value)].

Definition with_headers (names : list str) : HeaderMap :=
  fold_left (λ h name, insert h name "x") names [].

(** ** [describe_incomplete] *)

Definition describe_incomplete_names_the_missing_headers : bool :=
  describe_incomplete (with_headers [TS_HEADER]) true false
  == "incomplete attestation headers (missing or unreadable: "
     ++ "x-denbrowser-nonce, x-denbrowser-token)".

Definition describe_incomplete_reports_a_missing_host : bool :=
  describe_incomplete (with_headers ATTESTATION_HEADERS) false false
  == "incomplete attestation headers (no Host header or :authority)".

Definition describe_incomplete_flags_a_machine_cert_without_attestation : bool :=
  describe_incomplete (with_headers [MACHINE_CERT_HEADER]) true true
  == "machine certificate sent without any attestation headers".

Definition describe_incomplete_does_not_call_unreadable_headers_absent : bool :=
  let h := fold_left (λ h name, insert h name ["255"%char]) ATTESTATION_HEADERS
             (with_headers [MACHINE_CERT_HEADER]) in
  describe_incomplete h true true
  == "incomplete attestation headers (missing or unreadable: "
     ++ "x-denbrowser-ts, x-denbrowser-nonce, x-denbrowser-token)".

Definition describe_incomplete_treats_an_unreadable_value_as_missing : bool :=
  let h := insert (with_headers [TS_HEADER; TOKEN_HEADER]) NONCE_HEADER
             ["255"%char; "254"%char] in
  contains (describe_incomplete h true false) "x-denbrowser-nonce".

(** ** The proxy over a session *)

(** A session with a parsed request, from nowhere and with no body. *)
Definition h1_session (req : RequestHeader) : Session :=
  {| ss_client := None; ss_server := None; ss_request := req; ss_cert := None;
     ss_body := BodyEnd; ss_body_read := 0; ss_retry := None; ss_open := true; ss_response := None |}.

Definition build (authority : option str) (path_and_query : str) (hs : HeaderMap)
    : RequestHeader :=
  {| rq_method := "GET"; headers := hs; uri_authority := authority;
     uri_path_and_query := Some path_and_query |}.

(** A proxy with attestation only. *)
Definition test_proxy : result DenBrowserProxy str :=
  let? upstream_tls := UpstreamTls_from_config (λ _, Err ("no file" : str)) ProxyConfig_default false in
  DenBrowserProxy_new debug (λ s, s) Toy.verifier "upstream.internal:443" upstream_tls None None
    None.

Definition request_host_reads_the_host_header_or_the_h2_authority : bool :=
  (request_host (build None "/" (insert [] "Host" "proxy.example:8081"))
   == Some ("proxy.example" : str))
  && (request_host (build None "/" (insert [] "Host" "proxy.example"))
      == Some ("proxy.example" : str))
  && (let req := build (Some ("proxy.example:8081" : str)) "/p?q=1" [] in
      (header_get (headers req) "host" == None)
      && (request_host req == Some ("proxy.example" : str)) && (request_path req == "/p?q=1"))
  && (request_host (build None "/" []) == None).

Definition upstream_request_filter_strips_every_attestation_header : bool :=
  let upstream := fold_left (λ h e, insert h e.1 e.2)
    ["X-DENBROWSER-TS" ~> "1"; "x-denbrowser-nonce" ~> "n"; "X-DenBrowser-Token" ~> "t";
     "X-Denbrowser-Machine-Cert" ~> "c"; "X-Keep" ~> "k"] [] in
  let upstream := upstream_request_filter upstream in
  forallb (λ name, header_get upstream name == None)
    (texts ["x-denbrowser-ts"; "x-denbrowser-nonce"; "x-denbrowser-token";
            "x-denbrowser-machine-cert"])
  && (header_get upstream "x-keep" == Some ("k" : str)).

(** Nothing else happens meanwhile. *)
Definition quiet : Env :=
  {| clk_arrival := Toy.clk; dns_asked := 0; dns_found := 0; resolver _ := None;
     clk_commit := Toy.clk; before_machine p := p; during_lookup p := p; during_body p := p |}.

Definition show_ip (ip : IpAddr) : str := [].

Definition a_request_without_attestation_headers_gets_403_and_close : bool :=
  expect proxy := test_proxy in
  let session := h1_session (build None "/secret?x=1" (insert [] "Host" "example.com")) in
  let w := {| w_proxy := proxy; w_session := session; w_ctx := RequestAudit_new 0 false |} in
  let '(w, handled) := request_filter debug show_ip quiet w in
  handled && (ss_response (w_session w) == Some 403).

(** Every test of [main.rs] about the proxy passes on the model. *)
Example main_tests_pass :
  failures
    [("describe_incomplete_names_the_missing_headers",
      describe_incomplete_names_the_missing_headers);
     ("describe_incomplete_reports_a_missing_host", describe_incomplete_reports_a_missing_host);
     ("describe_incomplete_flags_a_machine_cert_without_attestation",
      describe_incomplete_flags_a_machine_cert_without_attestation);
     ("describe_incomplete_does_not_call_unreadable_headers_absent",
      describe_incomplete_does_not_call_unreadable_headers_absent);
     ("describe_incomplete_treats_an_unreadable_value_as_missing",
      describe_incomplete_treats_an_unreadable_value_as_missing);
     ("request_host_reads_the_host_header_or_the_h2_authority",
      request_host_reads_the_host_header_or_the_h2_authority);
     ("upstream_request_filter_strips_every_attestation_header",
      upstream_request_filter_strips_every_attestation_header);
     ("a_request_without_attestation_headers_gets_403_and_close",
      a_request_without_attestation_headers_gets_403_and_close)]
  = [].
Proof. vm_compute. reflexivity. Qed.
End Tests.
